(** * EEGformer (models.py): a shallow embedding and its checked properties

    The Python module [models.py] builds the EEGformer network out of PyTorch
    tensors.  This development embeds it as follows.

    - A tensor is its shape together with its entry at every multi-index.
      Entries are real numbers: the floating-point numbers of the chosen
      [dtype] are idealised as reals, so rounding, overflow and NaN are
      outside the model.  Where a statement depends on rounding, the lines
      in question are written out once more at a single entry over IEEE
      binary64 numbers (section "IEEE binary64" below).
    - Python integers that are sizes or counts are [nat].
    - An operation that raises in Python returns [Err] here.
    - [print], the random generator and dropout are threaded through an
      explicit [world].
    - The few PyTorch primitives the module calls ([einsum], [cat],
      [reshape], [Conv1d], [Linear], [LayerNorm], ...) are written out from
      their documented semantics; [erf] and [erfinv] are taken as an
      interface. *)

From Stdlib Require Import String Ascii.
From Stdlib Require Import Reals Lra Lia Bool PeanoNat ZArith List.
From Stdlib Require Floats.
Import ListNotations.
Local Open Scope list_scope.

(** ** Results and errors *)

Inductive error : Type :=
| ShapeError          (* RuntimeError of a tensor operation on incompatible shapes *)
| RuntimeError        (* any other RuntimeError of the tensor library *)
| IndexError
| ValueError
| ZeroDivisionError.

Inductive result (A : Type) : Type :=
| Ok (a : A)
| Err (e : error).

Arguments Ok {A} a.
Arguments Err {A} e.

Definition rbind {A B : Type} (r : result A) (k : A -> result B) : result B :=
  match r with
  | Ok a => k a
  | Err e => Err e
  end.

Declare Scope result_scope.
Delimit Scope result_scope with res.
Notation "x <- r ;; k" := (rbind r (fun x => k))
  (at level 61, r at next level, right associativity) : result_scope.

Definition is_ok {A : Type} (r : result A) : bool :=
  match r with Ok _ => true | Err _ => false end.

(** ** Tensors *)

Record tensor : Type := mkT {
  shape : list nat;
  data : list nat -> R
}.

Definition numel (sh : list nat) : nat := fold_right Nat.mul 1 sh.

(** [rsum n f] is f 0 + ... + f (n-1), summed left to right. *)
Fixpoint rsum (n : nat) (f : nat -> R) : R :=
  match n with
  | O => 0%R
  | S n' => (rsum n' f + f n')%R
  end.

Fixpoint in_bounds (sh idx : list nat) : bool :=
  match sh, idx with
  | [], [] => true
  | d :: sh', i :: idx' => (i <? d) && in_bounds sh' idx'
  | _, _ => false
  end.

(** Row-major linear position of a multi-index, and back. *)
Fixpoint ravel (sh idx : list nat) : nat :=
  match sh, idx with
  | _ :: sh', i :: idx' => i * numel sh' + ravel sh' idx'
  | _, _ => 0
  end.

Fixpoint unravel (sh : list nat) (k : nat) : list nat :=
  match sh with
  | [] => []
  | _ :: sh' => (k / numel sh') :: unravel sh' (k mod numel sh')
  end.

(** torch.zeros(shape) *)
Definition zeros (sh : list nat) : tensor := mkT sh (fun _ => 0%R).

(** x.reshape(sh): same entries in row-major order, the counts must agree. *)
Definition reshape (t : tensor) (sh : list nat) : result tensor :=
  if numel (shape t) =? numel sh
  then Ok (mkT sh (fun idx => data t (unravel (shape t) (ravel sh idx))))
  else Err ShapeError.

Fixpoint set_nth {A : Type} (n : nat) (x : A) (l : list A) : list A :=
  match l, n with
  | [], _ => []
  | _ :: l', O => x :: l'
  | y :: l', S n' => y :: set_nth n' x l'
  end.

Definition swap_nth (d0 d1 : nat) (l : list nat) : list nat :=
  set_nth d1 (nth d0 l 0) (set_nth d0 (nth d1 l 0) l).

(** x.transpose(d0, d1) *)
Definition transpose (t : tensor) (d0 d1 : nat) : result tensor :=
  if (d0 <? length (shape t)) && (d1 <? length (shape t))
  then Ok (mkT (swap_nth d0 d1 (shape t)) (fun idx => data t (swap_nth d0 d1 idx)))
  else Err IndexError.

(** Broadcasting: a dimension of size 1 is read at position 0. *)
Definition bidx (d i : nat) : nat := if d =? 1 then 0 else i.

Fixpoint bidxs (sh idx : list nat) : list nat :=
  match sh, idx with
  | d :: sh', i :: idx' => bidx d i :: bidxs sh' idx'
  | _, _ => []
  end.

Fixpoint broadcast_dims (s1 s2 : list nat) : option (list nat) :=
  match s1, s2 with
  | [], [] => Some []
  | d1 :: r1, d2 :: r2 =>
      match broadcast_dims r1 r2 with
      | Some r =>
          if d1 =? d2 then Some (d1 :: r)
          else if d1 =? 1 then Some (d2 :: r)
          else if d2 =? 1 then Some (d1 :: r)
          else None
      | None => None
      end
  | _, _ => None
  end.

(** Right-aligned broadcast of two shapes (torch.broadcast_shapes). *)
Definition pad_left (n : nat) (sh : list nat) : list nat :=
  repeat 1 (n - length sh) ++ sh.

Definition broadcast_shapes (s1 s2 : list nat) : option (list nat) :=
  let n := Nat.max (length s1) (length s2) in
  broadcast_dims (pad_left n s1) (pad_left n s2).

(** The entry of [t] seen through a broadcast to rank [n]. *)
Definition bget (t : tensor) (n : nat) (idx : list nat) : R :=
  data t (bidxs (shape t) (skipn (n - length (shape t)) idx)).

(** Elementwise binary operation with broadcasting (torch.add, +, ...). *)
Definition map2_t (f : R -> R -> R) (a b : tensor) : result tensor :=
  match broadcast_shapes (shape a) (shape b) with
  | Some sh => Ok (mkT sh (fun idx => f (bget a (length sh) idx) (bget b (length sh) idx)))
  | None => Err ShapeError
  end.

Definition tadd : tensor -> tensor -> result tensor := map2_t Rplus.

(** Elementwise map (tensor op scalar, activation functions). *)
Definition map_t (f : R -> R) (a : tensor) : tensor :=
  mkT (shape a) (fun idx => f (data a idx)).

(** tensor / python_float *)
Definition div_scalar (a : tensor) (s : R) : tensor := map_t (fun x => (x / s)%R) a.

Fixpoint list_eqb (l1 l2 : list nat) : bool :=
  match l1, l2 with
  | [], [] => true
  | x :: r1, y :: r2 => (x =? y) && list_eqb r1 r2
  | _, _ => false
  end.

(** *** Indexing: [t[a]], [t[a, :, j]], and assignment to such a slice *)

Inductive ix : Type :=
| At (n : nat)     (* an integer index *)
| All.             (* a colon *)

Fixpoint slice_shape (items : list ix) (sh : list nat) : result (list nat) :=
  match items, sh with
  | [], _ => Ok sh
  | At n :: r, d :: sh' => if n <? d then slice_shape r sh' else Err IndexError
  | All :: r, d :: sh' =>
      match slice_shape r sh' with
      | Ok s => Ok (d :: s)
      | Err e => Err e
      end
  | _ :: _, [] => Err IndexError
  end.

Fixpoint full_index (items : list ix) (idx : list nat) : list nat :=
  match items with
  | [] => idx
  | At n :: r => n :: full_index r idx
  | All :: r =>
      match idx with
      | i :: idx' => i :: full_index r idx'
      | [] => 0 :: full_index r []
      end
  end.

Fixpoint sub_index (items : list ix) (idx : list nat) : option (list nat) :=
  match items, idx with
  | [], _ => Some idx
  | At n :: r, i :: idx' => if i =? n then sub_index r idx' else None
  | All :: r, i :: idx' =>
      match sub_index r idx' with
      | Some s => Some (i :: s)
      | None => None
      end
  | _ :: _, [] => None
  end.

(** t[items] *)
Definition getitem (t : tensor) (items : list ix) : result tensor :=
  match slice_shape items (shape t) with
  | Ok sh => Ok (mkT sh (fun idx => data t (full_index items idx)))
  | Err e => Err e
  end.

(** t[items] = v, returning the updated tensor; [v] is broadcast to the
    shape of the slice. *)
Definition setitem (t : tensor) (items : list ix) (v : tensor) : result tensor :=
  match slice_shape items (shape t) with
  | Ok sh =>
      match broadcast_shapes (shape v) sh with
      | Some sh' =>
          if list_eqb sh' sh
          then Ok (mkT (shape t)
                     (fun idx =>
                        match sub_index items idx with
                        | Some sub => bget v (length sh) sub
                        | None => data t idx
                        end))
          else Err ShapeError
      | None => Err ShapeError
      end
  | Err e => Err e
  end.

(** torch.cat((a, b), dim) *)
Definition cat (a b : tensor) (dim : nat) : result tensor :=
  let sa := shape a in
  let sb := shape b in
  if (length sa =? length sb) && (dim <? length sa)
     && list_eqb (set_nth dim 0 sa) (set_nth dim 0 sb)
  then Ok (mkT (set_nth dim (nth dim sa 0 + nth dim sb 0) sa)
             (fun idx =>
                if nth dim idx 0 <? nth dim sa 0
                then data a idx
                else data b (set_nth dim (nth dim idx 0 - nth dim sa 0) idx)))
  else Err ShapeError.

(** *** torch.einsum with two operands *)

Definition env : Type := list (ascii * nat).

Fixpoint lookup (e : env) (c : ascii) : option nat :=
  match e with
  | [] => None
  | (c', n) :: e' => if Ascii.eqb c c' then Some n else lookup e' c
  end.

Definition val (e : env) (c : ascii) : nat :=
  match lookup e c with Some n => n | None => 0 end.

Fixpoint update (e : env) (c : ascii) (n : nat) : env :=
  match e with
  | [] => [(c, n)]
  | (c', m) :: e' => if Ascii.eqb c c' then (c', n) :: e' else (c', m) :: update e' c n
  end.

(** Sizes of the subscripts of one operand; operands sharing a subscript
    agree on its size or one of them has size 1. *)
Fixpoint bind_dims (ls : list ascii) (sh : list nat) (e : env) : option env :=
  match ls, sh with
  | [], [] => Some e
  | c :: ls', d :: sh' =>
      match lookup e c with
      | Some d' =>
          if d =? d' then bind_dims ls' sh' e
          else if d =? 1 then bind_dims ls' sh' e
          else if d' =? 1 then bind_dims ls' sh' (update e c d)
          else None
      | None => bind_dims ls' sh' (e ++ [(c, d)])
      end
  | _, _ => None
  end.

Fixpoint mem (c : ascii) (l : list ascii) : bool :=
  match l with
  | [] => false
  | c' :: l' => Ascii.eqb c c' || mem c l'
  end.

Fixpoint dedup (l : list ascii) : list ascii :=
  match l with
  | [] => []
  | c :: l' => if mem c l' then dedup l' else c :: dedup l'
  end.

Fixpoint operand_index (ls : list ascii) (sh : list nat) (v : env) : list nat :=
  match ls, sh with
  | c :: ls', d :: sh' => bidx d (val v c) :: operand_index ls' sh' v
  | _, _ => []
  end.

(** Sum over every value of the subscripts [ls]. *)
Fixpoint esum (ls : list ascii) (dims v : env) (body : env -> R) : R :=
  match ls with
  | [] => body v
  | c :: ls' => rsum (val dims c) (fun k => esum ls' dims ((c, k) :: v) body)
  end.

Fixpoint chars (s : string) : list ascii :=
  match s with
  | EmptyString => []
  | String c s' => if Ascii.eqb c " " then chars s' else c :: chars s'
  end.

Fixpoint split_arrow (l lhs : list ascii) : option (list ascii * list ascii) :=
  match l with
  | [] => None
  | c :: l' =>
      match l' with
      | c2 :: r =>
          if Ascii.eqb c "-" && Ascii.eqb c2 ">" then Some (rev lhs, r)
          else split_arrow l' (c :: lhs)
      | [] => None
      end
  end.

Fixpoint split_comma (l cur : list ascii) : option (list ascii * list ascii) :=
  match l with
  | [] => None
  | c :: l' =>
      if Ascii.eqb c "," then Some (rev cur, l') else split_comma l' (c :: cur)
  end.

(** "ab,bc -> ac" gives (["a";"b"], ["b";"c"], ["a";"c"]). *)
Definition parse_einsum (spec : string) : option (list ascii * list ascii * list ascii) :=
  match split_arrow (chars spec) [] with
  | Some (lhs, lo) =>
      match split_comma lhs [] with
      | Some (la, lb) => Some (la, lb, lo)
      | None => None
      end
  | None => None
  end.

Definition einsum (spec : string) (a b : tensor) : result tensor :=
  match parse_einsum spec with
  | Some (la, lb, lo) =>
      match bind_dims la (shape a) [] with
      | Some e1 =>
          match bind_dims lb (shape b) e1 with
          | Some dims =>
              if forallb (fun c => mem c (la ++ lb)) lo
              then
                let summed := dedup (filter (fun c => negb (mem c lo)) (la ++ lb)) in
                Ok (mkT (map (val dims) lo)
                      (fun idx =>
                         esum summed dims (combine lo idx)
                           (fun v => (data a (operand_index la (shape a) v)
                                      * data b (operand_index lb (shape b) v))%R)))
              else Err ValueError
          | None => Err ShapeError
          end
      | None => Err ShapeError
      end
  | None => Err ValueError
  end.

(** ** The world: standard output and the random generator *)

(** What the module prints. *)
Inductive message : Type :=
| TruncNormalWarning                      (* "mean is more than 2 std from [a, b] ..." *)
| Error1_RTM (Dh D hA : nat)              (* "ERROR 1 - RTM : self.Dh = ..." *)
| Error2_STM (Dh D hA : nat)              (* "ERROR 2 - STM : self.Dh = ..." *)
| Error3_TTM (seg : R) (T M : nat)        (* "ERROR 3 - TTM : self.seg = ..." *)
| Error4_TTM (Dh D hA : nat).             (* "ERROR 4 - TTM : self.Dh = ..." *)

Record world : Type := mkW {
  rng : nat -> R;           (* the generator's stream of uniform draws in [0, 1) *)
  cursor : nat;             (* how many draws have been consumed *)
  stdout : list message
}.

Definition M (A : Type) : Type := world -> result A * world.

Definition ret {A : Type} (a : A) : M A := fun w => (Ok a, w).

Definition bind {A B : Type} (m : M A) (k : A -> M B) : M B :=
  fun w =>
    match m w with
    | (Ok a, w') => k a w'
    | (Err e, w') => (Err e, w')
    end.

Definition lift {A : Type} (r : result A) : M A := fun w => (r, w).

Definition raise {A : Type} (e : error) : M A := fun w => (Err e, w).

Declare Scope world_scope.
Delimit Scope world_scope with M.
Notation "x <- m ;; k" := (bind m (fun x => k))
  (at level 61, m at next level, right associativity) : world_scope.

Definition print (msg : message) : M unit :=
  fun w => (Ok tt, mkW (rng w) (cursor w) (stdout w ++ [msg])).

(** A tensor of [numel sh] fresh draws, each mapped through [f]. *)
Definition draw (sh : list nat) (f : R -> R) : M tensor :=
  fun w =>
    (Ok (mkT sh (fun idx => f (rng w (cursor w + ravel sh idx)))),
     mkW (rng w) (cursor w + numel sh) (stdout w)).

(** for x in range(lo, hi): s = body(x, s) *)
Definition for_range {S : Type} (lo hi : nat) (body : nat -> S -> M S) (s : S) : M S :=
  fold_left (fun m x => bind m (body x)) (seq lo (hi - lo)) (ret s).

Definition for_range_res {S : Type} (lo hi : nat) (body : nat -> S -> result S) (s : S)
  : result S :=
  fold_left (fun r x => rbind r (body x)) (seq lo (hi - lo)) (Ok s).

(** ** Special functions of the numeric library *)

Class SpecialFunctions : Type := {
  erf : R -> R;
  erfinv : R -> R;
  erf_mono : forall x y : R, (x <= y)%R -> (erf x <= erf y)%R
}.

(** Python float division: x / y raises ZeroDivisionError when y is 0. *)
Definition pydiv (x y : R) : result R :=
  if Req_dec_T y 0%R then Err ZeroDivisionError else Ok (x / y)%R.

(** int(x) of a non-negative Python float. *)
Definition py_int (x : R) : nat := Z.to_nat (Int_part x).

Definition Rltb (x y : R) : bool := if Rlt_dec x y then true else false.

Section Primitives.
Context {SF : SpecialFunctions}.

(** tensor.uniform_(lo, hi): lo + u * (hi - lo) for a fresh draw u of
    each entry; rejected when lo > hi. *)
Definition uniform_ (t : tensor) (lo hi : R) : M tensor :=
  if Rle_dec lo hi
  then draw (shape t) (fun u => (lo + u * (hi - lo))%R)
  else raise RuntimeError.

(** torch.randn(shape): standard normal draws, here by inversion of the
    distribution function. *)
Definition randn (sh : list nat) : M tensor :=
  draw sh (fun u => (sqrt 2 * erfinv (2 * u - 1))%R).

(** tensor.clamp_(min=a, max=b) *)
Definition clamp_ (t : tensor) (a b : R) : tensor :=
  map_t (fun x => Rmin (Rmax x a) b) t.

(** *** trunc_normal *)

Definition norm_cdf (x : R) : R := ((1 + erf (x / sqrt 2)) / 2)%R.

Definition trunc_normal (t : tensor) (mean std a b : R) : M tensor :=
  (_ <- (if Rltb mean (a - 2 * std) || Rltb (b + 2 * std) mean
         then print TruncNormalWarning else ret tt) ;;
   za <- lift (pydiv (a - mean) std) ;;
   let l := norm_cdf za in
   zb <- lift (pydiv (b - mean) std) ;;
   let u := norm_cdf zb in
   t <- uniform_ t (2 * l - 1) (2 * u - 1) ;;
   let t := map_t erfinv t in
   let t := map_t (fun x => (x * (std * sqrt 2))%R) t in
   let t := map_t (fun x => (x + mean)%R) t in
   let t := clamp_ t a b in
   ret t)%M.

(** *** torch.nn layers *)

Record Conv1d : Type := mkConv1d {
  in_channels : nat;
  out_channels : nat;
  kernel_size : nat;
  groups : nat;
  conv_weight : tensor;        (* [out_channels, in_channels / groups, kernel_size] *)
  conv_bias : tensor           (* [out_channels] *)
}.

(** nn.Conv1d(in_channels, out_channels, kernel_size, padding='valid',
    stride=1, groups): the constructor rejects a group count that is zero
    or does not divide both channel counts; weight and bias start as
    uniform draws within 1/sqrt(fan_in). *)
Definition Conv1d_new (inc outc ksize grp : nat) : M Conv1d :=
  if (grp =? 0) || negb (inc mod grp =? 0) || negb (outc mod grp =? 0)
  then raise ValueError
  else
    (let bound := (1 / sqrt (INR (inc / grp * ksize)))%R in
     w <- uniform_ (zeros [outc; inc / grp; ksize]) (- bound) bound ;;
     b <- uniform_ (zeros [outc]) (- bound) bound ;;
     ret (mkConv1d inc outc ksize grp w b))%M.

(** One output row of a grouped convolution without padding, stride 1. *)
Definition conv_entry (cv : Conv1d) (x : list nat -> R) (o t : nat) : R :=
  let cin := in_channels cv / groups cv in
  let g := o / (out_channels cv / groups cv) in
  (data (conv_bias cv) [o]
   + rsum cin (fun c =>
       rsum (kernel_size cv) (fun k =>
         (data (conv_weight cv) [o; c; k] * x [(g * cin + c)%nat; (t + k)%nat])%R)))%R.

(** Conv1d.forward on an unbatched [C, L] or a batched [N, C, L] input.
    The forward pass first checks the weight: it needs at least [groups]
    output channels, so a layer with 0 output channels, which the
    constructor accepts, cannot be applied. *)
Definition Conv1d_forward (cv : Conv1d) (x : tensor) : result tensor :=
  if out_channels cv <? groups cv then Err ShapeError else
  match shape x with
  | [c; l] =>
      if (c =? in_channels cv) && (kernel_size cv <=? l)
      then Ok (mkT [out_channels cv; l - kernel_size cv + 1]
                 (fun idx => conv_entry cv (data x) (nth 0 idx 0) (nth 1 idx 0)))
      else Err ShapeError
  | [n; c; l] =>
      if (c =? in_channels cv) && (kernel_size cv <=? l)
      then Ok (mkT [n; out_channels cv; l - kernel_size cv + 1]
                 (fun idx =>
                    conv_entry cv (fun ci => data x (nth 0 idx 0 :: ci))
                      (nth 1 idx 0) (nth 2 idx 0)))
      else Err ShapeError
  | _ => Err ShapeError
  end.

Record Linear : Type := mkLinear {
  in_features : nat;
  out_features : nat;
  lin_weight : tensor;         (* [out_features, in_features] *)
  lin_bias : tensor            (* [out_features] *)
}.

Definition Linear_new (inf outf : nat) : M Linear :=
  (let bound := (1 / sqrt (INR inf))%R in
   w <- uniform_ (zeros [outf; inf]) (- bound) bound ;;
   b <- uniform_ (zeros [outf]) (- bound) bound ;;
   ret (mkLinear inf outf w b))%M.

(** Linear.forward: y[.., o] = sum_i x[.., i] * W[o, i] + b[o]. *)
Definition Linear_forward (fc : Linear) (x : tensor) : result tensor :=
  match rev (shape x) with
  | d :: pre =>
      if d =? in_features fc
      then Ok (mkT (rev pre ++ [out_features fc])
                 (fun idx =>
                    let o := last idx 0 in
                    (rsum (in_features fc)
                       (fun i => (data x (removelast idx ++ [i])
                                  * data (lin_weight fc) [o; i])%R)
                     + data (lin_bias fc) [o])%R))
      else Err ShapeError
  | [] => Err ShapeError
  end.

Record LayerNorm : Type := mkLayerNorm {
  normalized_shape : nat;
  ln_weight : tensor;          (* [normalized_shape] *)
  ln_bias : tensor;            (* [normalized_shape] *)
  ln_eps : R
}.

(** nn.LayerNorm(d): weight ones, bias zeros, eps 1e-5. *)
Definition LayerNorm_new (d : nat) : LayerNorm :=
  mkLayerNorm d (mkT [d] (fun _ => 1%R)) (zeros [d]) (1 / 100000)%R.

(** LayerNorm.forward over the last axis, with the biased variance. *)
Definition LayerNorm_forward (ln : LayerNorm) (x : tensor) : result tensor :=
  match rev (shape x) with
  | d :: _ =>
      if d =? normalized_shape ln
      then Ok (mkT (shape x)
                 (fun idx =>
                    let pre := removelast idx in
                    let j := last idx 0 in
                    let n := INR d in
                    let mean := (rsum d (fun i => data x (pre ++ [i])) / n)%R in
                    let var := (rsum d (fun i => (data x (pre ++ [i]) - mean) ^ 2) / n)%R in
                    ((data x idx - mean) / sqrt (var + ln_eps ln)
                     * data (ln_weight ln) [j] + data (ln_bias ln) [j])%R))
      else Err ShapeError
  | [] => Err ShapeError
  end.

(** nn.GELU() *)
Definition GELU (x : tensor) : tensor :=
  map_t (fun v => (v * ((1 + erf (v / sqrt 2)) / 2))%R) x.

Record Dropout : Type := mkDropout {
  p : R;
  training : bool
}.

(** nn.Dropout(p): a probability outside [0, 1] is rejected with a
    ValueError; a new module is in training mode. *)
Definition Dropout_new (q : R) : M Dropout :=
  if Rltb q 0 || Rltb 1 q then raise ValueError else ret (mkDropout q true).

(** nn.Dropout(p).forward: the input itself when p is 0 or the module is
    in evaluation mode, and the input times 0 when p is 1, in both cases
    without sampling; otherwise every entry is zeroed with probability p
    and the survivors are scaled by 1/(1-p).  The mask is read off the
    generator one draw per entry; how many numbers the library's sampler
    really consumes is not fixed by its documentation. *)
Definition Dropout_forward (dr : Dropout) (x : tensor) : M tensor :=
  if Req_dec_T (p dr) 0%R then ret x
  else if negb (training dr) then ret x
  else if Req_dec_T (p dr) 1%R then ret (map_t (fun v => (v * 0)%R) x)
  else
    fun w =>
      (Ok (mkT (shape x)
             (fun idx =>
                if Rltb (rng w (cursor w + ravel (shape x) idx)) (p dr)
                then 0%R
                else (data x idx / (1 - p dr))%R)),
       mkW (rng w) (cursor w + numel (shape x)) (stdout w)).

(** torch.softmax(x, dim=1) of a two-axis tensor. *)
Definition softmax1 (x : tensor) : result tensor :=
  match shape x with
  | [r; c] =>
      Ok (mkT [r; c]
            (fun idx =>
               let i := nth 0 idx 0 in
               (exp (data x idx) / rsum c (fun j => exp (data x [i; j])))%R))
  | _ => Err IndexError
  end.

End Primitives.

(** The condition under which trunc_normal prints its warning. *)
Definition far_outside (mean std a b : R) : bool :=
  Rltb mean (a - 2 * std) || Rltb (b + 2 * std) mean.

(** Python helpers on sizes. *)

(** int(a / b) for sizes a, b: ZeroDivisionError when b is 0. *)
Definition py_int_div (a b : nat) : result nat :=
  if b =? 0 then Err ZeroDivisionError else Ok (a / b).

(** [x or d] on an optional size: None and 0 are falsy. *)
Definition py_or (x : option nat) (d : nat) : nat :=
  match x with
  | Some (S n) => S n
  | _ => d
  end.

(** t.shape[i] *)
Definition shape_at (t : tensor) (i : nat) : result nat :=
  match nth_error (shape t) i with
  | Some d => Ok d
  | None => Err IndexError
  end.

(** The parameter tensors a layer registers, under their PyTorch names
    (what named_parameters() lists). *)
Definition Linear_parameters (prefix : string) (fc : Linear) : list (string * tensor) :=
  [((prefix ++ ".weight")%string, lin_weight fc); ((prefix ++ ".bias")%string, lin_bias fc)].

Definition LayerNorm_parameters (entry : string * LayerNorm) : list (string * tensor) :=
  let '(prefix, ln) := entry in
  [((prefix ++ ".weight")%string, ln_weight ln); ((prefix ++ ".bias")%string, ln_bias ln)].

(** ** ODCM: the convolutional patch embedding *)

Module ODCM.
Section Defs.
Context {SF : SpecialFunctions}.

Record t : Type := mk {
  inpch : nat;
  ksize : nat;
  ncf : nat;
  cvf1 : Conv1d;
  cvf2 : Conv1d;
  cvf3 : Conv1d
}.

Definition init (input_channels kernel_size : nat) : M t :=
  (let inpch := input_channels in
   let ksize := kernel_size in
   let ncf := 120 in
   cvf1 <- Conv1d_new inpch inpch ksize inpch ;;
   cvf2 <- Conv1d_new (out_channels cvf1) (out_channels cvf1) ksize (out_channels cvf1) ;;
   cvf3 <- Conv1d_new (out_channels cvf2) (ncf * out_channels cvf2) ksize
             (out_channels cvf2) ;;
   ret (mk inpch ksize ncf cvf1 cvf2 cvf3))%M.

Definition forward (self : t) (x : tensor) : result tensor :=
  (x <- Conv1d_forward (cvf1 self) x ;;
   x <- Conv1d_forward (cvf2 self) x ;;
   x <- Conv1d_forward (cvf3 self) x ;;
   d0 <- shape_at x 0 ;;
   d1 <- shape_at x 1 ;;
   reshape x [d0 / ncf self; ncf self; d1])%res.

End Defs.
End ODCM.

(** ** Mlp *)

Module Mlp.
Section Defs.
Context {SF : SpecialFunctions}.

Record t : Type := mk {
  fc1 : Linear;
  fc2 : Linear;
  drop : Dropout
}.

(** Mlp(in_features, hidden_features, out_features, act_layer=nn.GELU, drop) *)
Definition init (in_features : nat) (hidden_features out_features : option nat)
    (drop : R) : M t :=
  (let out_features := py_or out_features in_features in
   let hidden_features := py_or hidden_features in_features in
   fc1 <- Linear_new in_features hidden_features ;;
   fc2 <- Linear_new hidden_features out_features ;;
   drop <- Dropout_new drop ;;
   ret (mk fc1 fc2 drop))%M.

Definition forward (self : t) (x : tensor) : M tensor :=
  (x <- lift (Linear_forward (fc1 self) x) ;;
   let x := GELU x in
   x <- Dropout_forward (drop self) x ;;
   x <- lift (Linear_forward (fc2 self) x) ;;
   x <- Dropout_forward (drop self) x ;;
   ret x)%M.

Definition named_parameters (prefix : string) (self : t) : list (string * tensor) :=
  Linear_parameters (prefix ++ ".fc1") (fc1 self)
  ++ Linear_parameters (prefix ++ ".fc2") (fc2 self).

End Defs.
End Mlp.

(** ** Attention over tokens [outer, sequence, D]

    After their transposes, RTM.forward (lines 116-145) and STM.forward
    (lines 178-205) are the same lines of code; they differ only in the
    upper bound of the accumulation loop, [self.inputshape[0]] in RTM and
    [x.shape[0]] in STM.  The common part is written once here. *)

Module Block3.
Section Defs.
Context {SF : SpecialFunctions}.

(** qkvspace[a] = einsum('xhdm,ijm -> xijhd', Wqkv[a], lnorm(savespace)) *)
Definition qkv_step (Wqkv : tensor) (lnorm : LayerNorm) (a : nat)
    (savespace qkvspace : tensor) : result tensor :=
  (Wa <- getitem Wqkv [At a] ;;
   z <- LayerNorm_forward lnorm savespace ;;
   qkv <- einsum "xhdm,ijm -> xijhd" Wa z ;;
   setitem qkvspace [At a] qkv)%res.

(** rsaspace[a] = einsum('ijhd,ijhd -> ijh',
                         qkvspace[a, 0] / math.sqrt(Dh), qkvspace[a, 1]) *)
Definition score_step (Dh a : nat) (qkvspace rsaspace : tensor) : result tensor :=
  (q <- getitem qkvspace [At a; At 0] ;;
   k <- getitem qkvspace [At a; At 1] ;;
   s <- einsum "ijhd,ijhd -> ijh" (div_scalar q (sqrt (INR Dh))) k ;;
   setitem rsaspace [At a] s)%res.

(** imv[a] = einsum('ijh,ijhd -> ijhd', rsaspace[a], qkvspace[a, 2]) *)
Definition imv_step (a : nat) (rsaspace qkvspace imv : tensor) : result tensor :=
  (s <- getitem rsaspace [At a] ;;
   v <- getitem qkvspace [At a; At 2] ;;
   iv <- einsum "ijh,ijhd -> ijhd" s v ;;
   setitem imv [At a] iv)%res.

(** for subj in range(1, n):
        imv[a, :, subj] = imv[a, :, subj] + imv[a, :, subj - 1] *)
Definition accumulate (a n : nat) (imv : tensor) : result tensor :=
  for_range_res 1 n
    (fun subj imv =>
       (cur <- getitem imv [At a; All; At subj] ;;
        prev <- getitem imv [At a; All; At (subj - 1)] ;;
        s <- tadd cur prev ;;
        setitem imv [At a; All; At subj] s)%res)
    imv.

(** savespace = einsum('nm,ijm -> ijn', Wo[a],
                       imv.reshape(tK, x.shape[2], x.shape[0] + 1, M_size1)[a])
                + savespace *)
Definition project_step (Wo : tensor) (a : nat) (sh : list nat)
    (imv savespace : tensor) : result tensor :=
  (Wa <- getitem Wo [At a] ;;
   r <- reshape imv sh ;;
   ra <- getitem r [At a] ;;
   o <- einsum "nm,ijm -> ijn" Wa ra ;;
   tadd o savespace)%res.

(** savespace = mlp(lnormz(savespace)) + savespace *)
Definition mlp_step (mlp : Mlp.t) (lnormz : LayerNorm) (savespace : tensor) : M tensor :=
  (z <- lift (LayerNorm_forward lnormz savespace) ;;
   h <- Mlp.forward mlp z ;;
   lift (tadd h savespace))%M.

(** The loop state: savespace, qkvspace, rsaspace, imv. *)
Definition state : Type := (tensor * tensor * tensor * tensor)%type.

(** The body of [for a in range(self.tK)].  [n] is the upper bound of the
    accumulation loop and [xs] the shape of the transposed input. *)
Definition block (Wqkv Wo : tensor) (lnorm lnormz : LayerNorm) (mlp : Mlp.t)
    (tK Dh M_size1 n : nat) (xs : list nat) (a : nat) (st : state) : M state :=
  let '(savespace, qkvspace, rsaspace, imv) := st in
  (qkvspace <- lift (qkv_step Wqkv lnorm a savespace qkvspace) ;;
   rsaspace <- lift (score_step Dh a qkvspace rsaspace) ;;
   imv <- lift (imv_step a rsaspace qkvspace imv) ;;
   imv <- lift (accumulate a n imv) ;;
   savespace <- lift (project_step Wo a [tK; nth 2 xs 0; nth 0 xs 0 + 1; M_size1]
                        imv savespace) ;;
   savespace <- mlp_step mlp lnormz savespace ;;
   ret (savespace, qkvspace, rsaspace, imv))%M.

(** The forward pass from the transposed input [x] on: the assembly of the
    token sequence, then the blocks. *)
Definition run (weight bias cls Wqkv Wo : tensor) (lnorm lnormz : LayerNorm)
    (mlp : Mlp.t) (tK hA Dh M_size1 n : nat) (x : tensor) : M tensor :=
  (let xs := shape x in
   savespace <- lift (einsum "lm,jmi -> ijl" weight x) ;;
   savespace <- lift (cat cls savespace 1) ;;
   savespace <- lift (tadd savespace bias) ;;
   let qkvspace := zeros [tK; 3; nth 2 xs 0; nth 0 xs 0 + 1; hA; Dh] in
   let rsaspace := zeros [tK; nth 2 xs 0; nth 0 xs 0 + 1; hA] in
   let imv := zeros [tK; nth 2 xs 0; nth 0 xs 0 + 1; hA; Dh] in
   st <- for_range 0 tK (block Wqkv Wo lnorm lnormz mlp tK Dh M_size1 n xs)
           (savespace, qkvspace, rsaspace, imv) ;;
   let '(savespace, _, _, _) := st in
   ret savespace)%M.

End Defs.
End Block3.

(** ** RTM: the regional transformer module *)

Module RTM.
Section Defs.
Context {SF : SpecialFunctions}.

Record t : Type := mk {
  inputshape : list nat;       (* C x D x S *)
  M_size1 : nat;               (* D *)
  tK : nat;
  hA : nat;
  Dh : nat;
  weight : tensor;
  bias : tensor;
  cls : tensor;
  Wqkv : tensor;
  Wo : tensor;
  lnorm : LayerNorm;
  lnormz : LayerNorm;
  mlp : Mlp.t
}.

Definition init (input : tensor) (num_blocks num_heads : nat) : M t :=
  (x <- lift (transpose input 0 1) ;;
   x <- lift (transpose x 1 2) ;;
   let inputshape := shape x in
   let M_size1 := nth 1 inputshape 0 in
   let tK := num_blocks in
   let hA := num_heads in
   Dh <- lift (py_int_div M_size1 hA) ;;
   _ <- (if negb (M_size1 mod hA =? 0) || (Dh =? 0)
         then print (Error1_RTM Dh M_size1 hA) else ret tt) ;;
   weight <- randn [M_size1; nth 1 inputshape 0] ;;
   bias <- trunc_normal (zeros [nth 2 inputshape 0; nth 0 inputshape 0 + 1; M_size1])
             0 (2 / 100) (-2) 2 ;;
   cls <- trunc_normal (zeros [nth 2 inputshape 0; 1; M_size1]) 0 (2 / 100) (-2) 2 ;;
   Wqkv <- randn [tK; 3; hA; Dh; M_size1] ;;
   Wo <- randn [tK; M_size1; M_size1] ;;
   let lnorm := LayerNorm_new M_size1 in
   let lnormz := LayerNorm_new M_size1 in
   mlp <- Mlp.init M_size1 (Some (M_size1 * 4)) None 0 ;;
   ret (mk inputshape M_size1 tK hA Dh weight bias cls Wqkv Wo lnorm lnormz mlp))%M.

Definition forward (self : t) (x : tensor) : M tensor :=
  (x <- lift (transpose x 0 1) ;;
   x <- lift (transpose x 1 2) ;;
   Block3.run (weight self) (bias self) (cls self) (Wqkv self) (Wo self)
     (lnorm self) (lnormz self) (mlp self) (tK self) (hA self) (Dh self)
     (M_size1 self) (nth 0 (inputshape self) 0) x)%M.

(** The LayerNorm submodules the constructor registers, and all parameter
    tensors of the module. *)
Definition layer_norms (self : t) : list (string * LayerNorm) :=
  [("lnorm"%string, lnorm self); ("lnormz"%string, lnormz self)].

Definition named_parameters (self : t) : list (string * tensor) :=
  [("weight"%string, weight self); ("bias"%string, bias self); ("cls"%string, cls self);
   ("Wqkv"%string, Wqkv self); ("Wo"%string, Wo self)]
  ++ flat_map LayerNorm_parameters (layer_norms self)
  ++ Mlp.named_parameters "mlp" (mlp self).

End Defs.
End RTM.

(** ** STM: the synchronous transformer module *)

Module STM.
Section Defs.
Context {SF : SpecialFunctions}.

Record t : Type := mk {
  inputshape : list nat;       (* S x D x C *)
  M_size1 : nat;               (* D *)
  tK : nat;
  hA : nat;
  Dh : nat;
  weight : tensor;
  bias : tensor;
  cls : tensor;
  Wqkv : tensor;
  Wo : tensor;
  lnorm : LayerNorm;
  lnormz : LayerNorm;
  mlp : Mlp.t
}.

Definition init (input : tensor) (num_blocks num_heads : nat) : M t :=
  (x <- lift (transpose input 1 2) ;;
   let inputshape := shape x in
   let M_size1 := nth 1 inputshape 0 in
   let tK := num_blocks in
   let hA := num_heads in
   Dh <- lift (py_int_div M_size1 hA) ;;
   _ <- (if negb (M_size1 mod hA =? 0) || (Dh =? 0)
         then print (Error2_STM Dh M_size1 hA) else ret tt) ;;
   weight <- randn [M_size1; nth 1 inputshape 0] ;;
   bias <- trunc_normal (zeros [nth 2 inputshape 0; nth 0 inputshape 0 + 1; M_size1])
             0 (2 / 100) (-2) 2 ;;
   cls <- trunc_normal (zeros [nth 2 inputshape 0; 1; M_size1]) 0 (2 / 100) (-2) 2 ;;
   Wqkv <- randn [tK; 3; hA; Dh; M_size1] ;;
   Wo <- randn [tK; M_size1; M_size1] ;;
   let lnorm := LayerNorm_new M_size1 in
   let lnormz := LayerNorm_new M_size1 in
   mlp <- Mlp.init M_size1 (Some (M_size1 * 4)) None 0 ;;
   ret (mk inputshape M_size1 tK hA Dh weight bias cls Wqkv Wo lnorm lnormz mlp))%M.

Definition forward (self : t) (x : tensor) : M tensor :=
  (x <- lift (transpose x 1 2) ;;
   Block3.run (weight self) (bias self) (cls self) (Wqkv self) (Wo self)
     (lnorm self) (lnormz self) (mlp self) (tK self) (hA self) (Dh self)
     (M_size1 self) (nth 0 (shape x) 0) x)%M.

(** The LayerNorm submodules the constructor registers, and all parameter
    tensors of the module. *)
Definition layer_norms (self : t) : list (string * LayerNorm) :=
  [("lnorm"%string, lnorm self); ("lnormz"%string, lnormz self)].

Definition named_parameters (self : t) : list (string * tensor) :=
  [("weight"%string, weight self); ("bias"%string, bias self); ("cls"%string, cls self);
   ("Wqkv"%string, Wqkv self); ("Wo"%string, Wo self)]
  ++ flat_map LayerNorm_parameters (layer_norms self)
  ++ Mlp.named_parameters "mlp" (mlp self).

End Defs.
End STM.

(** ** TTM: the temporal transformer module *)

Module TTM.
Section Defs.
Context {SF : SpecialFunctions}.

Record t : Type := mk {
  avgf : nat;                  (* M, the number of submatrices *)
  input : tensor;              (* D x S x C *)
  seg : R;
  M_size1 : nat;
  tK : nat;
  hA : nat;
  Dh : nat;
  weight : tensor;
  bias : tensor;
  cls : tensor;
  Wqkv : tensor;
  Wo : tensor;
  lnorm : LayerNorm;
  lnormz : LayerNorm;
  mlp : Mlp.t;
  lnorm_extra : LayerNorm
}.

Definition init (input : tensor) (num_submatrices num_blocks num_heads : nat) : M t :=
  (let avgf := num_submatrices in
   input <- lift (transpose input 0 2) ;;
   let d0 := nth 0 (shape input) 0 in
   seg <- lift (pydiv (INR d0) (INR avgf)) ;;
   _ <- (if negb (d0 mod avgf =? 0) || (d0 / avgf =? 0)
         then print (Error3_TTM seg d0 avgf) else ret tt) ;;
   let M_size1 := nth 1 (shape input) 0 * nth 2 (shape input) 0 in
   let tK := num_blocks in
   let hA := num_heads in
   Dh <- lift (py_int_div M_size1 hA) ;;
   _ <- (if negb (M_size1 mod hA =? 0) || (Dh =? 0)
         then print (Error4_TTM Dh M_size1 hA) else ret tt) ;;
   weight <- randn [M_size1; nth 1 (shape input) 0 * nth 2 (shape input) 0] ;;
   bias <- trunc_normal (zeros [avgf + 1; M_size1]) 0 (2 / 100) (-2) 2 ;;
   cls <- trunc_normal (zeros [1; M_size1]) 0 (2 / 100) (-2) 2 ;;
   Wqkv <- randn [tK; 3; hA; Dh; M_size1] ;;
   Wo <- randn [tK; M_size1; M_size1] ;;
   let lnorm := LayerNorm_new M_size1 in
   let lnormz := LayerNorm_new M_size1 in
   mlp <- Mlp.init M_size1 (Some (M_size1 * 4)) None 0 ;;
   let lnorm_extra := LayerNorm_new M_size1 in
   ret (mk avgf input seg M_size1 tK hA Dh weight bias cls Wqkv Wo lnorm lnormz mlp
          lnorm_extra))%M.

(** for i in range(0, avgf):
        for j in range(int(i * seg), int((i + 1) * seg)):
            inputc[i, :, :] = inputc[i, :, :] + input[j, :, :]
        inputc[i, :, :] = inputc[i, :, :] / seg
    with [bound i] for the segment bound int(i * seg). *)
Definition segment_average_with (bound : nat -> nat) (avgf : nat) (seg : R)
    (input inputc : tensor) : result tensor :=
  for_range_res 0 avgf
    (fun i inputc =>
       (inputc <- for_range_res (bound i) (bound (i + 1))
                    (fun j inputc =>
                       (cur <- getitem inputc [At i; All; All] ;;
                        xj <- getitem input [At j; All; All] ;;
                        s <- tadd cur xj ;;
                        setitem inputc [At i; All; All] s)%res)
                    inputc ;;
        cur <- getitem inputc [At i; All; All] ;;
        setitem inputc [At i; All; All] (div_scalar cur seg))%res)
    inputc.

(** The loops with seg and the products i * seg taken exactly, so that
    int(i * seg) is the floor of i * T / M.  The code computes the bounds
    in binary64, [seg_bound_f64] below: the two agree when M divides T, but
    not always (T = 15, M = 11). *)
Definition segment_average (avgf : nat) (seg : R) (input inputc : tensor) : result tensor :=
  segment_average_with (fun i => py_int (INR i * seg)) avgf seg input inputc.

(** qkvspace[a] = einsum('xhdm,im -> xihd', Wqkv[a], lnorm(savespace)) *)
Definition qkv_step (Wqkv : tensor) (lnorm : LayerNorm) (a : nat)
    (savespace qkvspace : tensor) : result tensor :=
  (Wa <- getitem Wqkv [At a] ;;
   z <- LayerNorm_forward lnorm savespace ;;
   qkv <- einsum "xhdm,im -> xihd" Wa z ;;
   setitem qkvspace [At a] qkv)%res.

(** rsaspace[a] = einsum('ihd,ihd -> ih',
                         qkvspace[a, 0] / math.sqrt(Dh), qkvspace[a, 1]) *)
Definition score_step (Dh a : nat) (qkvspace rsaspace : tensor) : result tensor :=
  (q <- getitem qkvspace [At a; At 0] ;;
   k <- getitem qkvspace [At a; At 1] ;;
   s <- einsum "ihd,ihd -> ih" (div_scalar q (sqrt (INR Dh))) k ;;
   setitem rsaspace [At a] s)%res.

(** imv[a] = einsum('ih,ihd -> ihd', rsaspace[a], qkvspace[a, 2]) *)
Definition imv_step (a : nat) (rsaspace qkvspace imv : tensor) : result tensor :=
  (s <- getitem rsaspace [At a] ;;
   v <- getitem qkvspace [At a; At 2] ;;
   iv <- einsum "ih,ihd -> ihd" s v ;;
   setitem imv [At a] iv)%res.

(** for subj in range(1, n): imv[a, subj] = imv[a, subj] + imv[a, subj - 1] *)
Definition accumulate (a n : nat) (imv : tensor) : result tensor :=
  for_range_res 1 n
    (fun subj imv =>
       (cur <- getitem imv [At a; At subj] ;;
        prev <- getitem imv [At a; At (subj - 1)] ;;
        s <- tadd cur prev ;;
        setitem imv [At a; At subj] s)%res)
    imv.

(** savespace = einsum('nm,im -> in', Wo[a],
                       imv.reshape(tK, avgf + 1, M_size1)[a]) + savespace *)
Definition project_step (Wo : tensor) (a : nat) (sh : list nat)
    (imv savespace : tensor) : result tensor :=
  (Wa <- getitem Wo [At a] ;;
   r <- reshape imv sh ;;
   ra <- getitem r [At a] ;;
   o <- einsum "nm,im -> in" Wa ra ;;
   tadd o savespace)%res.

Definition block (self : t) (a : nat) (st : Block3.state) : M Block3.state :=
  let '(savespace, qkvspace, rsaspace, imv) := st in
  (qkvspace <- lift (qkv_step (Wqkv self) (lnorm self) a savespace qkvspace) ;;
   rsaspace <- lift (score_step (Dh self) a qkvspace rsaspace) ;;
   imv <- lift (imv_step a rsaspace qkvspace imv) ;;
   imv <- lift (accumulate a (avgf self) imv) ;;
   savespace <- lift (project_step (Wo self) a [tK self; avgf self + 1; M_size1 self]
                        imv savespace) ;;
   savespace <- Block3.mlp_step (mlp self) (lnormz self) savespace ;;
   ret (savespace, qkvspace, rsaspace, imv))%M.

Definition forward (self : t) (x : tensor) : M tensor :=
  (input <- lift (transpose x 0 2) ;;
   let d1 := nth 1 (shape input) 0 in
   let d2 := nth 2 (shape input) 0 in
   let inputc := zeros [avgf self; d1; d2] in
   inputc <- lift (segment_average (avgf self) (seg self) input inputc) ;;
   altx <- lift (reshape inputc [avgf self; d1 * d2]) ;;
   savespace <- lift (einsum "lm,im -> il" (weight self) altx) ;;
   savespace <- lift (cat (cls self) savespace 0) ;;
   savespace <- lift (tadd savespace (bias self)) ;;
   let qkvspace := zeros [tK self; 3; avgf self + 1; hA self; Dh self] in
   let rsaspace := zeros [tK self; avgf self + 1; hA self] in
   let imv := zeros [tK self; avgf self + 1; hA self; Dh self] in
   st <- for_range 0 (tK self) (block self) (savespace, qkvspace, rsaspace, imv) ;;
   let '(savespace, _, _, _) := st in
   savespace <- lift (LayerNorm_forward (lnorm_extra self) savespace) ;;
   lift (reshape savespace [avgf self + 1; d1; d2]))%M.

(** The LayerNorm submodules the constructor registers, and all parameter
    tensors of the module. *)
Definition layer_norms (self : t) : list (string * LayerNorm) :=
  [("lnorm"%string, lnorm self); ("lnormz"%string, lnormz self);
   ("lnorm_extra"%string, lnorm_extra self)].

Definition named_parameters (self : t) : list (string * tensor) :=
  [("weight"%string, weight self); ("bias"%string, bias self); ("cls"%string, cls self);
   ("Wqkv"%string, Wqkv self); ("Wo"%string, Wo self)]
  ++ LayerNorm_parameters ("lnorm"%string, lnorm self)
  ++ LayerNorm_parameters ("lnormz"%string, lnormz self)
  ++ Mlp.named_parameters "mlp" (mlp self)
  ++ LayerNorm_parameters ("lnorm_extra"%string, lnorm_extra self).

End Defs.
End TTM.

(** ** CNNdecoder *)

Module CNNdecoder.
Section Defs.
Context {SF : SpecialFunctions}.

Record t : Type := mk {
  input : tensor;              (* S x C x M *)
  s : nat;
  c : nat;
  m : nat;
  n : nat;
  cvd1 : Conv1d;
  cvd2 : Conv1d;
  cvd3 : Conv1d;
  fc : Linear
}.

Definition init (input : tensor) (num_cls CF_second : nat) : M t :=
  (input <- lift (transpose input 0 1) ;;
   input <- lift (transpose input 1 2) ;;
   let s := nth 0 (shape input) 0 in
   let c := nth 1 (shape input) 0 in
   let m := nth 2 (shape input) 0 in
   let n := CF_second in
   cvd1 <- Conv1d_new c 1 1 1 ;;
   cvd2 <- Conv1d_new s n 1 1 ;;
   cvd3 <- Conv1d_new m (m / 2) 1 1 ;;
   fc <- Linear_new (m / 2 * n) num_cls ;;
   ret (mk input s c m n cvd1 cvd2 cvd3 fc))%M.

Definition forward (self : t) (x : tensor) : result tensor :=
  (x <- transpose x 0 1 ;;
   x <- transpose x 1 2 ;;
   x <- Conv1d_forward (cvd1 self) x ;;
   x <- getitem x [All; At 0; All] ;;
   x <- Conv1d_forward (cvd2 self) x ;;
   x <- transpose x 0 1 ;;
   x <- Conv1d_forward (cvd3 self) x ;;
   d0 <- shape_at x 0 ;;
   d1 <- shape_at x 1 ;;
   x <- reshape x [1; d0 * d1] ;;
   Linear_forward (fc self) x)%res.

End Defs.
End CNNdecoder.

(** ** EEGformer *)

(** torch.zeros(d0, d1, d2) where the last size is the Python integer
    t - 3 * (k - 1); a negative size is rejected. *)
Definition zeros_outshape1 (d0 d1 t k : nat) : result tensor :=
  let d2 := (Z.of_nat t - 3 * (Z.of_nat k - 1))%Z in
  if (d2 <? 0)%Z then Err RuntimeError else Ok (zeros [d0; d1; Z.to_nat d2]).

Module EEGformer.
Section Defs.
Context {SF : SpecialFunctions}.

Record t : Type := mk {
  ncf : nat;
  num_cls : nat;
  input_channels : nat;
  kernel_size : nat;
  tK : nat;
  hA_rtm : nat;
  hA_stm : nat;
  hA_ttm : nat;
  avgf : nat;
  cfs : nat;
  outshape1 : tensor;
  outshape2 : tensor;
  outshape3 : tensor;
  outshape4 : tensor;
  odcm : ODCM.t;
  rtm : RTM.t;
  stm : STM.t;
  ttm : TTM.t;
  cnndecoder : CNNdecoder.t
}.

Definition init (input : tensor)
    (num_cls input_channels kernel_size num_blocks
     num_heads_RTM num_heads_STM num_heads_TTM num_submatrices CF_second : nat) : M t :=
  (let ncf := 120 in
   let tK := num_blocks in
   let avgf := num_submatrices in
   t0 <- lift (shape_at input 0) ;;
   outshape1 <- lift (zeros_outshape1 input_channels ncf t0 kernel_size) ;;
   let outshape2 := zeros [nth 0 (shape outshape1) 0; nth 1 (shape outshape1) 0 + 1;
                           nth 2 (shape outshape1) 0] in
   let outshape3 := zeros [nth 1 (shape outshape2) 0; nth 0 (shape outshape2) 0 + 1;
                           nth 2 (shape outshape2) 0] in
   let outshape4 := zeros [avgf + 1; nth 1 (shape outshape3) 0;
                           nth 0 (shape outshape3) 0] in
   odcm <- ODCM.init input_channels kernel_size ;;
   rtm <- RTM.init outshape1 tK num_heads_RTM ;;
   stm <- STM.init outshape2 tK num_heads_STM ;;
   ttm <- TTM.init outshape3 avgf tK num_heads_TTM ;;
   cnndecoder <- CNNdecoder.init outshape4 num_cls CF_second ;;
   ret (mk ncf num_cls input_channels kernel_size tK num_heads_RTM num_heads_STM
          num_heads_TTM avgf CF_second outshape1 outshape2 outshape3 outshape4
          odcm rtm stm ttm cnndecoder))%M.

Definition forward (self : t) (x : tensor) : M tensor :=
  (x <- lift (transpose x 0 1) ;;
   x <- lift (ODCM.forward (odcm self) x) ;;
   x <- RTM.forward (rtm self) x ;;
   x <- STM.forward (stm self) x ;;
   x <- TTM.forward (ttm self) x ;;
   x <- lift (CNNdecoder.forward (cnndecoder self) x) ;;
   lift (softmax1 x))%M.

(** The class weights of bceloss_w, for Python integers numpos and numtot:
    w0 = numtot / (2 * (numtot - numpos)), w1 = numtot / (2 * numpos). *)
Definition bceloss_w_weights (numpos numtot : Z) : result (R * R) :=
  (w0 <- pydiv (IZR numtot) (IZR (2 * (numtot - numpos))) ;;
   w1 <- pydiv (IZR numtot) (IZR (2 * numpos)) ;;
   Ok (w0, w1))%res.

(** torch.mean: the sum of all entries over their number, a 0-axis tensor. *)
Definition mean_t (x : tensor) : tensor :=
  mkT [] (fun _ => (rsum (numel (shape x)) (fun k => data x (unravel (shape x) k))
                    / INR (numel (shape x)))%R).

Definition bceloss_w (xf label : tensor) (numpos numtot : Z) : result tensor :=
  (w <- bceloss_w_weights numpos numtot ;;
   let '(w0, w1) := w in
   x1 <- getitem xf [All; At 1] ;;
   x0 <- getitem xf [All; At 0] ;;
   pos <- map2_t Rmult (map_t (fun v => (w1 * v)%R) label) (map_t ln x1) ;;
   neg <- map2_t Rmult (map_t (fun v => (w0 * (1 - v))%R) label) (map_t ln x0) ;;
   ls <- tadd pos neg ;;
   Ok (mean_t (map_t Ropp ls)))%res.

(** sa(t) = torch.sum(torch.abs(t)), as a number. *)
Definition sa (t : tensor) : R :=
  rsum (numel (shape t)) (fun k => Rabs (data t (unravel (shape t) k))).

(** The sum of absolute weights that eegloss_light adds: the decoder's. *)
Definition wt_light (self : t) : R :=
  (sa (lin_weight (CNNdecoder.fc (cnndecoder self)))
   + sa (conv_weight (CNNdecoder.cvd1 (cnndecoder self)))
   + sa (conv_weight (CNNdecoder.cvd2 (cnndecoder self)))
   + sa (conv_weight (CNNdecoder.cvd3 (cnndecoder self))))%R.

(** The sum of absolute weights that eegloss adds: every component's. *)
Definition wt_full (self : t) : R :=
  (wt_light self
   + (sa (lin_weight (Mlp.fc1 (TTM.mlp (ttm self))))
      + sa (lin_weight (Mlp.fc2 (TTM.mlp (ttm self))))
      + sa (ln_weight (TTM.lnorm (ttm self))) + sa (ln_weight (TTM.lnormz (ttm self)))
      + sa (TTM.Wo (ttm self)) + sa (TTM.Wqkv (ttm self)) + sa (TTM.weight (ttm self)))
   + (sa (lin_weight (Mlp.fc1 (STM.mlp (stm self))))
      + sa (lin_weight (Mlp.fc2 (STM.mlp (stm self))))
      + sa (ln_weight (STM.lnorm (stm self))) + sa (ln_weight (STM.lnormz (stm self)))
      + sa (STM.Wo (stm self)) + sa (STM.Wqkv (stm self)) + sa (STM.weight (stm self)))
   + (sa (lin_weight (Mlp.fc1 (RTM.mlp (rtm self))))
      + sa (lin_weight (Mlp.fc2 (RTM.mlp (rtm self))))
      + sa (ln_weight (RTM.lnorm (rtm self))) + sa (ln_weight (RTM.lnormz (rtm self)))
      + sa (RTM.Wo (rtm self)) + sa (RTM.Wqkv (rtm self)) + sa (RTM.weight (rtm self)))
   + (sa (conv_weight (ODCM.cvf1 (odcm self)))
      + sa (conv_weight (ODCM.cvf2 (odcm self)))
      + sa (conv_weight (ODCM.cvf3 (odcm self)))))%R.

(** ls = -(label * torch.log(xf) + (1 - label) * torch.log(1 - xf));
    ls = torch.mean(ls)
    torch.log is the natural logarithm [ln] of a positive entry.  On an
    entry <= 0 the code yields -inf or NaN, which a real-valued tensor
    cannot hold ([ln] is 0 there): statements about the value of a loss
    therefore assume positive arguments of the logarithms. *)
Definition eegloss_wol1 (xf label : tensor) : result tensor :=
  (pos <- map2_t Rmult label (map_t ln xf) ;;
   neg <- map2_t Rmult (map_t (fun v => (1 - v)%R) label)
            (map_t (fun v => ln (1 - v)) xf) ;;
   ls <- tadd pos neg ;;
   Ok (mean_t (map_t Ropp ls)))%res.

(** The same plus L1_reg_const * wt. *)
Definition eegloss_light (self : t) (xf label : tensor) (L1_reg_const : R)
  : result tensor :=
  (ls <- eegloss_wol1 xf label ;;
   Ok (map_t (fun v => (v + L1_reg_const * wt_light self)%R) ls))%res.

Definition eegloss (self : t) (xf label : tensor) (L1_reg_const : R) : result tensor :=
  (ls <- eegloss_wol1 xf label ;;
   Ok (map_t (fun v => (v + L1_reg_const * wt_full self)%R) ls))%res.

(** ls = -(label * torch.log(xf[:,1]) + (1 - label) * torch.log(xf[:,0]));
    ls = torch.mean(ls) *)
Definition bceloss (xf label : tensor) : result tensor :=
  (x1 <- getitem xf [All; At 1] ;;
   x0 <- getitem xf [All; At 0] ;;
   pos <- map2_t Rmult label (map_t ln x1) ;;
   neg <- map2_t Rmult (map_t (fun v => (1 - v)%R) label) (map_t ln x0) ;;
   ls <- tadd pos neg ;;
   Ok (mean_t (map_t Ropp ls)))%res.

End Defs.
End EEGformer.

(** ** Shape invariants of the parameters

    What the constructors establish about the parameters and what the
    forward passes rely on; an optimizer step changes entries, not shapes. *)

(** The second world differs from the first only by consumed draws. *)
Definition quiet (w w' : world) : Prop :=
  rng w' = rng w /\ stdout w' = stdout w.

Definition Linear_shaped (inf outf : nat) (fc : Linear) : Prop :=
  in_features fc = inf /\ out_features fc = outf /\
  shape (lin_weight fc) = [outf; inf] /\ shape (lin_bias fc) = [outf].

Definition Conv1d_shaped (inc outc k g : nat) (cv : Conv1d) : Prop :=
  in_channels cv = inc /\ out_channels cv = outc /\ kernel_size cv = k /\ groups cv = g /\
  shape (conv_weight cv) = [outc; inc / g; k] /\ shape (conv_bias cv) = [outc].

Definition LayerNorm_shaped (d : nat) (ln : LayerNorm) : Prop :=
  normalized_shape ln = d /\ shape (ln_weight ln) = [d] /\ shape (ln_bias ln) = [d].

(** An Mlp from [d] to [d] through [hid] hidden features whose dropout
    probability is 0. *)
Definition Mlp_shaped (d hid : nat) (m : Mlp.t) : Prop :=
  Linear_shaped d hid (Mlp.fc1 m) /\ Linear_shaped hid d (Mlp.fc2 m) /\
  p (Mlp.drop m) = 0%R.

(** The parameters of an attention component over [outer] rows of [n]
    tokens (plus the aggregate token) with [D] features. *)
Definition Attn_shaped (outer n D tK hA Dh : nat)
    (weight bias cls Wqkv Wo : tensor) (lnorm lnormz : LayerNorm) (mlp : Mlp.t) : Prop :=
  shape weight = [D; D] /\ shape bias = [outer; n + 1; D] /\ shape cls = [outer; 1; D] /\
  shape Wqkv = [tK; 3; hA; Dh; D] /\ shape Wo = [tK; D; D] /\
  LayerNorm_shaped D lnorm /\ LayerNorm_shaped D lnormz /\ Mlp_shaped D (D * 4) mlp.

Definition RTM_shaped (outer n D : nat) (self : RTM.t) : Prop :=
  RTM.inputshape self = [n; D; outer] /\ RTM.M_size1 self = D /\
  RTM.Dh self = D / RTM.hA self /\
  Attn_shaped outer n D (RTM.tK self) (RTM.hA self) (RTM.Dh self)
    (RTM.weight self) (RTM.bias self) (RTM.cls self) (RTM.Wqkv self) (RTM.Wo self)
    (RTM.lnorm self) (RTM.lnormz self) (RTM.mlp self).

Definition STM_shaped (outer n D : nat) (self : STM.t) : Prop :=
  STM.inputshape self = [n; D; outer] /\ STM.M_size1 self = D /\
  STM.Dh self = D / STM.hA self /\
  Attn_shaped outer n D (STM.tK self) (STM.hA self) (STM.Dh self)
    (STM.weight self) (STM.bias self) (STM.cls self) (STM.Wqkv self) (STM.Wo self)
    (STM.lnorm self) (STM.lnormz self) (STM.mlp self).

(** A temporal module built for an input with [T] time steps and
    [d1 * d2] features per step. *)
Definition TTM_shaped (T d1 d2 : nat) (self : TTM.t) : Prop :=
  let D := d1 * d2 in
  TTM.avgf self <> 0 /\ TTM.seg self = (INR T / INR (TTM.avgf self))%R /\
  TTM.M_size1 self = D /\ TTM.Dh self = D / TTM.hA self /\
  shape (TTM.weight self) = [D; D] /\ shape (TTM.bias self) = [TTM.avgf self + 1; D] /\
  shape (TTM.cls self) = [1; D] /\
  shape (TTM.Wqkv self) = [TTM.tK self; 3; TTM.hA self; TTM.Dh self; D] /\
  shape (TTM.Wo self) = [TTM.tK self; D; D] /\
  LayerNorm_shaped D (TTM.lnorm self) /\ LayerNorm_shaped D (TTM.lnormz self) /\
  Mlp_shaped D (D * 4) (TTM.mlp self) /\ LayerNorm_shaped D (TTM.lnorm_extra self).

Definition CNNdecoder_shaped (s c m n num_cls : nat) (self : CNNdecoder.t) : Prop :=
  Conv1d_shaped c 1 1 1 (CNNdecoder.cvd1 self) /\
  Conv1d_shaped s n 1 1 (CNNdecoder.cvd2 self) /\
  Conv1d_shaped m (m / 2) 1 1 (CNNdecoder.cvd3 self) /\
  Linear_shaped (m / 2 * n) num_cls (CNNdecoder.fc self).

Definition ODCM_shaped (C K : nat) (self : ODCM.t) : Prop :=
  ODCM.ncf self = 120 /\
  Conv1d_shaped C C K C (ODCM.cvf1 self) /\
  Conv1d_shaped C C K C (ODCM.cvf2 self) /\
  Conv1d_shaped C (120 * C) K C (ODCM.cvf3 self).

(** A computation that neither reads nor changes the world. *)
Definition pure {A : Type} (m : M A) : Prop :=
  exists r : result A, forall w : world, m w = (r, w).

(** What TTM.__init__ prints: ERROR 3 and ERROR 4 when their checks fail. *)
Definition TTM_messages (T D avgf hA : nat) : list message :=
  (if negb (T mod avgf =? 0) || (T / avgf =? 0)
   then [Error3_TTM (INR T / INR avgf) T avgf] else [])
  ++ (if negb (D mod hA =? 0) || (D / hA =? 0)
      then [Error4_TTM (D / hA) D hA] else []).

(** ** Concrete inputs for running the definitions *)

(** An implementation of the interface in which the identity stands in for
    erf and erfinv; it serves only to instantiate statements at concrete
    inputs. *)
Definition stand_in : SpecialFunctions :=
  {| erf := fun x => x; erfinv := fun x => x; erf_mono := fun x y H => H |}.

(** A world whose generator always draws 0 and whose output is empty. *)
Definition world0 : world := mkW (fun _ => 0%R) 0 [].

(** The shapes of the loop state of an attention component. *)
Definition state3_shaped (K I J H Dh D : nat) (st : Block3.state) : Prop :=
  let '(savespace, qkvspace, rsaspace, imv) := st in
  shape savespace = [I; J; D] /\ shape qkvspace = [K; 3; I; J; H; Dh] /\
  shape rsaspace = [K; I; J; H] /\ shape imv = [K; I; J; H; Dh].


(** The same for TTM, whose tokens have no outer axis. *)
Definition state2_shaped (K J H Dh D : nat) (st : Block3.state) : Prop :=
  let '(savespace, qkvspace, rsaspace, imv) := st in
  shape savespace = [J; D] /\ shape qkvspace = [K; 3; J; H; Dh] /\
  shape rsaspace = [K; J; H] /\ shape imv = [K; J; H; Dh].

(** An EEGformer built for C channels, kernel size K and T' time steps
    after the patch embedding. *)
Definition EEGformer_shaped (C K T' : nat) (self : EEGformer.t) : Prop :=
  ODCM_shaped C K (EEGformer.odcm self) /\
  RTM_shaped C 120 T' (EEGformer.rtm self) /\
  STM_shaped 121 C T' (EEGformer.stm self) /\
  TTM_shaped T' (C + 1) 121 (EEGformer.ttm self) /\
  CNNdecoder_shaped (C + 1) 121 (TTM.avgf (EEGformer.ttm self) + 1)
    (EEGformer.cfs self) (EEGformer.num_cls self) (EEGformer.cnndecoder self).

(** ** IEEE binary64

    Python's float and the entries of a tensor of dtype torch.float64 are
    IEEE binary64 numbers, which the kernel provides with their correctly
    rounded operations.  The segment averaging of TTM.forward is written
    out here at one entry over these numbers, to state what rounding does
    to it. *)

(** float(n) of a size n (exact below 2^53). *)
Definition f64_of_nat (n : nat) : PrimFloat.float :=
  PrimFloat.of_uint63 (Uint63.of_Z (Z.of_nat n)).

(** int(f) of a finite Python float f >= 0: the digits after the point are
    dropped. *)
Definition py_int_f64 (f : PrimFloat.float) : nat :=
  match FloatOps.Prim2SF f with
  | SpecFloat.S754_finite false m e =>
      Z.to_nat (if (0 <=? e)%Z then Z.pos m * 2 ^ e else Z.pos m / 2 ^ (- e))%Z
  | _ => 0
  end.

(** self.seg = self.input.shape[0] / self.avgf *)
Definition seg_f64 (T M : nat) : PrimFloat.float :=
  PrimFloat.div (f64_of_nat T) (f64_of_nat M).

(** int(i * self.seg) *)
Definition seg_bound_f64 (i T M : nat) : nat :=
  py_int_f64 (PrimFloat.mul (f64_of_nat i) (seg_f64 T M)).

(** Lines 246-248 at one entry (u, v) of segment i, with x j for
    input[j, u, v]: inputc[i, u, v] starts at 0, the entries of the segment
    are added to it one by one, and the sum is divided by seg. *)
Definition segment_average_entry_f64 (i T M : nat) (x : nat -> PrimFloat.float)
  : PrimFloat.float :=
  let lo := seg_bound_f64 i T M in
  let hi := seg_bound_f64 (i + 1) T M in
  PrimFloat.div
    (fold_left (fun acc j => PrimFloat.add acc (x j)) (seq lo (hi - lo)) PrimFloat.zero)
    (seg_f64 T M).

(** * Properties *)

(** ** trunc_normal *)

Lemma clamp_within (x a b : R) :
  (a <= b)%R -> (a <= Rmin (Rmax x a) b <= b)%R.
Proof.
  intros Hab. split.
  - apply Rmin_glb; [apply Rmax_r | exact Hab].
  - apply Rmin_r.
Qed.

Lemma norm_cdf_mono {SF : SpecialFunctions} (x y : R) :
  (x <= y)%R -> (norm_cdf x <= norm_cdf y)%R.
Proof.
  intros Hxy. unfold norm_cdf.
  assert (Hs : (0 < sqrt 2)%R) by (apply sqrt_lt_R0; lra).
  assert (He : (erf (x / sqrt 2) <= erf (y / sqrt 2))%R).
  { apply erf_mono. unfold Rdiv.
    apply Rmult_le_compat_r; [left; apply Rinv_0_lt_compat; exact Hs | exact Hxy]. }
  lra.
Qed.

Lemma trunc_normal_sound {SF : SpecialFunctions}
    (t : tensor) (mean std a b : R) (w w' : world) (t' : tensor) :
  (a <= b)%R ->
  trunc_normal t mean std a b w = (Ok t', w') ->
  shape t' = shape t /\ forall idx, (a <= data t' idx <= b)%R.
Proof.
  intros Hab. unfold trunc_normal, bind, lift, pydiv, uniform_, raise, ret, draw.
  destruct (Rltb mean (a - 2 * std) || Rltb (b + 2 * std) mean); cbn;
    destruct (Req_dec_T std 0); cbn; try discriminate;
    destruct (Rle_dec _ _); cbn; try discriminate;
    intros Heq; inversion Heq; subst; cbn;
    (split; [reflexivity | intros idx; apply clamp_within; exact Hab]).
Qed.

Lemma trunc_normal_returns {SF : SpecialFunctions}
    (t : tensor) (mean std a b : R) (w : world) :
  (a <= b)%R -> (0 < std)%R ->
  exists t',
    trunc_normal t mean std a b w
    = (Ok t', mkW (rng w) (cursor w + numel (shape t))
                (stdout w ++ if far_outside mean std a b
                             then [TruncNormalWarning] else [])).
Proof.
  intros Hab Hstd. unfold trunc_normal, bind, lift, pydiv, uniform_, raise, ret, draw,
    far_outside.
  assert (Hl : (2 * norm_cdf ((a - mean) / std) - 1
                <= 2 * norm_cdf ((b - mean) / std) - 1)%R).
  { assert (Hz : ((a - mean) / std <= (b - mean) / std)%R).
    { unfold Rdiv. apply Rmult_le_compat_r;
        [left; apply Rinv_0_lt_compat; exact Hstd | lra]. }
    pose proof (norm_cdf_mono _ _ Hz). lra. }
  destruct (Rltb mean (a - 2 * std) || Rltb (b + 2 * std) mean); cbn;
    (destruct (Req_dec_T std 0); [lra|]); cbn;
    (destruct (Rle_dec _ _); [|contradiction]); cbn;
    eexists; rewrite ?app_nil_r; reflexivity.
Qed.

(** C7. After trunc_normal has filled a tensor, with a <= b, every entry
    lies in the closed interval [a, b] and the shape is unchanged; and for
    a positive std the routine always returns: when the mean is more than
    two std outside [a, b] the only difference is the warning appended to
    the standard output. *)
Theorem trunc_normal_within_bounds {SF : SpecialFunctions}
    (t : tensor) (mean std a b : R) (w : world) :
  (a <= b)%R ->
  (forall t' w', trunc_normal t mean std a b w = (Ok t', w') ->
     shape t' = shape t /\ forall idx, (a <= data t' idx <= b)%R)
  /\ ((0 < std)%R ->
      exists t',
        trunc_normal t mean std a b w
        = (Ok t', mkW (rng w) (cursor w + numel (shape t))
                    (stdout w ++ if far_outside mean std a b
                                 then [TruncNormalWarning] else []))).
Proof.
  intros Hab. split.
  - intros t' w'. apply trunc_normal_sound. exact Hab.
  - apply trunc_normal_returns. exact Hab.
Qed.

Lemma trunc_normal_within_bounds_witness :
  exists t' w',
    trunc_normal (SF := stand_in) (zeros [2]) 0 1 (-2) 2 world0 = (Ok t', w')
    /\ (-2 <= data t' [0]%nat <= 2)%R.
Proof.
  destruct (trunc_normal_within_bounds (SF := stand_in) (zeros [2]) 0 1 (-2) 2 world0)
    as [Hsound Hret]; [lra|].
  destruct Hret as (t' & Ht); [lra|].
  exists t'. eexists. split; [exact Ht|].
  apply (Hsound _ _ Ht).
Defined.

(** ** Basic facts about the monads and the primitives *)

Lemma rbind_inv {A B : Type} (r : result A) (k : A -> result B) (b : B) :
  rbind r k = Ok b -> exists a, r = Ok a /\ k a = Ok b.
Proof. destruct r as [a|e]; cbn; [eauto | discriminate]. Qed.

Lemma bind_inv {A B : Type} (m : M A) (k : A -> M B) (w w' : world) (b : B) :
  bind m k w = (Ok b, w') -> exists a w1, m w = (Ok a, w1) /\ k a w1 = (Ok b, w').
Proof.
  unfold bind. destruct (m w) as [[a|e] w1]; [eauto | discriminate].
Qed.

Lemma lift_inv {A : Type} (r : result A) (w w' : world) (a : A) :
  lift r w = (Ok a, w') -> r = Ok a /\ w' = w.
Proof. unfold lift. intros H; inversion H; auto. Qed.

Lemma ret_inv {A : Type} (x a : A) (w w' : world) :
  ret x w = (Ok a, w') -> a = x /\ w' = w.
Proof. unfold ret. intros H; inversion H; auto. Qed.

Lemma bind_ok {A B : Type} (m : M A) (k : A -> M B) (w w1 : world) (a : A) :
  m w = (Ok a, w1) -> bind m k w = k a w1.
Proof. unfold bind. intros ->. reflexivity. Qed.

Lemma bind_lift_ok {A B : Type} (r : result A) (k : A -> M B) (w : world) (a : A) :
  r = Ok a -> bind (lift r) k w = k a w.
Proof. intros ->. reflexivity. Qed.

Lemma for_range_res_S {S : Type} (lo hi : nat) (body : nat -> S -> result S) (s : S) :
  lo <= hi ->
  for_range_res lo (Datatypes.S hi) body s = rbind (for_range_res lo hi body s) (body hi).
Proof.
  intros Hle. unfold for_range_res.
  replace (Datatypes.S hi - lo) with (Datatypes.S (hi - lo)) by lia.
  rewrite seq_S, fold_left_app. cbn.
  replace (lo + (hi - lo)) with hi by lia. reflexivity.
Qed.

Lemma for_range_res_empty {S : Type} (lo hi : nat) (body : nat -> S -> result S) (s : S) :
  hi <= lo -> for_range_res lo hi body s = Ok s.
Proof.
  intros Hle. unfold for_range_res.
  replace (hi - lo) with 0 by lia. reflexivity.
Qed.

Lemma for_range_S {S : Type} (lo hi : nat) (body : nat -> S -> M S) (s : S) :
  lo <= hi ->
  for_range lo (Datatypes.S hi) body s = bind (for_range lo hi body s) (body hi).
Proof.
  intros Hle. unfold for_range.
  replace (Datatypes.S hi - lo) with (Datatypes.S (hi - lo)) by lia.
  rewrite seq_S, fold_left_app. cbn.
  replace (lo + (hi - lo)) with hi by lia. reflexivity.
Qed.

Lemma bidx_lt (d i : nat) : i < d -> bidx d i = i.
Proof.
  unfold bidx. intros Hlt. destruct (Nat.eqb_spec d 1); [lia | reflexivity].
Qed.

Lemma rsum_ext (n : nat) (f g : nat -> R) :
  (forall k, k < n -> f k = g k) -> rsum n f = rsum n g.
Proof.
  induction n as [|n IH]; intros Hfg; cbn; [reflexivity|].
  rewrite IH by (intros; apply Hfg; lia). rewrite Hfg by lia. reflexivity.
Qed.

Lemma inv_sqrt_nonneg (x : R) : (0 <= 1 / sqrt x)%R.
Proof.
  destruct (Req_dec_T (sqrt x) 0) as [Hz|Hnz].
  - rewrite Hz. unfold Rdiv. rewrite Rinv_0. lra.
  - assert (0 < sqrt x)%R by (pose proof (sqrt_pos x); lra).
    unfold Rdiv. rewrite Rmult_1_l. left. apply Rinv_0_lt_compat. assumption.
Qed.

Section PrimitiveFacts.
Context {SF : SpecialFunctions}.

Lemma draw_inv (sh : list nat) (f : R -> R) (w w' : world) (t : tensor) :
  draw sh f w = (Ok t, w') ->
  shape t = sh /\ w' = mkW (rng w) (cursor w + numel sh) (stdout w).
Proof. unfold draw. intros H; inversion H; subst; auto. Qed.

Lemma uniform_inv (t : tensor) (lo hi : R) (w w' : world) (t' : tensor) :
  uniform_ t lo hi w = (Ok t', w') ->
  shape t' = shape t /\ w' = mkW (rng w) (cursor w + numel (shape t)) (stdout w).
Proof.
  unfold uniform_. destruct (Rle_dec lo hi); [apply draw_inv | discriminate].
Qed.

Lemma uniform_sym_ok (t : tensor) (x : R) (w : world) :
  exists t', uniform_ t (- (1 / sqrt x)) (1 / sqrt x) w
             = (Ok t', mkW (rng w) (cursor w + numel (shape t)) (stdout w))
             /\ shape t' = shape t.
Proof.
  unfold uniform_. pose proof (inv_sqrt_nonneg x).
  destruct (Rle_dec _ _); [|lra].
  unfold draw. eexists; split; reflexivity.
Qed.

Lemma Conv1d_new_inv (inc outc k g : nat) (w w' : world) (cv : Conv1d) :
  Conv1d_new inc outc k g w = (Ok cv, w') ->
  g <> 0 /\ inc mod g = 0 /\ outc mod g = 0 /\
  in_channels cv = inc /\ out_channels cv = outc /\ kernel_size cv = k /\ groups cv = g /\
  shape (conv_weight cv) = [outc; inc / g; k] /\ shape (conv_bias cv) = [outc] /\
  stdout w' = stdout w /\ rng w' = rng w.
Proof.
  unfold Conv1d_new.
  destruct (Nat.eqb_spec g 0); cbn; [discriminate|].
  destruct (Nat.eqb_spec (inc mod g) 0); cbn; [|discriminate].
  destruct (Nat.eqb_spec (outc mod g) 0); cbn; [|discriminate].
  intros H. apply bind_inv in H as (wt & w1 & Hw & H).
  apply bind_inv in H as (bs & w2 & Hb & H).
  apply ret_inv in H as [-> ->].
  apply uniform_inv in Hw as [Hws ->]. apply uniform_inv in Hb as [Hbs ->].
  cbn. repeat split; auto.
Qed.

Lemma Conv1d_new_ok (inc outc k g : nat) (w : world) :
  g <> 0 -> inc mod g = 0 -> outc mod g = 0 ->
  exists cv w', Conv1d_new inc outc k g w = (Ok cv, w').
Proof.
  intros Hg Hi Ho. unfold Conv1d_new.
  destruct (Nat.eqb_spec g 0); [contradiction|].
  rewrite Hi, Ho. cbn.
  destruct (uniform_sym_ok (zeros [outc; inc / g; k]) (INR (inc / g * k)) w) as (wt & Hw & _).
  rewrite (bind_ok _ _ _ _ _ Hw).
  match goal with |- context [bind (uniform_ ?t _ _) _ ?w1] =>
    destruct (uniform_sym_ok t (INR (inc / g * k)) w1) as (bs & Hb & _) end.
  rewrite (bind_ok _ _ _ _ _ Hb). unfold ret. eauto.
Qed.

Lemma Conv1d_forward_2d (cv : Conv1d) (x : tensor) (c l : nat) :
  groups cv <= out_channels cv ->
  shape x = [c; l] -> c = in_channels cv ->
  (kernel_size cv <= l ->
   exists y, Conv1d_forward cv x = Ok y
             /\ shape y = [out_channels cv; l - kernel_size cv + 1])
  /\ (l < kernel_size cv -> Conv1d_forward cv x = Err ShapeError).
Proof.
  intros Hg Hs Hc. unfold Conv1d_forward.
  replace (out_channels cv <? groups cv) with false
    by (symmetry; apply Nat.ltb_ge; exact Hg).
  rewrite Hs, Hc, Nat.eqb_refl. cbn [andb].
  split; intros Hk.
  - apply Nat.leb_le in Hk. rewrite Hk. eexists; split; reflexivity.
  - apply Nat.leb_gt in Hk. rewrite Hk. reflexivity.
Qed.

End PrimitiveFacts.

(** ** ODCM *)

Lemma ODCM_init_inv (C K : nat) (w w' : world) (m : ODCM.t) :
  ODCM.init C K w = (Ok m, w') ->
  C <> 0 /\ ODCM.ncf m = 120 /\
  in_channels (ODCM.cvf1 m) = C /\ out_channels (ODCM.cvf1 m) = C /\
  kernel_size (ODCM.cvf1 m) = K /\
  in_channels (ODCM.cvf2 m) = C /\ out_channels (ODCM.cvf2 m) = C /\
  kernel_size (ODCM.cvf2 m) = K /\
  in_channels (ODCM.cvf3 m) = C /\ out_channels (ODCM.cvf3 m) = 120 * C /\
  kernel_size (ODCM.cvf3 m) = K /\
  stdout w' = stdout w /\ rng w' = rng w /\
  groups (ODCM.cvf1 m) = C /\ groups (ODCM.cvf2 m) = C /\ groups (ODCM.cvf3 m) = C.
Proof.
  unfold ODCM.init. intros H.
  apply bind_inv in H as (c1 & w1 & H1 & H).
  apply bind_inv in H as (c2 & w2 & H2 & H).
  apply bind_inv in H as (c3 & w3 & H3 & H).
  apply ret_inv in H as [-> ->].
  apply Conv1d_new_inv in H1 as (Hg & _ & _ & Hi1 & Ho1 & Hk1 & Hg1 & _ & _ & Hs1 & Hr1).
  rewrite Ho1 in H2.
  apply Conv1d_new_inv in H2 as (_ & _ & _ & Hi2 & Ho2 & Hk2 & Hg2 & _ & _ & Hs2 & Hr2).
  rewrite Ho2 in H3.
  apply Conv1d_new_inv in H3 as (_ & _ & _ & Hi3 & Ho3 & Hk3 & Hg3 & _ & _ & Hs3 & Hr3).
  cbn. repeat split; try assumption; congruence.
Qed.

Lemma ODCM_init_ok (C K : nat) (w : world) :
  C <> 0 -> exists m w', ODCM.init C K w = (Ok m, w').
Proof.
  intros HC. unfold ODCM.init.
  destruct (Conv1d_new_ok C C K C w HC) as (c1 & w1 & H1);
    [apply Nat.Div0.mod_same | apply Nat.Div0.mod_same |].
  pose proof (Conv1d_new_inv _ _ _ _ _ _ _ H1) as (_ & _ & _ & _ & Ho1 & _).
  rewrite (bind_ok _ _ _ _ _ H1), Ho1.
  destruct (Conv1d_new_ok C C K C w1 HC) as (c2 & w2 & H2);
    [apply Nat.Div0.mod_same | apply Nat.Div0.mod_same |].
  pose proof (Conv1d_new_inv _ _ _ _ _ _ _ H2) as (_ & _ & _ & _ & Ho2 & _).
  rewrite (bind_ok _ _ _ _ _ H2), Ho2.
  destruct (Conv1d_new_ok C (120 * C) K C w2 HC) as (c3 & w3 & H3);
    [apply Nat.Div0.mod_same | apply Nat.Div0.mod_mul |].
  rewrite (bind_ok _ _ _ _ _ H3). unfold ret. eauto.
Qed.

Lemma ODCM_forward_fields (C K T : nat) (m : ODCM.t) (x : tensor) :
  1 <= K -> ODCM.ncf m = 120 ->
  in_channels (ODCM.cvf1 m) = C -> out_channels (ODCM.cvf1 m) = C ->
  kernel_size (ODCM.cvf1 m) = K ->
  in_channels (ODCM.cvf2 m) = C -> out_channels (ODCM.cvf2 m) = C ->
  kernel_size (ODCM.cvf2 m) = K ->
  in_channels (ODCM.cvf3 m) = C -> out_channels (ODCM.cvf3 m) = 120 * C ->
  kernel_size (ODCM.cvf3 m) = K ->
  groups (ODCM.cvf1 m) = C -> groups (ODCM.cvf2 m) = C -> groups (ODCM.cvf3 m) = C ->
  shape x = [C; T] ->
  (3 * (K - 1) < T ->
   exists y, ODCM.forward m x = Ok y /\ shape y = [C; 120; T - 3 * (K - 1)])
  /\ (T <= 3 * (K - 1) -> ODCM.forward m x = Err ShapeError).
Proof.
  intros HK Hncf Hi1 Ho1 Hk1 Hi2 Ho2 Hk2 Hi3 Ho3 Hk3 Hg1 Hg2 Hg3 Hx.
  assert (Hle1 : groups (ODCM.cvf1 m) <= out_channels (ODCM.cvf1 m)) by lia.
  assert (Hle2 : groups (ODCM.cvf2 m) <= out_channels (ODCM.cvf2 m)) by lia.
  assert (Hle3 : groups (ODCM.cvf3 m) <= out_channels (ODCM.cvf3 m)) by lia.
  unfold ODCM.forward.
  destruct (Conv1d_forward_2d (ODCM.cvf1 m) x _ _ Hle1 Hx (eq_sym Hi1)) as [Hok1 Hbad1].
  rewrite Hk1 in Hok1, Hbad1.
  destruct (Nat.le_gt_cases K T) as [HKT|HKT]; [|split; intros; [lia|]].
  2:{ rewrite Hbad1 by lia. reflexivity. }
  destruct (Hok1 HKT) as (y1 & Hy1 & Hs1). rewrite Hy1. cbn [rbind].
  rewrite Ho1 in Hs1.
  destruct (Conv1d_forward_2d (ODCM.cvf2 m) y1 _ _ Hle2 Hs1 (eq_sym Hi2)) as [Hok2 Hbad2].
  rewrite Hk2 in Hok2, Hbad2.
  destruct (Nat.le_gt_cases K (T - K + 1)) as [HKT2|HKT2]; [|split; intros; [lia|]].
  2:{ rewrite Hbad2 by lia. reflexivity. }
  destruct (Hok2 HKT2) as (y2 & Hy2 & Hs2). rewrite Hy2. cbn [rbind].
  rewrite Ho2 in Hs2.
  destruct (Conv1d_forward_2d (ODCM.cvf3 m) y2 _ _ Hle3 Hs2 (eq_sym Hi3)) as [Hok3 Hbad3].
  rewrite Hk3 in Hok3, Hbad3.
  destruct (Nat.le_gt_cases K (T - K + 1 - K + 1)) as [HKT3|HKT3]; [|split; intros; [lia|]].
  2:{ rewrite Hbad3 by lia. reflexivity. }
  destruct (Hok3 HKT3) as (y3 & Hy3 & Hs3). rewrite Hy3. cbn [rbind].
  rewrite Ho3 in Hs3.
  split; [intros _ | intros; lia].
  unfold shape_at. rewrite Hs3. cbn [nth_error rbind]. rewrite Hncf.
  unfold reshape. rewrite Hs3.
  replace (120 * C / 120) with C by (rewrite Nat.mul_comm, Nat.div_mul; lia).
  replace (numel [120 * C; T - K + 1 - K + 1 - K + 1]
           =? numel [C; 120; T - K + 1 - K + 1 - K + 1]) with true
    by (symmetry; apply Nat.eqb_eq; cbn; lia).
  eexists; split; [reflexivity|]. cbn. f_equal. f_equal. f_equal. lia.
Qed.

(** C3. For a patch embedder built for C channels and kernel size K >= 1
    and an input of shape [C, T]: when T > 3*(K-1) the forward pass returns
    a tensor of shape [C, 120, T - 3*(K-1)], and when T <= 3*(K-1) it fails
    with a shape error. *)
Theorem odcm_forward_shape (C K T : nat) (w w' : world) (m : ODCM.t) (x : tensor) :
  1 <= K ->
  ODCM.init C K w = (Ok m, w') ->
  shape x = [C; T] ->
  (3 * (K - 1) < T ->
   exists y, ODCM.forward m x = Ok y /\ shape y = [C; 120; T - 3 * (K - 1)])
  /\ (T <= 3 * (K - 1) -> ODCM.forward m x = Err ShapeError).
Proof.
  intros HK Hinit Hx.
  apply ODCM_init_inv in Hinit
    as (HC & Hncf & Hi1 & Ho1 & Hk1 & Hi2 & Ho2 & Hk2 & Hi3 & Ho3 & Hk3 & _ & _
        & Hg1 & Hg2 & Hg3).
  apply ODCM_forward_fields; assumption.
Qed.

Lemma odcm_forward_shape_witness :
  exists m w' y,
    ODCM.init 1 2 world0 = (Ok m, w')
    /\ ODCM.forward m (zeros [1; 4]) = Ok y /\ shape y = [1; 120; 1].
Proof.
  destruct (ODCM_init_ok 1 2 world0) as (m & w' & Hm); [lia|].
  destruct (odcm_forward_shape 1 2 4 world0 w' m (zeros [1; 4])) as [Hok _];
    [lia | exact Hm | reflexivity |].
  destruct Hok as (y & Hy & Hs); [lia|].
  exists m, w', y. repeat split; assumption.
Defined.


(** ** Tensor operations on matching shapes *)

Lemma list_eqb_refl (l : list nat) : list_eqb l l = true.
Proof. induction l as [|x l IH]; cbn; [reflexivity|]. rewrite Nat.eqb_refl. exact IH. Qed.

Lemma list_eqb_eq (l1 l2 : list nat) : list_eqb l1 l2 = true -> l1 = l2.
Proof.
  revert l2. induction l1 as [|x l1 IH]; intros [|y l2]; cbn; try discriminate; auto.
  intros H. apply andb_true_iff in H as [Hx Hl]. apply Nat.eqb_eq in Hx.
  f_equal; auto.
Qed.

Lemma broadcast_dims_refl (s : list nat) : broadcast_dims s s = Some s.
Proof.
  induction s as [|d s IH]; cbn; [reflexivity|]. rewrite IH, Nat.eqb_refl. reflexivity.
Qed.

Lemma broadcast_shapes_refl (s : list nat) : broadcast_shapes s s = Some s.
Proof.
  unfold broadcast_shapes, pad_left. rewrite Nat.max_id, Nat.sub_diag. cbn.
  apply broadcast_dims_refl.
Qed.

Lemma bidxs_in_bounds (sh idx : list nat) :
  in_bounds sh idx = true -> bidxs sh idx = idx.
Proof.
  revert idx. induction sh as [|d sh IH]; intros [|i idx]; cbn; try discriminate; auto.
  intros H. apply andb_true_iff in H as [Hi Hr]. apply Nat.ltb_lt in Hi.
  rewrite bidx_lt by exact Hi. f_equal; auto.
Qed.

Lemma bget_in_bounds (t : tensor) (idx : list nat) :
  in_bounds (shape t) idx = true -> bget t (length (shape t)) idx = data t idx.
Proof.
  intros H. unfold bget. rewrite Nat.sub_diag. cbn. rewrite bidxs_in_bounds by exact H.
  reflexivity.
Qed.

Lemma map2_t_same (f : R -> R -> R) (a b : tensor) :
  shape a = shape b ->
  exists t, map2_t f a b = Ok t /\ shape t = shape a /\
    forall idx, in_bounds (shape a) idx = true ->
      data t idx = f (data a idx) (data b idx).
Proof.
  intros Hs. unfold map2_t. rewrite <- Hs, broadcast_shapes_refl.
  eexists; split; [reflexivity|]. split; [reflexivity|].
  intros idx Hin. cbn. rewrite bget_in_bounds by exact Hin.
  rewrite Hs. rewrite bget_in_bounds by (rewrite <- Hs; exact Hin). reflexivity.
Qed.

Lemma getitem_ok (t : tensor) (items : list ix) (sh : list nat) :
  slice_shape items (shape t) = Ok sh ->
  exists t', getitem t items = Ok t' /\ shape t' = sh /\
    forall idx, data t' idx = data t (full_index items idx).
Proof.
  intros Hs. unfold getitem. rewrite Hs. eexists; repeat split; reflexivity.
Qed.

Lemma setitem_ok (t v : tensor) (items : list ix) :
  slice_shape items (shape t) = Ok (shape v) ->
  exists t', setitem t items v = Ok t' /\ shape t' = shape t /\
    forall idx, data t' idx =
      match sub_index items idx with
      | Some sub => bget v (length (shape v)) sub
      | None => data t idx
      end.
Proof.
  intros Hs. unfold setitem. rewrite Hs, broadcast_shapes_refl, list_eqb_refl.
  eexists; repeat split; reflexivity.
Qed.

Ltac ltb_true :=
  repeat match goal with
    | |- context [?x <? ?y] =>
        rewrite (proj2 (Nat.ltb_lt x y)) by lia
    end.

(** ** The accumulation over the sequence axis *)

Lemma Block3_accumulate_body (K I J H D a m : nat) (r : tensor) :
  shape r = [K; I; J; H; D] -> a < K -> 1 <= m -> m < J ->
  exists r',
    (cur <- getitem r [At a; All; At m] ;;
     prev <- getitem r [At a; All; At (m - 1)] ;;
     s <- tadd cur prev ;;
     setitem r [At a; All; At m] s)%res = Ok r'
    /\ shape r' = shape r
    /\ forall a' i j h d, i < I -> h < H -> d < D ->
         data r' [a'; i; j; h; d] =
         if (a' =? a) && (j =? m)
         then (data r [a; i; m; h; d] + data r [a; i; (m - 1)%nat; h; d])%R
         else data r [a'; i; j; h; d].
Proof.
  intros Hs Ha Hm1 HmJ.
  destruct (getitem_ok r [At a; All; At m] [I; H; D]) as (cur & Hcur & Hcs & Hcd).
  { rewrite Hs. cbn [slice_shape]. ltb_true. reflexivity. }
  destruct (getitem_ok r [At a; All; At (m - 1)] [I; H; D]) as (prev & Hprev & Hps & Hpd).
  { rewrite Hs. cbn [slice_shape]. ltb_true. reflexivity. }
  destruct (map2_t_same Rplus cur prev) as (s & Hsum & Hss & Hsd); [congruence|].
  destruct (setitem_ok r s [At a; All; At m]) as (r' & Hr' & Hrs & Hrd).
  { rewrite Hs, Hss, Hcs. cbn [slice_shape]. ltb_true. reflexivity. }
  exists r'. split.
  { rewrite Hcur. cbn [rbind]. rewrite Hprev. cbn [rbind].
    unfold tadd. rewrite Hsum. cbn [rbind]. exact Hr'. }
  split; [exact Hrs|].
  intros a' i j h d Hi Hh Hd. rewrite Hrd. cbn [sub_index].
  destruct (Nat.eqb_spec a' a); cbn; [|reflexivity].
  destruct (Nat.eqb_spec j m); cbn; [|subst; reflexivity].
  rewrite bget_in_bounds by (rewrite Hss, Hcs; cbn [in_bounds]; ltb_true; reflexivity).
  rewrite Hsd by (rewrite Hcs; cbn [in_bounds]; ltb_true; reflexivity).
  rewrite Hcd, Hpd. reflexivity.
Qed.

Lemma Block3_accumulate_upto (K I J H D a : nat) (imv : tensor) (n : nat) :
  shape imv = [K; I; J; H; D] -> a < K -> n <= J ->
  exists imv',
    Block3.accumulate a n imv = Ok imv' /\ shape imv' = shape imv /\
    forall a' i j h d, i < I -> h < H -> d < D ->
      data imv' [a'; i; j; h; d] =
      if (a' =? a) && (1 <=? j) && (j <? n)
      then (data imv [a; i; j; h; d] + data imv' [a; i; (j - 1)%nat; h; d])%R
      else data imv [a'; i; j; h; d].
Proof.
  intros Hs Ha. induction n as [|n IH]; intros Hn.
  - exists imv. split; [apply for_range_res_empty; lia|]. split; [reflexivity|].
    intros. rewrite andb_false_r. reflexivity.
  - destruct IH as (r & Hr & Hrs & Hrd); [lia|].
    destruct (Nat.eq_dec n 0) as [->|Hn0].
    { exists imv. split; [apply for_range_res_empty; lia|]. split; [reflexivity|].
      intros a' i j h d Hi Hh Hd.
      assert (Hc : (1 <=? j) && (j <? 1) = false)
        by (destruct (Nat.leb_spec 1 j), (Nat.ltb_spec j 1); try reflexivity; lia).
      rewrite <- andb_assoc, Hc, andb_false_r. reflexivity. }
    destruct (Block3_accumulate_body K I J H D a n r) as (r' & Hr' & Hrs' & Hrd');
      [rewrite Hrs; exact Hs | lia | lia | lia |].
    exists r'. split.
    { unfold Block3.accumulate in *. rewrite for_range_res_S by lia.
      rewrite Hr. cbn [rbind]. exact Hr'. }
    split; [rewrite Hrs'; exact Hrs|].
    intros a' i j h d Hi Hh Hd.
    rewrite (Hrd' a' i j h d Hi Hh Hd).
    destruct (Nat.eqb_spec a' a) as [->|Hne]; cbn [andb].
    2:{ rewrite (Hrd a' i j h d Hi Hh Hd).
        replace (a' =? a) with false by (symmetry; apply Nat.eqb_neq; exact Hne).
        reflexivity. }
    destruct (Nat.eqb_spec j n) as [->|Hjn].
    + replace (1 <=? n) with true by (symmetry; apply Nat.leb_le; lia).
      replace (n <? S n) with true by (symmetry; apply Nat.ltb_lt; lia).
      cbn [andb].
      rewrite (Hrd' a i (n - 1) h d Hi Hh Hd).
      replace (n - 1 =? n) with false by (symmetry; apply Nat.eqb_neq; lia).
      rewrite andb_false_r.
      rewrite (Hrd a i n h d Hi Hh Hd).
      replace (n <? n) with false by (symmetry; apply Nat.ltb_ge; lia).
      rewrite andb_false_r. reflexivity.
    + rewrite (Hrd a i j h d Hi Hh Hd). rewrite Nat.eqb_refl. cbn [andb].
      destruct (Nat.leb_spec 1 j); cbn [andb]; [|reflexivity].
      destruct (Nat.ltb_spec j n); destruct (Nat.ltb_spec j (S n)); try lia.
      * rewrite (Hrd' a i (j - 1) h d Hi Hh Hd).
        replace (j - 1 =? n) with false by (symmetry; apply Nat.eqb_neq; lia).
        rewrite andb_false_r. reflexivity.
      * reflexivity.
Qed.

Lemma TTM_accumulate_body (K J H D a m : nat) (r : tensor) :
  shape r = [K; J; H; D] -> a < K -> 1 <= m -> m < J ->
  exists r',
    (cur <- getitem r [At a; At m] ;;
     prev <- getitem r [At a; At (m - 1)] ;;
     s <- tadd cur prev ;;
     setitem r [At a; At m] s)%res = Ok r'
    /\ shape r' = shape r
    /\ forall a' j h d, h < H -> d < D ->
         data r' [a'; j; h; d] =
         if (a' =? a) && (j =? m)
         then (data r [a; m; h; d] + data r [a; (m - 1)%nat; h; d])%R
         else data r [a'; j; h; d].
Proof.
  intros Hs Ha Hm1 HmJ.
  destruct (getitem_ok r [At a; At m] [H; D]) as (cur & Hcur & Hcs & Hcd).
  { rewrite Hs. cbn [slice_shape]. ltb_true. reflexivity. }
  destruct (getitem_ok r [At a; At (m - 1)] [H; D]) as (prev & Hprev & Hps & Hpd).
  { rewrite Hs. cbn [slice_shape]. ltb_true. reflexivity. }
  destruct (map2_t_same Rplus cur prev) as (s & Hsum & Hss & Hsd); [congruence|].
  destruct (setitem_ok r s [At a; At m]) as (r' & Hr' & Hrs & Hrd).
  { rewrite Hs, Hss, Hcs. cbn [slice_shape]. ltb_true. reflexivity. }
  exists r'. split.
  { rewrite Hcur. cbn [rbind]. rewrite Hprev. cbn [rbind].
    unfold tadd. rewrite Hsum. cbn [rbind]. exact Hr'. }
  split; [exact Hrs|].
  intros a' j h d Hh Hd. rewrite Hrd. cbn [sub_index].
  destruct (Nat.eqb_spec a' a); cbn; [|reflexivity].
  destruct (Nat.eqb_spec j m); cbn; [|subst; reflexivity].
  rewrite bget_in_bounds by (rewrite Hss, Hcs; cbn [in_bounds]; ltb_true; reflexivity).
  rewrite Hsd by (rewrite Hcs; cbn [in_bounds]; ltb_true; reflexivity).
  rewrite Hcd, Hpd. reflexivity.
Qed.

Lemma TTM_accumulate_upto (K J H D a : nat) (imv : tensor) (n : nat) :
  shape imv = [K; J; H; D] -> a < K -> n <= J ->
  exists imv',
    TTM.accumulate a n imv = Ok imv' /\ shape imv' = shape imv /\
    forall a' j h d, h < H -> d < D ->
      data imv' [a'; j; h; d] =
      if (a' =? a) && (1 <=? j) && (j <? n)
      then (data imv [a; j; h; d] + data imv' [a; (j - 1)%nat; h; d])%R
      else data imv [a'; j; h; d].
Proof.
  intros Hs Ha. induction n as [|n IH]; intros Hn.
  - exists imv. split; [apply for_range_res_empty; lia|]. split; [reflexivity|].
    intros. rewrite andb_false_r. reflexivity.
  - destruct IH as (r & Hr & Hrs & Hrd); [lia|].
    destruct (Nat.eq_dec n 0) as [->|Hn0].
    { exists imv. split; [apply for_range_res_empty; lia|]. split; [reflexivity|].
      intros a' j h d Hh Hd.
      assert (Hc : (1 <=? j) && (j <? 1) = false)
        by (destruct (Nat.leb_spec 1 j), (Nat.ltb_spec j 1); try reflexivity; lia).
      rewrite <- andb_assoc, Hc, andb_false_r. reflexivity. }
    destruct (TTM_accumulate_body K J H D a n r) as (r' & Hr' & Hrs' & Hrd');
      [rewrite Hrs; exact Hs | lia | lia | lia |].
    exists r'. split.
    { unfold TTM.accumulate in *. rewrite for_range_res_S by lia.
      rewrite Hr. cbn [rbind]. exact Hr'. }
    split; [rewrite Hrs'; exact Hrs|].
    intros a' j h d Hh Hd.
    rewrite (Hrd' a' j h d Hh Hd).
    destruct (Nat.eqb_spec a' a) as [->|Hne]; cbn [andb].
    2:{ rewrite (Hrd a' j h d Hh Hd).
        replace (a' =? a) with false by (symmetry; apply Nat.eqb_neq; exact Hne).
        reflexivity. }
    destruct (Nat.eqb_spec j n) as [->|Hjn].
    + replace (1 <=? n) with true by (symmetry; apply Nat.leb_le; lia).
      replace (n <? S n) with true by (symmetry; apply Nat.ltb_lt; lia).
      cbn [andb].
      rewrite (Hrd' a (n - 1) h d Hh Hd).
      replace (n - 1 =? n) with false by (symmetry; apply Nat.eqb_neq; lia).
      rewrite andb_false_r.
      rewrite (Hrd a n h d Hh Hd).
      replace (n <? n) with false by (symmetry; apply Nat.ltb_ge; lia).
      rewrite andb_false_r. reflexivity.
    + rewrite (Hrd a j h d Hh Hd). rewrite Nat.eqb_refl. cbn [andb].
      destruct (Nat.leb_spec 1 j); cbn [andb]; [|reflexivity].
      destruct (Nat.ltb_spec j n); destruct (Nat.ltb_spec j (S n)); try lia.
      * rewrite (Hrd' a (j - 1) h d Hh Hd).
        replace (j - 1 =? n) with false by (symmetry; apply Nat.eqb_neq; lia).
        rewrite andb_false_r. reflexivity.
      * reflexivity.
Qed.

(** C1 (as amended). In every attention block of RTM, STM and TTM the
    sequence axis of the intermediate vectors has n + 1 positions (the
    aggregate token at position 0 and n further tokens), and the
    accumulation loop runs over positions 1 .. n - 1 only: each of them
    receives its own vector plus the already accumulated vector of the
    position to its left.  Position 0 and the last position n are left
    unchanged.  [Block3.accumulate] is the loop of RTM and STM,
    [TTM.accumulate] the loop of TTM. *)
Theorem accumulate_prefix_sum (K I n H D a : nat) (imv3 imv2 : tensor) :
  a < K ->
  shape imv3 = [K; I; n + 1; H; D] ->
  shape imv2 = [K; n + 1; H; D] ->
  (exists imv',
     Block3.accumulate a n imv3 = Ok imv' /\ shape imv' = shape imv3 /\
     forall i p h d, i < I -> p < n + 1 -> h < H -> d < D ->
       data imv' [a; i; p; h; d] =
       if (1 <=? p) && (p <? n)
       then (data imv3 [a; i; p; h; d] + data imv' [a; i; (p - 1)%nat; h; d])%R
       else data imv3 [a; i; p; h; d])
  /\
  (exists imv',
     TTM.accumulate a n imv2 = Ok imv' /\ shape imv' = shape imv2 /\
     forall p h d, p < n + 1 -> h < H -> d < D ->
       data imv' [a; p; h; d] =
       if (1 <=? p) && (p <? n)
       then (data imv2 [a; p; h; d] + data imv' [a; (p - 1)%nat; h; d])%R
       else data imv2 [a; p; h; d]).
Proof.
  intros Ha Hs3 Hs2. split.
  - destruct (Block3_accumulate_upto K I (n + 1) H D a imv3 n Hs3 Ha)
      as (imv' & Hacc & Hsh & Hd); [lia|].
    exists imv'. split; [exact Hacc|]. split; [exact Hsh|].
    intros i p h d Hi _ Hh Hdd. rewrite (Hd a i p h d Hi Hh Hdd).
    rewrite Nat.eqb_refl. reflexivity.
  - destruct (TTM_accumulate_upto K (n + 1) H D a imv2 n Hs2 Ha)
      as (imv' & Hacc & Hsh & Hd); [lia|].
    exists imv'. split; [exact Hacc|]. split; [exact Hsh|].
    intros p h d _ Hh Hdd. rewrite (Hd a p h d Hh Hdd).
    rewrite Nat.eqb_refl. reflexivity.
Qed.

Lemma accumulate_prefix_sum_witness :
  (exists imv', Block3.accumulate 0 2 (zeros [1; 1; 3; 1; 1]) = Ok imv')
  /\ (exists imv', TTM.accumulate 0 2 (zeros [1; 3; 1; 1]) = Ok imv').
Proof.
  destruct (accumulate_prefix_sum 1 1 2 1 1 0 (zeros [1; 1; 3; 1; 1]) (zeros [1; 3; 1; 1]))
    as [(i3 & H3 & _) (i2 & H2 & _)]; [lia | reflexivity | reflexivity |].
  split; [exists i3; exact H3 | exists i2; exact H2].
Defined.

(** C1 as stated does not hold: with a sequence axis of L = 3 positions
    (aggregate token and two further tokens, so the loop bound is 2) holding
    the values 1, 2, 3, the last position L - 1 = 2 keeps its value 3: the
    vector of position 1 is not added into it, neither the accumulated one
    nor the original one. *)
Lemma accumulate_skips_last_position :
  let imv := mkT [1; 1; 3; 1; 1] (fun idx => INR (nth 2 idx 0 + 1)) in
  exists imv',
    Block3.accumulate 0 2 imv = Ok imv' /\
    data imv' [0; 0; 2; 0; 0] = data imv [0; 0; 2; 0; 0] /\
    data imv' [0; 0; 2; 0; 0]
    <> (data imv [0; 0; 2; 0; 0]%nat + data imv' [0; 0; 1; 0; 0]%nat)%R /\
    data imv' [0; 0; 2; 0; 0]
    <> (data imv [0; 0; 2; 0; 0]%nat + data imv [0; 0; 1; 0; 0]%nat)%R.
Proof.
  intros imv.
  destruct (Block3_accumulate_upto 1 1 3 1 1 0 imv 2 eq_refl) as (imv' & Hacc & _ & Hd);
    [lia | lia |].
  exists imv'. split; [exact Hacc|].
  rewrite (Hd 0 0 2 0 0), (Hd 0 0 1 0 0) by lia.
  cbn. rewrite (Hd 0 0 0 0 0) by lia. cbn.
  repeat split; lra.
Qed.

(** ** The attention score *)

Lemma rsum_scaled_dot (n : nat) (s : R) (f g : nat -> R) :
  rsum n (fun d => (f d / s * g d)%R) = (1 / s * rsum n (fun d => (f d * g d)%R))%R.
Proof.
  induction n as [|n IH]; cbn.
  - unfold Rdiv. ring.
  - rewrite IH. unfold Rdiv. ring.
Qed.

Lemma einsum_ijhd_ijhd_ijh (q k : tensor) (I J H D : nat) :
  shape q = [I; J; H; D] -> shape k = [I; J; H; D] ->
  exists t, einsum "ijhd,ijhd -> ijh" q k = Ok t /\ shape t = [I; J; H] /\
    forall i j h, i < I -> j < J -> h < H ->
      data t [i; j; h]
      = rsum D (fun d => (data q [i; j; h; d] * data k [i; j; h; d])%R).
Proof.
  intros Hq Hk. unfold einsum. cbn. rewrite Hq, Hk. cbn.
  rewrite !Nat.eqb_refl. cbn.
  eexists; split; [reflexivity|]. split; [reflexivity|].
  intros i j h Hi Hj Hh. cbn.
  apply rsum_ext. intros d Hd.
  rewrite !bidx_lt by assumption. reflexivity.
Qed.

Lemma einsum_ihd_ihd_ih (q k : tensor) (J H D : nat) :
  shape q = [J; H; D] -> shape k = [J; H; D] ->
  exists t, einsum "ihd,ihd -> ih" q k = Ok t /\ shape t = [J; H] /\
    forall j h, j < J -> h < H ->
      data t [j; h] = rsum D (fun d => (data q [j; h; d] * data k [j; h; d])%R).
Proof.
  intros Hq Hk. unfold einsum. cbn. rewrite Hq, Hk. cbn.
  rewrite !Nat.eqb_refl. cbn.
  eexists; split; [reflexivity|]. split; [reflexivity|].
  intros j h Hj Hh. cbn.
  apply rsum_ext. intros d Hd.
  rewrite !bidx_lt by assumption. reflexivity.
Qed.

Lemma Block3_score_step_spec (K I J H Dh a : nat) (qkvspace rsaspace : tensor) :
  a < K ->
  shape qkvspace = [K; 3; I; J; H; Dh] ->
  shape rsaspace = [K; I; J; H] ->
  exists r,
    Block3.score_step Dh a qkvspace rsaspace = Ok r /\ shape r = shape rsaspace /\
    forall a' i j h, i < I -> j < J -> h < H ->
      data r [a'; i; j; h] =
      if a' =? a
      then (1 / sqrt (INR Dh)
            * rsum Dh (fun d => (data qkvspace [a; 0; i; j; h; d]%nat
                                 * data qkvspace [a; 1; i; j; h; d]%nat)))%R
      else data rsaspace [a'; i; j; h].
Proof.
  intros Ha Hqs Hrs. unfold Block3.score_step.
  destruct (getitem_ok qkvspace [At a; At 0] [I; J; H; Dh]) as (q & Hq & Hqsh & Hqd).
  { rewrite Hqs. cbn [slice_shape]. ltb_true. reflexivity. }
  destruct (getitem_ok qkvspace [At a; At 1] [I; J; H; Dh]) as (k & Hk & Hksh & Hkd).
  { rewrite Hqs. cbn [slice_shape]. ltb_true. reflexivity. }
  rewrite Hq, Hk. cbn [rbind].
  destruct (einsum_ijhd_ijhd_ijh (div_scalar q (sqrt (INR Dh))) k I J H Dh)
    as (s & Hs & Hssh & Hsd); [exact Hqsh | exact Hksh |].
  rewrite Hs. cbn [rbind].
  destruct (setitem_ok rsaspace s [At a]) as (r & Hr & Hrsh & Hrd).
  { rewrite Hrs, Hssh. cbn [slice_shape]. ltb_true. reflexivity. }
  exists r. split; [exact Hr|]. split; [exact Hrsh|].
  intros a' i j h Hi Hj Hh. rewrite Hrd. cbn [sub_index].
  destruct (Nat.eqb_spec a' a); [|reflexivity].
  rewrite bget_in_bounds by (rewrite Hssh; cbn [in_bounds]; ltb_true; reflexivity).
  rewrite Hsd by assumption. cbn [div_scalar map_t data].
  rewrite rsum_scaled_dot. f_equal. apply rsum_ext. intros d Hd.
  rewrite Hqd, Hkd. reflexivity.
Qed.

Lemma TTM_score_step_spec (K J H Dh a : nat) (qkvspace rsaspace : tensor) :
  a < K ->
  shape qkvspace = [K; 3; J; H; Dh] ->
  shape rsaspace = [K; J; H] ->
  exists r,
    TTM.score_step Dh a qkvspace rsaspace = Ok r /\ shape r = shape rsaspace /\
    forall a' j h, j < J -> h < H ->
      data r [a'; j; h] =
      if a' =? a
      then (1 / sqrt (INR Dh)
            * rsum Dh (fun d => (data qkvspace [a; 0; j; h; d]%nat
                                 * data qkvspace [a; 1; j; h; d]%nat)))%R
      else data rsaspace [a'; j; h].
Proof.
  intros Ha Hqs Hrs. unfold TTM.score_step.
  destruct (getitem_ok qkvspace [At a; At 0] [J; H; Dh]) as (q & Hq & Hqsh & Hqd).
  { rewrite Hqs. cbn [slice_shape]. ltb_true. reflexivity. }
  destruct (getitem_ok qkvspace [At a; At 1] [J; H; Dh]) as (k & Hk & Hksh & Hkd).
  { rewrite Hqs. cbn [slice_shape]. ltb_true. reflexivity. }
  rewrite Hq, Hk. cbn [rbind].
  destruct (einsum_ihd_ihd_ih (div_scalar q (sqrt (INR Dh))) k J H Dh)
    as (s & Hs & Hssh & Hsd); [exact Hqsh | exact Hksh |].
  rewrite Hs. cbn [rbind].
  destruct (setitem_ok rsaspace s [At a]) as (r & Hr & Hrsh & Hrd).
  { rewrite Hrs, Hssh. cbn [slice_shape]. ltb_true. reflexivity. }
  exists r. split; [exact Hr|]. split; [exact Hrsh|].
  intros a' j h Hj Hh. rewrite Hrd. cbn [sub_index].
  destruct (Nat.eqb_spec a' a); [|reflexivity].
  rewrite bget_in_bounds by (rewrite Hssh; cbn [in_bounds]; ltb_true; reflexivity).
  rewrite Hsd by assumption. cbn [div_scalar map_t data].
  rewrite rsum_scaled_dot. f_equal. apply rsum_ext. intros d Hd.
  rewrite Hqd, Hkd. reflexivity.
Qed.

(** C4. In block a of every attention component, the score stored at
    (outer i, sequence position j, head h) is the dot product over the Dh
    per-head coordinates of the query vector and the key vector of that same
    position j, scaled by 1/sqrt(Dh).  No other sequence position enters.
    Queries are [qkvspace[a, 0]], keys [qkvspace[a, 1]];
    [Block3.score_step] is the line of RTM and STM, [TTM.score_step] the
    line of TTM. *)
Theorem attention_score_same_position (K I J H Dh a : nat)
    (qkv3 rsa3 qkv2 rsa2 : tensor) :
  a < K ->
  shape qkv3 = [K; 3; I; J; H; Dh] -> shape rsa3 = [K; I; J; H] ->
  shape qkv2 = [K; 3; J; H; Dh] -> shape rsa2 = [K; J; H] ->
  (exists r,
     Block3.score_step Dh a qkv3 rsa3 = Ok r /\ shape r = shape rsa3 /\
     forall i j h, i < I -> j < J -> h < H ->
       data r [a; i; j; h]
       = (1 / sqrt (INR Dh)
          * rsum Dh (fun d => (data qkv3 [a; 0; i; j; h; d]%nat
                               * data qkv3 [a; 1; i; j; h; d]%nat)))%R)
  /\
  (exists r,
     TTM.score_step Dh a qkv2 rsa2 = Ok r /\ shape r = shape rsa2 /\
     forall j h, j < J -> h < H ->
       data r [a; j; h]
       = (1 / sqrt (INR Dh)
          * rsum Dh (fun d => (data qkv2 [a; 0; j; h; d]%nat
                               * data qkv2 [a; 1; j; h; d]%nat)))%R).
Proof.
  intros Ha Hq3 Hr3 Hq2 Hr2. split.
  - destruct (Block3_score_step_spec K I J H Dh a qkv3 rsa3 Ha Hq3 Hr3)
      as (r & Hr & Hsh & Hd).
    exists r. split; [exact Hr|]. split; [exact Hsh|].
    intros i j h Hi Hj Hh. rewrite (Hd a i j h Hi Hj Hh), Nat.eqb_refl. reflexivity.
  - destruct (TTM_score_step_spec K J H Dh a qkv2 rsa2 Ha Hq2 Hr2)
      as (r & Hr & Hsh & Hd).
    exists r. split; [exact Hr|]. split; [exact Hsh|].
    intros j h Hj Hh. rewrite (Hd a j h Hj Hh), Nat.eqb_refl. reflexivity.
Qed.

Lemma attention_score_same_position_witness :
  (exists r, Block3.score_step 2 0 (zeros [1; 3; 1; 2; 1; 2]) (zeros [1; 1; 2; 1]) = Ok r)
  /\ (exists r, TTM.score_step 2 0 (zeros [1; 3; 2; 1; 2]) (zeros [1; 2; 1]) = Ok r).
Proof.
  destruct (attention_score_same_position 1 1 2 1 2 0
              (zeros [1; 3; 1; 2; 1; 2]) (zeros [1; 1; 2; 1])
              (zeros [1; 3; 2; 1; 2]) (zeros [1; 2; 1]))
    as [(r3 & H3 & _) (r2 & H2 & _)]; [lia | reflexivity .. |].
  split; [exists r3; exact H3 | exists r2; exact H2].
Defined.

(** ** Segment averaging in TTM *)

Lemma py_int_INR (n : nat) : py_int (INR n) = n.
Proof. unfold py_int. rewrite Int_part_INR. apply Nat2Z.id. Qed.

Lemma rsum_const (n : nat) (c : R) : rsum n (fun _ => c) = (INR n * c)%R.
Proof.
  induction n as [|n IH]; [cbn; ring|].
  cbn [rsum]. rewrite IH, S_INR. ring.
Qed.

Lemma segment_add_body (M T P C i j : nat) (input r : tensor) :
  shape input = [T; P; C] -> shape r = [M; P; C] -> i < M -> j < T ->
  exists r',
    (cur <- getitem r [At i; All; All] ;;
     xj <- getitem input [At j; All; All] ;;
     s <- tadd cur xj ;;
     setitem r [At i; All; All] s)%res = Ok r'
    /\ shape r' = shape r
    /\ forall i' u v, u < P -> v < C ->
         data r' [i'; u; v] =
         if i' =? i then (data r [i; u; v] + data input [j; u; v])%R
         else data r [i'; u; v].
Proof.
  intros Hin Hr Hi Hj.
  destruct (getitem_ok r [At i; All; All] [P; C]) as (cur & Hcur & Hcs & Hcd).
  { rewrite Hr. cbn [slice_shape]. ltb_true. reflexivity. }
  destruct (getitem_ok input [At j; All; All] [P; C]) as (xj & Hxj & Hxs & Hxd).
  { rewrite Hin. cbn [slice_shape]. ltb_true. reflexivity. }
  destruct (map2_t_same Rplus cur xj) as (s & Hsum & Hss & Hsd); [congruence|].
  destruct (setitem_ok r s [At i; All; All]) as (r' & Hr' & Hrs & Hrd).
  { rewrite Hr, Hss, Hcs. cbn [slice_shape]. ltb_true. reflexivity. }
  exists r'. split.
  { rewrite Hcur. cbn [rbind]. rewrite Hxj. cbn [rbind].
    unfold tadd. rewrite Hsum. cbn [rbind]. exact Hr'. }
  split; [exact Hrs|].
  intros i' u v Hu Hv. rewrite Hrd. cbn [sub_index].
  destruct (Nat.eqb_spec i' i); [|reflexivity].
  rewrite bget_in_bounds by (rewrite Hss, Hcs; cbn [in_bounds]; ltb_true; reflexivity).
  rewrite Hsd by (rewrite Hcs; cbn [in_bounds]; ltb_true; reflexivity).
  rewrite Hcd, Hxd. reflexivity.
Qed.

Lemma segment_add_loop (M T P C i lo : nat) (input inputc : tensor) (n : nat) :
  shape input = [T; P; C] -> shape inputc = [M; P; C] -> i < M -> lo + n <= T ->
  exists r,
    for_range_res lo (lo + n)
      (fun j inputc =>
         (cur <- getitem inputc [At i; All; All] ;;
          xj <- getitem input [At j; All; All] ;;
          s <- tadd cur xj ;;
          setitem inputc [At i; All; All] s)%res) inputc = Ok r
    /\ shape r = shape inputc
    /\ forall i' u v, u < P -> v < C ->
         data r [i'; u; v] =
         if i' =? i
         then (data inputc [i; u; v]
               + rsum n (fun k => data input [(lo + k)%nat; u; v]))%R
         else data inputc [i'; u; v].
Proof.
  intros Hin Hc Hi. induction n as [|n IH]; intros Hn.
  - exists inputc. split; [apply for_range_res_empty; lia|]. split; [reflexivity|].
    intros i' u v Hu Hv. destruct (Nat.eqb_spec i' i) as [->|]; [cbn; ring | reflexivity].
  - destruct IH as (r & Hr & Hrs & Hrd); [lia|].
    destruct (segment_add_body M T P C i (lo + n) input r Hin) as (r' & Hr' & Hrs' & Hrd');
      [rewrite Hrs; exact Hc | exact Hi | lia |].
    exists r'. split.
    { replace (lo + S n) with (S (lo + n)) by lia.
      rewrite for_range_res_S by lia. rewrite Hr. cbn [rbind]. exact Hr'. }
    split; [rewrite Hrs'; exact Hrs|].
    intros i' u v Hu Hv. rewrite (Hrd' i' u v Hu Hv).
    destruct (Nat.eqb_spec i' i) as [->|Hne].
    + rewrite (Hrd i u v Hu Hv), Nat.eqb_refl. cbn [rsum]. ring.
    + rewrite (Hrd i' u v Hu Hv).
      replace (i' =? i) with false by (symmetry; apply Nat.eqb_neq; exact Hne).
      reflexivity.
Qed.

Lemma segment_divide (M P C i : nat) (seg : R) (r : tensor) :
  shape r = [M; P; C] -> i < M ->
  exists r',
    (cur <- getitem r [At i; All; All] ;;
     setitem r [At i; All; All] (div_scalar cur seg))%res = Ok r'
    /\ shape r' = shape r
    /\ forall i' u v, u < P -> v < C ->
         data r' [i'; u; v] =
         if i' =? i then (data r [i; u; v] / seg)%R else data r [i'; u; v].
Proof.
  intros Hr Hi.
  destruct (getitem_ok r [At i; All; All] [P; C]) as (cur & Hcur & Hcs & Hcd).
  { rewrite Hr. cbn [slice_shape]. ltb_true. reflexivity. }
  destruct (setitem_ok r (div_scalar cur seg) [At i; All; All]) as (r' & Hr' & Hrs & Hrd).
  { rewrite Hr. cbn [div_scalar map_t shape]. rewrite Hcs. cbn [slice_shape].
    ltb_true. reflexivity. }
  exists r'. split; [rewrite Hcur; cbn [rbind]; exact Hr'|].
  split; [exact Hrs|].
  intros i' u v Hu Hv. rewrite Hrd. cbn [sub_index].
  destruct (Nat.eqb_spec i' i); [|reflexivity].
  rewrite bget_in_bounds
    by (cbn [div_scalar map_t shape]; rewrite Hcs; cbn [in_bounds]; ltb_true; reflexivity).
  cbn [div_scalar map_t data]. rewrite Hcd. reflexivity.
Qed.

(** With T = M * s and seg = T / M, row i of the result is the sum of the
    rows i*s .. i*s + s - 1 of the input (added to the initial row), over seg. *)
Lemma segment_average_upto (M s P C : nat) (input inputc : tensor) (m : nat) :
  1 <= M ->
  shape input = [M * s; P; C] -> shape inputc = [M; P; C] -> m <= M ->
  exists r,
    TTM.segment_average m (INR (M * s) / INR M) input inputc = Ok r
    /\ shape r = shape inputc
    /\ forall i u v, u < P -> v < C ->
         data r [i; u; v] =
         if i <? m
         then ((data inputc [i; u; v]
                + rsum s (fun k => data input [(i * s + k)%nat; u; v]))
               / (INR (M * s) / INR M))%R
         else data inputc [i; u; v].
Proof.
  intros HM Hin Hc.
  assert (Hseg : (INR (M * s) / INR M = INR s)%R).
  { rewrite mult_INR. field. apply not_0_INR. lia. }
  rewrite Hseg.
  induction m as [|m IH]; intros Hm.
  - exists inputc. split; [apply for_range_res_empty; lia|]. split; [reflexivity|].
    intros. reflexivity.
  - destruct IH as (r & Hr & Hrs & Hrd); [lia|].
    assert (Hlo : py_int (INR m * INR s) = m * s)
      by (rewrite <- mult_INR; apply py_int_INR).
    assert (Hhi : py_int (INR (m + 1) * INR s) = m * s + s)
      by (rewrite <- mult_INR, py_int_INR; lia).
    destruct (segment_add_loop M (M * s) P C m (m * s) input r s Hin) as (r1 & Hr1 & Hrs1 & Hrd1);
      [rewrite Hrs; exact Hc | lia | nia |].
    destruct (segment_divide M P C m (INR s) r1) as (r2 & Hr2 & Hrs2 & Hrd2);
      [rewrite Hrs1, Hrs; exact Hc | lia |].
    exists r2. split.
    { unfold TTM.segment_average, TTM.segment_average_with in *. rewrite for_range_res_S by lia.
      rewrite Hr. cbn [rbind]. rewrite Hlo, Hhi, Hr1. cbn [rbind]. exact Hr2. }
    split; [rewrite Hrs2, Hrs1; exact Hrs|].
    intros i u v Hu Hv. rewrite (Hrd2 i u v Hu Hv).
    destruct (Nat.eqb_spec i m) as [->|Hne].
    + rewrite (Hrd1 m u v Hu Hv), Nat.eqb_refl, (Hrd m u v Hu Hv).
      replace (m <? m) with false by (symmetry; apply Nat.ltb_ge; lia).
      replace (m <? S m) with true by (symmetry; apply Nat.ltb_lt; lia).
      reflexivity.
    + rewrite (Hrd1 i u v Hu Hv).
      replace (i =? m) with false by (symmetry; apply Nat.eqb_neq; exact Hne).
      rewrite (Hrd i u v Hu Hv).
      destruct (Nat.ltb_spec i m); destruct (Nat.ltb_spec i (S m)); try lia; reflexivity.
Qed.

(** ** What the constructors build *)

Lemma quiet_refl (w : world) : quiet w w.
Proof. split; reflexivity. Qed.

Lemma quiet_trans (w1 w2 w3 : world) : quiet w1 w2 -> quiet w2 w3 -> quiet w1 w3.
Proof. intros [Hr1 Ho1] [Hr2 Ho2]. split; congruence. Qed.

Lemma py_or_hidden (d : nat) : py_or (Some (d * 4)) d = d * 4.
Proof. destruct d; reflexivity. Qed.

Lemma swap_nth_01_12 (d0 d1 d2 : nat) :
  swap_nth 1 2 (swap_nth 0 1 [d0; d1; d2]) = [d1; d2; d0].
Proof. reflexivity. Qed.

Lemma transpose_3d (t : tensor) (d0 d1 d2 a b : nat) :
  shape t = [d0; d1; d2] -> a < 3 -> b < 3 ->
  exists t', transpose t a b = Ok t' /\ shape t' = swap_nth a b [d0; d1; d2]
             /\ forall idx, data t' idx = data t (swap_nth a b idx).
Proof.
  intros Hs Ha Hb. unfold transpose. rewrite Hs. cbn [length].
  rewrite (proj2 (Nat.ltb_lt a 3) Ha), (proj2 (Nat.ltb_lt b 3) Hb). cbn [andb].
  eexists; repeat split; reflexivity.
Qed.

Section InitFacts.
Context {SF : SpecialFunctions}.

Lemma randn_run (sh : list nat) (w : world) :
  exists t w', randn sh w = (Ok t, w') /\ shape t = sh /\ quiet w w'.
Proof. unfold randn, draw. eexists; eexists; repeat split; reflexivity. Qed.

Lemma far_outside_param : far_outside 0 (2 / 100) (-2) 2 = false.
Proof.
  unfold far_outside, Rltb.
  destruct (Rlt_dec 0 (-2 - 2 * (2 / 100))); [lra|].
  destruct (Rlt_dec (2 + 2 * (2 / 100)) 0); [lra|]. reflexivity.
Qed.

Lemma trunc_normal_param_run (t : tensor) (w : world) :
  exists t' w', trunc_normal t 0 (2 / 100) (-2) 2 w = (Ok t', w')
                /\ shape t' = shape t /\ quiet w w'.
Proof.
  destruct (trunc_normal_returns t 0 (2 / 100) (-2) 2 w) as (t' & Ht); [lra | lra |].
  rewrite far_outside_param, app_nil_r in Ht.
  exists t'. eexists. split; [exact Ht|]. split.
  - eapply trunc_normal_sound; [|exact Ht]. lra.
  - split; reflexivity.
Qed.

Lemma Linear_new_run (inf outf : nat) (w : world) :
  exists fc w', Linear_new inf outf w = (Ok fc, w')
                /\ Linear_shaped inf outf fc /\ quiet w w'.
Proof.
  unfold Linear_new.
  destruct (uniform_sym_ok (zeros [outf; inf]) (INR inf) w) as (wt & Hw & Hws).
  rewrite (bind_ok _ _ _ _ _ Hw).
  match goal with |- context [bind (uniform_ ?t _ _) _ ?w1] =>
    destruct (uniform_sym_ok t (INR inf) w1) as (bs & Hb & Hbs) end.
  rewrite (bind_ok _ _ _ _ _ Hb). unfold ret.
  eexists; eexists. split; [reflexivity|].
  split; [repeat split; assumption | split; reflexivity].
Qed.

(** nn.Dropout accepts exactly the probabilities of [0, 1]. *)
Lemma Dropout_new_ok (q : R) (w : world) :
  (0 <= q <= 1)%R -> Dropout_new q w = (Ok (mkDropout q true), w).
Proof.
  intros [H0 H1]. unfold Dropout_new, Rltb.
  destruct (Rlt_dec q 0) as [H|_]; [lra|].
  destruct (Rlt_dec 1 q) as [H|_]; [lra|]. reflexivity.
Qed.

Lemma Dropout_new_rejects (q : R) (w : world) :
  (q < 0 \/ 1 < q)%R -> Dropout_new q w = (Err ValueError, w).
Proof.
  intros H. unfold Dropout_new, Rltb.
  destruct (Rlt_dec q 0) as [H0|H0]; [reflexivity|].
  destruct (Rlt_dec 1 q) as [H1|H1]; [reflexivity|]. lra.
Qed.

Lemma Mlp_init_run (d : nat) (w : world) :
  exists m w', Mlp.init d (Some (d * 4)) None 0 w = (Ok m, w')
               /\ Mlp_shaped d (d * 4) m /\ quiet w w'.
Proof.
  unfold Mlp.init. rewrite py_or_hidden. cbn [py_or].
  destruct (Linear_new_run d (d * 4) w) as (f1 & w1 & H1 & Hs1 & Hq1).
  rewrite (bind_ok _ _ _ _ _ H1).
  destruct (Linear_new_run (d * 4) d w1) as (f2 & w2 & H2 & Hs2 & Hq2).
  rewrite (bind_ok _ _ _ _ _ H2).
  rewrite (bind_ok _ _ _ _ _ (Dropout_new_ok 0 w2 ltac:(lra))). unfold ret.
  eexists; eexists. split; [reflexivity|].
  split; [repeat split; try apply Hs1; try apply Hs2 | eapply quiet_trans; eassumption].
Qed.

Lemma LayerNorm_new_shaped (d : nat) : LayerNorm_shaped d (LayerNorm_new d).
Proof. repeat split. Qed.

(** The conditional print of the constructors. *)
Lemma print_if_run (c : bool) (msg : message) (w : world) :
  (if c then print msg else ret tt) w
  = (Ok tt, mkW (rng w) (cursor w) (stdout w ++ if c then [msg] else [])).
Proof.
  destruct c; unfold print, ret; [reflexivity|].
  rewrite app_nil_r. destruct w; reflexivity.
Qed.

End InitFacts.
Section ModuleInitFacts.
Context {SF : SpecialFunctions}.

Lemma py_int_div_ok (a b : nat) : b <> 0 -> py_int_div a b = Ok (a / b).
Proof. intros Hb. unfold py_int_div. destruct (Nat.eqb_spec b 0); [contradiction | reflexivity]. Qed.

Lemma RTM_init_run (input : tensor) (d0 d1 d2 tK hA : nat) (w : world) :
  shape input = [d0; d1; d2] -> hA <> 0 ->
  exists self w',
    RTM.init input tK hA w = (Ok self, w') /\
    RTM_shaped d0 d1 d2 self /\ RTM.tK self = tK /\ RTM.hA self = hA /\
    rng w' = rng w /\
    stdout w' = stdout w ++ (if negb (d2 mod hA =? 0) || (d2 / hA =? 0)
                             then [Error1_RTM (d2 / hA) d2 hA] else []).
Proof.
  intros Hs HhA. unfold RTM.init.
  destruct (transpose_3d input d0 d1 d2 0 1 Hs) as (x1 & Hx1 & Hs1 & _); [lia | lia |].
  rewrite (bind_lift_ok _ _ _ _ Hx1).
  destruct (transpose_3d x1 d1 d0 d2 1 2 Hs1) as (x2 & Hx2 & Hs2 & _); [lia | lia |].
  rewrite (bind_lift_ok _ _ _ _ Hx2). cbv zeta. rewrite Hs2. cbn [swap_nth set_nth nth].
  rewrite (bind_lift_ok _ _ _ _ (py_int_div_ok d2 hA HhA)).
  rewrite (bind_ok _ _ _ _ _ (print_if_run _ _ w)).
  match goal with |- context [bind (randn ?sh) _ ?w0] =>
    destruct (randn_run sh w0) as (weight & w1 & Hr1 & Hw1 & Hq1) end.
  rewrite (bind_ok _ _ _ _ _ Hr1).
  match goal with |- context [bind (trunc_normal ?t _ _ _ _) _ ?w0] =>
    destruct (trunc_normal_param_run t w0) as (bias & w2 & Hr2 & Hw2 & Hq2) end.
  rewrite (bind_ok _ _ _ _ _ Hr2).
  match goal with |- context [bind (trunc_normal ?t _ _ _ _) _ ?w0] =>
    destruct (trunc_normal_param_run t w0) as (cls & w3 & Hr3 & Hw3 & Hq3) end.
  rewrite (bind_ok _ _ _ _ _ Hr3).
  match goal with |- context [bind (randn ?sh) _ ?w0] =>
    destruct (randn_run sh w0) as (Wqkv & w4 & Hr4 & Hw4 & Hq4) end.
  rewrite (bind_ok _ _ _ _ _ Hr4).
  match goal with |- context [bind (randn ?sh) _ ?w0] =>
    destruct (randn_run sh w0) as (Wo & w5 & Hr5 & Hw5 & Hq5) end.
  rewrite (bind_ok _ _ _ _ _ Hr5).
  destruct (Mlp_init_run d2 w5) as (mlp & w6 & Hr6 & Hw6 & Hq6).
  rewrite (bind_ok _ _ _ _ _ Hr6). unfold ret.
  eexists; eexists. split; [reflexivity|].
  pose proof (quiet_trans _ _ _ Hq1 (quiet_trans _ _ _ Hq2 (quiet_trans _ _ _ Hq3
               (quiet_trans _ _ _ Hq4 (quiet_trans _ _ _ Hq5 Hq6))))) as [Hrng Hout].
  split.
  { unfold RTM_shaped, Attn_shaped. cbn.
    repeat split; try assumption; try reflexivity; try apply Hw6. }
  cbn in Hrng, Hout. repeat split; assumption.
Qed.

Lemma RTM_init_inv (input : tensor) (d0 d1 d2 tK hA : nat) (w w' : world) (self : RTM.t) :
  shape input = [d0; d1; d2] ->
  RTM.init input tK hA w = (Ok self, w') ->
  hA <> 0 /\
  RTM_shaped d0 d1 d2 self /\ RTM.tK self = tK /\ RTM.hA self = hA /\
  rng w' = rng w /\
  stdout w' = stdout w ++ (if negb (d2 mod hA =? 0) || (d2 / hA =? 0)
                           then [Error1_RTM (d2 / hA) d2 hA] else []).
Proof.
  intros Hs Hinit.
  destruct (Nat.eq_dec hA 0) as [->|HhA].
  - exfalso. revert Hinit. unfold RTM.init.
    destruct (transpose_3d input d0 d1 d2 0 1 Hs) as (x1 & Hx1 & Hs1 & _); [lia | lia |].
    rewrite (bind_lift_ok _ _ _ _ Hx1).
    destruct (transpose_3d x1 d1 d0 d2 1 2 Hs1) as (x2 & Hx2 & Hs2 & _); [lia | lia |].
    rewrite (bind_lift_ok _ _ _ _ Hx2). cbv zeta. discriminate.
  - split; [exact HhA|].
    destruct (RTM_init_run input d0 d1 d2 tK hA w Hs HhA) as (s2 & w2 & Hrun & Hfacts).
    rewrite Hrun in Hinit. inversion Hinit; subst. exact Hfacts.
Qed.


Lemma STM_init_run (input : tensor) (d0 d1 d2 tK hA : nat) (w : world) :
  shape input = [d0; d1; d2] -> hA <> 0 ->
  exists self w',
    STM.init input tK hA w = (Ok self, w') /\
    STM_shaped d1 d0 d2 self /\ STM.tK self = tK /\ STM.hA self = hA /\
    rng w' = rng w /\
    stdout w' = stdout w ++ (if negb (d2 mod hA =? 0) || (d2 / hA =? 0)
                             then [Error2_STM (d2 / hA) d2 hA] else []).
Proof.
  intros Hs HhA. unfold STM.init.
  destruct (transpose_3d input d0 d1 d2 1 2 Hs) as (x2 & Hx2 & Hs2 & _); [lia | lia |].
  rewrite (bind_lift_ok _ _ _ _ Hx2). cbv zeta. rewrite Hs2. cbn [swap_nth set_nth nth].
  rewrite (bind_lift_ok _ _ _ _ (py_int_div_ok d2 hA HhA)).
  rewrite (bind_ok _ _ _ _ _ (print_if_run _ _ w)).
  match goal with |- context [bind (randn ?sh) _ ?w0] =>
    destruct (randn_run sh w0) as (weight & w1 & Hr1 & Hw1 & Hq1) end.
  rewrite (bind_ok _ _ _ _ _ Hr1).
  match goal with |- context [bind (trunc_normal ?t _ _ _ _) _ ?w0] =>
    destruct (trunc_normal_param_run t w0) as (bias & w2 & Hr2 & Hw2 & Hq2) end.
  rewrite (bind_ok _ _ _ _ _ Hr2).
  match goal with |- context [bind (trunc_normal ?t _ _ _ _) _ ?w0] =>
    destruct (trunc_normal_param_run t w0) as (cls & w3 & Hr3 & Hw3 & Hq3) end.
  rewrite (bind_ok _ _ _ _ _ Hr3).
  match goal with |- context [bind (randn ?sh) _ ?w0] =>
    destruct (randn_run sh w0) as (Wqkv & w4 & Hr4 & Hw4 & Hq4) end.
  rewrite (bind_ok _ _ _ _ _ Hr4).
  match goal with |- context [bind (randn ?sh) _ ?w0] =>
    destruct (randn_run sh w0) as (Wo & w5 & Hr5 & Hw5 & Hq5) end.
  rewrite (bind_ok _ _ _ _ _ Hr5).
  destruct (Mlp_init_run d2 w5) as (mlp & w6 & Hr6 & Hw6 & Hq6).
  rewrite (bind_ok _ _ _ _ _ Hr6). unfold ret.
  eexists; eexists. split; [reflexivity|].
  pose proof (quiet_trans _ _ _ Hq1 (quiet_trans _ _ _ Hq2 (quiet_trans _ _ _ Hq3
               (quiet_trans _ _ _ Hq4 (quiet_trans _ _ _ Hq5 Hq6))))) as [Hrng Hout].
  split.
  { unfold STM_shaped, Attn_shaped. cbn.
    repeat split; try assumption; try reflexivity; try apply Hw6. }
  cbn in Hrng, Hout. repeat split; assumption.
Qed.

Lemma STM_init_inv (input : tensor) (d0 d1 d2 tK hA : nat) (w w' : world) (self : STM.t) :
  shape input = [d0; d1; d2] ->
  STM.init input tK hA w = (Ok self, w') ->
  hA <> 0 /\
  STM_shaped d1 d0 d2 self /\ STM.tK self = tK /\ STM.hA self = hA /\
  rng w' = rng w /\
  stdout w' = stdout w ++ (if negb (d2 mod hA =? 0) || (d2 / hA =? 0)
                           then [Error2_STM (d2 / hA) d2 hA] else []).
Proof.
  intros Hs Hinit.
  destruct (Nat.eq_dec hA 0) as [->|HhA].
  - exfalso. revert Hinit. unfold STM.init.
    destruct (transpose_3d input d0 d1 d2 1 2 Hs) as (x2 & Hx2 & Hs2 & _); [lia | lia |].
    rewrite (bind_lift_ok _ _ _ _ Hx2). cbv zeta. discriminate.
  - split; [exact HhA|].
    destruct (STM_init_run input d0 d1 d2 tK hA w Hs HhA) as (s2 & w2 & Hrun & Hfacts).
    rewrite Hrun in Hinit. inversion Hinit; subst. exact Hfacts.
Qed.

Lemma pydiv_INR_ok (x : R) (n : nat) : n <> 0 -> pydiv x (INR n) = Ok (x / INR n)%R.
Proof.
  intros Hn. unfold pydiv. destruct (Req_dec_T (INR n) 0) as [Hz|_]; [|reflexivity].
  exfalso. apply (not_0_INR n Hn). exact Hz.
Qed.

Lemma pydiv_INR_zero (x : R) : pydiv x (INR 0) = Err ZeroDivisionError.
Proof.
  unfold pydiv. cbn [INR]. destruct (Req_dec_T 0 0) as [_|Hnz]; [reflexivity|].
  exfalso. apply Hnz. reflexivity.
Qed.

Lemma TTM_init_run (input : tensor) (d0 d1 d2 avgf tK hA : nat) (w : world) :
  shape input = [d0; d1; d2] -> avgf <> 0 -> hA <> 0 ->
  exists self w',
    TTM.init input avgf tK hA w = (Ok self, w') /\
    TTM_shaped d2 d1 d0 self /\ TTM.avgf self = avgf /\
    TTM.tK self = tK /\ TTM.hA self = hA /\
    rng w' = rng w /\
    stdout w' = stdout w ++ TTM_messages d2 (d1 * d0) avgf hA.
Proof.
  intros Hs Havgf HhA. unfold TTM.init.
  destruct (transpose_3d input d0 d1 d2 0 2 Hs) as (x2 & Hx2 & Hs2 & _); [lia | lia |].
  rewrite (bind_lift_ok _ _ _ _ Hx2). cbv zeta. rewrite Hs2. cbn [swap_nth set_nth nth].
  rewrite (bind_lift_ok _ _ _ _ (pydiv_INR_ok (INR d2) avgf Havgf)).
  rewrite (bind_ok _ _ _ _ _ (print_if_run _ _ w)).
  rewrite (bind_lift_ok _ _ _ _ (py_int_div_ok (d1 * d0) hA HhA)).
  match goal with |- context [bind (if ?c then print ?m else ret tt) _ ?w0] =>
    rewrite (bind_ok _ _ _ _ _ (print_if_run c m w0)) end.
  match goal with |- context [bind (randn ?sh) _ ?w0] =>
    destruct (randn_run sh w0) as (weight & w1 & Hr1 & Hw1 & Hq1) end.
  rewrite (bind_ok _ _ _ _ _ Hr1).
  match goal with |- context [bind (trunc_normal ?t _ _ _ _) _ ?w0] =>
    destruct (trunc_normal_param_run t w0) as (bias & w2 & Hr2 & Hw2 & Hq2) end.
  rewrite (bind_ok _ _ _ _ _ Hr2).
  match goal with |- context [bind (trunc_normal ?t _ _ _ _) _ ?w0] =>
    destruct (trunc_normal_param_run t w0) as (cls & w3 & Hr3 & Hw3 & Hq3) end.
  rewrite (bind_ok _ _ _ _ _ Hr3).
  match goal with |- context [bind (randn ?sh) _ ?w0] =>
    destruct (randn_run sh w0) as (Wqkv & w4 & Hr4 & Hw4 & Hq4) end.
  rewrite (bind_ok _ _ _ _ _ Hr4).
  match goal with |- context [bind (randn ?sh) _ ?w0] =>
    destruct (randn_run sh w0) as (Wo & w5 & Hr5 & Hw5 & Hq5) end.
  rewrite (bind_ok _ _ _ _ _ Hr5).
  destruct (Mlp_init_run (d1 * d0) w5) as (mlp & w6 & Hr6 & Hw6 & Hq6).
  rewrite (bind_ok _ _ _ _ _ Hr6). unfold ret.
  eexists; eexists. split; [reflexivity|].
  pose proof (quiet_trans _ _ _ Hq1 (quiet_trans _ _ _ Hq2 (quiet_trans _ _ _ Hq3
               (quiet_trans _ _ _ Hq4 (quiet_trans _ _ _ Hq5 Hq6))))) as [Hrng Hout].
  split.
  { unfold TTM_shaped. cbn.
    repeat split; try assumption; try reflexivity; try apply Hw6. }
  cbn in Hrng, Hout. unfold TTM_messages. rewrite app_assoc.
  repeat split; assumption.
Qed.

Lemma TTM_init_inv (input : tensor) (d0 d1 d2 avgf tK hA : nat) (w w' : world)
    (self : TTM.t) :
  shape input = [d0; d1; d2] ->
  TTM.init input avgf tK hA w = (Ok self, w') ->
  avgf <> 0 /\ hA <> 0 /\
  TTM_shaped d2 d1 d0 self /\ TTM.avgf self = avgf /\
  TTM.tK self = tK /\ TTM.hA self = hA /\
  rng w' = rng w /\
  stdout w' = stdout w ++ TTM_messages d2 (d1 * d0) avgf hA.
Proof.
  intros Hs Hinit.
  assert (Hne : avgf <> 0 /\ hA <> 0).
  { revert Hinit. unfold TTM.init.
    destruct (transpose_3d input d0 d1 d2 0 2 Hs) as (x2 & Hx2 & Hs2 & _); [lia | lia |].
    rewrite (bind_lift_ok _ _ _ _ Hx2). cbv zeta. rewrite Hs2. cbn [swap_nth set_nth nth].
    destruct (Nat.eq_dec avgf 0) as [->|Havgf].
    { unfold bind at 1. unfold lift at 1. rewrite pydiv_INR_zero. discriminate. }
    rewrite (bind_lift_ok _ _ _ _ (pydiv_INR_ok (INR d2) avgf Havgf)).
    rewrite (bind_ok _ _ _ _ _ (print_if_run _ _ w)).
    destruct (Nat.eq_dec hA 0) as [->|HhA]; [discriminate|]. auto. }
  destruct Hne as [Havgf HhA]. split; [exact Havgf|]. split; [exact HhA|].
  destruct (TTM_init_run input d0 d1 d2 avgf tK hA w Hs Havgf HhA)
    as (s2 & w2 & Hrun & Hfacts).
  rewrite Hrun in Hinit. inversion Hinit; subst. exact Hfacts.
Qed.

End ModuleInitFacts.

(** C5, in exact arithmetic.  Let a temporal module be built for, and
    applied to, an input whose time axis (the last one) has length M * s, M
    the number of segments and s >= 1 their length.  If every entry of the
    input in segment i equals c i, then, the sum and the quotient being
    taken over the reals, every entry of row i of the averaged tensor
    computed at the start of TTM.forward equals c i.  In the floating-point
    arithmetic of the tensors the mean does not always round-trip the
    constant: ten entries 0.1 of a float64 tensor average to
    0.09999999999999999, as computed after the witness below. *)
Theorem ttm_segment_average_constant {SF : SpecialFunctions}
    (x0 x : tensor) (C P M s tK hA : nat) (w w' : world) (self : TTM.t) (c : nat -> R) :
  TTM.init x0 M tK hA w = (Ok self, w') ->
  shape x0 = [C; P; M * s] -> shape x = [C; P; M * s] -> 1 <= s ->
  (forall i j u v, i < M -> i * s <= j < i * s + s -> u < P -> v < C ->
     data x [v; u; j] = c i) ->
  exists input inputc,
    transpose x 0 2 = Ok input /\
    TTM.segment_average (TTM.avgf self) (TTM.seg self) input
      (zeros [TTM.avgf self; P; C]) = Ok inputc /\
    shape inputc = [M; P; C] /\
    forall i u v, i < M -> u < P -> v < C -> data inputc [i; u; v] = c i.
Proof.
  intros Hinit Hx0 Hx Hs Hconst.
  destruct (TTM_init_inv x0 C P (M * s) M tK hA w w' self Hx0 Hinit)
    as (HM & _ & Hshaped & Havgf & _).
  destruct Hshaped as (_ & Hseg & _).
  rewrite Hseg, Havgf.
  destruct (transpose_3d x C P (M * s) 0 2 Hx) as (input & Hin & Hins & Hind); [lia | lia |].
  cbn [swap_nth set_nth nth] in Hins.
  destruct (segment_average_upto M s P C input (zeros [M; P; C]) M)
    as (r & Hr & Hrs & Hrd); [lia | exact Hins | reflexivity | lia |].
  exists input, r. split; [exact Hin|]. split; [exact Hr|]. split; [exact Hrs|].
  intros i u v Hi Hu Hv. rewrite (Hrd i u v Hu Hv).
  rewrite (proj2 (Nat.ltb_lt i M) Hi).
  rewrite (rsum_ext s _ (fun _ => c i)).
  2:{ intros k Hk. rewrite Hind. cbn [swap_nth set_nth nth].
      apply Hconst; [exact Hi | lia | exact Hu | exact Hv]. }
  rewrite rsum_const. cbn [zeros data]. rewrite mult_INR.
  field. split; apply not_0_INR; lia.
Qed.

Lemma ttm_segment_average_constant_witness :
  let x := mkT [1; 1; 4] (fun idx => INR (nth 2 idx 0 / 2)) in
  exists self w' input inputc,
    TTM.init (SF := stand_in) x 2 1 1 world0 = (Ok self, w') /\
    transpose x 0 2 = Ok input /\
    TTM.segment_average (TTM.avgf self) (TTM.seg self) input
      (zeros [TTM.avgf self; 1; 1]) = Ok inputc /\
    data inputc [0; 0; 0] = 0%R /\ data inputc [1; 0; 0] = 1%R.
Proof.
  intros x.
  destruct (TTM_init_run (SF := stand_in) x 1 1 4 2 1 1 world0 eq_refl)
    as (self & w' & Hinit & _); [lia | lia |].
  destruct (ttm_segment_average_constant x x 1 1 2 2 1 1 world0 w' self (fun i => INR i)
              Hinit eq_refl eq_refl)
    as (input & inputc & Hin & Havg & _ & Hd).
  - lia.
  - intros i j u v Hi Hj Hu Hv. cbn [data x nth]. f_equal.
    assert (Hq : j = i * 2 + (j - i * 2)) by lia. rewrite Hq.
    rewrite Nat.div_add_l by lia. rewrite Nat.div_small by lia. lia.
  - exists self, w', input, inputc. repeat split; try assumption.
    + apply (Hd 0 0 0); lia.
    + apply (Hd 1 0 0); lia.
Defined.

(** C5, in the arithmetic of the code.  With dtype torch.float64, one
    segment of s = 10 time steps (T = 10, M = 1) and every entry the
    binary64 number c = 0.1: the bounds of the segment are 0 and 10, the
    ten entries are added one by one to 0 and the sum, 0.9999999999999999,
    is divided by seg = 10.0.  The result is 0.09999999999999999, which is
    below c: the averaged value is not exactly c. *)
Lemma segment_average_inexact_in_binary64 :
  let c := PrimFloat.div (f64_of_nat 1) (f64_of_nat 10) in
  seg_bound_f64 0 10 1 = 0 /\ seg_bound_f64 1 10 1 = 10
  /\ PrimFloat.eqb (segment_average_entry_f64 0 10 1 (fun _ => c)) c = false
  /\ PrimFloat.ltb (segment_average_entry_f64 0 10 1 (fun _ => c)) c = true.
Proof. repeat split; vm_compute; reflexivity. Qed.

(** Rounding is not always visible: eight entries 0.5 average to 0.5. *)
Lemma segment_average_exact_in_binary64 :
  let c := PrimFloat.div (f64_of_nat 1) (f64_of_nat 2) in
  PrimFloat.eqb (segment_average_entry_f64 1 16 2 (fun _ => c)) c = true.
Proof. vm_compute. reflexivity. Qed.

(** ** Shapes through the forward passes *)

Ltac einsum_shape Ha Hb :=
  unfold einsum; cbn; rewrite Ha, Hb; cbn; rewrite ?Nat.eqb_refl; cbn;
  eexists; split; reflexivity.

Lemma einsum_lm_jmi_ijl (w x : tensor) (D D0 n outer : nat) :
  shape w = [D; D0] -> shape x = [n; D0; outer] ->
  exists t, einsum "lm,jmi -> ijl" w x = Ok t /\ shape t = [outer; n; D].
Proof. intros Ha Hb. einsum_shape Ha Hb. Qed.

Lemma einsum_xhdm_ijm_xijhd (w z : tensor) (X H Dh D I J : nat) :
  shape w = [X; H; Dh; D] -> shape z = [I; J; D] ->
  exists t, einsum "xhdm,ijm -> xijhd" w z = Ok t /\ shape t = [X; I; J; H; Dh].
Proof. intros Ha Hb. einsum_shape Ha Hb. Qed.

Lemma einsum_ijh_ijhd_ijhd (s v : tensor) (I J H Dh : nat) :
  shape s = [I; J; H] -> shape v = [I; J; H; Dh] ->
  exists t, einsum "ijh,ijhd -> ijhd" s v = Ok t /\ shape t = [I; J; H; Dh].
Proof. intros Ha Hb. einsum_shape Ha Hb. Qed.

Lemma einsum_nm_ijm_ijn (w r : tensor) (N D I J : nat) :
  shape w = [N; D] -> shape r = [I; J; D] ->
  exists t, einsum "nm,ijm -> ijn" w r = Ok t /\ shape t = [I; J; N].
Proof. intros Ha Hb. einsum_shape Ha Hb. Qed.

Lemma einsum_lm_im_il (w x : tensor) (D D0 M : nat) :
  shape w = [D; D0] -> shape x = [M; D0] ->
  exists t, einsum "lm,im -> il" w x = Ok t /\ shape t = [M; D].
Proof. intros Ha Hb. einsum_shape Ha Hb. Qed.

Lemma einsum_xhdm_im_xihd (w z : tensor) (X H Dh D J : nat) :
  shape w = [X; H; Dh; D] -> shape z = [J; D] ->
  exists t, einsum "xhdm,im -> xihd" w z = Ok t /\ shape t = [X; J; H; Dh].
Proof. intros Ha Hb. einsum_shape Ha Hb. Qed.

Lemma einsum_ih_ihd_ihd (s v : tensor) (J H Dh : nat) :
  shape s = [J; H] -> shape v = [J; H; Dh] ->
  exists t, einsum "ih,ihd -> ihd" s v = Ok t /\ shape t = [J; H; Dh].
Proof. intros Ha Hb. einsum_shape Ha Hb. Qed.

Lemma einsum_nm_im_in (w r : tensor) (N D J : nat) :
  shape w = [N; D] -> shape r = [J; D] ->
  exists t, einsum "nm,im -> in" w r = Ok t /\ shape t = [J; N].
Proof. intros Ha Hb. einsum_shape Ha Hb. Qed.

Lemma tadd_same (a b : tensor) :
  shape a = shape b -> exists t, tadd a b = Ok t /\ shape t = shape a.
Proof.
  intros Hs. destruct (map2_t_same Rplus a b Hs) as (t & Ht & Hsh & _).
  exists t. split; assumption.
Qed.

Lemma reshape_ok (t : tensor) (sh : list nat) :
  numel (shape t) = numel sh -> exists t', reshape t sh = Ok t' /\ shape t' = sh.
Proof.
  intros Hn. unfold reshape. rewrite Hn, Nat.eqb_refl. eexists; split; reflexivity.
Qed.

Lemma LayerNorm_forward_ok (ln : LayerNorm) (x : tensor) (pre : list nat) (d : nat) :
  LayerNorm_shaped d ln -> shape x = pre ++ [d] ->
  exists y, LayerNorm_forward ln x = Ok y /\ shape y = shape x.
Proof.
  intros (Hn & _) Hs. unfold LayerNorm_forward. rewrite Hs, rev_app_distr. cbn [rev app].
  rewrite Hn, Nat.eqb_refl. eexists; split; reflexivity.
Qed.

Lemma Linear_forward_ok (fc : Linear) (x : tensor) (pre : list nat) (inf outf : nat) :
  Linear_shaped inf outf fc -> shape x = pre ++ [inf] ->
  exists y, Linear_forward fc x = Ok y /\ shape y = pre ++ [outf].
Proof.
  intros (Hi & Ho & _) Hs. unfold Linear_forward. rewrite Hs, rev_app_distr. cbn [rev app].
  rewrite Hi, Nat.eqb_refl, rev_involutive, Ho. eexists; split; reflexivity.
Qed.

Lemma for_range_invariant {S : Type} (Inv : S -> Prop) (n : nat)
    (body : nat -> S -> M S) (s : S) :
  (forall a st w, a < n -> Inv st -> exists st', body a st w = (Ok st', w) /\ Inv st') ->
  Inv s ->
  forall w, exists s', for_range 0 n body s w = (Ok s', w) /\ Inv s'.
Proof.
  intros Hbody Hs w.
  assert (Hgen : forall m, m <= n ->
            exists s', for_range 0 m body s w = (Ok s', w) /\ Inv s').
  { induction m as [|m IH]; intros Hm.
    - exists s. split; [reflexivity | exact Hs].
    - destruct IH as (s1 & H1 & Hi1); [lia|].
      destruct (Hbody m s1 w) as (s2 & H2 & Hi2); [lia | exact Hi1 |].
      exists s2. split; [|exact Hi2].
      rewrite for_range_S by lia. rewrite (bind_ok _ _ _ _ _ H1). exact H2. }
  apply Hgen. lia.
Qed.

Section ForwardFacts.
Context {SF : SpecialFunctions}.

Lemma Dropout_forward_zero (dr : Dropout) (x : tensor) :
  p dr = 0%R -> Dropout_forward dr x = ret x.
Proof.
  intros Hp. unfold Dropout_forward. destruct (Req_dec_T (p dr) 0); [reflexivity | contradiction].
Qed.

Lemma Mlp_forward_ok (m : Mlp.t) (x : tensor) (pre : list nat) (d hid : nat) (w : world) :
  Mlp_shaped d hid m -> shape x = pre ++ [d] ->
  exists y, Mlp.forward m x w = (Ok y, w) /\ shape y = shape x.
Proof.
  intros (H1 & H2 & Hp) Hs. unfold Mlp.forward.
  destruct (Linear_forward_ok _ x pre d hid H1 Hs) as (y1 & Hy1 & Hs1).
  rewrite (bind_lift_ok _ _ _ _ Hy1). rewrite (Dropout_forward_zero _ _ Hp).
  unfold bind at 1. unfold ret at 1.
  destruct (Linear_forward_ok _ (GELU y1) pre hid d H2 Hs1) as (y2 & Hy2 & Hs2).
  rewrite (bind_lift_ok _ _ _ _ Hy2). rewrite (Dropout_forward_zero _ _ Hp).
  unfold bind, ret. exists y2. split; [reflexivity | congruence].
Qed.

Lemma mlp_step_ok (m : Mlp.t) (ln : LayerNorm) (x : tensor) (pre : list nat) (d hid : nat)
    (w : world) :
  Mlp_shaped d hid m -> LayerNorm_shaped d ln -> shape x = pre ++ [d] ->
  exists y, Block3.mlp_step m ln x w = (Ok y, w) /\ shape y = shape x.
Proof.
  intros Hm Hln Hs. unfold Block3.mlp_step.
  destruct (LayerNorm_forward_ok ln x pre d Hln Hs) as (z & Hz & Hzs).
  rewrite (bind_lift_ok _ _ _ _ Hz).
  destruct (Mlp_forward_ok m z pre d hid w Hm) as (h & Hh & Hhs); [congruence|].
  rewrite (bind_ok _ _ _ _ _ Hh).
  destruct (tadd_same h x) as (y & Hy & Hys); [congruence|].
  unfold lift. rewrite Hy. exists y. split; [reflexivity | congruence].
Qed.

End ForwardFacts.
Lemma cat_dim1_3d (a b : tensor) (o p q d : nat) :
  shape a = [o; p; d] -> shape b = [o; q; d] ->
  exists t, cat a b 1 = Ok t /\ shape t = [o; p + q; d].
Proof.
  intros Ha Hb. unfold cat. rewrite Ha, Hb. cbn [length set_nth nth list_eqb].
  rewrite !Nat.eqb_refl. cbn. eexists; split; reflexivity.
Qed.

Lemma cat_dim0_2d (a b : tensor) (p q d : nat) :
  shape a = [p; d] -> shape b = [q; d] ->
  exists t, cat a b 0 = Ok t /\ shape t = [p + q; d].
Proof.
  intros Ha Hb. unfold cat. rewrite Ha, Hb. cbn [length set_nth nth list_eqb].
  rewrite !Nat.eqb_refl. cbn. eexists; split; reflexivity.
Qed.

Lemma Block3_qkv_step_ok (K I J H Dh D a : nat) (Wqkv : tensor) (lnorm : LayerNorm)
    (savespace qkvspace : tensor) :
  a < K -> shape Wqkv = [K; 3; H; Dh; D] -> LayerNorm_shaped D lnorm ->
  shape savespace = [I; J; D] -> shape qkvspace = [K; 3; I; J; H; Dh] ->
  exists q, Block3.qkv_step Wqkv lnorm a savespace qkvspace = Ok q
            /\ shape q = shape qkvspace.
Proof.
  intros Ha HW Hln Hs Hq. unfold Block3.qkv_step.
  destruct (getitem_ok Wqkv [At a] [3; H; Dh; D]) as (Wa & HWa & HWs & _).
  { rewrite HW. cbn [slice_shape]. ltb_true. reflexivity. }
  rewrite HWa. cbn [rbind].
  destruct (LayerNorm_forward_ok lnorm savespace [I; J] D Hln Hs) as (z & Hz & Hzs).
  rewrite Hz. cbn [rbind]. rewrite Hs in Hzs.
  destruct (einsum_xhdm_ijm_xijhd Wa z 3 H Dh D I J HWs Hzs) as (qkv & Hqkv & Hqs).
  rewrite Hqkv. cbn [rbind].
  destruct (setitem_ok qkvspace qkv [At a]) as (q & Hset & Hsets & _).
  { rewrite Hq, Hqs. cbn [slice_shape]. ltb_true. reflexivity. }
  exists q. split; assumption.
Qed.

Lemma Block3_imv_step_ok (K I J H Dh a : nat) (rsaspace qkvspace imv : tensor) :
  a < K -> shape rsaspace = [K; I; J; H] -> shape qkvspace = [K; 3; I; J; H; Dh] ->
  shape imv = [K; I; J; H; Dh] ->
  exists r, Block3.imv_step a rsaspace qkvspace imv = Ok r /\ shape r = shape imv.
Proof.
  intros Ha Hr Hq Hi. unfold Block3.imv_step.
  destruct (getitem_ok rsaspace [At a] [I; J; H]) as (s & Hs & Hss & _).
  { rewrite Hr. cbn [slice_shape]. ltb_true. reflexivity. }
  rewrite Hs. cbn [rbind].
  destruct (getitem_ok qkvspace [At a; At 2] [I; J; H; Dh]) as (v & Hv & Hvs & _).
  { rewrite Hq. cbn [slice_shape]. ltb_true. reflexivity. }
  rewrite Hv. cbn [rbind].
  destruct (einsum_ijh_ijhd_ijhd s v I J H Dh Hss Hvs) as (iv & Hiv & Hivs).
  rewrite Hiv. cbn [rbind].
  destruct (setitem_ok imv iv [At a]) as (r & Hset & Hsets & _).
  { rewrite Hi, Hivs. cbn [slice_shape]. ltb_true. reflexivity. }
  exists r. split; assumption.
Qed.

Lemma Block3_project_step_ok (K I J H Dh D a : nat) (Wo imv savespace : tensor) :
  a < K -> H * Dh = D -> shape Wo = [K; D; D] -> shape imv = [K; I; J; H; Dh] ->
  shape savespace = [I; J; D] ->
  exists s, Block3.project_step Wo a [K; I; J; D] imv savespace = Ok s
            /\ shape s = shape savespace.
Proof.
  intros Ha HD HW Hi Hs. unfold Block3.project_step.
  destruct (getitem_ok Wo [At a] [D; D]) as (Wa & HWa & HWs & _).
  { rewrite HW. cbn [slice_shape]. ltb_true. reflexivity. }
  rewrite HWa. cbn [rbind].
  destruct (reshape_ok imv [K; I; J; D]) as (r & Hr & Hrs).
  { rewrite Hi, <- HD. cbn [numel fold_right]. lia. }
  rewrite Hr. cbn [rbind].
  destruct (getitem_ok r [At a] [I; J; D]) as (ra & Hra & Hras & _).
  { rewrite Hrs. cbn [slice_shape]. ltb_true. reflexivity. }
  rewrite Hra. cbn [rbind].
  destruct (einsum_nm_ijm_ijn Wa ra D D I J HWs Hras) as (o & Ho & Hos).
  rewrite Ho. cbn [rbind].
  destruct (tadd_same o savespace) as (s & Hsum & Hss); [congruence|].
  exists s. split; [exact Hsum | congruence].
Qed.

Section BlockFacts.
Context {SF : SpecialFunctions}.

Lemma Block3_block_ok (K I J H Dh D nb a : nat) (xs : list nat)
    (Wqkv Wo : tensor) (lnorm lnormz : LayerNorm) (mlp : Mlp.t)
    (st : Block3.state) (w : world) :
  a < K -> H * Dh = D -> nb <= J -> nth 2 xs 0 = I -> nth 0 xs 0 + 1 = J ->
  shape Wqkv = [K; 3; H; Dh; D] -> shape Wo = [K; D; D] ->
  LayerNorm_shaped D lnorm -> LayerNorm_shaped D lnormz -> Mlp_shaped D (D * 4) mlp ->
  state3_shaped K I J H Dh D st ->
  exists st',
    Block3.block Wqkv Wo lnorm lnormz mlp K Dh D nb xs a st w = (Ok st', w)
    /\ state3_shaped K I J H Dh D st'.
Proof.
  intros Ha HD Hnb HI HJ HWq HWo Hln Hlnz Hmlp Hst.
  destruct st as [[[savespace qkvspace] rsaspace] imv].
  destruct Hst as (Hs & Hq & Hr & Hi).
  unfold Block3.block. rewrite HI, HJ.
  destruct (Block3_qkv_step_ok K I J H Dh D a Wqkv lnorm savespace qkvspace
              Ha HWq Hln Hs Hq) as (q1 & Hq1 & Hq1s).
  rewrite (bind_lift_ok _ _ _ _ Hq1). rewrite Hq in Hq1s.
  destruct (Block3_score_step_spec K I J H Dh a q1 rsaspace Ha Hq1s Hr)
    as (r1 & Hr1 & Hr1s & _).
  rewrite (bind_lift_ok _ _ _ _ Hr1). rewrite Hr in Hr1s.
  destruct (Block3_imv_step_ok K I J H Dh a r1 q1 imv Ha Hr1s Hq1s Hi)
    as (i1 & Hi1 & Hi1s).
  rewrite (bind_lift_ok _ _ _ _ Hi1). rewrite Hi in Hi1s.
  destruct (Block3_accumulate_upto K I J H Dh a i1 nb Hi1s Ha Hnb)
    as (i2 & Hi2 & Hi2s & _).
  rewrite (bind_lift_ok _ _ _ _ Hi2). rewrite Hi1s in Hi2s.
  destruct (Block3_project_step_ok K I J H Dh D a Wo i2 savespace Ha HD HWo Hi2s Hs)
    as (s1 & Hs1 & Hs1s).
  rewrite (bind_lift_ok _ _ _ _ Hs1). rewrite Hs in Hs1s.
  destruct (mlp_step_ok mlp lnormz s1 [I; J] D (D * 4) w Hmlp Hlnz Hs1s)
    as (s2 & Hs2 & Hs2s).
  rewrite (bind_ok _ _ _ _ _ Hs2). rewrite Hs1s in Hs2s.
  unfold ret. eexists. split; [reflexivity|].
  repeat split; assumption.
Qed.

Lemma Block3_run_ok (outer n D tK hA Dh nb : nat)
    (weight bias cls Wqkv Wo : tensor) (lnorm lnormz : LayerNorm) (mlp : Mlp.t)
    (x : tensor) (w : world) :
  Attn_shaped outer n D tK hA Dh weight bias cls Wqkv Wo lnorm lnormz mlp ->
  hA * Dh = D -> nb <= n + 1 -> shape x = [n; D; outer] ->
  exists y,
    Block3.run weight bias cls Wqkv Wo lnorm lnormz mlp tK hA Dh D nb x w = (Ok y, w)
    /\ shape y = [outer; n + 1; D].
Proof.
  intros (Hw & Hb & Hc & HWq & HWo & Hln & Hlnz & Hmlp) HD Hnb Hx.
  unfold Block3.run. cbv zeta. rewrite Hx. cbn [nth].
  destruct (einsum_lm_jmi_ijl weight x D D n outer Hw Hx) as (s0 & Hs0 & Hs0s).
  rewrite (bind_lift_ok _ _ _ _ Hs0).
  destruct (cat_dim1_3d cls s0 outer 1 n D Hc Hs0s) as (s1 & Hs1 & Hs1s).
  rewrite (bind_lift_ok _ _ _ _ Hs1).
  replace (1 + n) with (n + 1) in Hs1s by lia.
  destruct (tadd_same s1 bias) as (s2 & Hs2 & Hs2s); [congruence|].
  rewrite (bind_lift_ok _ _ _ _ Hs2). rewrite Hs1s in Hs2s.
  match goal with |- context [for_range 0 tK ?body ?s0] =>
    destruct (for_range_invariant (state3_shaped tK outer (n + 1) hA Dh D) tK body s0)
      with (w := w) as (st & Hst & Hinv) end.
  { intros a st w0 Ha Hinv.
    apply (Block3_block_ok tK outer (n + 1) hA Dh D nb a); try assumption; reflexivity. }
  { repeat split; try reflexivity. exact Hs2s. }
  rewrite (bind_ok _ _ _ _ _ Hst).
  destruct st as [[[savespace qkvspace] rsaspace] imv]. destruct Hinv as (Hs & _).
  unfold ret. exists savespace. split; [reflexivity | exact Hs].
Qed.

End BlockFacts.

Lemma py_int_quot (k T M : nat) :
  M <> 0 -> py_int (INR k * (INR T / INR M)) = k * T / M.
Proof.
  intros HM. unfold py_int.
  assert (Hm : (0 < INR M)%R) by (apply lt_0_INR; lia).
  pose proof (Nat.div_mod_eq (k * T) M) as Hdm.
  pose proof (Nat.mod_upper_bound (k * T) M HM) as Hr.
  set (q := k * T / M) in *. set (r := (k * T) mod M) in *.
  set (v := (INR k * (INR T / INR M))%R).
  assert (Hv : (v * INR M = INR (M * q + r))%R).
  { unfold v. rewrite <- Hdm, mult_INR. field. lra. }
  rewrite plus_INR, mult_INR in Hv.
  assert (Hr' : (0 <= INR r < INR M)%R).
  { split; [apply pos_INR | apply lt_INR; exact Hr]. }
  rewrite <- (Int_part_spec v (Z.of_nat q)); [apply Nat2Z.id|].
  rewrite <- INR_IZR_INZ. split; nra.
Qed.

Lemma segment_average_ok (M T P C : nat) (input inputc : tensor) :
  M <> 0 -> shape input = [T; P; C] -> shape inputc = [M; P; C] ->
  exists r, TTM.segment_average M (INR T / INR M) input inputc = Ok r
            /\ shape r = shape inputc.
Proof.
  intros HM Hin Hc.
  assert (Hgen : forall m, m <= M ->
            exists r, TTM.segment_average m (INR T / INR M) input inputc = Ok r
                      /\ shape r = shape inputc).
  { induction m as [|m IH]; intros Hm.
    - exists inputc. split; [apply for_range_res_empty; lia | reflexivity].
    - destruct IH as (r & Hr & Hrs); [lia|].
      assert (Hlo : m * T / M <= (m + 1) * T / M)
        by (apply Nat.Div0.div_le_mono; nia).
      assert (Hhi : (m + 1) * T / M <= T).
      { apply Nat.Div0.div_le_upper_bound. nia. }
      destruct (segment_add_loop M T P C m (m * T / M) input r
                  ((m + 1) * T / M - m * T / M) Hin)
        as (r1 & Hr1 & Hrs1 & _); [rewrite Hrs; exact Hc | lia | lia |].
      replace (m * T / M + ((m + 1) * T / M - m * T / M)) with ((m + 1) * T / M) in Hr1
        by lia.
      destruct (segment_divide M P C m (INR T / INR M) r1) as (r2 & Hr2 & Hrs2 & _);
        [rewrite Hrs1, Hrs; exact Hc | lia |].
      exists r2. split; [|rewrite Hrs2, Hrs1; exact Hrs].
      unfold TTM.segment_average, TTM.segment_average_with in *. rewrite for_range_res_S by lia.
      rewrite Hr. cbn [rbind]. rewrite !py_int_quot by exact HM.
      rewrite Hr1. cbn [rbind]. exact Hr2. }
  apply Hgen. lia.
Qed.

Lemma TTM_qkv_step_ok (K J H Dh D a : nat) (Wqkv : tensor) (lnorm : LayerNorm)
    (savespace qkvspace : tensor) :
  a < K -> shape Wqkv = [K; 3; H; Dh; D] -> LayerNorm_shaped D lnorm ->
  shape savespace = [J; D] -> shape qkvspace = [K; 3; J; H; Dh] ->
  exists q, TTM.qkv_step Wqkv lnorm a savespace qkvspace = Ok q
            /\ shape q = shape qkvspace.
Proof.
  intros Ha HW Hln Hs Hq. unfold TTM.qkv_step.
  destruct (getitem_ok Wqkv [At a] [3; H; Dh; D]) as (Wa & HWa & HWs & _).
  { rewrite HW. cbn [slice_shape]. ltb_true. reflexivity. }
  rewrite HWa. cbn [rbind].
  destruct (LayerNorm_forward_ok lnorm savespace [J] D Hln Hs) as (z & Hz & Hzs).
  rewrite Hz. cbn [rbind]. rewrite Hs in Hzs.
  destruct (einsum_xhdm_im_xihd Wa z 3 H Dh D J HWs Hzs) as (qkv & Hqkv & Hqs).
  rewrite Hqkv. cbn [rbind].
  destruct (setitem_ok qkvspace qkv [At a]) as (q & Hset & Hsets & _).
  { rewrite Hq, Hqs. cbn [slice_shape]. ltb_true. reflexivity. }
  exists q. split; assumption.
Qed.

Lemma TTM_imv_step_ok (K J H Dh a : nat) (rsaspace qkvspace imv : tensor) :
  a < K -> shape rsaspace = [K; J; H] -> shape qkvspace = [K; 3; J; H; Dh] ->
  shape imv = [K; J; H; Dh] ->
  exists r, TTM.imv_step a rsaspace qkvspace imv = Ok r /\ shape r = shape imv.
Proof.
  intros Ha Hr Hq Hi. unfold TTM.imv_step.
  destruct (getitem_ok rsaspace [At a] [J; H]) as (s & Hs & Hss & _).
  { rewrite Hr. cbn [slice_shape]. ltb_true. reflexivity. }
  rewrite Hs. cbn [rbind].
  destruct (getitem_ok qkvspace [At a; At 2] [J; H; Dh]) as (v & Hv & Hvs & _).
  { rewrite Hq. cbn [slice_shape]. ltb_true. reflexivity. }
  rewrite Hv. cbn [rbind].
  destruct (einsum_ih_ihd_ihd s v J H Dh Hss Hvs) as (iv & Hiv & Hivs).
  rewrite Hiv. cbn [rbind].
  destruct (setitem_ok imv iv [At a]) as (r & Hset & Hsets & _).
  { rewrite Hi, Hivs. cbn [slice_shape]. ltb_true. reflexivity. }
  exists r. split; assumption.
Qed.

Lemma TTM_project_step_ok (K J H Dh D a : nat) (Wo imv savespace : tensor) :
  a < K -> H * Dh = D -> shape Wo = [K; D; D] -> shape imv = [K; J; H; Dh] ->
  shape savespace = [J; D] ->
  exists s, TTM.project_step Wo a [K; J; D] imv savespace = Ok s
            /\ shape s = shape savespace.
Proof.
  intros Ha HD HW Hi Hs. unfold TTM.project_step.
  destruct (getitem_ok Wo [At a] [D; D]) as (Wa & HWa & HWs & _).
  { rewrite HW. cbn [slice_shape]. ltb_true. reflexivity. }
  rewrite HWa. cbn [rbind].
  destruct (reshape_ok imv [K; J; D]) as (r & Hr & Hrs).
  { rewrite Hi, <- HD. cbn [numel fold_right]. lia. }
  rewrite Hr. cbn [rbind].
  destruct (getitem_ok r [At a] [J; D]) as (ra & Hra & Hras & _).
  { rewrite Hrs. cbn [slice_shape]. ltb_true. reflexivity. }
  rewrite Hra. cbn [rbind].
  destruct (einsum_nm_im_in Wa ra D D J HWs Hras) as (o & Ho & Hos).
  rewrite Ho. cbn [rbind].
  destruct (tadd_same o savespace) as (s & Hsum & Hss); [congruence|].
  exists s. split; [exact Hsum | congruence].
Qed.

Section ModuleForwardFacts.
Context {SF : SpecialFunctions}.

Lemma RTM_forward_ok (outer n D : nat) (self : RTM.t) (x : tensor) (w : world) :
  RTM_shaped outer n D self -> RTM.hA self * RTM.Dh self = D ->
  shape x = [outer; n; D] ->
  exists y, RTM.forward self x w = (Ok y, w) /\ shape y = [outer; n + 1; D].
Proof.
  intros (Hin & HM & _ & Hattn) HD Hx. unfold RTM.forward.
  destruct (transpose_3d x outer n D 0 1 Hx) as (x1 & Hx1 & Hs1 & _); [lia | lia |].
  rewrite (bind_lift_ok _ _ _ _ Hx1).
  destruct (transpose_3d x1 n outer D 1 2 Hs1) as (x2 & Hx2 & Hs2 & _); [lia | lia |].
  rewrite (bind_lift_ok _ _ _ _ Hx2). cbn [swap_nth set_nth nth] in Hs2.
  rewrite Hin, HM. cbn [nth].
  apply Block3_run_ok; try assumption. lia.
Qed.

Lemma STM_forward_ok (outer n D : nat) (self : STM.t) (x : tensor) (w : world) :
  STM_shaped outer n D self -> STM.hA self * STM.Dh self = D ->
  shape x = [n; outer; D] ->
  exists y, STM.forward self x w = (Ok y, w) /\ shape y = [outer; n + 1; D].
Proof.
  intros (Hin & HM & _ & Hattn) HD Hx. unfold STM.forward.
  destruct (transpose_3d x n outer D 1 2 Hx) as (x2 & Hx2 & Hs2 & _); [lia | lia |].
  rewrite (bind_lift_ok _ _ _ _ Hx2). cbn [swap_nth set_nth nth] in Hs2.
  rewrite HM, Hs2. cbn [nth].
  apply Block3_run_ok; try assumption. lia.
Qed.

Lemma TTM_block_ok (K J H Dh D nb a : nat) (self : TTM.t) (st : Block3.state) (w : world) :
  a < K -> H * Dh = D -> nb <= J ->
  TTM.tK self = K -> TTM.avgf self = nb -> nb + 1 = J -> TTM.M_size1 self = D ->
  TTM.Dh self = Dh ->
  shape (TTM.Wqkv self) = [K; 3; H; Dh; D] -> shape (TTM.Wo self) = [K; D; D] ->
  LayerNorm_shaped D (TTM.lnorm self) -> LayerNorm_shaped D (TTM.lnormz self) ->
  Mlp_shaped D (D * 4) (TTM.mlp self) ->
  state2_shaped K J H Dh D st ->
  exists st', TTM.block self a st w = (Ok st', w) /\ state2_shaped K J H Dh D st'.
Proof.
  intros Ha HD Hnb HK Havgf HJ HM HDh HWq HWo Hln Hlnz Hmlp Hst.
  destruct st as [[[savespace qkvspace] rsaspace] imv].
  destruct Hst as (Hs & Hq & Hr & Hi).
  unfold TTM.block. rewrite HK, Havgf, HJ, HM, HDh.
  destruct (TTM_qkv_step_ok K J H Dh D a _ _ savespace qkvspace Ha HWq Hln Hs Hq)
    as (q1 & Hq1 & Hq1s).
  rewrite (bind_lift_ok _ _ _ _ Hq1). rewrite Hq in Hq1s.
  destruct (TTM_score_step_spec K J H Dh a q1 rsaspace Ha Hq1s Hr)
    as (r1 & Hr1 & Hr1s & _).
  rewrite (bind_lift_ok _ _ _ _ Hr1). rewrite Hr in Hr1s.
  destruct (TTM_imv_step_ok K J H Dh a r1 q1 imv Ha Hr1s Hq1s Hi) as (i1 & Hi1 & Hi1s).
  rewrite (bind_lift_ok _ _ _ _ Hi1). rewrite Hi in Hi1s.
  destruct (TTM_accumulate_upto K J H Dh a i1 nb Hi1s Ha Hnb) as (i2 & Hi2 & Hi2s & _).
  rewrite (bind_lift_ok _ _ _ _ Hi2). rewrite Hi1s in Hi2s.
  destruct (TTM_project_step_ok K J H Dh D a _ i2 savespace Ha HD HWo Hi2s Hs)
    as (s1 & Hs1 & Hs1s).
  rewrite (bind_lift_ok _ _ _ _ Hs1). rewrite Hs in Hs1s.
  destruct (mlp_step_ok (TTM.mlp self) (TTM.lnormz self) s1 [J] D (D * 4) w Hmlp Hlnz Hs1s)
    as (s2 & Hs2 & Hs2s).
  rewrite (bind_ok _ _ _ _ _ Hs2). rewrite Hs1s in Hs2s.
  unfold ret. eexists. split; [reflexivity|].
  repeat split; assumption.
Qed.

Lemma TTM_forward_ok (T d1 d2 : nat) (self : TTM.t) (x : tensor) (w : world) :
  TTM_shaped T d1 d2 self -> TTM.hA self * TTM.Dh self = d1 * d2 ->
  shape x = [d2; d1; T] ->
  exists y, TTM.forward self x w = (Ok y, w)
            /\ shape y = [TTM.avgf self + 1; d1; d2].
Proof.
  intros Hsh HD Hx. unfold TTM_shaped in Hsh. cbv zeta in Hsh.
  destruct Hsh as (Havgf & Hseg & HM & HDh & Hw & Hb & Hc & HWq & HWo & Hln & Hlnz
                   & Hmlp & Hlnx).
  unfold TTM.forward.
  destruct (transpose_3d x d2 d1 T 0 2 Hx) as (input & Hin & Hins & _); [lia | lia |].
  rewrite (bind_lift_ok _ _ _ _ Hin). cbn [swap_nth set_nth nth] in Hins.
  cbv zeta. rewrite Hins. cbn [nth]. rewrite Hseg.
  destruct (segment_average_ok (TTM.avgf self) T d1 d2 input
              (zeros [TTM.avgf self; d1; d2]) Havgf Hins eq_refl) as (ic & Hic & Hics).
  rewrite (bind_lift_ok _ _ _ _ Hic). cbn [zeros shape] in Hics.
  destruct (reshape_ok ic [TTM.avgf self; d1 * d2]) as (altx & Halt & Halts).
  { rewrite Hics. cbn [numel fold_right]. lia. }
  rewrite (bind_lift_ok _ _ _ _ Halt).
  destruct (einsum_lm_im_il (TTM.weight self) altx (d1 * d2) (d1 * d2) (TTM.avgf self)
              Hw Halts) as (s0 & Hs0 & Hs0s).
  rewrite (bind_lift_ok _ _ _ _ Hs0).
  destruct (cat_dim0_2d (TTM.cls self) s0 1 (TTM.avgf self) (d1 * d2) Hc Hs0s)
    as (s1 & Hs1 & Hs1s).
  rewrite (bind_lift_ok _ _ _ _ Hs1).
  replace (1 + TTM.avgf self) with (TTM.avgf self + 1) in Hs1s by lia.
  destruct (tadd_same s1 (TTM.bias self)) as (s2 & Hs2 & Hs2s); [congruence|].
  rewrite (bind_lift_ok _ _ _ _ Hs2). rewrite Hs1s in Hs2s.
  match goal with |- context [for_range 0 ?k ?body ?s0] =>
    destruct (for_range_invariant
                (state2_shaped (TTM.tK self) (TTM.avgf self + 1) (TTM.hA self)
                   (TTM.Dh self) (d1 * d2)) k body s0)
      with (w := w) as (st & Hst & Hinv) end.
  { intros a st w0 Ha Hinv.
    apply (TTM_block_ok (TTM.tK self) (TTM.avgf self + 1) (TTM.hA self) (TTM.Dh self)
             (d1 * d2) (TTM.avgf self) a); try assumption; try reflexivity. lia. }
  { repeat split; try reflexivity. exact Hs2s. }
  rewrite (bind_ok _ _ _ _ _ Hst).
  destruct st as [[[savespace qkvspace] rsaspace] imv]. destruct Hinv as (Hs & _).
  destruct (LayerNorm_forward_ok (TTM.lnorm_extra self) savespace [TTM.avgf self + 1]
              (d1 * d2) Hlnx Hs) as (z & Hz & Hzs).
  rewrite (bind_lift_ok _ _ _ _ Hz).
  destruct (reshape_ok z [TTM.avgf self + 1; d1; d2]) as (y & Hy & Hys).
  { rewrite Hzs, Hs. cbn [numel fold_right]. lia. }
  unfold lift. rewrite Hy. exists y. split; [reflexivity | exact Hys].
Qed.

End ModuleForwardFacts.

(** ** The decoder and the whole network *)

Lemma Conv1d_new_run (inc outc k g : nat) (w : world) :
  g <> 0 -> inc mod g = 0 -> outc mod g = 0 ->
  exists cv w', Conv1d_new inc outc k g w = (Ok cv, w')
                /\ Conv1d_shaped inc outc k g cv /\ quiet w w'.
Proof.
  intros Hg Hi Ho.
  destruct (Conv1d_new_ok inc outc k g w Hg Hi Ho) as (cv & w' & Hcv).
  exists cv, w'. split; [exact Hcv|].
  apply Conv1d_new_inv in Hcv as (_ & _ & _ & H1 & H2 & H3 & H4 & H5 & H6 & H7 & H8).
  split; [repeat split; assumption | split; assumption].
Qed.

Lemma Conv1d_forward_2d_ok (cv : Conv1d) (x : tensor) (inc outc k g l : nat) :
  Conv1d_shaped inc outc k g cv -> g <= outc -> shape x = [inc; l] -> k <= l ->
  exists y, Conv1d_forward cv x = Ok y /\ shape y = [outc; l - k + 1].
Proof.
  intros (Hi & Ho & Hk & Hg & _) Hgo Hs Hkl.
  assert (Hle : groups cv <= out_channels cv) by lia.
  destruct (Conv1d_forward_2d cv x inc l Hle Hs (eq_sym Hi)) as [Hok _].
  rewrite Hk, Ho in Hok. apply Hok. exact Hkl.
Qed.

Lemma Conv1d_forward_3d_ok (cv : Conv1d) (x : tensor) (inc outc k g n l : nat) :
  Conv1d_shaped inc outc k g cv -> g <= outc -> shape x = [n; inc; l] -> k <= l ->
  exists y, Conv1d_forward cv x = Ok y /\ shape y = [n; outc; l - k + 1].
Proof.
  intros (Hi & Ho & Hk & Hg & _) Hgo Hs Hkl. unfold Conv1d_forward.
  replace (out_channels cv <? groups cv) with false
    by (symmetry; apply Nat.ltb_ge; lia).
  rewrite Hs, Hi, Hk, Ho, Nat.eqb_refl. cbn [andb].
  rewrite (proj2 (Nat.leb_le k l) Hkl). eexists; split; reflexivity.
Qed.

Lemma ODCM_init_shaped (C K : nat) (w w' : world) (m : ODCM.t) :
  ODCM.init C K w = (Ok m, w') -> C <> 0 /\ ODCM_shaped C K m /\ quiet w w'.
Proof.
  unfold ODCM.init. intros H.
  apply bind_inv in H as (c1 & w1 & H1 & H).
  apply bind_inv in H as (c2 & w2 & H2 & H).
  apply bind_inv in H as (c3 & w3 & H3 & H).
  apply ret_inv in H as [-> ->].
  apply Conv1d_new_inv in H1 as (Hg & _ & _ & Hi1 & Ho1 & Hk1 & Hg1 & Hw1 & Hb1 & Hs1 & Hr1).
  rewrite Ho1 in H2.
  apply Conv1d_new_inv in H2 as (_ & _ & _ & Hi2 & Ho2 & Hk2 & Hg2 & Hw2 & Hb2 & Hs2 & Hr2).
  rewrite Ho2 in H3.
  apply Conv1d_new_inv in H3 as (_ & _ & _ & Hi3 & Ho3 & Hk3 & Hg3 & Hw3 & Hb3 & Hs3 & Hr3).
  split; [exact Hg|]. split.
  - unfold ODCM_shaped, Conv1d_shaped. cbn. repeat split; assumption.
  - split; congruence.
Qed.

Lemma ODCM_forward_ok (C K T : nat) (m : ODCM.t) (x : tensor) :
  ODCM_shaped C K m -> 1 <= K -> 3 * (K - 1) < T -> shape x = [C; T] ->
  exists y, ODCM.forward m x = Ok y /\ shape y = [C; 120; T - 3 * (K - 1)].
Proof.
  intros (Hncf & H1 & H2 & H3) HK HT Hx.
  destruct H1 as (Hi1 & Ho1 & Hk1 & Hg1 & _). destruct H2 as (Hi2 & Ho2 & Hk2 & Hg2 & _).
  destruct H3 as (Hi3 & Ho3 & Hk3 & Hg3 & _).
  destruct (ODCM_forward_fields C K T m x) as [Hok _]; try assumption.
  apply Hok. exact HT.
Qed.

Lemma CNNdecoder_init_run (input : tensor) (d0 d1 d2 num_cls n : nat) (w : world) :
  shape input = [d0; d1; d2] ->
  exists self w',
    CNNdecoder.init input num_cls n w = (Ok self, w')
    /\ CNNdecoder_shaped d1 d2 d0 n num_cls self /\ quiet w w'.
Proof.
  intros Hs. unfold CNNdecoder.init.
  destruct (transpose_3d input d0 d1 d2 0 1 Hs) as (x1 & Hx1 & Hs1 & _); [lia | lia |].
  rewrite (bind_lift_ok _ _ _ _ Hx1).
  destruct (transpose_3d x1 d1 d0 d2 1 2 Hs1) as (x2 & Hx2 & Hs2 & _); [lia | lia |].
  rewrite (bind_lift_ok _ _ _ _ Hx2). cbv zeta. rewrite Hs2. cbn [swap_nth set_nth nth].
  destruct (Conv1d_new_run d2 1 1 1 w) as (c1 & w1 & H1 & Hc1 & Hq1);
    [lia | apply Nat.mod_1_r | apply Nat.mod_1_r |].
  rewrite (bind_ok _ _ _ _ _ H1).
  destruct (Conv1d_new_run d1 n 1 1 w1) as (c2 & w2 & H2 & Hc2 & Hq2);
    [lia | apply Nat.mod_1_r | apply Nat.mod_1_r |].
  rewrite (bind_ok _ _ _ _ _ H2).
  destruct (Conv1d_new_run d0 (d0 / 2) 1 1 w2) as (c3 & w3 & H3 & Hc3 & Hq3);
    [lia | apply Nat.mod_1_r | apply Nat.mod_1_r |].
  rewrite (bind_ok _ _ _ _ _ H3).
  destruct (Linear_new_run (d0 / 2 * n) num_cls w3) as (fc & w4 & H4 & Hc4 & Hq4).
  rewrite (bind_ok _ _ _ _ _ H4). unfold ret.
  eexists; eexists. split; [reflexivity|]. split.
  - exact (conj Hc1 (conj Hc2 (conj Hc3 Hc4))).
  - eapply quiet_trans; [exact Hq1|]. eapply quiet_trans; [exact Hq2|].
    eapply quiet_trans; eassumption.
Qed.

Lemma CNNdecoder_forward_ok (s c m n num_cls : nat) (self : CNNdecoder.t) (x : tensor) :
  CNNdecoder_shaped s c m n num_cls self -> 2 <= m -> 1 <= n ->
  shape x = [m; s; c] ->
  exists y, CNNdecoder.forward self x = Ok y /\ shape y = [1; num_cls].
Proof.
  intros (H1 & H2 & H3 & H4) Hm2 Hn Hx.
  assert (Hm : 1 <= m) by lia.
  assert (Hhalf : 1 <= m / 2) by (apply Nat.div_le_lower_bound; lia).
  unfold CNNdecoder.forward.
  destruct (transpose_3d x m s c 0 1 Hx) as (x1 & Hx1 & Hs1 & _); [lia | lia |].
  rewrite Hx1. cbn [rbind].
  destruct (transpose_3d x1 s m c 1 2 Hs1) as (x2 & Hx2 & Hs2 & _); [lia | lia |].
  rewrite Hx2. cbn [rbind]. cbn [swap_nth set_nth nth] in Hs2.
  destruct (Conv1d_forward_3d_ok _ x2 c 1 1 1 s m H1 (le_n 1) Hs2 Hm) as (x3 & Hx3 & Hs3).
  rewrite Hx3. cbn [rbind]. replace (m - 1 + 1) with m in Hs3 by lia.
  destruct (getitem_ok x3 [All; At 0; All] [s; m]) as (x4 & Hx4 & Hs4 & _).
  { rewrite Hs3. reflexivity. }
  rewrite Hx4. cbn [rbind].
  destruct (Conv1d_forward_2d_ok _ x4 s n 1 1 m H2 Hn Hs4 Hm) as (x5 & Hx5 & Hs5).
  rewrite Hx5. cbn [rbind]. replace (m - 1 + 1) with m in Hs5 by lia.
  assert (Hx6 : exists x6, transpose x5 0 1 = Ok x6 /\ shape x6 = [m; n]).
  { unfold transpose. rewrite Hs5. cbn. eexists; split; reflexivity. }
  destruct Hx6 as (x6 & Hx6 & Hs6). rewrite Hx6. cbn [rbind].
  destruct (Conv1d_forward_2d_ok _ x6 m (m / 2) 1 1 n H3 Hhalf Hs6 Hn) as (x7 & Hx7 & Hs7).
  rewrite Hx7. cbn [rbind]. replace (n - 1 + 1) with n in Hs7 by lia.
  unfold shape_at. rewrite Hs7. cbn [nth_error rbind].
  destruct (reshape_ok x7 [1; m / 2 * n]) as (x8 & Hx8 & Hs8).
  { rewrite Hs7. cbn [numel fold_right]. lia. }
  rewrite Hx8. cbn [rbind].
  destruct (Linear_forward_ok _ x8 [1] (m / 2 * n) num_cls H4 Hs8) as (y & Hy & Hys).
  exists y. split; assumption.
Qed.

(** A convolution whose weight has fewer output channels than groups is
    rejected whatever the input. *)
Lemma Conv1d_forward_no_output (cv : Conv1d) (x : tensor) :
  out_channels cv < groups cv -> Conv1d_forward cv x = Err ShapeError.
Proof.
  intros H. unfold Conv1d_forward.
  rewrite (proj2 (Nat.ltb_lt _ _) H). reflexivity.
Qed.

(** With one submatrix the third convolution has int(1 / 2) = 0 output
    channels, and with CF_second = 0 the second one has none: the
    constructor accepts both, the forward pass fails. *)
Lemma CNNdecoder_forward_rejects (s c m n num_cls : nat) (self : CNNdecoder.t)
    (x : tensor) :
  CNNdecoder_shaped s c m n num_cls self -> 1 <= m -> shape x = [m; s; c] ->
  m = 1 \/ n = 0 -> CNNdecoder.forward self x = Err ShapeError.
Proof.
  intros (H1 & H2 & H3 & H4) Hm Hx Hbad. unfold CNNdecoder.forward.
  destruct (transpose_3d x m s c 0 1 Hx) as (x1 & Hx1 & Hs1 & _); [lia | lia |].
  rewrite Hx1. cbn [rbind].
  destruct (transpose_3d x1 s m c 1 2 Hs1) as (x2 & Hx2 & Hs2 & _); [lia | lia |].
  rewrite Hx2. cbn [rbind]. cbn [swap_nth set_nth nth] in Hs2.
  destruct (Conv1d_forward_3d_ok _ x2 c 1 1 1 s m H1 (le_n 1) Hs2 Hm) as (x3 & Hx3 & Hs3).
  rewrite Hx3. cbn [rbind]. replace (m - 1 + 1) with m in Hs3 by lia.
  destruct (getitem_ok x3 [All; At 0; All] [s; m]) as (x4 & Hx4 & Hs4 & _).
  { rewrite Hs3. reflexivity. }
  rewrite Hx4. cbn [rbind].
  destruct (Nat.eq_dec n 0) as [Hn0|Hn0].
  - rewrite Conv1d_forward_no_output; [reflexivity|].
    destruct H2 as (_ & Ho & _ & Hg & _). lia.
  - destruct (Conv1d_forward_2d_ok _ x4 s n 1 1 m H2 ltac:(lia) Hs4 Hm)
      as (x5 & Hx5 & Hs5).
    rewrite Hx5. cbn [rbind]. replace (m - 1 + 1) with m in Hs5 by lia.
    assert (Hx6 : exists x6, transpose x5 0 1 = Ok x6 /\ shape x6 = [m; n]).
    { unfold transpose. rewrite Hs5. cbn. eexists; split; reflexivity. }
    destruct Hx6 as (x6 & Hx6 & Hs6). rewrite Hx6. cbn [rbind].
    rewrite Conv1d_forward_no_output; [reflexivity|].
    destruct H3 as (_ & Ho & _ & Hg & _).
    assert (Hm1 : m = 1) by (destruct Hbad; [assumption | contradiction]).
    rewrite Ho, Hg, Hm1. cbn. lia.
Qed.

(** *** Softmax *)

Lemma rsum_pos (n : nat) (f : nat -> R) :
  0 < n -> (forall k, k < n -> (0 < f k)%R) -> (0 < rsum n f)%R.
Proof.
  intros Hn Hf. induction n as [|n IH]; [lia|].
  cbn [rsum]. destruct n as [|n].
  - cbn [rsum]. specialize (Hf 0 ltac:(lia)). lra.
  - assert (0 < rsum (S n) f)%R by (apply IH; [lia | intros; apply Hf; lia]).
    specialize (Hf (S n) ltac:(lia)). lra.
Qed.

Lemma rsum_div (n : nat) (f : nat -> R) (s : R) :
  rsum n (fun k => (f k / s)%R) = (rsum n f / s)%R.
Proof.
  induction n as [|n IH]; cbn [rsum]; [unfold Rdiv; ring|].
  rewrite IH. unfold Rdiv. ring.
Qed.

Lemma softmax1_distribution (x : tensor) (c : nat) :
  shape x = [1; c] -> 1 <= c ->
  exists y, softmax1 x = Ok y /\ shape y = [1; c] /\
    (forall j, j < c -> (0 <= data y [0; j]%nat)%R) /\
    rsum c (fun j => data y [0; j]) = 1%R.
Proof.
  intros Hs Hc. unfold softmax1. rewrite Hs.
  eexists. split; [reflexivity|]. split; [reflexivity|].
  assert (Hpos : (0 < rsum c (fun j => exp (data x [0; j]%nat)))%R).
  { apply rsum_pos; [lia | intros; apply exp_pos]. }
  split.
  - intros j Hj. cbn [data nth]. left. apply Rdiv_lt_0_compat; [apply exp_pos | exact Hpos].
  - cbn [data nth]. rewrite rsum_div. field. lra.
Qed.

Lemma zeros_outshape1_ok (d0 d1 t k : nat) :
  1 <= k -> 3 * (k - 1) <= t ->
  zeros_outshape1 d0 d1 t k = Ok (zeros [d0; d1; t - 3 * (k - 1)]).
Proof.
  intros Hk Ht. unfold zeros_outshape1. cbv zeta.
  destruct (Z.ltb_spec (Z.of_nat t - 3 * (Z.of_nat k - 1)) 0) as [Hlt|Hge]; [lia|].
  repeat f_equal. lia.
Qed.

Lemma zeros_outshape1_inv (d0 d1 t k : nat) (x : tensor) :
  1 <= k -> zeros_outshape1 d0 d1 t k = Ok x ->
  3 * (k - 1) <= t /\ shape x = [d0; d1; t - 3 * (k - 1)].
Proof.
  intros Hk. unfold zeros_outshape1. cbv zeta.
  destruct (Z.ltb_spec (Z.of_nat t - 3 * (Z.of_nat k - 1)) 0) as [Hlt|Hge];
    [discriminate|].
  intros H. split; [lia|].
  assert (Hx : x = zeros [d0; d1; Z.to_nat (Z.of_nat t - 3 * (Z.of_nat k - 1))])
    by congruence.
  rewrite Hx. unfold zeros. cbn [shape]. f_equal. f_equal. f_equal. lia.
Qed.

Section NetworkFacts.
Context {SF : SpecialFunctions}.

Lemma EEGformer_init_run (input : tensor) (T : nat) (rest : list nat)
    (num_cls C K tK hr hs ht avgf cfs : nat) (w : world) :
  shape input = T :: rest -> 1 <= K -> 3 * (K - 1) <= T ->
  C <> 0 -> hr <> 0 -> hs <> 0 -> ht <> 0 -> avgf <> 0 ->
  exists self w',
    EEGformer.init input num_cls C K tK hr hs ht avgf cfs w = (Ok self, w')
    /\ EEGformer_shaped C K (T - 3 * (K - 1)) self
    /\ EEGformer.num_cls self = num_cls /\ EEGformer.cfs self = cfs
    /\ TTM.avgf (EEGformer.ttm self) = avgf
    /\ RTM.hA (EEGformer.rtm self) = hr /\ STM.hA (EEGformer.stm self) = hs
    /\ TTM.hA (EEGformer.ttm self) = ht.
Proof.
  intros Hs HK HT HC Hhr Hhs Hht Havgf. unfold EEGformer.init. cbv zeta.
  assert (Ht0 : shape_at input 0 = Ok T) by (unfold shape_at; rewrite Hs; reflexivity).
  rewrite (bind_lift_ok _ _ _ _ Ht0).
  rewrite (bind_lift_ok _ _ _ _ (zeros_outshape1_ok C 120 T K HK HT)).
  cbn [zeros shape nth].
  destruct (ODCM_init_ok C K w HC) as (odcm & w1 & Hodcm).
  rewrite (bind_ok _ _ _ _ _ Hodcm).
  apply ODCM_init_shaped in Hodcm as (_ & Hodcm_s & _).
  destruct (RTM_init_run (zeros [C; 120; T - 3 * (K - 1)]) C 120 (T - 3 * (K - 1))
              tK hr w1 eq_refl Hhr) as (rtm & w2 & Hrtm & Hrtm_s & _ & Hrh & _).
  rewrite (bind_ok _ _ _ _ _ Hrtm).
  destruct (STM_init_run (zeros [C; 120 + 1; T - 3 * (K - 1)]) C 121 (T - 3 * (K - 1))
              tK hs w2 eq_refl Hhs) as (stm & w3 & Hstm & Hstm_s & _ & Hsh & _).
  rewrite (bind_ok _ _ _ _ _ Hstm).
  destruct (TTM_init_run (zeros [120 + 1; C + 1; T - 3 * (K - 1)]) 121 (C + 1)
              (T - 3 * (K - 1)) avgf tK ht w3 eq_refl Havgf Hht)
    as (ttm & w4 & Httm & Httm_s & Hta & _ & Hth & _).
  rewrite (bind_ok _ _ _ _ _ Httm).
  destruct (CNNdecoder_init_run (zeros [avgf + 1; C + 1; 120 + 1]) (avgf + 1) (C + 1) 121
              num_cls cfs w4 eq_refl) as (dec & w5 & Hdec & Hdec_s & _).
  rewrite (bind_ok _ _ _ _ _ Hdec). unfold ret.
  eexists; eexists. split; [reflexivity|]. cbn.
  split; [|repeat split; assumption].
  unfold EEGformer_shaped. cbn. rewrite Hta.
  repeat split; try assumption; try apply Hodcm_s; try apply Hrtm_s; try apply Hstm_s;
    try apply Httm_s; try apply Hdec_s.
Qed.

Lemma EEGformer_init_inv (input : tensor)
    (num_cls C K tK hr hs ht avgf cfs : nat) (w w' : world) (self : EEGformer.t) :
  1 <= K ->
  EEGformer.init input num_cls C K tK hr hs ht avgf cfs w = (Ok self, w') ->
  exists T rest,
    shape input = T :: rest /\ 3 * (K - 1) <= T /\
    C <> 0 /\ hr <> 0 /\ hs <> 0 /\ ht <> 0 /\ avgf <> 0
    /\ EEGformer_shaped C K (T - 3 * (K - 1)) self
    /\ EEGformer.num_cls self = num_cls /\ EEGformer.cfs self = cfs
    /\ TTM.avgf (EEGformer.ttm self) = avgf
    /\ RTM.hA (EEGformer.rtm self) = hr /\ STM.hA (EEGformer.stm self) = hs
    /\ TTM.hA (EEGformer.ttm self) = ht.
Proof.
  intros HK Hinit. pose proof Hinit as H. unfold EEGformer.init in H. cbv zeta in H.
  apply bind_inv in H as (T & w0 & Ht0 & H). apply lift_inv in Ht0 as [Ht0 ->].
  apply bind_inv in H as (o1 & w0 & Ho1 & H). apply lift_inv in Ho1 as [Ho1 ->].
  apply (zeros_outshape1_inv _ _ _ _ _ HK) in Ho1 as [HT Ho1s].
  rewrite Ho1s in H. cbn [zeros shape nth] in H.
  apply bind_inv in H as (odcm & w1 & Hodcm & H).
  apply ODCM_init_shaped in Hodcm as (HC & _).
  apply bind_inv in H as (rtm & w2 & Hrtm & H).
  apply (RTM_init_inv _ _ _ _ _ _ _ _ _ Ho1s) in Hrtm as (Hhr & _).
  apply bind_inv in H as (stm & w3 & Hstm & H).
  apply STM_init_inv with (d0 := C) (d1 := 121) (d2 := T - 3 * (K - 1)) in Hstm;
    [|reflexivity]. destruct Hstm as (Hhs & _).
  apply bind_inv in H as (ttm & w4 & Httm & H).
  apply TTM_init_inv with (d0 := 121) (d1 := C + 1) (d2 := T - 3 * (K - 1)) in Httm;
    [|reflexivity]. destruct Httm as (Havgf & Hht & _).
  assert (Hsh : exists rest, shape input = T :: rest).
  { unfold shape_at in Ht0. destruct (shape input) as [|d rest]; [discriminate|].
    cbn in Ht0. inversion Ht0; subst. eauto. }
  destruct Hsh as (rest & Hsh).
  destruct (EEGformer_init_run input T rest num_cls C K tK hr hs ht avgf cfs w
              Hsh HK HT HC Hhr Hhs Hht Havgf) as (self2 & w2' & Hrun & Hfacts).
  rewrite Hrun in Hinit. inversion Hinit; subst.
  exists T, rest. repeat split; try assumption; apply Hfacts.
Qed.

Lemma EEGformer_forward_ok (C K T' T : nat) (self : EEGformer.t) (x : tensor) (w : world) :
  EEGformer_shaped C K T' self -> 1 <= K -> 3 * (K - 1) < T -> T' = T - 3 * (K - 1) ->
  RTM.hA (EEGformer.rtm self) * RTM.Dh (EEGformer.rtm self) = T' ->
  STM.hA (EEGformer.stm self) * STM.Dh (EEGformer.stm self) = T' ->
  TTM.hA (EEGformer.ttm self) * TTM.Dh (EEGformer.ttm self) = (C + 1) * 121 ->
  1 <= EEGformer.cfs self -> 1 <= EEGformer.num_cls self ->
  shape x = [T; C] ->
  exists y,
    EEGformer.forward self x w = (Ok y, w) /\
    (exists z logits,
       CNNdecoder.forward (EEGformer.cnndecoder self) z = Ok logits /\
       shape logits = [1; EEGformer.num_cls self] /\ softmax1 logits = Ok y) /\
    shape y = [1; EEGformer.num_cls self] /\
    (forall j, j < EEGformer.num_cls self -> (0 <= data y [0; j]%nat)%R) /\
    rsum (EEGformer.num_cls self) (fun j => data y [0; j]) = 1%R.
Proof.
  intros (Hodcm & Hrtm & Hstm & Httm & Hdec) HK HT HT' Hhr Hhs Hht Hcfs Hcls Hx.
  unfold EEGformer.forward.
  assert (Hx0 : exists x0, transpose x 0 1 = Ok x0 /\ shape x0 = [C; T]).
  { unfold transpose. rewrite Hx. cbn. eexists; split; reflexivity. }
  destruct Hx0 as (x0 & Hx0 & Hs0). rewrite (bind_lift_ok _ _ _ _ Hx0).
  destruct (ODCM_forward_ok C K T _ x0 Hodcm HK HT Hs0) as (x1 & Hx1 & Hs1).
  rewrite (bind_lift_ok _ _ _ _ Hx1). rewrite <- HT' in Hs1.
  destruct (RTM_forward_ok C 120 T' _ x1 w Hrtm Hhr Hs1) as (x2 & Hx2 & Hs2).
  rewrite (bind_ok _ _ _ _ _ Hx2). cbn [Nat.add] in Hs2.
  destruct (STM_forward_ok 121 C T' _ x2 w Hstm Hhs Hs2) as (x3 & Hx3 & Hs3).
  rewrite (bind_ok _ _ _ _ _ Hx3).
  destruct (TTM_forward_ok T' (C + 1) 121 _ x3 w Httm Hht Hs3) as (x4 & Hx4 & Hs4).
  rewrite (bind_ok _ _ _ _ _ Hx4).
  assert (Havg0 : TTM.avgf (EEGformer.ttm self) <> 0).
  { pose proof Httm as Htmp. unfold TTM_shaped in Htmp. cbv zeta in Htmp.
    destruct Htmp as [Havg0 _]. exact Havg0. }
  destruct (CNNdecoder_forward_ok _ _ _ _ _ _ x4 Hdec) as (x5 & Hx5 & Hs5);
    [lia | exact Hcfs | exact Hs4 |].
  rewrite (bind_lift_ok _ _ _ _ Hx5).
  destruct (softmax1_distribution x5 _ Hs5 Hcls) as (y & Hy & Hys & Hpos & Hsum).
  unfold lift. rewrite Hy. exists y. split; [reflexivity|].
  split; [exists x4, x5; repeat split; assumption|].
  repeat split; assumption.
Qed.

End NetworkFacts.

(** C6. For a network built by EEGformer(...) with kernel size K >= 1 for
    inputs of T time steps and C channels with T > 3*(K-1), head counts
    dividing the feature sizes (T - 3*(K-1) for RTM and STM, (C+1)*121 for
    TTM), at least one class and a decoder factor CF_second >= 1: the
    forward pass on any input of shape [T, C] (the signal [C, T] before the
    transpose at the start of forward) returns, without touching the world,
    a tensor of shape [1, num_cls] whose entries are non-negative and sum
    to 1; it is the softmax of what the decoder returns, the output of the
    decoder's final linear layer.  Entries are reals.  The scenario C = 19, T = 256, K = 10, two
    blocks, two classes and M = 4 is an instance. *)
Theorem eegformer_forward_distribution {SF : SpecialFunctions}
    (input x : tensor) (num_cls C K tK hr hs ht avgf cfs T : nat)
    (w0 w1 w : world) (self : EEGformer.t) :
  EEGformer.init input num_cls C K tK hr hs ht avgf cfs w0 = (Ok self, w1) ->
  shape input = [T; C] -> shape x = [T; C] ->
  1 <= K -> 3 * (K - 1) < T ->
  (T - 3 * (K - 1)) mod hr = 0 -> (T - 3 * (K - 1)) mod hs = 0 ->
  ((C + 1) * 121) mod ht = 0 ->
  1 <= cfs -> 1 <= num_cls ->
  exists y,
    EEGformer.forward self x w = (Ok y, w) /\
    (exists z logits,
       CNNdecoder.forward (EEGformer.cnndecoder self) z = Ok logits /\
       shape logits = [1; num_cls] /\ softmax1 logits = Ok y) /\
    shape y = [1; num_cls] /\
    (forall j, j < num_cls -> (0 <= data y [0; j]%nat)%R) /\
    rsum num_cls (fun j => data y [0; j]) = 1%R.
Proof.
  intros Hinit Hin Hx HK HT Hdr Hds Hdt Hcfs Hcls.
  destruct (EEGformer_init_inv _ _ _ _ _ _ _ _ _ _ _ _ _ HK Hinit)
    as (T0 & rest & Hsh & _ & _ & Hhr & Hhs & Hht & _ & Hshaped & Hnc & Hcf & _
        & Hrh & Hsh' & Hth).
  rewrite Hin in Hsh. injection Hsh as <- _.
  pose proof Hshaped as (_ & (_ & _ & HrD & _) & (_ & _ & HsD & _) & Httm & _).
  unfold TTM_shaped in Httm. cbv zeta in Httm.
  destruct Httm as (_ & _ & _ & HtD & _).
  rewrite <- Hnc.
  apply (EEGformer_forward_ok C K (T - 3 * (K - 1)) T); try assumption;
    try reflexivity; try lia.
  - rewrite HrD, Hrh. symmetry. apply Nat.Div0.div_exact. exact Hdr.
  - rewrite HsD, Hsh'. symmetry. apply Nat.Div0.div_exact. exact Hds.
  - rewrite HtD, Hth. symmetry. apply Nat.Div0.div_exact. exact Hdt.
Qed.

Lemma eegformer_forward_distribution_witness :
  exists self w1 y,
    EEGformer.init (SF := stand_in) (zeros [256; 19]) 2 19 10 2 1 1 4 4 1 world0
    = (Ok self, w1)
    /\ EEGformer.forward (SF := stand_in) self (zeros [256; 19]) w1 = (Ok y, w1)
    /\ shape y = [1; 2]
    /\ (0 <= data y [0; 0]%nat)%R /\ (0 <= data y [0; 1]%nat)%R
    /\ (data y [0; 0]%nat + data y [0; 1]%nat = 1)%R.
Proof.
  destruct (EEGformer_init_run (SF := stand_in) (zeros [256; 19]) 256 [19]
              2 19 10 2 1 1 4 4 1 world0 eq_refl)
    as (self & w1 & Hinit & _); try lia.
  destruct (eegformer_forward_distribution (SF := stand_in)
              (zeros [256; 19]) (zeros [256; 19])
              2 19 10 2 1 1 4 4 1 256 world0 w1 w1 self Hinit eq_refl eq_refl)
    as (y & Hy & _ & Hs & Hpos & Hsum); try lia; try reflexivity.
  exists self, w1, y. split; [exact Hinit|]. split; [exact Hy|]. split; [exact Hs|].
  split; [apply Hpos; lia|]. split; [apply Hpos; lia|].
  cbn [rsum] in Hsum. lra.
Defined.

(** ** Purity of the forward pass *)

Lemma pure_ret {A : Type} (a : A) : pure (ret a).
Proof. exists (Ok a). reflexivity. Qed.

Lemma pure_lift {A : Type} (r : result A) : pure (lift r).
Proof. exists r. reflexivity. Qed.

Lemma pure_bind {A B : Type} (m : M A) (k : A -> M B) :
  pure m -> (forall a, pure (k a)) -> pure (bind m k).
Proof.
  intros [r Hr] Hk. destruct r as [a|e].
  - destruct (Hk a) as [rb Hb]. exists rb. intros w. unfold bind. rewrite Hr. apply Hb.
  - exists (Err e). intros w. unfold bind. rewrite Hr. reflexivity.
Qed.

Lemma pure_for_range {S : Type} (lo hi : nat) (body : nat -> S -> M S) (s : S) :
  (forall a st, pure (body a st)) -> pure (for_range lo hi body s).
Proof.
  intros Hbody. unfold for_range. generalize (seq lo (hi - lo)) as l.
  assert (Hgen : forall l (m : M S), pure m ->
            pure (fold_left (fun m x => bind m (body x)) l m)).
  { induction l as [|a l IH]; intros m Hm; cbn [fold_left]; [exact Hm|].
    apply IH. apply pure_bind; [exact Hm | intros st; apply Hbody]. }
  intros l. apply Hgen. apply pure_ret.
Qed.

Section PurityFacts.
Context {SF : SpecialFunctions}.

Lemma pure_Mlp_forward (m : Mlp.t) (x : tensor) :
  p (Mlp.drop m) = 0%R -> pure (Mlp.forward m x).
Proof.
  intros Hp. unfold Mlp.forward.
  apply pure_bind; [apply pure_lift|]. intros x1.
  rewrite (Dropout_forward_zero _ _ Hp).
  apply pure_bind; [apply pure_ret|]. intros x2.
  apply pure_bind; [apply pure_lift|]. intros x3.
  rewrite (Dropout_forward_zero _ _ Hp).
  apply pure_bind; [apply pure_ret|]. intros x4. apply pure_ret.
Qed.

Lemma pure_mlp_step (m : Mlp.t) (ln : LayerNorm) (x : tensor) :
  p (Mlp.drop m) = 0%R -> pure (Block3.mlp_step m ln x).
Proof.
  intros Hp. unfold Block3.mlp_step.
  apply pure_bind; [apply pure_lift|]. intros z.
  apply pure_bind; [apply pure_Mlp_forward; exact Hp|]. intros h. apply pure_lift.
Qed.

Lemma pure_Block3_run (weight bias cls Wqkv Wo : tensor) (lnorm lnormz : LayerNorm)
    (mlp : Mlp.t) (tK hA Dh D nb : nat) (x : tensor) :
  p (Mlp.drop mlp) = 0%R ->
  pure (Block3.run weight bias cls Wqkv Wo lnorm lnormz mlp tK hA Dh D nb x).
Proof.
  intros Hp. unfold Block3.run. cbv zeta.
  apply pure_bind; [apply pure_lift|]. intros s0.
  apply pure_bind; [apply pure_lift|]. intros s1.
  apply pure_bind; [apply pure_lift|]. intros s2.
  apply pure_bind.
  - apply pure_for_range. intros a [[[savespace qkvspace] rsaspace] imv].
    unfold Block3.block.
    apply pure_bind; [apply pure_lift|]. intros q.
    apply pure_bind; [apply pure_lift|]. intros r.
    apply pure_bind; [apply pure_lift|]. intros i1.
    apply pure_bind; [apply pure_lift|]. intros i2.
    apply pure_bind; [apply pure_lift|]. intros s3.
    apply pure_bind; [apply pure_mlp_step; exact Hp|]. intros s4. apply pure_ret.
  - intros [[[savespace qkvspace] rsaspace] imv]. apply pure_ret.
Qed.

Lemma pure_RTM_forward (self : RTM.t) (x : tensor) :
  p (Mlp.drop (RTM.mlp self)) = 0%R -> pure (RTM.forward self x).
Proof.
  intros Hp. unfold RTM.forward.
  apply pure_bind; [apply pure_lift|]. intros x1.
  apply pure_bind; [apply pure_lift|]. intros x2.
  apply pure_Block3_run. exact Hp.
Qed.

Lemma pure_STM_forward (self : STM.t) (x : tensor) :
  p (Mlp.drop (STM.mlp self)) = 0%R -> pure (STM.forward self x).
Proof.
  intros Hp. unfold STM.forward.
  apply pure_bind; [apply pure_lift|]. intros x1.
  apply pure_Block3_run. exact Hp.
Qed.

Lemma pure_TTM_forward (self : TTM.t) (x : tensor) :
  p (Mlp.drop (TTM.mlp self)) = 0%R -> pure (TTM.forward self x).
Proof.
  intros Hp. unfold TTM.forward.
  apply pure_bind; [apply pure_lift|]. intros input. cbv zeta.
  apply pure_bind; [apply pure_lift|]. intros inputc.
  apply pure_bind; [apply pure_lift|]. intros altx.
  apply pure_bind; [apply pure_lift|]. intros s0.
  apply pure_bind; [apply pure_lift|]. intros s1.
  apply pure_bind; [apply pure_lift|]. intros s2.
  apply pure_bind.
  - apply pure_for_range. intros a [[[savespace qkvspace] rsaspace] imv].
    unfold TTM.block.
    apply pure_bind; [apply pure_lift|]. intros q.
    apply pure_bind; [apply pure_lift|]. intros r.
    apply pure_bind; [apply pure_lift|]. intros i1.
    apply pure_bind; [apply pure_lift|]. intros i2.
    apply pure_bind; [apply pure_lift|]. intros s3.
    apply pure_bind; [apply pure_mlp_step; exact Hp|]. intros s4. apply pure_ret.
  - intros [[[savespace qkvspace] rsaspace] imv].
    apply pure_bind; [apply pure_lift|]. intros z. apply pure_lift.
Qed.

Lemma pure_EEGformer_forward (self : EEGformer.t) (x : tensor) :
  p (Mlp.drop (RTM.mlp (EEGformer.rtm self))) = 0%R ->
  p (Mlp.drop (STM.mlp (EEGformer.stm self))) = 0%R ->
  p (Mlp.drop (TTM.mlp (EEGformer.ttm self))) = 0%R ->
  pure (EEGformer.forward self x).
Proof.
  intros Hr Hs Ht. unfold EEGformer.forward.
  apply pure_bind; [apply pure_lift|]. intros x0.
  apply pure_bind; [apply pure_lift|]. intros x1.
  apply pure_bind; [apply pure_RTM_forward; exact Hr|]. intros x2.
  apply pure_bind; [apply pure_STM_forward; exact Hs|]. intros x3.
  apply pure_bind; [apply pure_TTM_forward; exact Ht|]. intros x4.
  apply pure_bind; [apply pure_lift|]. intros x5. apply pure_lift.
Qed.

(** Dropout with a probability strictly between 0 and 1 in training mode
    reads the generator (one draw per entry in this model): the world is
    threaded for a reason. *)
Lemma Dropout_training_consumes (x : tensor) (w : world) :
  cursor (snd (Dropout_forward (mkDropout (1 / 2) true) x w))
  = cursor w + numel (shape x).
Proof.
  unfold Dropout_forward. cbn [p training negb].
  destruct (Req_dec_T (1 / 2) 0) as [Hz|_]; [lra|].
  destruct (Req_dec_T (1 / 2) 1) as [Hz|_]; [lra|]. reflexivity.
Qed.

End PurityFacts.

(** C9. For a network built by EEGformer(...) (kernel size K >= 1), the
    forward pass neither reads nor changes the world: there is one result,
    a tensor or an error, that every invocation on the same input returns,
    whatever the state of the random generator and the printed output, and
    it leaves that state as it found it.  The parameters are the value
    [self], which forward only reads. *)
Theorem eegformer_forward_pure {SF : SpecialFunctions}
    (input : tensor) (num_cls C K tK hr hs ht avgf cfs : nat)
    (w0 w1 : world) (self : EEGformer.t) (x : tensor) :
  1 <= K ->
  EEGformer.init input num_cls C K tK hr hs ht avgf cfs w0 = (Ok self, w1) ->
  exists r : result tensor,
    forall w : world, EEGformer.forward self x w = (r, w).
Proof.
  intros HK Hinit.
  destruct (EEGformer_init_inv _ _ _ _ _ _ _ _ _ _ _ _ _ HK Hinit)
    as (T0 & rest & _ & _ & _ & _ & _ & _ & _ & Hshaped & _).
  destruct Hshaped as (_ & Hrtm & Hstm & Httm & _).
  destruct Hrtm as (_ & _ & _ & (_ & _ & _ & _ & _ & _ & _ & (_ & _ & Hpr))).
  destruct Hstm as (_ & _ & _ & (_ & _ & _ & _ & _ & _ & _ & (_ & _ & Hps))).
  unfold TTM_shaped in Httm. cbv zeta in Httm.
  destruct Httm as (_ & _ & _ & _ & _ & _ & _ & _ & _ & _ & _ & (_ & _ & Hpt) & _).
  apply pure_EEGformer_forward; assumption.
Qed.

Lemma eegformer_forward_pure_witness :
  exists self w1 r,
    EEGformer.init (SF := stand_in) (zeros [256; 19]) 2 19 10 2 1 1 4 4 1 world0
    = (Ok self, w1)
    /\ EEGformer.forward (SF := stand_in) self (zeros [256; 19]) world0 = (r, world0)
    /\ EEGformer.forward (SF := stand_in) self (zeros [256; 19]) w1 = (r, w1).
Proof.
  destruct (EEGformer_init_run (SF := stand_in) (zeros [256; 19]) 256 [19]
              2 19 10 2 1 1 4 4 1 world0 eq_refl)
    as (self & w1 & Hinit & _); try lia.
  destruct (eegformer_forward_pure (SF := stand_in) (zeros [256; 19])
              2 19 10 2 1 1 4 4 1 world0 w1 self (zeros [256; 19])) as (r & Hr);
    [lia | exact Hinit |].
  exists self, w1, r. split; [exact Hinit|]. split; apply Hr.
Defined.

(** ** Head counts that do not divide the feature size *)

Lemma Block3_project_step_fails (K I J H Dh D a : nat) (Wo imv savespace : tensor) :
  a < K -> K * I * J * (H * Dh) <> K * I * J * D ->
  shape Wo = [K; D; D] -> shape imv = [K; I; J; H; Dh] ->
  Block3.project_step Wo a [K; I; J; D] imv savespace = Err ShapeError.
Proof.
  intros Ha Hne HW Hi. unfold Block3.project_step.
  destruct (getitem_ok Wo [At a] [D; D]) as (Wa & HWa & _).
  { rewrite HW. cbn [slice_shape]. ltb_true. reflexivity. }
  rewrite HWa. cbn [rbind]. unfold reshape. rewrite Hi.
  replace (numel [K; I; J; H; Dh] =? numel [K; I; J; D]) with false; [reflexivity|].
  symmetry. apply Nat.eqb_neq. cbn [numel fold_right]. lia.
Qed.

Lemma fold_left_bind_err {S : Type} (body : nat -> S -> M S) (l : list nat)
    (m : M S) (e : error) (w : world) :
  m w = (Err e, w) ->
  fold_left (fun m x => bind m (body x)) l m w = (Err e, w).
Proof.
  revert m. induction l as [|a l IH]; intros m Hm; cbn [fold_left]; [exact Hm|].
  apply IH. unfold bind. rewrite Hm. reflexivity.
Qed.

Lemma for_range_first_err {S : Type} (n : nat) (body : nat -> S -> M S) (s : S)
    (e : error) (w : world) :
  1 <= n -> body 0 s w = (Err e, w) -> for_range 0 n body s w = (Err e, w).
Proof.
  intros Hn Hb. unfold for_range. rewrite Nat.sub_0_r.
  destruct n as [|n]; [lia|]. cbn [seq fold_left].
  apply fold_left_bind_err. unfold bind, ret. exact Hb.
Qed.

Section IndivisibleHeads.
Context {SF : SpecialFunctions}.

Lemma Block3_run_indivisible (outer n D tK hA Dh nb : nat)
    (weight bias cls Wqkv Wo : tensor) (lnorm lnormz : LayerNorm) (mlp : Mlp.t)
    (x : tensor) (w : world) :
  Attn_shaped outer n D tK hA Dh weight bias cls Wqkv Wo lnorm lnormz mlp ->
  hA * Dh <> D -> 1 <= tK -> 1 <= outer -> nb <= n + 1 -> shape x = [n; D; outer] ->
  Block3.run weight bias cls Wqkv Wo lnorm lnormz mlp tK hA Dh D nb x w
  = (Err ShapeError, w).
Proof.
  intros (Hw & Hb & Hc & HWq & HWo & Hln & Hlnz & Hmlp) HD HtK Hout Hnb Hx.
  unfold Block3.run. cbv zeta. rewrite Hx. cbn [nth].
  destruct (einsum_lm_jmi_ijl weight x D D n outer Hw Hx) as (s0 & Hs0 & Hs0s).
  rewrite (bind_lift_ok _ _ _ _ Hs0).
  destruct (cat_dim1_3d cls s0 outer 1 n D Hc Hs0s) as (s1 & Hs1 & Hs1s).
  rewrite (bind_lift_ok _ _ _ _ Hs1).
  replace (1 + n) with (n + 1) in Hs1s by lia.
  destruct (tadd_same s1 bias) as (s2 & Hs2 & Hs2s); [congruence|].
  rewrite (bind_lift_ok _ _ _ _ Hs2). rewrite Hs1s in Hs2s.
  unfold bind at 1. rewrite for_range_first_err with (e := ShapeError);
    [reflexivity | exact HtK |].
  unfold Block3.block. cbn [nth].
  destruct (Block3_qkv_step_ok tK outer (n + 1) hA Dh D 0 Wqkv lnorm s2
              (zeros [tK; 3; outer; n + 1; hA; Dh])) as (q1 & Hq1 & Hq1s);
    [lia | exact HWq | exact Hln | exact Hs2s | reflexivity |].
  rewrite (bind_lift_ok _ _ _ _ Hq1). cbn [zeros shape] in Hq1s.
  destruct (Block3_score_step_spec tK outer (n + 1) hA Dh 0 q1
              (zeros [tK; outer; n + 1; hA])) as (r1 & Hr1 & Hr1s & _);
    [lia | exact Hq1s | reflexivity |].
  rewrite (bind_lift_ok _ _ _ _ Hr1). cbn [zeros shape] in Hr1s.
  destruct (Block3_imv_step_ok tK outer (n + 1) hA Dh 0 r1 q1
              (zeros [tK; outer; n + 1; hA; Dh])) as (i1 & Hi1 & Hi1s);
    [lia | exact Hr1s | exact Hq1s | reflexivity |].
  rewrite (bind_lift_ok _ _ _ _ Hi1). cbn [zeros shape] in Hi1s.
  destruct (Block3_accumulate_upto tK outer (n + 1) hA Dh 0 i1 nb Hi1s)
    as (i2 & Hi2 & Hi2s & _); [lia | exact Hnb |].
  rewrite (bind_lift_ok _ _ _ _ Hi2). rewrite Hi1s in Hi2s.
  unfold bind at 1. unfold lift at 1.
  rewrite (Block3_project_step_fails tK outer (n + 1) hA Dh D 0 Wo i2 s2);
    [reflexivity | lia | | exact HWo | exact Hi2s].
  intros Heq. apply HD.
  assert (Hpos : 0 < tK * outer * (n + 1)) by nia.
  nia.
Qed.

Lemma RTM_forward_indivisible (outer n D : nat) (self : RTM.t) (x : tensor) (w : world) :
  RTM_shaped outer n D self -> RTM.hA self * RTM.Dh self <> D ->
  1 <= RTM.tK self -> 1 <= outer -> shape x = [outer; n; D] ->
  RTM.forward self x w = (Err ShapeError, w).
Proof.
  intros (Hin & HM & _ & Hattn) HD HtK Hout Hx. unfold RTM.forward.
  destruct (transpose_3d x outer n D 0 1 Hx) as (x1 & Hx1 & Hs1 & _); [lia | lia |].
  rewrite (bind_lift_ok _ _ _ _ Hx1).
  destruct (transpose_3d x1 n outer D 1 2 Hs1) as (x2 & Hx2 & Hs2 & _); [lia | lia |].
  rewrite (bind_lift_ok _ _ _ _ Hx2). cbn [swap_nth set_nth nth] in Hs2.
  rewrite Hin, HM. cbn [nth].
  apply Block3_run_indivisible with (outer := outer) (n := n); try assumption. lia.
Qed.

Lemma indivisible_product (D hA : nat) :
  hA <> 0 -> 1 <= D -> D mod hA <> 0 \/ D / hA = 0 -> hA * (D / hA) <> D.
Proof.
  intros HhA HD [Hmod|Hq].
  - intros Heq. apply Hmod. apply Nat.Div0.div_exact. symmetry. exact Heq.
  - rewrite Hq. lia.
Qed.

(** C2 (what the code does).  For a head count hA >= 1 that does not divide
    the feature size D, or exceeds it, the constructors of the attention
    components print their ERROR line and return the module all the same;
    for RTM it is the forward pass that then fails, with a shape error at
    the reshape that merges the heads.  For a head count that divides D
    with a nonzero quotient the constructor returns and prints nothing. *)
Theorem attention_init_returns_on_bad_heads
    (input : tensor) (d0 d1 d2 tK hA avgf : nat) (w : world) :
  shape input = [d0; d1; d2] -> hA <> 0 -> avgf <> 0 ->
  (d2 mod hA <> 0 \/ d2 / hA = 0 ->
   exists self w',
     RTM.init input tK hA w = (Ok self, w')
     /\ stdout w' = stdout w ++ [Error1_RTM (d2 / hA) d2 hA]
     /\ (1 <= tK -> 1 <= d0 -> 1 <= d2 ->
         forall x wx, shape x = [d0; d1; d2] ->
           RTM.forward self x wx = (Err ShapeError, wx)))
  /\ (d2 mod hA <> 0 \/ d2 / hA = 0 ->
      exists self w',
        STM.init input tK hA w = (Ok self, w')
        /\ stdout w' = stdout w ++ [Error2_STM (d2 / hA) d2 hA])
  /\ ((d1 * d0) mod hA <> 0 \/ d1 * d0 / hA = 0 ->
      exists self w',
        TTM.init input avgf tK hA w = (Ok self, w')
        /\ In (Error4_TTM (d1 * d0 / hA) (d1 * d0) hA) (stdout w'))
  /\ (d2 mod hA = 0 -> d2 / hA <> 0 ->
      exists self w',
        RTM.init input tK hA w = (Ok self, w') /\ stdout w' = stdout w).
Proof.
  intros Hs HhA Havgf.
  assert (Hbad : forall D, D mod hA <> 0 \/ D / hA = 0 ->
            negb (D mod hA =? 0) || (D / hA =? 0) = true).
  { intros D [Hm|Hq].
    - apply (proj2 (Nat.eqb_neq _ _)) in Hm. rewrite Hm. reflexivity.
    - rewrite Hq. apply orb_true_r. }
  split; [|split; [|split]].
  4:{ intros Hm Hq.
      destruct (RTM_init_run input d0 d1 d2 tK hA w Hs HhA)
        as (self & w' & Hinit & _ & _ & _ & _ & Hout).
      rewrite Hm in Hout. rewrite (proj2 (Nat.eqb_neq _ _) Hq) in Hout.
      cbn in Hout. rewrite app_nil_r in Hout.
      exists self, w'. split; assumption. }
  - intros Hb.
    destruct (RTM_init_run input d0 d1 d2 tK hA w Hs HhA)
      as (self & w' & Hinit & Hshaped & HtK & HhA' & _ & Hout).
    rewrite (Hbad _ Hb) in Hout.
    exists self, w'. split; [exact Hinit|]. split; [exact Hout|].
    intros H1 H2 H3 x wx Hx.
    apply (RTM_forward_indivisible d0 d1 d2); try assumption; try lia.
    destruct Hshaped as (_ & _ & HDh & _). rewrite HDh, HhA'.
    apply indivisible_product; assumption.
  - intros Hb.
    destruct (STM_init_run input d0 d1 d2 tK hA w Hs HhA)
      as (self & w' & Hinit & _ & _ & _ & _ & Hout).
    rewrite (Hbad _ Hb) in Hout.
    exists self, w'. split; assumption.
  - intros Hb.
    destruct (TTM_init_run input d0 d1 d2 avgf tK hA w Hs Havgf HhA)
      as (self & w' & Hinit & _ & _ & _ & _ & _ & Hout).
    exists self, w'. split; [exact Hinit|].
    rewrite Hout. unfold TTM_messages. rewrite (Hbad _ Hb).
    apply in_or_app. right. apply in_or_app. right. left. reflexivity.
Qed.

End IndivisibleHeads.

Lemma attention_init_returns_on_bad_heads_witness :
  exists self w',
    RTM.init (SF := stand_in) (zeros [1; 2; 3]) 1 2 world0 = (Ok self, w')
    /\ stdout w' = [Error1_RTM 1 3 2]
    /\ RTM.forward (SF := stand_in) self (zeros [1; 2; 3]) w' = (Err ShapeError, w').
Proof.
  destruct (attention_init_returns_on_bad_heads (SF := stand_in)
              (zeros [1; 2; 3]) 1 2 3 1 2 1 world0 eq_refl) as [Hrtm _]; [lia | lia |].
  destruct Hrtm as (self & w' & Hinit & Hout & Hfw); [left; cbn; lia|].
  exists self, w'. split; [exact Hinit|]. split; [exact Hout|].
  apply Hfw; [lia | lia | lia | reflexivity].
Defined.

(** ** The parameters of an attention component *)

Section ParameterFacts.
Context {SF : SpecialFunctions}.

Lemma block_slices_shape (tK hA Dh D a : nat) (Wqkv Wo : tensor) :
  shape Wqkv = [tK; 3; hA; Dh; D] -> shape Wo = [tK; D; D] -> a < tK ->
  (forall x, x < 3 ->
     exists W, getitem Wqkv [At a; At x] = Ok W /\ shape W = [hA; Dh; D])
  /\ (exists W, getitem Wo [At a] = Ok W /\ shape W = [D; D]).
Proof.
  intros HWq HWo Ha. split.
  - intros x Hx.
    destruct (getitem_ok Wqkv [At a; At x] [hA; Dh; D]) as (W & HW & HWs & _).
    { rewrite HWq. cbn [slice_shape]. ltb_true. reflexivity. }
    exists W. split; assumption.
  - destruct (getitem_ok Wo [At a] [D; D]) as (W & HW & HWs & _).
    { rewrite HWo. cbn [slice_shape]. ltb_true. reflexivity. }
    exists W. split; assumption.
Qed.

Lemma layer_norm_entry_shape (D : nat) (entries : list (string * LayerNorm)) :
  Forall (fun e => LayerNorm_shaped D (snd e)) entries ->
  forall name ln, In (name, ln) entries ->
    shape (ln_weight ln) = [D] /\ shape (ln_bias ln) = [D].
Proof.
  intros Hall name ln Hin. rewrite Forall_forall in Hall.
  destruct (Hall _ Hin) as (_ & H1 & H2). split; assumption.
Qed.

(** C8, what the code does.  An attention component built with tK blocks
    holds, per block a < tK, query, key and value projection weights
    [Wqkv[a, x]] of shape [heads, Dh, D] and an output projection [Wo[a]]
    of shape [D, D].  Its layer normalizations and its MLP are not per
    block: whatever tK is, RTM and STM register the two sets lnorm (before
    attention) and lnormz (before the MLP), each a weight and a bias of
    shape [D], TTM registers lnorm_extra as a third, and each registers one
    MLP with hidden size 4*D.  In all three forward passes the loop over
    the blocks hands these same sets and this same MLP to every block a,
    and TTM applies lnorm_extra once, after the last block.  The comment at
    the loop of RTM.forward ("TODO : generic blocks for parameter
    separation") marks the separation as not done yet. *)
Theorem attention_parameters_per_block_and_shared
    (input : tensor) (d0 d1 d2 tK hA avgf : nat) (w : world) :
  shape input = [d0; d1; d2] ->
  (forall self w', RTM.init input tK hA w = (Ok self, w') ->
     let D := d2 in
     let Dh := D / hA in
     (forall a, a < tK ->
        (forall x, x < 3 ->
           exists W, getitem (RTM.Wqkv self) [At a; At x] = Ok W
                     /\ shape W = [hA; Dh; D])
        /\ (exists W, getitem (RTM.Wo self) [At a] = Ok W /\ shape W = [D; D]))
     /\ RTM.layer_norms self = [("lnorm"%string, RTM.lnorm self);
                                ("lnormz"%string, RTM.lnormz self)]
     /\ (forall name ln, In (name, ln) (RTM.layer_norms self) ->
           shape (ln_weight ln) = [D] /\ shape (ln_bias ln) = [D])
     /\ map (fun e => (fst e, shape (snd e))) (RTM.named_parameters self)
        = [("weight"%string, [D; D]); ("bias"%string, [d0; d1 + 1; D]);
           ("cls"%string, [d0; 1; D]);
           ("Wqkv"%string, [tK; 3; hA; Dh; D]); ("Wo"%string, [tK; D; D]);
           ("lnorm.weight"%string, [D]); ("lnorm.bias"%string, [D]);
           ("lnormz.weight"%string, [D]); ("lnormz.bias"%string, [D]);
           ("mlp.fc1.weight"%string, [D * 4; D]); ("mlp.fc1.bias"%string, [D * 4]);
           ("mlp.fc2.weight"%string, [D; D * 4]); ("mlp.fc2.bias"%string, [D])]
     /\ (forall x,
           RTM.forward self x =
           bind (lift (transpose x 0 1)) (fun x1 =>
           bind (lift (transpose x1 1 2)) (fun x2 =>
           bind (lift (einsum "lm,jmi -> ijl" (RTM.weight self) x2)) (fun s0 =>
           bind (lift (cat (RTM.cls self) s0 1)) (fun s1 =>
           bind (lift (tadd s1 (RTM.bias self))) (fun s2 =>
           bind (for_range 0 tK
                   (Block3.block (RTM.Wqkv self) (RTM.Wo self)
                      (RTM.lnorm self) (RTM.lnormz self) (RTM.mlp self)
                      tK Dh D (nth 0 (RTM.inputshape self) 0) (shape x2))
                   (s2,
                    zeros [tK; 3; nth 2 (shape x2) 0; nth 0 (shape x2) 0 + 1; hA; Dh],
                    zeros [tK; nth 2 (shape x2) 0; nth 0 (shape x2) 0 + 1; hA],
                    zeros [tK; nth 2 (shape x2) 0; nth 0 (shape x2) 0 + 1; hA; Dh]))
             (fun st => let '(savespace, _, _, _) := st in ret savespace))))))))
  /\
  (forall self w', STM.init input tK hA w = (Ok self, w') ->
     let D := d2 in
     let Dh := D / hA in
     (forall a, a < tK ->
        (forall x, x < 3 ->
           exists W, getitem (STM.Wqkv self) [At a; At x] = Ok W
                     /\ shape W = [hA; Dh; D])
        /\ (exists W, getitem (STM.Wo self) [At a] = Ok W /\ shape W = [D; D]))
     /\ STM.layer_norms self = [("lnorm"%string, STM.lnorm self);
                                ("lnormz"%string, STM.lnormz self)]
     /\ (forall name ln, In (name, ln) (STM.layer_norms self) ->
           shape (ln_weight ln) = [D] /\ shape (ln_bias ln) = [D])
     /\ length (STM.layer_norms self) = 2
     /\ Mlp_shaped D (D * 4) (STM.mlp self)
     /\ map (fun e => (fst e, shape (snd e))) (STM.named_parameters self)
        = [("weight"%string, [D; D]); ("bias"%string, [d1; d0 + 1; D]);
           ("cls"%string, [d1; 1; D]);
           ("Wqkv"%string, [tK; 3; hA; Dh; D]); ("Wo"%string, [tK; D; D]);
           ("lnorm.weight"%string, [D]); ("lnorm.bias"%string, [D]);
           ("lnormz.weight"%string, [D]); ("lnormz.bias"%string, [D]);
           ("mlp.fc1.weight"%string, [D * 4; D]); ("mlp.fc1.bias"%string, [D * 4]);
           ("mlp.fc2.weight"%string, [D; D * 4]); ("mlp.fc2.bias"%string, [D])]
     /\ (forall x,
           STM.forward self x =
           bind (lift (transpose x 1 2)) (fun x1 =>
           bind (lift (einsum "lm,jmi -> ijl" (STM.weight self) x1)) (fun s0 =>
           bind (lift (cat (STM.cls self) s0 1)) (fun s1 =>
           bind (lift (tadd s1 (STM.bias self))) (fun s2 =>
           bind (for_range 0 tK
                   (Block3.block (STM.Wqkv self) (STM.Wo self)
                      (STM.lnorm self) (STM.lnormz self) (STM.mlp self)
                      tK Dh D (nth 0 (shape x1) 0) (shape x1))
                   (s2,
                    zeros [tK; 3; nth 2 (shape x1) 0; nth 0 (shape x1) 0 + 1; hA; Dh],
                    zeros [tK; nth 2 (shape x1) 0; nth 0 (shape x1) 0 + 1; hA],
                    zeros [tK; nth 2 (shape x1) 0; nth 0 (shape x1) 0 + 1; hA; Dh]))
             (fun st => let '(savespace, _, _, _) := st in ret savespace)))))))
  /\
  (forall self w', TTM.init input avgf tK hA w = (Ok self, w') ->
     let D := d1 * d0 in
     let Dh := D / hA in
     (forall a, a < tK ->
        (forall x, x < 3 ->
           exists W, getitem (TTM.Wqkv self) [At a; At x] = Ok W
                     /\ shape W = [hA; Dh; D])
        /\ (exists W, getitem (TTM.Wo self) [At a] = Ok W /\ shape W = [D; D]))
     /\ TTM.layer_norms self = [("lnorm"%string, TTM.lnorm self);
                                ("lnormz"%string, TTM.lnormz self);
                                ("lnorm_extra"%string, TTM.lnorm_extra self)]
     /\ (forall name ln, In (name, ln) (TTM.layer_norms self) ->
           shape (ln_weight ln) = [D] /\ shape (ln_bias ln) = [D])
     /\ length (TTM.layer_norms self) = 3
     /\ Mlp_shaped D (D * 4) (TTM.mlp self)
     /\ map (fun e => (fst e, shape (snd e))) (TTM.named_parameters self)
        = [("weight"%string, [D; D]); ("bias"%string, [avgf + 1; D]);
           ("cls"%string, [1; D]);
           ("Wqkv"%string, [tK; 3; hA; Dh; D]); ("Wo"%string, [tK; D; D]);
           ("lnorm.weight"%string, [D]); ("lnorm.bias"%string, [D]);
           ("lnormz.weight"%string, [D]); ("lnormz.bias"%string, [D]);
           ("mlp.fc1.weight"%string, [D * 4; D]); ("mlp.fc1.bias"%string, [D * 4]);
           ("mlp.fc2.weight"%string, [D; D * 4]); ("mlp.fc2.bias"%string, [D]);
           ("lnorm_extra.weight"%string, [D]); ("lnorm_extra.bias"%string, [D])]
     /\ (forall x,
           TTM.forward self x =
           bind (lift (transpose x 0 2)) (fun input =>
           let s1 := nth 1 (shape input) 0 in
           let s2 := nth 2 (shape input) 0 in
           bind (lift (TTM.segment_average avgf (TTM.seg self) input
                         (zeros [avgf; s1; s2]))) (fun inputc =>
           bind (lift (reshape inputc [avgf; s1 * s2])) (fun altx =>
           bind (lift (einsum "lm,im -> il" (TTM.weight self) altx)) (fun z0 =>
           bind (lift (cat (TTM.cls self) z0 0)) (fun z1 =>
           bind (lift (tadd z1 (TTM.bias self))) (fun z2 =>
           bind (for_range 0 tK
                   (fun a st =>
                      let '(savespace, qkvspace, rsaspace, imv) := st in
                      bind (lift (TTM.qkv_step (TTM.Wqkv self) (TTM.lnorm self) a
                                    savespace qkvspace)) (fun qkvspace =>
                      bind (lift (TTM.score_step Dh a qkvspace rsaspace)) (fun rsaspace =>
                      bind (lift (TTM.imv_step a rsaspace qkvspace imv)) (fun imv =>
                      bind (lift (TTM.accumulate a avgf imv)) (fun imv =>
                      bind (lift (TTM.project_step (TTM.Wo self) a [tK; avgf + 1; D]
                                    imv savespace)) (fun savespace =>
                      bind (Block3.mlp_step (TTM.mlp self) (TTM.lnormz self) savespace)
                        (fun savespace =>
                      ret (savespace, qkvspace, rsaspace, imv))))))))
                   (z2,
                    zeros [tK; 3; avgf + 1; hA; Dh],
                    zeros [tK; avgf + 1; hA],
                    zeros [tK; avgf + 1; hA; Dh]))
             (fun st =>
                let '(savespace, _, _, _) := st in
                bind (lift (LayerNorm_forward (TTM.lnorm_extra self) savespace))
                  (fun savespace =>
                lift (reshape savespace [avgf + 1; s1; s2]))))))))))).
Proof.
  intros Hs. split; [|split].
  - intros self w' Hinit D Dh.
    destruct (RTM_init_inv input d0 d1 d2 tK hA w w' self Hs Hinit)
      as (HhA & Hshaped & HtK & HhA' & _).
    destruct Hshaped as (Hin & HM & HDh & Hattn).
    destruct Hattn as (Hw & Hb & Hc & HWq & HWo & Hln & Hlnz & Hmlp).
    rewrite HtK, HhA' in *. fold D in HDh. fold Dh in HDh. rewrite HDh in *.
    split.
    { intros a Ha. apply (block_slices_shape tK hA Dh D a); assumption. }
    split; [reflexivity|]. split.
    { apply layer_norm_entry_shape.
      apply Forall_cons; [exact Hln|]. apply Forall_cons; [exact Hlnz|].
      apply Forall_nil. }
    split.
    { destruct Hln as (_ & Hl1 & Hl2). destruct Hlnz as (_ & Hz1 & Hz2).
      destruct Hmlp as ((_ & _ & Hf1 & Hf1b) & (_ & _ & Hf2 & Hf2b) & _).
      unfold RTM.named_parameters, RTM.layer_norms, Mlp.named_parameters,
        Linear_parameters, LayerNorm_parameters.
      cbn [flat_map app map fst snd String.append].
      rewrite Hw, Hb, Hc, HWq, HWo, Hl1, Hl2, Hz1, Hz2, Hf1, Hf1b, Hf2, Hf2b.
      reflexivity. }
    intros x. unfold RTM.forward, Block3.run. rewrite HtK, HhA', HDh, HM. reflexivity.
  - intros self w' Hinit D Dh.
    destruct (STM_init_inv input d0 d1 d2 tK hA w w' self Hs Hinit)
      as (HhA & Hshaped & HtK & HhA' & _).
    destruct Hshaped as (Hin & HM & HDh & Hattn).
    destruct Hattn as (Hw & Hb & Hc & HWq & HWo & Hln & Hlnz & Hmlp).
    rewrite HtK, HhA' in *. fold D in HDh. fold Dh in HDh. rewrite HDh in *.
    split.
    { intros a Ha. apply (block_slices_shape tK hA Dh D a); assumption. }
    split; [reflexivity|]. split.
    { apply layer_norm_entry_shape.
      apply Forall_cons; [exact Hln|]. apply Forall_cons; [exact Hlnz|].
      apply Forall_nil. }
    split; [reflexivity|]. split; [exact Hmlp|]. split.
    { destruct Hln as (_ & Hl1 & Hl2). destruct Hlnz as (_ & Hz1 & Hz2).
      destruct Hmlp as ((_ & _ & Hf1 & Hf1b) & (_ & _ & Hf2 & Hf2b) & _).
      unfold STM.named_parameters, STM.layer_norms, Mlp.named_parameters,
        Linear_parameters, LayerNorm_parameters.
      cbn [flat_map app map fst snd String.append].
      rewrite Hw, Hb, Hc, HWq, HWo, Hl1, Hl2, Hz1, Hz2, Hf1, Hf1b, Hf2, Hf2b.
      reflexivity. }
    intros x. unfold STM.forward, Block3.run. rewrite HtK, HhA', HDh, HM. reflexivity.
  - intros self w' Hinit D Dh.
    destruct (TTM_init_inv input d0 d1 d2 avgf tK hA w w' self Hs Hinit)
      as (Havgf & HhA & Hshaped & Ha & HtK & HhA' & _).
    unfold TTM_shaped in Hshaped. cbv zeta in Hshaped.
    destruct Hshaped as (_ & _ & HM & HDh & Hw & Hb & Hc & HWq & HWo & Hln & Hlnz & Hmlp
                         & Hlnx).
    rewrite HtK, HhA', Ha in *.
    fold D in HM, HDh, Hw, Hb, Hc, HWq, HWo, Hln, Hlnz, Hmlp, Hlnx.
    fold Dh in HDh. rewrite HDh in *.
    split.
    { intros a Ha'. apply (block_slices_shape tK hA Dh D a); assumption. }
    split; [reflexivity|]. split.
    { apply layer_norm_entry_shape.
      apply Forall_cons; [exact Hln|]. apply Forall_cons; [exact Hlnz|].
      apply Forall_cons; [exact Hlnx|]. apply Forall_nil. }
    split; [reflexivity|]. split; [exact Hmlp|]. split.
    { destruct Hln as (_ & Hl1 & Hl2). destruct Hlnz as (_ & Hz1 & Hz2).
      destruct Hlnx as (_ & Hx1 & Hx2).
      destruct Hmlp as ((_ & _ & Hf1 & Hf1b) & (_ & _ & Hf2 & Hf2b) & _).
      unfold TTM.named_parameters, Mlp.named_parameters,
        Linear_parameters, LayerNorm_parameters.
      cbn [flat_map app map fst snd String.append].
      rewrite Hw, Hb, Hc, HWq, HWo, Hl1, Hl2, Hz1, Hz2, Hx1, Hx2, Hf1, Hf1b, Hf2, Hf2b.
      reflexivity. }
    intros x. unfold TTM.forward, TTM.block. rewrite HtK, HhA', HDh, HM, Ha. reflexivity.
Qed.

End ParameterFacts.

Lemma attention_parameters_per_block_and_shared_witness :
  exists self w',
    RTM.init (SF := stand_in) (zeros [1; 2; 4]) 2 2 world0 = (Ok self, w')
    /\ RTM.layer_norms self = [("lnorm"%string, RTM.lnorm self);
                               ("lnormz"%string, RTM.lnormz self)]
    /\ shape (RTM.Wqkv self) = [2; 3; 2; 2; 4].
Proof.
  destruct (RTM_init_run (SF := stand_in) (zeros [1; 2; 4]) 1 2 4 2 2 world0 eq_refl)
    as (self & w' & Hinit & _); [lia|].
  destruct (attention_parameters_per_block_and_shared (SF := stand_in)
              (zeros [1; 2; 4]) 1 2 4 2 2 1 world0 eq_refl) as (Hrtm & _).
  destruct (Hrtm self w' Hinit) as (_ & Hln & _ & Hnames & _).
  exists self, w'. split; [exact Hinit|]. split; [exact Hln|].
  cbn [map] in Hnames. inversion Hnames. reflexivity.
Defined.

(** C8 as stated does not hold: a regional module built with two blocks
    registers two layer normalizations in all, lnorm and lnormz, not two
    per block. *)
Lemma rtm_layer_norms_not_per_block :
  exists self w',
    RTM.init (SF := stand_in) (zeros [1; 2; 4]) 2 2 world0 = (Ok self, w')
    /\ RTM.tK self = 2
    /\ length (RTM.layer_norms self) = 2
    /\ length (RTM.layer_norms self) <> 2 * RTM.tK self.
Proof.
  destruct (RTM_init_run (SF := stand_in) (zeros [1; 2; 4]) 1 2 4 2 2 world0 eq_refl)
    as (self & w' & Hinit & _ & HtK & _); [lia|].
  exists self, w'. split; [exact Hinit|]. split; [exact HtK|].
  split; [reflexivity|]. rewrite HtK. cbn. lia.
Qed.

(** ** The class weights of the weighted loss *)

Lemma pydiv_IZR (x : R) (z : Z) :
  pydiv x (IZR z) = if (z =? 0)%Z then Err ZeroDivisionError else Ok (x / IZR z)%R.
Proof.
  unfold pydiv. destruct (Z.eqb_spec z 0) as [->|Hz].
  - destruct (Req_dec_T 0 0) as [_|Hn]; [reflexivity | exfalso; apply Hn; reflexivity].
  - destruct (Req_dec_T (IZR z) 0) as [H0|_]; [|reflexivity].
    exfalso. apply Hz. apply eq_IZR_R0. exact H0.
Qed.

Lemma bceloss_w_weights_eval (numpos numtot : Z) :
  EEGformer.bceloss_w_weights numpos numtot
  = if (numpos =? numtot)%Z || (numpos =? 0)%Z
    then Err ZeroDivisionError
    else Ok ((IZR numtot / IZR (2 * (numtot - numpos)))%R,
             (IZR numtot / IZR (2 * numpos))%R).
Proof.
  unfold EEGformer.bceloss_w_weights. rewrite !pydiv_IZR.
  destruct (Z.eqb_spec numpos numtot) as [Heq|Hne].
  - replace (2 * (numtot - numpos) =? 0)%Z with true
      by (symmetry; apply Z.eqb_eq; lia). reflexivity.
  - replace (2 * (numtot - numpos) =? 0)%Z with false
      by (symmetry; apply Z.eqb_neq; lia). cbn [rbind orb].
    destruct (Z.eqb_spec numpos 0) as [H0|Hn0].
    + replace (2 * numpos =? 0)%Z with true by (symmetry; apply Z.eqb_eq; lia).
      reflexivity.
    + replace (2 * numpos =? 0)%Z with false by (symmetry; apply Z.eqb_neq; lia).
      reflexivity.
Qed.

Lemma bceloss_w_ok (xf label : tensor) (numpos numtot : Z) (n : nat) :
  numpos <> 0%Z -> numpos <> numtot -> shape xf = [n; 2] -> shape label = [n] ->
  is_ok (EEGformer.bceloss_w xf label numpos numtot) = true.
Proof.
  intros Hp Ht Hxf Hl. unfold EEGformer.bceloss_w. rewrite bceloss_w_weights_eval.
  replace (numpos =? numtot)%Z with false by (symmetry; apply Z.eqb_neq; exact Ht).
  replace (numpos =? 0)%Z with false by (symmetry; apply Z.eqb_neq; exact Hp).
  cbn [orb rbind].
  destruct (getitem_ok xf [All; At 1] [n]) as (x1 & Hx1 & Hx1s & _).
  { rewrite Hxf. reflexivity. }
  destruct (getitem_ok xf [All; At 0] [n]) as (x0 & Hx0 & Hx0s & _).
  { rewrite Hxf. reflexivity. }
  rewrite Hx1, Hx0. cbn [rbind].
  match goal with |- context [map2_t Rmult ?a ?b] =>
    destruct (map2_t_same Rmult a b) as (pos & Hpos & Hposs & _) end.
  { cbn [map_t shape]. congruence. }
  rewrite Hpos. cbn [rbind].
  match goal with |- context [map2_t Rmult ?a ?b] =>
    destruct (map2_t_same Rmult a b) as (neg & Hneg & Hnegs & _) end.
  { cbn [map_t shape]. congruence. }
  rewrite Hneg. cbn [rbind].
  destruct (tadd_same pos neg) as (ls & Hls & _).
  { rewrite Hposs, Hnegs. reflexivity. }
  rewrite Hls. reflexivity.
Qed.

(** C10. bceloss_w computes w0 = numtot / (2 * (numtot - numpos)) and
    w1 = numtot / (2 * numpos) with unguarded Python divisions: either
    raises ZeroDivisionError exactly when its divisor is 0, that is when
    numpos = numtot or numpos = 0.  For class counts, 0 <= numpos <= numtot,
    the weights, and with them the loss, are therefore defined only if
    0 < numpos < numtot, and then they are (for predictions of shape
    [n, 2] and labels of shape [n]). *)
Theorem bceloss_w_defined_iff (numpos numtot : Z) (xf label : tensor) (n : nat) :
  (0 <= numpos <= numtot)%Z ->
  EEGformer.bceloss_w_weights numpos numtot
  = (if (numpos =? numtot)%Z || (numpos =? 0)%Z
     then Err ZeroDivisionError
     else Ok ((IZR numtot / IZR (2 * (numtot - numpos)))%R,
              (IZR numtot / IZR (2 * numpos))%R))
  /\ (is_ok (EEGformer.bceloss_w_weights numpos numtot) = true
      <-> (0 < numpos < numtot)%Z)
  /\ (is_ok (EEGformer.bceloss_w xf label numpos numtot) = true
      -> (0 < numpos < numtot)%Z)
  /\ ((0 < numpos < numtot)%Z -> shape xf = [n; 2] -> shape label = [n] ->
      is_ok (EEGformer.bceloss_w xf label numpos numtot) = true).
Proof.
  intros Hcount. split; [apply bceloss_w_weights_eval|].
  assert (Hiff : is_ok (EEGformer.bceloss_w_weights numpos numtot) = true
                 <-> (0 < numpos < numtot)%Z).
  { rewrite bceloss_w_weights_eval.
    destruct (Z.eqb_spec numpos numtot); destruct (Z.eqb_spec numpos 0);
      cbn [orb is_ok]; split; intros H; try discriminate; try lia; reflexivity. }
  split; [exact Hiff|]. split.
  - intros Hok. apply Hiff. unfold EEGformer.bceloss_w in Hok.
    destruct (EEGformer.bceloss_w_weights numpos numtot); [reflexivity | discriminate].
  - intros Hpre Hxf Hl. apply (bceloss_w_ok xf label numpos numtot n); try assumption; lia.
Qed.

Lemma bceloss_w_defined_iff_witness :
  is_ok (EEGformer.bceloss_w_weights 1 2) = true
  /\ is_ok (EEGformer.bceloss_w (zeros [3; 2]) (zeros [3]) 1 2) = true
  /\ EEGformer.bceloss_w_weights 0 2 = Err ZeroDivisionError
  /\ EEGformer.bceloss_w_weights 2 2 = Err ZeroDivisionError.
Proof.
  destruct (bceloss_w_defined_iff 1 2 (zeros [3; 2]) (zeros [3]) 3) as (_ & H1 & _ & H2);
    [lia|].
  split; [apply H1; lia|]. split; [apply H2; [lia | reflexivity | reflexivity]|].
  split; rewrite bceloss_w_weights_eval; reflexivity.
Defined.

(** * Further properties *)

(** ** The losses *)

Lemma rsum_nonneg (n : nat) (f : nat -> R) :
  (forall k, k < n -> (0 <= f k)%R) -> (0 <= rsum n f)%R.
Proof.
  intros Hf. induction n as [|n IH]; cbn [rsum]; [lra|].
  assert (0 <= rsum n f)%R by (apply IH; intros; apply Hf; lia).
  specialize (Hf n ltac:(lia)). lra.
Qed.

Lemma rsum_zero_terms (n : nat) (f : nat -> R) :
  (forall k, k < n -> (0 <= f k)%R) -> rsum n f = 0%R ->
  forall k, k < n -> f k = 0%R.
Proof.
  induction n as [|n IH]; intros Hf Hs k Hk; [lia|].
  cbn [rsum] in Hs.
  assert (H1 : (0 <= rsum n f)%R) by (apply rsum_nonneg; intros; apply Hf; lia).
  pose proof (Hf n ltac:(lia)) as H2.
  destruct (Nat.eq_dec k n) as [->|Hne]; [lra|].
  apply IH; [intros; apply Hf; lia | lra | lia].
Qed.

Lemma rsum_scale (n : nat) (c : R) (f : nat -> R) :
  rsum n (fun k => (c * f k)%R) = (c * rsum n f)%R.
Proof. induction n as [|n IH]; cbn [rsum]; [ring | rewrite IH; ring]. Qed.

Lemma unravel_in_bounds (sh : list nat) (k : nat) :
  k < numel sh -> in_bounds sh (unravel sh k) = true.
Proof.
  revert k. induction sh as [|d sh IH]; intros k Hk; [reflexivity|].
  cbn [numel fold_right] in Hk. fold (numel sh) in Hk.
  assert (Hpos : numel sh <> 0) by (intros H0; rewrite H0 in Hk; lia).
  cbn [unravel in_bounds]. apply andb_true_iff. split.
  - apply Nat.ltb_lt. apply Nat.Div0.div_lt_upper_bound. lia.
  - apply IH. apply Nat.mod_upper_bound. exact Hpos.
Qed.

Lemma ravel_lt (sh idx : list nat) :
  in_bounds sh idx = true -> ravel sh idx < numel sh.
Proof.
  revert idx. induction sh as [|d sh IH]; intros [|i idx] Hb;
    cbn [in_bounds] in Hb; try discriminate.
  - unfold numel. cbn [ravel fold_right]. lia.
  - apply andb_true_iff in Hb. destruct Hb as [Hi Hb]. apply Nat.ltb_lt in Hi.
    specialize (IH idx Hb). cbn [ravel numel fold_right]. fold (numel sh). nia.
Qed.

Lemma unravel_ravel (sh idx : list nat) :
  in_bounds sh idx = true -> unravel sh (ravel sh idx) = idx.
Proof.
  revert idx. induction sh as [|d sh IH]; intros [|i idx] Hb;
    cbn [in_bounds] in Hb; try discriminate.
  - reflexivity.
  - apply andb_true_iff in Hb. destruct Hb as [Hi Hb].
    pose proof (ravel_lt sh idx Hb) as Hlt.
    cbn [ravel unravel]. f_equal.
    + rewrite Nat.div_add_l by lia. rewrite (Nat.div_small _ _ Hlt). lia.
    + rewrite Nat.add_comm, Nat.Div0.mod_add. rewrite (Nat.mod_small _ _ Hlt).
      apply IH. exact Hb.
Qed.

Lemma sa_nonneg (t : tensor) : (0 <= EEGformer.sa t)%R.
Proof. unfold EEGformer.sa. apply rsum_nonneg. intros k _. apply Rabs_pos. Qed.

(** X1. sa is the L1 norm of its argument: it is never negative, it is 0
    exactly when every entry of the tensor is 0, and scaling the tensor by
    c scales it by |c|. *)
Theorem sa_is_l1_norm (t : tensor) :
  (0 <= EEGformer.sa t)%R
  /\ (EEGformer.sa t = 0%R <->
      forall idx, in_bounds (shape t) idx = true -> data t idx = 0%R)
  /\ (forall c : R,
        EEGformer.sa (map_t (fun v => (c * v)%R) t) = (Rabs c * EEGformer.sa t)%R).
Proof.
  split; [apply sa_nonneg|]. split; [split|].
  - intros Hs idx Hb. unfold EEGformer.sa in Hs.
    pose proof (rsum_zero_terms _ _ (fun k _ => Rabs_pos _) Hs
                  (ravel (shape t) idx) (ravel_lt _ _ Hb)) as Hz.
    cbn beta in Hz. rewrite (unravel_ravel _ _ Hb) in Hz.
    destruct (Req_dec (data t idx) 0) as [H0|Hn]; [exact H0|].
    exfalso. exact (Rabs_no_R0 _ Hn Hz).
  - intros Hz. unfold EEGformer.sa. rewrite (rsum_ext _ _ (fun _ => 0%R)).
    + rewrite rsum_const. ring.
    + intros k Hk. rewrite Hz by (apply unravel_in_bounds; exact Hk).
      apply Rabs_R0.
  - intros c. unfold EEGformer.sa. cbn [map_t shape data].
    rewrite <- rsum_scale. apply rsum_ext. intros k _. apply Rabs_mult.
Qed.

Lemma wt_light_nonneg (self : EEGformer.t) : (0 <= EEGformer.wt_light self)%R.
Proof.
  unfold EEGformer.wt_light.
  repeat match goal with
         | |- context [EEGformer.sa ?t] =>
             let H := fresh "Hsa" in
             pose proof (sa_nonneg t) as H; generalize dependent (EEGformer.sa t); intros
         end.
  lra.
Qed.

Lemma wt_full_ge_light (self : EEGformer.t) :
  (EEGformer.wt_light self <= EEGformer.wt_full self)%R.
Proof.
  unfold EEGformer.wt_full. generalize (EEGformer.wt_light self). intros l.
  repeat match goal with
         | |- context [EEGformer.sa ?t] =>
             let H := fresh "Hsa" in
             pose proof (sa_nonneg t) as H; generalize dependent (EEGformer.sa t); intros
         end.
  lra.
Qed.

(** The loss without L1 term is returned, as a 0-axis tensor, whenever
    the label has the shape of the prediction. *)
Lemma eegloss_wol1_returns (xf label : tensor) :
  shape label = shape xf ->
  exists ls, EEGformer.eegloss_wol1 xf label = Ok ls /\ shape ls = [].
Proof.
  intros Hsh. unfold EEGformer.eegloss_wol1.
  destruct (map2_t_same Rmult label (map_t ln xf) Hsh) as (pos & Hpos & Hps & _).
  destruct (map2_t_same Rmult (map_t (fun v => (1 - v)%R) label)
              (map_t (fun v => ln (1 - v)) xf) Hsh) as (neg & Hneg & Hns & _).
  cbn [map_t shape] in Hns.
  assert (Hpn : shape pos = shape neg) by (rewrite Hps, Hns; reflexivity).
  destruct (map2_t_same Rplus pos neg Hpn) as (ls & Hls & _).
  rewrite Hpos, Hneg. cbn [rbind]. unfold tadd. rewrite Hls. cbn [rbind].
  eexists. split; reflexivity.
Qed.

(** X2. The three cross-entropy losses on a prediction xf with entries
    strictly between 0 and 1 (both logarithms are then taken of positive
    numbers), at least one entry, and a label of the same shape: all three
    are returned as 0-axis tensors, eegloss_light is the loss without L1
    term plus L1_reg_const times the decoder's absolute weights, eegloss is
    it plus L1_reg_const times every component's, and with a non-negative
    constant they are ordered: wol1 <= light <= full.  Whatever the
    arguments, when the loss without L1 term fails the other two fail with
    the same error. *)
Theorem eegloss_ordering (self : EEGformer.t) (xf label : tensor) (c : R) :
  (0 <= c)%R ->
  (shape label = shape xf -> numel (shape xf) <> 0 ->
   (forall idx, in_bounds (shape xf) idx = true -> (0 < data xf idx < 1)%R) ->
   exists l0 l1 l2,
     EEGformer.eegloss_wol1 xf label = Ok l0 /\
     EEGformer.eegloss_light self xf label c = Ok l1 /\
     EEGformer.eegloss self xf label c = Ok l2 /\
     shape l0 = [] /\ shape l1 = [] /\ shape l2 = [] /\
     data l1 [] = (data l0 [] + c * EEGformer.wt_light self)%R /\
     data l2 [] = (data l0 [] + c * EEGformer.wt_full self)%R /\
     (data l0 [] <= data l1 [] <= data l2 [])%R)
  /\ (forall e, EEGformer.eegloss_wol1 xf label = Err e ->
        EEGformer.eegloss_light self xf label c = Err e /\
        EEGformer.eegloss self xf label c = Err e).
Proof.
  intros Hc. unfold EEGformer.eegloss_light, EEGformer.eegloss. split.
  - intros Hsh _ _.
    destruct (eegloss_wol1_returns xf label Hsh) as (l0 & Hl0 & Hs0).
    rewrite Hl0. cbn [rbind].
    eexists; eexists; eexists. split; [reflexivity|].
    split; [reflexivity|]. split; [reflexivity|].
    cbn [map_t shape data].
    split; [exact Hs0|]. split; [exact Hs0|]. split; [exact Hs0|].
    split; [reflexivity|]. split; [reflexivity|].
    pose proof (wt_light_nonneg self). pose proof (wt_full_ge_light self).
    split; nra.
  - intros e He. rewrite He. cbn [rbind]. split; reflexivity.
Qed.

Lemma eegloss_ordering_witness :
  let xf := mkT [1; 2] (fun _ => (1 / 2)%R) in
  let label := mkT [1; 2] (fun idx => INR (nth 1 idx 0)) in
  exists self w1 l0 l1 l2,
    EEGformer.init (SF := stand_in) (zeros [256; 19]) 2 19 10 2 1 1 4 4 1 world0
    = (Ok self, w1)
    /\ EEGformer.eegloss_wol1 xf label = Ok l0
    /\ EEGformer.eegloss_light self xf label 1 = Ok l1
    /\ EEGformer.eegloss self xf label 1 = Ok l2
    /\ (data l0 [] <= data l1 [] <= data l2 [])%R.
Proof.
  intros xf label.
  destruct (EEGformer_init_run (SF := stand_in) (zeros [256; 19]) 256 [19]
              2 19 10 2 1 1 4 4 1 world0 eq_refl)
    as (self & w1 & Hinit & _); try lia.
  destruct (eegloss_ordering self xf label 1 ltac:(lra)) as [Hok _].
  destruct Hok as (l0 & l1 & l2 & H0 & H1 & H2 & _ & _ & _ & _ & _ & Hle).
  - reflexivity.
  - unfold xf, numel. cbn [shape fold_right]. lia.
  - intros idx _. unfold xf. cbn [data]. lra.
  - exists self, w1, l0, l1, l2. repeat split; try assumption; apply Hle.
Defined.

Lemma ln_nonpos (x : R) : (0 < x <= 1)%R -> (ln x <= 0)%R.
Proof.
  intros [H0 H1]. destruct (Req_dec x 1) as [->|Hne]; [rewrite ln_1; lra|].
  pose proof (ln_increasing x 1 H0 ltac:(lra)) as H. rewrite ln_1 in H. lra.
Qed.

Lemma eegloss_wol1_ok (xf label : tensor) :
  shape label = shape xf -> numel (shape xf) <> 0 ->
  (forall idx, in_bounds (shape xf) idx = true -> (0 < data xf idx < 1)%R) ->
  (forall idx, in_bounds (shape xf) idx = true -> (0 <= data label idx <= 1)%R) ->
  exists ls,
    EEGformer.eegloss_wol1 xf label = Ok ls /\ shape ls = [] /\ (0 <= data ls [])%R.
Proof.
  intros Hsh Hne Hx Hl. unfold EEGformer.eegloss_wol1.
  destruct (map2_t_same Rmult label (map_t ln xf) Hsh) as (pos & Hpos & Hps & Hpd).
  destruct (map2_t_same Rmult (map_t (fun v => (1 - v)%R) label)
              (map_t (fun v => ln (1 - v)) xf) Hsh) as (neg & Hneg & Hns & Hnd).
  cbn [map_t shape data] in Hns, Hnd, Hpd.
  assert (Hpn : shape pos = shape neg) by (rewrite Hps, Hns; reflexivity).
  destruct (map2_t_same Rplus pos neg Hpn) as (ls & Hls & Hlss & Hlsd).
  rewrite Hpos, Hneg. cbn [rbind]. unfold tadd. rewrite Hls. cbn [rbind].
  eexists. split; [reflexivity|]. split; [reflexivity|].
  cbn [EEGformer.mean_t data map_t shape]. rewrite Hlss, Hps, Hsh.
  apply Rmult_le_pos.
  - apply rsum_nonneg. intros k Hk.
    pose proof (unravel_in_bounds _ _ Hk) as Hb.
    rewrite Hlsd by (rewrite Hps, Hsh; exact Hb).
    rewrite Hpd by (rewrite Hsh; exact Hb).
    rewrite Hnd by (rewrite Hsh; exact Hb).
    specialize (Hx _ Hb). specialize (Hl _ Hb).
    pose proof (ln_nonpos (data xf (unravel (shape xf) k)) ltac:(lra)) as H1.
    pose proof (ln_nonpos (1 - data xf (unravel (shape xf) k)) ltac:(lra)) as H2.
    nra.
  - left. apply Rinv_0_lt_compat. apply lt_0_INR. lia.
Qed.

(** X3. On a non-empty batch of predictions strictly between 0 and 1 and
    labels between 0 and 1 of the same shape, eegloss_wol1 returns a scalar
    that is not negative. *)
Theorem eegloss_wol1_nonneg (xf label : tensor) :
  shape label = shape xf -> numel (shape xf) <> 0 ->
  (forall idx, in_bounds (shape xf) idx = true -> (0 < data xf idx < 1)%R) ->
  (forall idx, in_bounds (shape xf) idx = true -> (0 <= data label idx <= 1)%R) ->
  exists ls,
    EEGformer.eegloss_wol1 xf label = Ok ls /\ shape ls = [] /\ (0 <= data ls [])%R.
Proof. exact (eegloss_wol1_ok xf label). Qed.

Lemma eegloss_wol1_nonneg_witness :
  exists ls,
    EEGformer.eegloss_wol1 (mkT [1; 2] (fun _ => (1 / 2)%R)) (zeros [1; 2]) = Ok ls
    /\ shape ls = [] /\ (0 <= data ls [])%R.
Proof.
  apply (eegloss_wol1_nonneg (mkT [1; 2] (fun _ => (1 / 2)%R)) (zeros [1; 2])).
  - reflexivity.
  - cbn. lia.
  - intros idx _. cbn [data]. lra.
  - intros idx _. cbn [zeros data]. lra.
Defined.

(** X4. With as many positives as negatives (numtot = 2 * numpos) both
    class weights of bceloss_w are 1: it fails exactly when bceloss fails
    and otherwise returns the same value. *)
Theorem bceloss_w_balanced (xf label : tensor) (numpos : Z) :
  numpos <> 0%Z ->
  match EEGformer.bceloss xf label with
  | Ok l =>
      exists lw,
        EEGformer.bceloss_w xf label numpos (2 * numpos) = Ok lw /\
        shape lw = shape l /\ forall idx, data lw idx = data l idx
  | Err e => EEGformer.bceloss_w xf label numpos (2 * numpos) = Err e
  end.
Proof.
  intros Hp. unfold EEGformer.bceloss, EEGformer.bceloss_w.
  rewrite bceloss_w_weights_eval.
  destruct (Z.eqb_spec numpos (2 * numpos)) as [Heq|_]; [lia|].
  destruct (Z.eqb_spec numpos 0) as [Heq|_]; [contradiction|].
  cbn [orb rbind].
  replace (2 * (2 * numpos - numpos))%Z with (2 * numpos)%Z by lia.
  assert (Hw : (IZR (2 * numpos) / IZR (2 * numpos))%R = 1%R).
  { field. apply not_0_IZR. lia. }
  rewrite Hw.
  destruct (getitem xf [All; At 1]) as [x1|e]; cbn [rbind]; [|reflexivity].
  destruct (getitem xf [All; At 0]) as [x0|e]; cbn [rbind]; [|reflexivity].
  unfold tadd, map2_t. cbn [map_t shape].
  destruct (broadcast_shapes (shape label) (shape x1)) as [s1|]; cbn [rbind];
    [|reflexivity].
  destruct (broadcast_shapes (shape label) (shape x0)) as [s0|]; cbn [rbind];
    [|reflexivity].
  cbn [shape].
  destruct (broadcast_shapes s1 s0) as [s|]; cbn [rbind]; [|reflexivity].
  eexists. split; [reflexivity|]. split; [reflexivity|].
  intros idx. cbn [EEGformer.mean_t data map_t shape]. f_equal.
  apply rsum_ext. intros k _. unfold bget, map_t. cbn [data shape]. ring.
Qed.

Lemma bceloss_w_balanced_witness :
  exists l lw,
    EEGformer.bceloss (zeros [3; 2]) (zeros [3]) = Ok l
    /\ EEGformer.bceloss_w (zeros [3; 2]) (zeros [3]) 1 2 = Ok lw
    /\ data lw [] = data l [].
Proof.
  pose proof (bceloss_w_balanced (zeros [3; 2]) (zeros [3]) 1 ltac:(lia)) as H.
  destruct (EEGformer.bceloss (zeros [3; 2]) (zeros [3])) as [l|e] eqn:E.
  - destruct H as (lw & Hw & _ & Hd). exists l, lw. repeat split; [exact Hw | apply Hd].
  - exfalso. revert E. unfold EEGformer.bceloss, getitem, map2_t. cbn. discriminate.
Defined.

(** ** Arguments the constructors reject *)

Section RejectedArguments.
Context {SF : SpecialFunctions}.

(** X5. trunc_normal with std = 0 raises ZeroDivisionError at the first
    division by std: after the warning, if it is due, and before any draw,
    so the tensor is left as it was. *)
Theorem trunc_normal_zero_std (t : tensor) (mean a b : R) (w : world) :
  trunc_normal t mean 0 a b w
  = (Err ZeroDivisionError,
     mkW (rng w) (cursor w)
       (stdout w ++ if far_outside mean 0 a b then [TruncNormalWarning] else [])).
Proof.
  unfold trunc_normal, far_outside.
  rewrite (bind_ok _ _ _ _ _ (print_if_run _ _ w)).
  unfold bind, lift, pydiv.
  destruct (Req_dec_T 0 0) as [_|H]; [reflexivity | exfalso; apply H; reflexivity].
Qed.

Lemma RTM_init_zero_heads (input : tensor) (d0 d1 d2 tK : nat) (w : world) :
  shape input = [d0; d1; d2] -> RTM.init input tK 0 w = (Err ZeroDivisionError, w).
Proof.
  intros Hs. unfold RTM.init.
  destruct (transpose_3d input d0 d1 d2 0 1 Hs) as (x1 & Hx1 & Hs1 & _); [lia | lia |].
  rewrite (bind_lift_ok _ _ _ _ Hx1).
  destruct (transpose_3d x1 d1 d0 d2 1 2 Hs1) as (x2 & Hx2 & Hs2 & _); [lia | lia |].
  rewrite (bind_lift_ok _ _ _ _ Hx2). reflexivity.
Qed.

Lemma STM_init_zero_heads (input : tensor) (d0 d1 d2 tK : nat) (w : world) :
  shape input = [d0; d1; d2] -> STM.init input tK 0 w = (Err ZeroDivisionError, w).
Proof.
  intros Hs. unfold STM.init.
  destruct (transpose_3d input d0 d1 d2 1 2 Hs) as (x2 & Hx2 & Hs2 & _); [lia | lia |].
  rewrite (bind_lift_ok _ _ _ _ Hx2). reflexivity.
Qed.

Lemma TTM_init_zero_submatrices (input : tensor) (d0 d1 d2 tK hA : nat) (w : world) :
  shape input = [d0; d1; d2] -> TTM.init input 0 tK hA w = (Err ZeroDivisionError, w).
Proof.
  intros Hs. unfold TTM.init.
  destruct (transpose_3d input d0 d1 d2 0 2 Hs) as (x2 & Hx2 & Hs2 & _); [lia | lia |].
  rewrite (bind_lift_ok _ _ _ _ Hx2). cbv zeta.
  unfold bind at 1. unfold lift at 1. rewrite pydiv_INR_zero. reflexivity.
Qed.

Lemma TTM_init_zero_heads (input : tensor) (d0 d1 d2 avgf tK : nat) (w : world) :
  shape input = [d0; d1; d2] -> avgf <> 0 ->
  TTM.init input avgf tK 0 w
  = (Err ZeroDivisionError,
     mkW (rng w) (cursor w)
       (stdout w ++ if negb (d2 mod avgf =? 0) || (d2 / avgf =? 0)
                    then [Error3_TTM (INR d2 / INR avgf) d2 avgf] else [])).
Proof.
  intros Hs Havgf. unfold TTM.init.
  destruct (transpose_3d input d0 d1 d2 0 2 Hs) as (x2 & Hx2 & Hs2 & _); [lia | lia |].
  rewrite (bind_lift_ok _ _ _ _ Hx2). cbv zeta. rewrite Hs2. cbn [swap_nth set_nth nth].
  rewrite (bind_lift_ok _ _ _ _ (pydiv_INR_ok (INR d2) avgf Havgf)).
  rewrite (bind_ok _ _ _ _ _ (print_if_run _ _ w)).
  reflexivity.
Qed.

(** X6. A head count of 0 makes the constructors of the three attention
    components raise ZeroDivisionError, and so does a submatrix count of 0
    in TTM; this happens before any parameter is drawn. *)
Theorem attention_init_zero_division
    (input : tensor) (d0 d1 d2 tK hA avgf : nat) (w : world) :
  shape input = [d0; d1; d2] ->
  RTM.init input tK 0 w = (Err ZeroDivisionError, w)
  /\ STM.init input tK 0 w = (Err ZeroDivisionError, w)
  /\ TTM.init input 0 tK hA w = (Err ZeroDivisionError, w)
  /\ fst (TTM.init input avgf tK 0 w) = Err ZeroDivisionError
  /\ cursor (snd (TTM.init input avgf tK 0 w)) = cursor w.
Proof.
  intros Hs.
  split; [exact (RTM_init_zero_heads input d0 d1 d2 tK w Hs)|].
  split; [exact (STM_init_zero_heads input d0 d1 d2 tK w Hs)|].
  split; [exact (TTM_init_zero_submatrices input d0 d1 d2 tK hA w Hs)|].
  destruct (Nat.eq_dec avgf 0) as [->|Havgf].
  - rewrite (TTM_init_zero_submatrices input d0 d1 d2 tK 0 w Hs). split; reflexivity.
  - rewrite (TTM_init_zero_heads input d0 d1 d2 avgf tK w Hs Havgf). split; reflexivity.
Qed.

Lemma EEGformer_init_short (input : tensor) (T : nat) (rest : list nat)
    (num_cls C K tK hr hs ht avgf cfs : nat) (w : world) :
  shape input = T :: rest -> T < 3 * (K - 1) ->
  EEGformer.init input num_cls C K tK hr hs ht avgf cfs w = (Err RuntimeError, w).
Proof.
  intros Hs HT. unfold EEGformer.init. cbv zeta.
  assert (Ht0 : shape_at input 0 = Ok T) by (unfold shape_at; rewrite Hs; reflexivity).
  rewrite (bind_lift_ok _ _ _ _ Ht0).
  unfold bind at 1. unfold lift at 1. unfold zeros_outshape1. cbv zeta.
  destruct (Z.ltb_spec (Z.of_nat T - 3 * (Z.of_nat K - 1)) 0) as [Hlt|Hge];
    [reflexivity | lia].
Qed.

(** X7. For a kernel size of at least 1 and an input with a first axis of
    length T, EEGformer(...) returns a network exactly when T >= 3*(K-1)
    and none of the channel count, the three head counts and the submatrix
    count is 0.  The head counts need not divide anything. *)
Theorem eegformer_init_accepts_iff (input : tensor) (T : nat) (rest : list nat)
    (num_cls C K tK hr hs ht avgf cfs : nat) (w : world) :
  shape input = T :: rest -> 1 <= K ->
  ((exists self w',
      EEGformer.init input num_cls C K tK hr hs ht avgf cfs w = (Ok self, w'))
   <-> 3 * (K - 1) <= T /\ C <> 0 /\ hr <> 0 /\ hs <> 0 /\ ht <> 0 /\ avgf <> 0).
Proof.
  intros Hs HK. split.
  - intros (self & w' & Hinit).
    destruct (EEGformer_init_inv _ _ _ _ _ _ _ _ _ _ _ _ _ HK Hinit)
      as (T0 & rest0 & Hs0 & HT & HC & Hhr & Hhs & Hht & Havgf & _).
    rewrite Hs in Hs0. injection Hs0 as <- _.
    repeat split; assumption.
  - intros (HT & HC & Hhr & Hhs & Hht & Havgf).
    destruct (EEGformer_init_run input T rest num_cls C K tK hr hs ht avgf cfs w
                Hs HK HT HC Hhr Hhs Hht Havgf) as (self & w' & Hinit & _).
    exists self, w'. exact Hinit.
Qed.

(** X8. How EEGformer(...) fails: an input with fewer than 3*(K-1) time
    steps is rejected with a RuntimeError by the first torch.zeros, before
    anything is built; with enough time steps and at least one channel, a
    head count or a submatrix count of 0 ends in ZeroDivisionError. *)
Theorem eegformer_init_rejects (input : tensor) (T : nat) (rest : list nat)
    (num_cls C K tK hr hs ht avgf cfs : nat) (w : world) :
  shape input = T :: rest -> 1 <= K ->
  (T < 3 * (K - 1) ->
   EEGformer.init input num_cls C K tK hr hs ht avgf cfs w = (Err RuntimeError, w))
  /\ (3 * (K - 1) <= T -> C <> 0 -> hr = 0 \/ hs = 0 \/ ht = 0 \/ avgf = 0 ->
      fst (EEGformer.init input num_cls C K tK hr hs ht avgf cfs w)
      = Err ZeroDivisionError).
Proof.
  intros Hs HK. split; [apply EEGformer_init_short with (rest := rest); exact Hs|].
  intros HT HC Hz. unfold EEGformer.init. cbv zeta.
  assert (Ht0 : shape_at input 0 = Ok T) by (unfold shape_at; rewrite Hs; reflexivity).
  rewrite (bind_lift_ok _ _ _ _ Ht0).
  rewrite (bind_lift_ok _ _ _ _ (zeros_outshape1_ok C 120 T K HK HT)).
  cbn [zeros shape nth].
  destruct (ODCM_init_ok C K w HC) as (odcm & w1 & Hodcm).
  rewrite (bind_ok _ _ _ _ _ Hodcm).
  destruct (Nat.eq_dec hr 0) as [->|Hhr].
  { unfold bind at 1.
    rewrite (RTM_init_zero_heads (zeros [C; 120; T - 3 * (K - 1)]) C 120
               (T - 3 * (K - 1)) tK w1 eq_refl). reflexivity. }
  destruct (RTM_init_run (zeros [C; 120; T - 3 * (K - 1)]) C 120 (T - 3 * (K - 1))
              tK hr w1 eq_refl Hhr) as (rtm & w2 & Hrtm & _).
  rewrite (bind_ok _ _ _ _ _ Hrtm).
  destruct (Nat.eq_dec hs 0) as [->|Hhs].
  { unfold bind at 1.
    rewrite (STM_init_zero_heads (zeros [C; 120 + 1; T - 3 * (K - 1)]) C 121
               (T - 3 * (K - 1)) tK w2 eq_refl). reflexivity. }
  destruct (STM_init_run (zeros [C; 120 + 1; T - 3 * (K - 1)]) C 121 (T - 3 * (K - 1))
              tK hs w2 eq_refl Hhs) as (stm & w3 & Hstm & _).
  rewrite (bind_ok _ _ _ _ _ Hstm).
  destruct (Nat.eq_dec avgf 0) as [->|Havgf].
  { unfold bind at 1.
    rewrite (TTM_init_zero_submatrices (zeros [120 + 1; C + 1; T - 3 * (K - 1)]) 121 (C + 1)
               (T - 3 * (K - 1)) tK ht w3 eq_refl).
    reflexivity. }
  destruct (Nat.eq_dec ht 0) as [->|Hht]; [|lia].
  unfold bind at 1.
  rewrite (TTM_init_zero_heads (zeros [120 + 1; C + 1; T - 3 * (K - 1)]) 121 (C + 1)
             (T - 3 * (K - 1)) avgf tK w3 eq_refl Havgf).
  reflexivity.
Qed.

(** X9. What EEGformer(...) prints: the ERROR lines of RTM, STM and TTM,
    in this order, each exactly when its check fails on the size after the
    patch embedding, T' = T - 3*(K-1); nothing else is printed, and the
    generator's stream is only consumed. *)
Theorem eegformer_init_messages (input : tensor) (T : nat) (rest : list nat)
    (num_cls C K tK hr hs ht avgf cfs : nat) (w w' : world) (self : EEGformer.t) :
  EEGformer.init input num_cls C K tK hr hs ht avgf cfs w = (Ok self, w') ->
  shape input = T :: rest -> 1 <= K ->
  stdout w'
  = stdout w
    ++ (if negb ((T - 3 * (K - 1)) mod hr =? 0) || ((T - 3 * (K - 1)) / hr =? 0)
        then [Error1_RTM ((T - 3 * (K - 1)) / hr) (T - 3 * (K - 1)) hr] else [])
    ++ (if negb ((T - 3 * (K - 1)) mod hs =? 0) || ((T - 3 * (K - 1)) / hs =? 0)
        then [Error2_STM ((T - 3 * (K - 1)) / hs) (T - 3 * (K - 1)) hs] else [])
    ++ TTM_messages (T - 3 * (K - 1)) ((C + 1) * 121) avgf ht
  /\ rng w' = rng w.
Proof.
  intros Hinit Hs HK.
  destruct (EEGformer_init_inv _ _ _ _ _ _ _ _ _ _ _ _ _ HK Hinit)
    as (T0 & rest0 & Hs0 & HT & HC & Hhr & Hhs & Hht & Havgf & _).
  rewrite Hs in Hs0. injection Hs0 as <- _.
  revert Hinit. unfold EEGformer.init. cbv zeta.
  assert (Ht0 : shape_at input 0 = Ok T) by (unfold shape_at; rewrite Hs; reflexivity).
  rewrite (bind_lift_ok _ _ _ _ Ht0).
  rewrite (bind_lift_ok _ _ _ _ (zeros_outshape1_ok C 120 T K HK HT)).
  cbn [zeros shape nth].
  destruct (ODCM_init_ok C K w HC) as (odcm & w1 & Hodcm).
  rewrite (bind_ok _ _ _ _ _ Hodcm).
  apply ODCM_init_shaped in Hodcm as (_ & _ & Hr1 & Ho1).
  destruct (RTM_init_run (zeros [C; 120; T - 3 * (K - 1)]) C 120 (T - 3 * (K - 1))
              tK hr w1 eq_refl Hhr) as (rtm & w2 & Hrtm & _ & _ & _ & Hr2 & Ho2).
  rewrite (bind_ok _ _ _ _ _ Hrtm).
  destruct (STM_init_run (zeros [C; 120 + 1; T - 3 * (K - 1)]) C 121 (T - 3 * (K - 1))
              tK hs w2 eq_refl Hhs) as (stm & w3 & Hstm & _ & _ & _ & Hr3 & Ho3).
  rewrite (bind_ok _ _ _ _ _ Hstm).
  destruct (TTM_init_run (zeros [120 + 1; C + 1; T - 3 * (K - 1)]) 121 (C + 1)
              (T - 3 * (K - 1)) avgf tK ht w3 eq_refl Havgf Hht)
    as (ttm & w4 & Httm & _ & _ & _ & _ & Hr4 & Ho4).
  rewrite (bind_ok _ _ _ _ _ Httm).
  destruct (CNNdecoder_init_run (zeros [avgf + 1; C + 1; 120 + 1]) (avgf + 1) (C + 1) 121
              num_cls cfs w4 eq_refl) as (dec & w5 & Hdec & _ & Hr5 & Ho5).
  rewrite (bind_ok _ _ _ _ _ Hdec). unfold ret. intros Heq.
  assert (Hw : w5 = w') by congruence. subst w'.
  split.
  - rewrite Ho5, Ho4, Ho3, Ho2, Ho1. rewrite <- !app_assoc. reflexivity.
  - rewrite Hr5, Hr4, Hr3, Hr2, Hr1. reflexivity.
Qed.

End RejectedArguments.

Lemma attention_init_zero_division_witness :
  RTM.init (SF := stand_in) (zeros [1; 2; 3]) 1 0 world0 = (Err ZeroDivisionError, world0)
  /\ STM.init (SF := stand_in) (zeros [1; 2; 3]) 1 0 world0
     = (Err ZeroDivisionError, world0)
  /\ TTM.init (SF := stand_in) (zeros [1; 2; 3]) 0 1 1 world0
     = (Err ZeroDivisionError, world0).
Proof.
  destruct (attention_init_zero_division (SF := stand_in) (zeros [1; 2; 3])
              1 2 3 1 1 1 world0 eq_refl) as (H1 & H2 & H3 & _).
  exact (conj H1 (conj H2 H3)).
Defined.

Lemma eegformer_init_accepts_iff_witness :
  exists self w',
    EEGformer.init (SF := stand_in) (zeros [256; 19]) 2 19 10 2 1 1 4 4 1 world0
    = (Ok self, w').
Proof.
  apply (eegformer_init_accepts_iff (SF := stand_in) (zeros [256; 19]) 256 [19]
           2 19 10 2 1 1 4 4 1 world0 eq_refl); lia.
Defined.

Lemma eegformer_init_rejects_witness :
  EEGformer.init (SF := stand_in) (zeros [20; 19]) 2 19 10 2 1 1 4 4 1 world0
  = (Err RuntimeError, world0)
  /\ fst (EEGformer.init (SF := stand_in) (zeros [256; 19]) 2 19 10 2 1 0 4 4 1 world0)
     = Err ZeroDivisionError.
Proof.
  split.
  - apply (eegformer_init_rejects (SF := stand_in) (zeros [20; 19]) 20 [19]
             2 19 10 2 1 1 4 4 1 world0 eq_refl); lia.
  - apply (eegformer_init_rejects (SF := stand_in) (zeros [256; 19]) 256 [19]
             2 19 10 2 1 0 4 4 1 world0 eq_refl); lia.
Defined.

Lemma eegformer_init_messages_witness :
  exists self w',
    EEGformer.init (SF := stand_in) (zeros [256; 19]) 2 19 10 2 1 1 4 4 1 world0
    = (Ok self, w')
    /\ stdout w' = [Error3_TTM (INR 229 / INR 4) 229 4].
Proof.
  destruct (EEGformer_init_run (SF := stand_in) (zeros [256; 19]) 256 [19]
              2 19 10 2 1 1 4 4 1 world0 eq_refl)
    as (self & w' & Hinit & _); try lia.
  exists self, w'. split; [exact Hinit|].
  destruct (eegformer_init_messages (SF := stand_in) (zeros [256; 19]) 256 [19]
              2 19 10 2 1 1 4 4 1 world0 w' self Hinit eq_refl) as [Hout _]; [lia|].
  rewrite Hout. reflexivity.
Defined.

(** ** The positional parameters of the attention components *)

Ltac peel H a w Ha :=
  apply bind_inv in H; destruct H as (a & w & Ha & H).

Section PositionalParameters.
Context {SF : SpecialFunctions}.

Lemma RTM_init_bounds (input : tensor) (tK hA : nat) (w w' : world) (self : RTM.t) :
  RTM.init input tK hA w = (Ok self, w') ->
  forall idx, (-2 <= data (RTM.bias self) idx <= 2)%R
              /\ (-2 <= data (RTM.cls self) idx <= 2)%R.
Proof.
  intros H. unfold RTM.init in H.
  peel H x1 w1 H1. peel H x2 w2 H2. cbv zeta in H.
  peel H Dh w3 H3. peel H u w4 H4. peel H weight w5 H5.
  peel H bias w6 H6. peel H cls w7 H7.
  peel H Wqkv w8 H8. peel H Wo w9 H9. peel H mlp w10 H10.
  apply ret_inv in H as [-> _]. cbn [RTM.bias RTM.cls].
  apply trunc_normal_sound in H6 as [_ H6]; [|lra].
  apply trunc_normal_sound in H7 as [_ H7]; [|lra].
  intros idx. split; [apply H6 | apply H7].
Qed.

Lemma STM_init_bounds (input : tensor) (tK hA : nat) (w w' : world) (self : STM.t) :
  STM.init input tK hA w = (Ok self, w') ->
  forall idx, (-2 <= data (STM.bias self) idx <= 2)%R
              /\ (-2 <= data (STM.cls self) idx <= 2)%R.
Proof.
  intros H. unfold STM.init in H.
  peel H x2 w2 H2. cbv zeta in H.
  peel H Dh w3 H3. peel H u w4 H4. peel H weight w5 H5.
  peel H bias w6 H6. peel H cls w7 H7.
  peel H Wqkv w8 H8. peel H Wo w9 H9. peel H mlp w10 H10.
  apply ret_inv in H as [-> _]. cbn [STM.bias STM.cls].
  apply trunc_normal_sound in H6 as [_ H6]; [|lra].
  apply trunc_normal_sound in H7 as [_ H7]; [|lra].
  intros idx. split; [apply H6 | apply H7].
Qed.

Lemma TTM_init_bounds (input : tensor) (avgf tK hA : nat) (w w' : world) (self : TTM.t) :
  TTM.init input avgf tK hA w = (Ok self, w') ->
  forall idx, (-2 <= data (TTM.bias self) idx <= 2)%R
              /\ (-2 <= data (TTM.cls self) idx <= 2)%R.
Proof.
  intros H. unfold TTM.init in H. cbv zeta in H.
  peel H x2 w2 H2. peel H seg w3 H3. peel H u w4 H4.
  peel H Dh w5 H5. peel H u' w6 H6. peel H weight w7 H7.
  peel H bias w8 H8. peel H cls w9 H9.
  peel H Wqkv w10 H10. peel H Wo w11 H11. peel H mlp w12 H12.
  apply ret_inv in H as [-> _]. cbn [TTM.bias TTM.cls].
  apply trunc_normal_sound in H8 as [_ H8]; [|lra].
  apply trunc_normal_sound in H9 as [_ H9]; [|lra].
  intros idx. split; [apply H8 | apply H9].
Qed.

(** X10. In a constructed RTM, STM or TTM every entry of the positional
    parameter bias and of the aggregate token cls lies in [-2, 2]: both come
    out of trunc_normal with its default bounds. *)
Theorem attention_bias_cls_bounded (input : tensor) (tK hA avgf : nat) (w : world) :
  (forall self w', RTM.init input tK hA w = (Ok self, w') ->
     forall idx, (-2 <= data (RTM.bias self) idx <= 2)%R
                 /\ (-2 <= data (RTM.cls self) idx <= 2)%R)
  /\ (forall self w', STM.init input tK hA w = (Ok self, w') ->
        forall idx, (-2 <= data (STM.bias self) idx <= 2)%R
                    /\ (-2 <= data (STM.cls self) idx <= 2)%R)
  /\ (forall self w', TTM.init input avgf tK hA w = (Ok self, w') ->
        forall idx, (-2 <= data (TTM.bias self) idx <= 2)%R
                    /\ (-2 <= data (TTM.cls self) idx <= 2)%R).
Proof.
  split; [|split].
  - intros self w' H. exact (RTM_init_bounds _ _ _ _ _ _ H).
  - intros self w' H. exact (STM_init_bounds _ _ _ _ _ _ H).
  - intros self w' H. exact (TTM_init_bounds _ _ _ _ _ _ _ H).
Qed.

End PositionalParameters.

Lemma attention_bias_cls_bounded_witness :
  exists self w',
    RTM.init (SF := stand_in) (zeros [1; 2; 4]) 2 2 world0 = (Ok self, w')
    /\ (-2 <= data (RTM.bias self) [0; 0; 0]%nat <= 2)%R
    /\ (-2 <= data (RTM.cls self) [0; 0; 0]%nat <= 2)%R.
Proof.
  destruct (RTM_init_run (SF := stand_in) (zeros [1; 2; 4]) 1 2 4 2 2 world0 eq_refl)
    as (self & w' & Hinit & _); [lia|].
  exists self, w'. split; [exact Hinit|].
  destruct (attention_bias_cls_bounded (SF := stand_in) (zeros [1; 2; 4]) 2 2 1 world0)
    as [Hrtm _].
  exact (Hrtm self w' Hinit [0; 0; 0]).
Defined.

(** ** The forward pass of each component *)

Lemma TTM_project_step_fails (K J H Dh D a : nat) (Wo imv savespace : tensor) :
  a < K -> K * J * (H * Dh) <> K * J * D ->
  shape Wo = [K; D; D] -> shape imv = [K; J; H; Dh] ->
  TTM.project_step Wo a [K; J; D] imv savespace = Err ShapeError.
Proof.
  intros Ha Hne HW Hi. unfold TTM.project_step.
  destruct (getitem_ok Wo [At a] [D; D]) as (Wa & HWa & _).
  { rewrite HW. cbn [slice_shape]. ltb_true. reflexivity. }
  rewrite HWa. cbn [rbind]. unfold reshape. rewrite Hi.
  replace (numel [K; J; H; Dh] =? numel [K; J; D]) with false; [reflexivity|].
  symmetry. apply Nat.eqb_neq. cbn [numel fold_right]. lia.
Qed.

Lemma exact_product (D hA : nat) : D mod hA = 0 -> hA * (D / hA) = D.
Proof. intros H. symmetry. apply Nat.Div0.div_exact. exact H. Qed.

Section ComponentForward.
Context {SF : SpecialFunctions}.

Lemma STM_forward_indivisible (outer n D : nat) (self : STM.t) (x : tensor) (w : world) :
  STM_shaped outer n D self -> STM.hA self * STM.Dh self <> D ->
  1 <= STM.tK self -> 1 <= outer -> shape x = [n; outer; D] ->
  STM.forward self x w = (Err ShapeError, w).
Proof.
  intros (Hin & HM & _ & Hattn) HD HtK Hout Hx. unfold STM.forward.
  destruct (transpose_3d x n outer D 1 2 Hx) as (x2 & Hx2 & Hs2 & _); [lia | lia |].
  rewrite (bind_lift_ok _ _ _ _ Hx2). cbn [swap_nth set_nth nth] in Hs2.
  rewrite HM, Hs2. cbn [nth].
  apply Block3_run_indivisible with (outer := outer) (n := n); try assumption. lia.
Qed.

Lemma TTM_forward_indivisible (T d1 d2 : nat) (self : TTM.t) (x : tensor) (w : world) :
  TTM_shaped T d1 d2 self -> TTM.hA self * TTM.Dh self <> d1 * d2 ->
  1 <= TTM.tK self -> shape x = [d2; d1; T] ->
  TTM.forward self x w = (Err ShapeError, w).
Proof.
  intros Hsh HD HtK Hx. unfold TTM_shaped in Hsh. cbv zeta in Hsh.
  destruct Hsh as (Havgf & Hseg & HM & HDh & Hw & Hb & Hc & HWq & HWo & Hln & Hlnz
                   & Hmlp & Hlnx).
  unfold TTM.forward.
  destruct (transpose_3d x d2 d1 T 0 2 Hx) as (input & Hin & Hins & _); [lia | lia |].
  rewrite (bind_lift_ok _ _ _ _ Hin). cbn [swap_nth set_nth nth] in Hins.
  cbv zeta. rewrite Hins. cbn [nth]. rewrite Hseg.
  destruct (segment_average_ok (TTM.avgf self) T d1 d2 input
              (zeros [TTM.avgf self; d1; d2]) Havgf Hins eq_refl) as (ic & Hic & Hics).
  rewrite (bind_lift_ok _ _ _ _ Hic). cbn [zeros shape] in Hics.
  destruct (reshape_ok ic [TTM.avgf self; d1 * d2]) as (altx & Halt & Halts).
  { rewrite Hics. cbn [numel fold_right]. lia. }
  rewrite (bind_lift_ok _ _ _ _ Halt).
  destruct (einsum_lm_im_il (TTM.weight self) altx (d1 * d2) (d1 * d2) (TTM.avgf self)
              Hw Halts) as (s0 & Hs0 & Hs0s).
  rewrite (bind_lift_ok _ _ _ _ Hs0).
  destruct (cat_dim0_2d (TTM.cls self) s0 1 (TTM.avgf self) (d1 * d2) Hc Hs0s)
    as (s1 & Hs1 & Hs1s).
  rewrite (bind_lift_ok _ _ _ _ Hs1).
  replace (1 + TTM.avgf self) with (TTM.avgf self + 1) in Hs1s by lia.
  destruct (tadd_same s1 (TTM.bias self)) as (s2 & Hs2 & Hs2s); [congruence|].
  rewrite (bind_lift_ok _ _ _ _ Hs2). rewrite Hs1s in Hs2s.
  unfold bind at 1. rewrite for_range_first_err with (e := ShapeError);
    [reflexivity | exact HtK |].
  unfold TTM.block. rewrite HM.
  destruct (TTM_qkv_step_ok (TTM.tK self) (TTM.avgf self + 1) (TTM.hA self) (TTM.Dh self)
              (d1 * d2) 0 (TTM.Wqkv self) (TTM.lnorm self) s2
              (zeros [TTM.tK self; 3; TTM.avgf self + 1; TTM.hA self; TTM.Dh self]))
    as (q1 & Hq1 & Hq1s); [lia | exact HWq | exact Hln | exact Hs2s | reflexivity |].
  rewrite (bind_lift_ok _ _ _ _ Hq1). cbn [zeros shape] in Hq1s.
  destruct (TTM_score_step_spec (TTM.tK self) (TTM.avgf self + 1) (TTM.hA self)
              (TTM.Dh self) 0 q1 (zeros [TTM.tK self; TTM.avgf self + 1; TTM.hA self]))
    as (r1 & Hr1 & Hr1s & _); [lia | exact Hq1s | reflexivity |].
  rewrite (bind_lift_ok _ _ _ _ Hr1). cbn [zeros shape] in Hr1s.
  destruct (TTM_imv_step_ok (TTM.tK self) (TTM.avgf self + 1) (TTM.hA self) (TTM.Dh self)
              0 r1 q1
              (zeros [TTM.tK self; TTM.avgf self + 1; TTM.hA self; TTM.Dh self]))
    as (i1 & Hi1 & Hi1s); [lia | exact Hr1s | exact Hq1s | reflexivity |].
  rewrite (bind_lift_ok _ _ _ _ Hi1). cbn [zeros shape] in Hi1s.
  destruct (TTM_accumulate_upto (TTM.tK self) (TTM.avgf self + 1) (TTM.hA self)
              (TTM.Dh self) 0 i1 (TTM.avgf self) Hi1s)
    as (i2 & Hi2 & Hi2s & _); [lia | lia |].
  rewrite (bind_lift_ok _ _ _ _ Hi2). rewrite Hi1s in Hi2s.
  unfold bind at 1. unfold lift at 1.
  rewrite (TTM_project_step_fails (TTM.tK self) (TTM.avgf self + 1) (TTM.hA self)
             (TTM.Dh self) (d1 * d2) 0 (TTM.Wo self) i2 s2);
    [reflexivity | lia | | exact HWo | exact Hi2s].
  intros Heq. apply HD.
  assert (Hpos : 0 < TTM.tK self * (TTM.avgf self + 1)) by nia.
  nia.
Qed.

(** X11. A constructed RTM whose head count divides the feature size D
    maps an input of the shape it was built for, [C, S, D], to [C, S + 1, D]
    (one aggregate token is put in front of the S tokens), and leaves the
    world as it was. *)
Theorem rtm_forward_shape (input x : tensor) (d0 d1 d2 tK hA : nat)
    (w w' wx : world) (self : RTM.t) :
  RTM.init input tK hA w = (Ok self, w') ->
  shape input = [d0; d1; d2] -> shape x = [d0; d1; d2] -> d2 mod hA = 0 ->
  exists y, RTM.forward self x wx = (Ok y, wx) /\ shape y = [d0; d1 + 1; d2].
Proof.
  intros Hinit Hs Hx Hdiv.
  destruct (RTM_init_inv input d0 d1 d2 tK hA w w' self Hs Hinit)
    as (HhA & Hshaped & _ & Hh & _).
  apply RTM_forward_ok; try assumption.
  destruct Hshaped as (_ & _ & HDh & _). rewrite HDh, Hh.
  apply exact_product. exact Hdiv.
Qed.

(** X12. A constructed STM maps an input of the shape it was built for,
    [S, C, D], to [C, S + 1, D] when its head count divides D; when the head
    count does not divide D, or exceeds it, the forward pass of a module
    with at least one block fails with a shape error on any non-empty input.
    Either way the world is left as it was. *)
Theorem stm_forward_shape (input x : tensor) (d0 d1 d2 tK hA : nat)
    (w w' wx : world) (self : STM.t) :
  STM.init input tK hA w = (Ok self, w') ->
  shape input = [d0; d1; d2] -> shape x = [d0; d1; d2] ->
  (d2 mod hA = 0 ->
   exists y, STM.forward self x wx = (Ok y, wx) /\ shape y = [d1; d0 + 1; d2])
  /\ (d2 mod hA <> 0 \/ d2 / hA = 0 -> 1 <= tK -> 1 <= d1 -> 1 <= d2 ->
      STM.forward self x wx = (Err ShapeError, wx)).
Proof.
  intros Hinit Hs Hx.
  destruct (STM_init_inv input d0 d1 d2 tK hA w w' self Hs Hinit)
    as (HhA & Hshaped & HtK & Hh & _).
  pose proof Hshaped as (_ & _ & HDh & _).
  split.
  - intros Hdiv. apply STM_forward_ok; try assumption.
    rewrite HDh, Hh. apply exact_product. exact Hdiv.
  - intros Hbad H1 H2 H3. apply (STM_forward_indivisible d1 d0 d2); try assumption.
    + rewrite HDh, Hh. apply indivisible_product; assumption.
    + rewrite HtK. exact H1.
Qed.

(** X13. A constructed TTM with M submatrices maps an input of the shape it
    was built for, [C, S, D], to [M + 1, S, C] when its head count divides
    S * C, whether or not M divides D (ERROR 3 is only printed); when the
    head count does not divide S * C, or exceeds it, the forward pass of a
    module with at least one block fails with a shape error.  Either way
    the world is left as it was. *)
Theorem ttm_forward_shape (input x : tensor) (d0 d1 d2 avgf tK hA : nat)
    (w w' wx : world) (self : TTM.t) :
  TTM.init input avgf tK hA w = (Ok self, w') ->
  shape input = [d0; d1; d2] -> shape x = [d0; d1; d2] ->
  ((d1 * d0) mod hA = 0 ->
   exists y, TTM.forward self x wx = (Ok y, wx) /\ shape y = [avgf + 1; d1; d0])
  /\ ((d1 * d0) mod hA <> 0 \/ d1 * d0 / hA = 0 -> 1 <= tK -> 1 <= d1 * d0 ->
      TTM.forward self x wx = (Err ShapeError, wx)).
Proof.
  intros Hinit Hs Hx.
  destruct (TTM_init_inv input d0 d1 d2 avgf tK hA w w' self Hs Hinit)
    as (Havgf & HhA & Hshaped & Ha & HtK & Hh & _).
  pose proof Hshaped as Hsh2. unfold TTM_shaped in Hsh2. cbv zeta in Hsh2.
  destruct Hsh2 as (_ & _ & _ & HDh & _).
  split.
  - intros Hdiv. rewrite <- Ha. apply (TTM_forward_ok d2 d1 d0); try assumption.
    rewrite HDh, Hh. apply exact_product. exact Hdiv.
  - intros Hbad H1 H2. apply (TTM_forward_indivisible d2 d1 d0); try assumption.
    + rewrite HDh, Hh. apply indivisible_product; assumption.
    + rewrite HtK. exact H1.
Qed.

(** X14. A decoder built for an input of shape [M, S, C] with positive
    sizes maps any input of that shape to the [1, num_cls] row of class
    scores when M >= 2 and CF_second >= 1.  With M = 1 the third
    convolution is built with int(1 / 2) = 0 output channels, and with
    CF_second = 0 the second one has none: the constructor accepts both,
    and the forward pass then fails in the convolution, which needs at
    least [groups] = 1 output channels. *)
Theorem cnndecoder_forward_shape (input x : tensor) (d0 d1 d2 num_cls n : nat)
    (w w' : world) (self : CNNdecoder.t) :
  CNNdecoder.init input num_cls n w = (Ok self, w') ->
  shape input = [d0; d1; d2] -> shape x = [d0; d1; d2] ->
  1 <= d0 -> 1 <= d1 -> 1 <= d2 ->
  (2 <= d0 -> 1 <= n ->
   exists y, CNNdecoder.forward self x = Ok y /\ shape y = [1; num_cls])
  /\ (d0 = 1 \/ n = 0 -> CNNdecoder.forward self x = Err ShapeError).
Proof.
  intros Hinit Hs Hx Hd0 Hd1 Hd2.
  destruct (CNNdecoder_init_run input d0 d1 d2 num_cls n w Hs)
    as (self2 & w2 & Hrun & Hshaped & _).
  rewrite Hrun in Hinit. assert (Heq : self2 = self) by congruence. subst self2.
  split.
  - intros Hm Hn. apply (CNNdecoder_forward_ok d1 d2 d0 n num_cls); assumption.
  - intros Hbad. apply (CNNdecoder_forward_rejects d1 d2 d0 n num_cls); assumption.
Qed.

End ComponentForward.

Lemma rtm_forward_shape_witness :
  exists self w' y,
    RTM.init (SF := stand_in) (zeros [1; 2; 4]) 1 2 world0 = (Ok self, w')
    /\ RTM.forward (SF := stand_in) self (zeros [1; 2; 4]) w' = (Ok y, w')
    /\ shape y = [1; 3; 4].
Proof.
  destruct (RTM_init_run (SF := stand_in) (zeros [1; 2; 4]) 1 2 4 1 2 world0 eq_refl)
    as (self & w' & Hinit & _); [lia|].
  destruct (rtm_forward_shape (SF := stand_in) (zeros [1; 2; 4]) (zeros [1; 2; 4])
              1 2 4 1 2 world0 w' w' self Hinit eq_refl eq_refl eq_refl)
    as (y & Hy & Hys).
  exists self, w', y. repeat split; assumption.
Defined.

Lemma stm_forward_shape_witness :
  (exists self w' y,
     STM.init (SF := stand_in) (zeros [1; 2; 4]) 1 2 world0 = (Ok self, w')
     /\ STM.forward (SF := stand_in) self (zeros [1; 2; 4]) w' = (Ok y, w')
     /\ shape y = [2; 2; 4])
  /\ (exists self w',
        STM.init (SF := stand_in) (zeros [1; 2; 3]) 1 2 world0 = (Ok self, w')
        /\ STM.forward (SF := stand_in) self (zeros [1; 2; 3]) w'
           = (Err ShapeError, w')).
Proof.
  split.
  - destruct (STM_init_run (SF := stand_in) (zeros [1; 2; 4]) 1 2 4 1 2 world0 eq_refl)
      as (self & w' & Hinit & _); [lia|].
    destruct (stm_forward_shape (SF := stand_in) (zeros [1; 2; 4]) (zeros [1; 2; 4])
                1 2 4 1 2 world0 w' w' self Hinit eq_refl eq_refl) as [Hok _].
    destruct (Hok eq_refl) as (y & Hy & Hys).
    exists self, w', y. repeat split; assumption.
  - destruct (STM_init_run (SF := stand_in) (zeros [1; 2; 3]) 1 2 3 1 2 world0 eq_refl)
      as (self & w' & Hinit & _); [lia|].
    destruct (stm_forward_shape (SF := stand_in) (zeros [1; 2; 3]) (zeros [1; 2; 3])
                1 2 3 1 2 world0 w' w' self Hinit eq_refl eq_refl) as [_ Hbad].
    exists self, w'. split; [exact Hinit|].
    apply Hbad; [left; cbn; lia | lia | lia | lia].
Defined.

Lemma ttm_forward_shape_witness :
  (exists self w' y,
     TTM.init (SF := stand_in) (zeros [2; 3; 5]) 2 1 3 world0 = (Ok self, w')
     /\ In (Error3_TTM (INR 5 / INR 2) 5 2) (stdout w')
     /\ TTM.forward (SF := stand_in) self (zeros [2; 3; 5]) w' = (Ok y, w')
     /\ shape y = [3; 3; 2])
  /\ (exists self w',
        TTM.init (SF := stand_in) (zeros [2; 3; 5]) 2 1 4 world0 = (Ok self, w')
        /\ TTM.forward (SF := stand_in) self (zeros [2; 3; 5]) w'
           = (Err ShapeError, w')).
Proof.
  split.
  - destruct (TTM_init_run (SF := stand_in) (zeros [2; 3; 5]) 2 3 5 2 1 3 world0 eq_refl)
      as (self & w' & Hinit & _ & _ & _ & _ & _ & Hout); [lia | lia |].
    destruct (ttm_forward_shape (SF := stand_in) (zeros [2; 3; 5]) (zeros [2; 3; 5])
                2 3 5 2 1 3 world0 w' w' self Hinit eq_refl eq_refl) as [Hok _].
    destruct (Hok eq_refl) as (y & Hy & Hys).
    exists self, w', y. split; [exact Hinit|]. split; [|split; assumption].
    rewrite Hout. left. reflexivity.
  - destruct (TTM_init_run (SF := stand_in) (zeros [2; 3; 5]) 2 3 5 2 1 4 world0 eq_refl)
      as (self & w' & Hinit & _); [lia | lia |].
    destruct (ttm_forward_shape (SF := stand_in) (zeros [2; 3; 5]) (zeros [2; 3; 5])
                2 3 5 2 1 4 world0 w' w' self Hinit eq_refl eq_refl) as [_ Hbad].
    exists self, w'. split; [exact Hinit|].
    apply Hbad; [left; cbn; lia | lia | lia].
Defined.

Lemma cnndecoder_forward_shape_witness :
  (exists self w' y,
     CNNdecoder.init (zeros [3; 2; 4]) 2 1 world0 = (Ok self, w')
     /\ CNNdecoder.forward self (zeros [3; 2; 4]) = Ok y /\ shape y = [1; 2])
  /\ (exists self w',
        CNNdecoder.init (zeros [1; 2; 4]) 2 1 world0 = (Ok self, w')
        /\ CNNdecoder.forward self (zeros [1; 2; 4]) = Err ShapeError).
Proof.
  split.
  - destruct (CNNdecoder_init_run (zeros [3; 2; 4]) 3 2 4 2 1 world0 eq_refl)
      as (self & w' & Hinit & _).
    destruct (cnndecoder_forward_shape (zeros [3; 2; 4]) (zeros [3; 2; 4]) 3 2 4 2 1
                world0 w' self Hinit eq_refl eq_refl) as [Hok _]; [lia | lia | lia |].
    destruct Hok as (y & Hy & Hys); [lia | lia |].
    exists self, w', y. repeat split; assumption.
  - destruct (CNNdecoder_init_run (zeros [1; 2; 4]) 1 2 4 2 1 world0 eq_refl)
      as (self & w' & Hinit & _).
    destruct (cnndecoder_forward_shape (zeros [1; 2; 4]) (zeros [1; 2; 4]) 1 2 4 2 1
                world0 w' self Hinit eq_refl eq_refl) as [_ Hbad]; [lia | lia | lia |].
    exists self, w'. split; [exact Hinit | apply Hbad; left; reflexivity].
Defined.

(** ** What a block computes *)

Lemma prefix_sums (n : nat) (f g : nat -> R) :
  (forall j, g j = if (1 <=? j) && (j <? n) then (f j + g (j - 1)%nat)%R else f j) ->
  forall j, j < n -> g j = rsum (j + 1) f.
Proof.
  intros Hrec j. induction j as [|j IH]; intros Hj.
  - rewrite Hrec. cbn [Nat.leb andb Nat.add rsum]. ring.
  - rewrite Hrec.
    replace (1 <=? S j) with true by (symmetry; apply Nat.leb_le; lia).
    replace (S j <? n) with true by (symmetry; apply Nat.ltb_lt; lia).
    cbn [andb]. replace (S j - 1) with j by lia.
    rewrite IH by lia. replace (S j + 1) with (S (j + 1)) by lia.
    cbn [rsum]. replace (j + 1) with (S j) by lia. ring.
Qed.

(** X15. The accumulation loop in closed form.  After
    [for subj in range(1, n): imv[a, :, subj] += imv[a, :, subj - 1]] on a
    tensor with at least n sequence positions, position j < n of block a
    holds the sum of the original positions 0..j; the positions from n on
    and every other block are as before.  The same holds for the loop of
    TTM, whose tensor has no outer axis. *)
Theorem accumulate_closed_form (K I J H D a n : nat) (imv3 imv2 : tensor) :
  a < K -> n <= J ->
  shape imv3 = [K; I; J; H; D] -> shape imv2 = [K; J; H; D] ->
  (exists imv',
     Block3.accumulate a n imv3 = Ok imv' /\ shape imv' = shape imv3 /\
     forall a' i j h d, i < I -> h < H -> d < D ->
       data imv' [a'; i; j; h; d] =
       if (a' =? a) && (j <? n)
       then rsum (j + 1) (fun q => data imv3 [a; i; q; h; d])
       else data imv3 [a'; i; j; h; d])
  /\
  (exists imv',
     TTM.accumulate a n imv2 = Ok imv' /\ shape imv' = shape imv2 /\
     forall a' j h d, h < H -> d < D ->
       data imv' [a'; j; h; d] =
       if (a' =? a) && (j <? n)
       then rsum (j + 1) (fun q => data imv2 [a; q; h; d])
       else data imv2 [a'; j; h; d]).
Proof.
  intros Ha Hn H3 H2. split.
  - destruct (Block3_accumulate_upto K I J H D a imv3 n H3 Ha Hn)
      as (imv' & Hacc & Hsh & Hd).
    exists imv'. split; [exact Hacc|]. split; [exact Hsh|].
    intros a' i j h d Hi Hh Hdd.
    destruct (Nat.eqb_spec a' a) as [->|Hne]; cbn [andb].
    + destruct (Nat.ltb_spec j n) as [Hj|Hj].
      * apply (prefix_sums n (fun q => data imv3 [a; i; q; h; d])
                 (fun q => data imv' [a; i; q; h; d])); [|exact Hj].
        intros q. cbn beta. rewrite (Hd a i q h d Hi Hh Hdd) at 1.
        rewrite Nat.eqb_refl. reflexivity.
      * rewrite (Hd a i j h d Hi Hh Hdd). rewrite Nat.eqb_refl. cbn [andb].
        replace (j <? n) with false by (symmetry; apply Nat.ltb_ge; exact Hj).
        rewrite andb_false_r. reflexivity.
    + rewrite (Hd a' i j h d Hi Hh Hdd).
      replace (a' =? a) with false by (symmetry; apply Nat.eqb_neq; exact Hne).
      reflexivity.
  - destruct (TTM_accumulate_upto K J H D a imv2 n H2 Ha Hn)
      as (imv' & Hacc & Hsh & Hd).
    exists imv'. split; [exact Hacc|]. split; [exact Hsh|].
    intros a' j h d Hh Hdd.
    destruct (Nat.eqb_spec a' a) as [->|Hne]; cbn [andb].
    + destruct (Nat.ltb_spec j n) as [Hj|Hj].
      * apply (prefix_sums n (fun q => data imv2 [a; q; h; d])
                 (fun q => data imv' [a; q; h; d])); [|exact Hj].
        intros q. cbn beta. rewrite (Hd a q h d Hh Hdd) at 1.
        rewrite Nat.eqb_refl. reflexivity.
      * rewrite (Hd a j h d Hh Hdd). rewrite Nat.eqb_refl. cbn [andb].
        replace (j <? n) with false by (symmetry; apply Nat.ltb_ge; exact Hj).
        rewrite andb_false_r. reflexivity.
    + rewrite (Hd a' j h d Hh Hdd).
      replace (a' =? a) with false by (symmetry; apply Nat.eqb_neq; exact Hne).
      reflexivity.
Qed.

Lemma accumulate_closed_form_witness :
  let imv := mkT [1; 1; 3; 1; 1] (fun idx => INR (nth 2 idx 0 + 1)) in
  exists imv',
    Block3.accumulate 0 2 imv = Ok imv'
    /\ data imv' [0; 0; 0; 0; 0] = 1%R
    /\ data imv' [0; 0; 1; 0; 0] = 3%R
    /\ data imv' [0; 0; 2; 0; 0] = 3%R.
Proof.
  intros imv.
  destruct (accumulate_closed_form 1 1 3 1 1 0 2 imv (zeros [1; 3; 1; 1]))
    as [(imv' & Hacc & _ & Hd) _]; [lia | lia | reflexivity | reflexivity |].
  exists imv'. split; [exact Hacc|].
  rewrite !Hd by lia. unfold imv. cbn. repeat split; ring.
Defined.

Lemma einsum_ijh_ijhd_ijhd_value (s v : tensor) (I J H Dh : nat) :
  shape s = [I; J; H] -> shape v = [I; J; H; Dh] ->
  exists t, einsum "ijh,ijhd -> ijhd" s v = Ok t /\ shape t = [I; J; H; Dh] /\
    forall i j h d, i < I -> j < J -> h < H -> d < Dh ->
      data t [i; j; h; d] = (data s [i; j; h] * data v [i; j; h; d])%R.
Proof.
  intros Hs Hv. unfold einsum. cbn. rewrite Hs, Hv. cbn.
  rewrite !Nat.eqb_refl. cbn.
  eexists; split; [reflexivity|]. split; [reflexivity|].
  intros i j h d Hi Hj Hh Hd. cbn.
  rewrite !bidx_lt by assumption. reflexivity.
Qed.

Lemma einsum_ih_ihd_ihd_value (s v : tensor) (J H Dh : nat) :
  shape s = [J; H] -> shape v = [J; H; Dh] ->
  exists t, einsum "ih,ihd -> ihd" s v = Ok t /\ shape t = [J; H; Dh] /\
    forall j h d, j < J -> h < H -> d < Dh ->
      data t [j; h; d] = (data s [j; h] * data v [j; h; d])%R.
Proof.
  intros Hs Hv. unfold einsum. cbn. rewrite Hs, Hv. cbn.
  rewrite !Nat.eqb_refl. cbn.
  eexists; split; [reflexivity|]. split; [reflexivity|].
  intros j h d Hj Hh Hd. cbn.
  rewrite !bidx_lt by assumption. reflexivity.
Qed.

(** X16. The intermediate vectors.  In block a the vector stored at
    (outer i, position j, head h) is the value vector of that same position
    and head, [qkvspace[a, 2]], multiplied by the score of that position and
    head; no other position enters, and the other blocks are left as they
    were.  [Block3.imv_step] is the line of RTM and STM, [TTM.imv_step] the
    line of TTM. *)
Theorem intermediate_vector_is_scaled_value (K I J H Dh a : nat)
    (rsa3 qkv3 imv3 rsa2 qkv2 imv2 : tensor) :
  a < K ->
  shape rsa3 = [K; I; J; H] -> shape qkv3 = [K; 3; I; J; H; Dh] ->
  shape imv3 = [K; I; J; H; Dh] ->
  shape rsa2 = [K; J; H] -> shape qkv2 = [K; 3; J; H; Dh] ->
  shape imv2 = [K; J; H; Dh] ->
  (exists r,
     Block3.imv_step a rsa3 qkv3 imv3 = Ok r /\ shape r = shape imv3 /\
     forall a' i j h d, i < I -> j < J -> h < H -> d < Dh ->
       data r [a'; i; j; h; d] =
       if a' =? a
       then (data rsa3 [a; i; j; h] * data qkv3 [a; 2; i; j; h; d]%nat)%R
       else data imv3 [a'; i; j; h; d])
  /\
  (exists r,
     TTM.imv_step a rsa2 qkv2 imv2 = Ok r /\ shape r = shape imv2 /\
     forall a' j h d, j < J -> h < H -> d < Dh ->
       data r [a'; j; h; d] =
       if a' =? a
       then (data rsa2 [a; j; h] * data qkv2 [a; 2; j; h; d]%nat)%R
       else data imv2 [a'; j; h; d]).
Proof.
  intros Ha Hr3 Hq3 Hi3 Hr2 Hq2 Hi2. split.
  - unfold Block3.imv_step.
    destruct (getitem_ok rsa3 [At a] [I; J; H]) as (s & Hs & Hss & Hsd).
    { rewrite Hr3. cbn [slice_shape]. ltb_true. reflexivity. }
    rewrite Hs. cbn [rbind].
    destruct (getitem_ok qkv3 [At a; At 2] [I; J; H; Dh]) as (v & Hv & Hvs & Hvd).
    { rewrite Hq3. cbn [slice_shape]. ltb_true. reflexivity. }
    rewrite Hv. cbn [rbind].
    destruct (einsum_ijh_ijhd_ijhd_value s v I J H Dh Hss Hvs)
      as (iv & Hiv & Hivs & Hivd).
    rewrite Hiv. cbn [rbind].
    destruct (setitem_ok imv3 iv [At a]) as (r & Hset & Hsets & Hsetd).
    { rewrite Hi3, Hivs. cbn [slice_shape]. ltb_true. reflexivity. }
    exists r. split; [exact Hset|]. split; [exact Hsets|].
    intros a' i j h d Hi Hj Hh Hd. rewrite Hsetd. cbn [sub_index].
    destruct (Nat.eqb_spec a' a); [|reflexivity].
    rewrite bget_in_bounds by (rewrite Hivs; cbn [in_bounds]; ltb_true; reflexivity).
    rewrite Hivd by assumption. rewrite Hsd, Hvd. reflexivity.
  - unfold TTM.imv_step.
    destruct (getitem_ok rsa2 [At a] [J; H]) as (s & Hs & Hss & Hsd).
    { rewrite Hr2. cbn [slice_shape]. ltb_true. reflexivity. }
    rewrite Hs. cbn [rbind].
    destruct (getitem_ok qkv2 [At a; At 2] [J; H; Dh]) as (v & Hv & Hvs & Hvd).
    { rewrite Hq2. cbn [slice_shape]. ltb_true. reflexivity. }
    rewrite Hv. cbn [rbind].
    destruct (einsum_ih_ihd_ihd_value s v J H Dh Hss Hvs)
      as (iv & Hiv & Hivs & Hivd).
    rewrite Hiv. cbn [rbind].
    destruct (setitem_ok imv2 iv [At a]) as (r & Hset & Hsets & Hsetd).
    { rewrite Hi2, Hivs. cbn [slice_shape]. ltb_true. reflexivity. }
    exists r. split; [exact Hset|]. split; [exact Hsets|].
    intros a' j h d Hj Hh Hd. rewrite Hsetd. cbn [sub_index].
    destruct (Nat.eqb_spec a' a); [|reflexivity].
    rewrite bget_in_bounds by (rewrite Hivs; cbn [in_bounds]; ltb_true; reflexivity).
    rewrite Hivd by assumption. rewrite Hsd, Hvd. reflexivity.
Qed.

Lemma intermediate_vector_is_scaled_value_witness :
  let rsa := mkT [1; 1; 2; 1] (fun _ => 2%R) in
  let qkv := mkT [1; 3; 1; 2; 1; 2] (fun _ => 3%R) in
  exists r,
    Block3.imv_step 0 rsa qkv (zeros [1; 1; 2; 1; 2]) = Ok r
    /\ data r [0; 0; 1; 0; 1] = 6%R.
Proof.
  intros rsa qkv.
  destruct (intermediate_vector_is_scaled_value 1 1 2 1 2 0 rsa qkv (zeros [1; 1; 2; 1; 2])
              (zeros [1; 2; 1]) (zeros [1; 3; 2; 1; 2]) (zeros [1; 2; 1; 2]))
    as [(r & Hr & _ & Hd) _]; try reflexivity; [lia|].
  exists r. split; [exact Hr|].
  rewrite Hd by lia. unfold rsa, qkv. cbn. ring.
Defined.

(** ** Segment averaging when M does not divide the number of time steps *)

Lemma segment_average_with_upto (bound : nat -> nat) (seg : R) (M T P C : nat)
    (input inputc : tensor) (m : nat) :
  shape input = [T; P; C] -> shape inputc = [M; P; C] -> m <= M ->
  (forall i, i < m -> bound i < bound (i + 1) -> bound (i + 1) <= T) ->
  exists r,
    TTM.segment_average_with bound m seg input inputc = Ok r
    /\ shape r = shape inputc
    /\ forall i u v, u < P -> v < C ->
         data r [i; u; v] =
         if i <? m
         then ((data inputc [i; u; v]
                + rsum (bound (i + 1)%nat - bound i)
                    (fun k => data input [(bound i + k)%nat; u; v]))
               / seg)%R
         else data inputc [i; u; v].
Proof.
  intros Hin Hc.
  induction m as [|m IH]; intros Hm Hb.
  - exists inputc. split; [apply for_range_res_empty; lia|]. split; [reflexivity|].
    intros. reflexivity.
  - destruct IH as (r & Hr & Hrs & Hrd); [lia | intros i Hi; apply Hb; lia |].
    assert (Hloop : exists r1,
      for_range_res (bound m) (bound (m + 1))
        (fun j inputc =>
           (cur <- getitem inputc [At m; All; All] ;;
            xj <- getitem input [At j; All; All] ;;
            s <- tadd cur xj ;;
            setitem inputc [At m; All; All] s)%res) r = Ok r1
      /\ shape r1 = shape r
      /\ forall i' u v, u < P -> v < C ->
           data r1 [i'; u; v] =
           if (i' =? m)%nat
           then (data r [m; u; v]
                 + rsum (bound (m + 1)%nat - bound m)
                     (fun k => data input [(bound m + k)%nat; u; v]))%R
           else data r [i'; u; v]).
    { destruct (Nat.lt_ge_cases (bound m) (bound (m + 1))) as [Hlt|Hge].
      - pose proof (Hb m ltac:(lia) Hlt) as HT.
        destruct (segment_add_loop M T P C m (bound m) input r
                    (bound (m + 1) - bound m) Hin)
          as (r1 & Hr1 & Hrs1 & Hrd1); [rewrite Hrs; exact Hc | lia | lia |].
        replace (bound m + (bound (m + 1) - bound m)) with (bound (m + 1)) in Hr1 by lia.
        exists r1. split; [exact Hr1|]. split; [exact Hrs1 | exact Hrd1].
      - exists r. split; [apply for_range_res_empty; exact Hge|]. split; [reflexivity|].
        intros i' u v Hu Hv. replace (bound (m + 1) - bound m) with 0 by lia.
        cbn [rsum]. destruct (i' =? m) eqn:E; [|reflexivity].
        apply Nat.eqb_eq in E. subst i'. ring. }
    destruct Hloop as (r1 & Hr1 & Hrs1 & Hrd1).
    destruct (segment_divide M P C m seg r1) as (r2 & Hr2 & Hrs2 & Hrd2);
      [rewrite Hrs1, Hrs; exact Hc | lia |].
    exists r2. split.
    { unfold TTM.segment_average_with in *. rewrite for_range_res_S by lia.
      rewrite Hr. cbn [rbind]. rewrite Hr1. cbn [rbind]. exact Hr2. }
    split; [rewrite Hrs2, Hrs1; exact Hrs|].
    intros i u v Hu Hv. rewrite (Hrd2 i u v Hu Hv).
    destruct (Nat.eqb_spec i m) as [->|Hne].
    + rewrite (Hrd1 m u v Hu Hv), Nat.eqb_refl, (Hrd m u v Hu Hv).
      replace (m <? m) with false by (symmetry; apply Nat.ltb_ge; lia).
      replace (m <? S m) with true by (symmetry; apply Nat.ltb_lt; lia).
      reflexivity.
    + rewrite (Hrd1 i u v Hu Hv).
      replace (i =? m) with false by (symmetry; apply Nat.eqb_neq; exact Hne).
      rewrite (Hrd i u v Hu Hv).
      destruct (Nat.ltb_spec i m); destruct (Nat.ltb_spec i (S m)); try lia; reflexivity.
Qed.

(** The averaging reads its bounds at 0, ..., avgf only. *)
Lemma segment_average_with_ext (b1 b2 : nat -> nat) (seg : R) (input inputc : tensor)
    (m : nat) :
  (forall i, i <= m -> b1 i = b2 i) ->
  TTM.segment_average_with b1 m seg input inputc
  = TTM.segment_average_with b2 m seg input inputc.
Proof.
  unfold TTM.segment_average_with.
  induction m as [|m IH]; intros Hb; [reflexivity|].
  rewrite !for_range_res_S by lia. rewrite IH by (intros i Hi; apply Hb; lia).
  rewrite (Hb m) by lia. rewrite (Hb (m + 1)) by lia. reflexivity.
Qed.

(** Python computes 11 * (15 / 11) as 14.999999999999998, and
    11 * (229 / 11) as 228.99999999999997: the last segment of 15 time
    steps in 11 submatrices ends at step 14, not 15. *)
Lemma seg_bound_f64_below_floor :
  seg_bound_f64 11 15 11 = 14 /\ 11 * 15 / 11 = 15
  /\ seg_bound_f64 11 229 11 = 228 /\ 11 * 229 / 11 = 229.
Proof. repeat split; vm_compute; reflexivity. Qed.

(** X17. Segment averaging in general.  Let a temporal module be built
    for, and applied to, an input with T time steps (the last axis) and M
    submatrices, M >= 1 but not necessarily a divisor of T.  The code
    computes the segment bounds int(i * seg), seg = T / M, in binary64
    ([seg_bound_f64]).  Whenever these bounds stay within the T time
    steps, segment i of the averaged input is the sum of the time steps
    int(i * seg) up to, but not including, int((i + 1) * seg), divided by
    T / M, which is the length of the segment only when M divides T (the
    sum and the quotient are taken over the reals).  The bounds are not
    always the floors of i * T / M: for T = 15 and M = 11 the last segment
    is the single time step 13, and step 14 is never read.  Where they are
    the floors, this is the averaging of TTM.forward with exact bounds. *)
Theorem ttm_segment_average_general {SF : SpecialFunctions}
    (x0 x : tensor) (C P T M tK hA : nat) (w w' : world) (self : TTM.t) :
  TTM.init x0 M tK hA w = (Ok self, w') ->
  shape x0 = [C; P; T] -> shape x = [C; P; T] ->
  (forall i, i < M -> seg_bound_f64 (i + 1) T M <= T) ->
  exists input inputc,
    transpose x 0 2 = Ok input /\
    TTM.segment_average_with (fun i => seg_bound_f64 i T M)
      (TTM.avgf self) (TTM.seg self) input (zeros [TTM.avgf self; P; C]) = Ok inputc /\
    shape inputc = [M; P; C] /\
    (forall i u v, i < M -> u < P -> v < C ->
       data inputc [i; u; v] =
       (rsum (seg_bound_f64 (i + 1) T M - seg_bound_f64 i T M)%nat
          (fun k => data x [v; u; (seg_bound_f64 i T M + k)%nat])
        / (INR T / INR M))%R) /\
    ((forall i, i <= M -> seg_bound_f64 i T M = i * T / M) ->
     TTM.segment_average (TTM.avgf self) (TTM.seg self) input
       (zeros [TTM.avgf self; P; C]) = Ok inputc).
Proof.
  intros Hinit Hs0 Hx Hb.
  destruct (TTM_init_inv x0 C P T M tK hA w w' self Hs0 Hinit)
    as (HM & _ & Hshaped & Havgf & _).
  unfold TTM_shaped in Hshaped. cbv zeta in Hshaped.
  destruct Hshaped as (_ & Hseg & _).
  rewrite Hseg, Havgf.
  destruct (transpose_3d x C P T 0 2 Hx) as (input & Hin & Hins & Hind); [lia | lia |].
  cbn [swap_nth set_nth nth] in Hins.
  destruct (segment_average_with_upto (fun i => seg_bound_f64 i T M) (INR T / INR M)
              M T P C input (zeros [M; P; C]) M Hins eq_refl (le_n M))
    as (r & Hr & Hrs & Hrd).
  { intros i Hi _. apply Hb. exact Hi. }
  exists input, r. split; [exact Hin|]. split; [exact Hr|]. split; [exact Hrs|].
  split.
  - intros i u v Hi Hu Hv. rewrite (Hrd i u v Hu Hv).
    replace (i <? M) with true by (symmetry; apply Nat.ltb_lt; exact Hi).
    cbn [zeros data]. rewrite Rplus_0_l. f_equal.
    apply rsum_ext. intros k _. rewrite Hind. reflexivity.
  - intros Hfloor. unfold TTM.segment_average. rewrite <- Hr.
    apply segment_average_with_ext. intros i Hi.
    rewrite py_int_quot by exact HM. symmetry. apply Hfloor. exact Hi.
Qed.

Lemma ttm_segment_average_general_witness :
  let x := mkT [1; 1; 15] (fun idx => INR (nth 2 idx 0 + 1)) in
  exists self w' input inputc,
    TTM.init (SF := stand_in) x 11 1 1 world0 = (Ok self, w') /\
    transpose x 0 2 = Ok input /\
    TTM.segment_average_with (fun i => seg_bound_f64 i 15 11)
      (TTM.avgf self) (TTM.seg self) input (zeros [TTM.avgf self; 1; 1]) = Ok inputc /\
    data inputc [0; 0; 0] = (1 / (15 / 11))%R /\
    data inputc [2; 0; 0] = ((3 + 4) / (15 / 11))%R /\
    data inputc [10; 0; 0] = (14 / (15 / 11))%R.
Proof.
  intros x.
  destruct (TTM_init_run (SF := stand_in) x 1 1 15 11 1 1 world0 eq_refl)
    as (self & w' & Hinit & _); [lia | lia |].
  destruct (ttm_segment_average_general (SF := stand_in) x x 1 1 15 11 1 1 world0 w' self
              Hinit eq_refl eq_refl) as (input & inputc & Hin & Hseg & _ & Hd & _).
  { intros i Hi.
    do 11 (destruct i as [|i]; [vm_compute; repeat constructor|]). lia. }
  exists self, w', input, inputc.
  split; [exact Hinit|]. split; [exact Hin|]. split; [exact Hseg|].
  rewrite !Hd by lia. unfold x. cbn [data nth].
  split; [|split].
  - replace (seg_bound_f64 (0 + 1) 15 11) with 1 by (vm_compute; reflexivity).
    replace (seg_bound_f64 0 15 11) with 0 by (vm_compute; reflexivity).
    cbn. lra.
  - replace (seg_bound_f64 (2 + 1) 15 11) with 4 by (vm_compute; reflexivity).
    replace (seg_bound_f64 2 15 11) with 2 by (vm_compute; reflexivity).
    cbn. lra.
  - replace (seg_bound_f64 (10 + 1) 15 11) with 14 by (vm_compute; reflexivity).
    replace (seg_bound_f64 10 15 11) with 13 by (vm_compute; reflexivity).
    cbn. lra.
Defined.

(** ** The patch embedding treats every channel on its own *)

Lemma Conv1d_forward_2d_data (cv : Conv1d) (x : tensor) (inc outc k g l : nat) :
  Conv1d_shaped inc outc k g cv -> shape x = [inc; l] -> g <= outc -> k <= l ->
  Conv1d_forward cv x
  = Ok (mkT [outc; l - k + 1]
          (fun idx => conv_entry cv (data x) (nth 0 idx 0) (nth 1 idx 0))).
Proof.
  intros (Hi & Ho & Hk & Hg & _) Hs Hgo Hkl. unfold Conv1d_forward.
  replace (out_channels cv <? groups cv) with false
    by (symmetry; apply Nat.ltb_ge; lia).
  rewrite Hs, Hi, Hk, Ho, Nat.eqb_refl. cbn [andb].
  rewrite (proj2 (Nat.leb_le k l) Hkl). reflexivity.
Qed.

(** A convolution with one group per input channel reads, for output row
    o, only the input row o / q, q the number of filters per channel. *)
Lemma conv_entry_depthwise_ext (cv : Conv1d) (C q K : nat) (x x' : list nat -> R)
    (o t : nat) :
  Conv1d_shaped C (q * C) K C cv -> C <> 0 ->
  (forall k, k < K -> x [o / q; t + k] = x' [o / q; t + k]) ->
  conv_entry cv x o t = conv_entry cv x' o t.
Proof.
  intros (Hi & Ho & Hk & Hg & _) HC Hx. unfold conv_entry.
  rewrite Hi, Ho, Hk, Hg. rewrite (Nat.div_same C HC), (Nat.div_mul q C HC).
  cbv zeta. f_equal. apply rsum_ext. intros c Hc. apply rsum_ext. intros k Hk'.
  f_equal. replace (o / q * 1 + c) with (o / q) by lia. apply Hx. exact Hk'.
Qed.

Lemma ODCM_forward_data (C K T : nat) (m : ODCM.t) (x : tensor) :
  ODCM_shaped C K m -> 1 <= K -> 3 * (K - 1) < T -> shape x = [C; T] ->
  exists y, ODCM.forward m x = Ok y /\ shape y = [C; 120; T - 3 * (K - 1)] /\
    forall c f t, c < C -> f < 120 -> t < T - 3 * (K - 1) ->
      data y [c; f; t] =
      conv_entry (ODCM.cvf3 m)
        (fun i3 => conv_entry (ODCM.cvf2 m)
           (fun i2 => conv_entry (ODCM.cvf1 m) (data x) (nth 0 i2 0) (nth 1 i2 0))
           (nth 0 i3 0) (nth 1 i3 0))
        (c * 120 + f) t.
Proof.
  intros (Hncf & H1 & H2 & H3) HK HT Hx. unfold ODCM.forward.
  rewrite (Conv1d_forward_2d_data _ x C C K C T H1 Hx) by lia. cbn [rbind].
  match goal with |- context [Conv1d_forward (ODCM.cvf2 m) ?y1] =>
    rewrite (Conv1d_forward_2d_data _ y1 C C K C (T - K + 1) H2 eq_refl) by lia end.
  cbn [rbind].
  match goal with |- context [Conv1d_forward (ODCM.cvf3 m) ?y2] =>
    rewrite (Conv1d_forward_2d_data _ y2 C (120 * C) K C (T - K + 1 - K + 1) H3 eq_refl)
      by lia end.
  cbn [rbind]. unfold shape_at. cbn [shape nth_error rbind]. rewrite Hncf.
  unfold reshape. cbn [shape].
  replace (120 * C / 120) with C by (rewrite Nat.mul_comm, Nat.div_mul; lia).
  replace (T - K + 1 - K + 1 - K + 1) with (T - 3 * (K - 1)) by lia.
  replace (numel [120 * C; T - 3 * (K - 1)] =? numel [C; 120; T - 3 * (K - 1)])
    with true by (symmetry; apply Nat.eqb_eq; cbn [numel fold_right]; lia).
  eexists. split; [reflexivity|]. split; [reflexivity|].
  intros c f t Hc Hf Ht. cbn [data].
  replace (ravel [C; 120; T - 3 * (K - 1)] [c; f; t])
    with (ravel [120 * C; T - 3 * (K - 1)] [c * 120 + f; t])
    by (cbn [ravel]; unfold numel; cbn [fold_right]; ring).
  rewrite unravel_ravel by (cbn [in_bounds]; ltb_true; reflexivity).
  cbn [nth]. reflexivity.
Qed.

(** X18. The patch embedding is depth-wise.  For an embedder built for C
    channels: if two inputs of shape [C, T] agree on channel c, their
    embeddings agree on all 120 feature rows of channel c.  No other channel
    enters the patches of channel c. *)
Theorem odcm_channels_independent (C K T : nat) (w w' : world) (m : ODCM.t)
    (x x' y y' : tensor) (c : nat) :
  ODCM.init C K w = (Ok m, w') -> 1 <= K ->
  shape x = [C; T] -> shape x' = [C; T] -> c < C ->
  (forall t, t < T -> data x [c; t] = data x' [c; t]) ->
  ODCM.forward m x = Ok y -> ODCM.forward m x' = Ok y' ->
  forall f t, f < 120 -> t < T - 3 * (K - 1) -> data y [c; f; t] = data y' [c; f; t].
Proof.
  intros Hinit HK Hx Hx' Hc Hrow Hy Hy' f t Hf Ht.
  apply ODCM_init_shaped in Hinit as (HC & Hshaped & _).
  assert (HT : 3 * (K - 1) < T) by lia.
  destruct (ODCM_forward_data C K T m x Hshaped HK HT Hx) as (y0 & Hy0 & _ & Hd).
  destruct (ODCM_forward_data C K T m x' Hshaped HK HT Hx') as (y0' & Hy0' & _ & Hd').
  assert (Ey : y0 = y) by congruence. assert (Ey' : y0' = y') by congruence.
  subst y0 y0'.
  rewrite (Hd c f t Hc Hf Ht), (Hd' c f t Hc Hf Ht).
  destruct Hshaped as (_ & H1 & H2 & H3).
  assert (Hrow3 : (c * 120 + f) / 120 = c).
  { rewrite Nat.div_add_l by lia. rewrite (Nat.div_small f 120 Hf). lia. }
  assert (H1' : Conv1d_shaped C (1 * C) K C (ODCM.cvf1 m))
    by (rewrite Nat.mul_1_l; exact H1).
  assert (H2' : Conv1d_shaped C (1 * C) K C (ODCM.cvf2 m))
    by (rewrite Nat.mul_1_l; exact H2).
  apply (conv_entry_depthwise_ext _ C 120 K); [exact H3 | exact HC |].
  intros k3 Hk3. rewrite Hrow3. cbn [nth].
  apply (conv_entry_depthwise_ext _ C 1 K); [exact H2' | exact HC |].
  intros k2 Hk2. rewrite Nat.div_1_r. cbn [nth].
  apply (conv_entry_depthwise_ext _ C 1 K); [exact H1' | exact HC |].
  intros k1 Hk1. rewrite Nat.div_1_r. apply Hrow. lia.
Qed.

Lemma odcm_channels_independent_witness :
  let x := mkT [2; 4] (fun idx => INR (nth 1 idx 0)) in
  let x' := mkT [2; 4] (fun idx => INR (nth 1 idx 0 + nth 0 idx 0)) in
  exists m w' y y',
    ODCM.init 2 2 world0 = (Ok m, w')
    /\ ODCM.forward m x = Ok y /\ ODCM.forward m x' = Ok y'
    /\ data y [0; 7; 0] = data y' [0; 7; 0].
Proof.
  intros x x'.
  destruct (ODCM_init_ok 2 2 world0) as (m & w' & Hm); [lia|].
  pose proof (ODCM_init_shaped 2 2 world0 w' m Hm) as (_ & Hshaped & _).
  destruct (ODCM_forward_ok 2 2 4 m x Hshaped) as (y & Hy & _);
    [lia | lia | reflexivity |].
  destruct (ODCM_forward_ok 2 2 4 m x' Hshaped) as (y' & Hy' & _);
    [lia | lia | reflexivity |].
  exists m, w', y, y'. split; [exact Hm|]. split; [exact Hy|]. split; [exact Hy'|].
  apply (odcm_channels_independent 2 2 4 world0 w' m x x' y y' 0 Hm);
    try reflexivity; try assumption; try lia.
  intros t _. unfold x, x'. cbn [data nth]. rewrite Nat.add_0_r. reflexivity.
Defined.

(** ** Inputs the network rejects *)

(** X19. A constructed network rejects, with a shape error raised by the
    first convolution of the patch embedding and without touching the
    world, every two-axis input whose channel count is not the one it was
    built for, and every input with at most 3*(K-1) time steps. *)
Theorem eegformer_forward_rejects {SF : SpecialFunctions}
    (input x : tensor) (num_cls C K tK hr hs ht avgf cfs Tx Cx : nat)
    (w0 w1 w : world) (self : EEGformer.t) :
  EEGformer.init input num_cls C K tK hr hs ht avgf cfs w0 = (Ok self, w1) ->
  1 <= K -> shape x = [Tx; Cx] ->
  Cx <> C \/ Tx <= 3 * (K - 1) ->
  EEGformer.forward self x w = (Err ShapeError, w).
Proof.
  intros Hinit HK Hx Hbad.
  destruct (EEGformer_init_inv _ _ _ _ _ _ _ _ _ _ _ _ _ HK Hinit)
    as (T0 & rest & _ & _ & _ & _ & _ & _ & _ & Hshaped & _).
  destruct Hshaped as (Hodcm & _).
  unfold EEGformer.forward.
  assert (Hx0 : exists x0, transpose x 0 1 = Ok x0 /\ shape x0 = [Cx; Tx]).
  { unfold transpose. rewrite Hx. cbn. eexists; split; reflexivity. }
  destruct Hx0 as (x0 & Hx0 & Hs0). rewrite (bind_lift_ok _ _ _ _ Hx0).
  assert (Hf : ODCM.forward (EEGformer.odcm self) x0 = Err ShapeError).
  { destruct Hodcm as (Hncf & (Hi1 & Ho1 & Hk1 & Hg1 & _) & (Hi2 & Ho2 & Hk2 & Hg2 & _)
                       & (Hi3 & Ho3 & Hk3 & Hg3 & _)).
    destruct (Nat.eq_dec Cx C) as [->|Hne].
    - destruct Hbad as [Hb|Hb]; [contradiction|].
      destruct (ODCM_forward_fields C K Tx (EEGformer.odcm self) x0) as [_ Herr];
        try assumption.
      apply Herr. exact Hb.
    - unfold ODCM.forward, Conv1d_forward. rewrite Hs0, Hi1.
      replace (Cx =? C) with false by (symmetry; apply Nat.eqb_neq; exact Hne).
      destruct (out_channels (ODCM.cvf1 (EEGformer.odcm self))
                <? groups (ODCM.cvf1 (EEGformer.odcm self))); reflexivity. }
  unfold bind, lift. rewrite Hf. reflexivity.
Qed.

Lemma eegformer_forward_rejects_witness :
  exists self w1,
    EEGformer.init (SF := stand_in) (zeros [256; 19]) 2 19 10 2 1 1 4 4 1 world0
    = (Ok self, w1)
    /\ EEGformer.forward (SF := stand_in) self (zeros [256; 18]) w1
       = (Err ShapeError, w1)
    /\ EEGformer.forward (SF := stand_in) self (zeros [27; 19]) w1
       = (Err ShapeError, w1).
Proof.
  destruct (EEGformer_init_run (SF := stand_in) (zeros [256; 19]) 256 [19]
              2 19 10 2 1 1 4 4 1 world0 eq_refl)
    as (self & w1 & Hinit & _); try lia.
  exists self, w1. split; [exact Hinit|]. split.
  - apply (eegformer_forward_rejects (SF := stand_in) (zeros [256; 19]) (zeros [256; 18])
             2 19 10 2 1 1 4 4 1 256 18 world0 w1 w1 self Hinit); [lia | reflexivity |].
    left. lia.
  - apply (eegformer_forward_rejects (SF := stand_in) (zeros [256; 19]) (zeros [27; 19])
             2 19 10 2 1 1 4 4 1 27 19 world0 w1 w1 self Hinit); [lia | reflexivity |].
    right. lia.
Defined.

(** ** Mlp *)

Lemma numel_app_last (pre : list nat) (h : nat) : numel (pre ++ [h]) = numel pre * h.
Proof.
  induction pre as [|d pre IH].
  - unfold numel. cbn [app fold_right]. lia.
  - cbn [app]. unfold numel in *. cbn [fold_right]. rewrite IH. lia.
Qed.

Section MlpFacts.
Context {SF : SpecialFunctions}.

Lemma Mlp_init_general (d : nat) (hid out : option nat) (q : R) (w : world) :
  (0 <= q <= 1)%R ->
  exists m w',
    Mlp.init d hid out q w = (Ok m, w')
    /\ Linear_shaped d (py_or hid d) (Mlp.fc1 m)
    /\ Linear_shaped (py_or hid d) (py_or out d) (Mlp.fc2 m)
    /\ Mlp.drop m = mkDropout q true.
Proof.
  intros Hq. unfold Mlp.init. cbv zeta.
  destruct (Linear_new_run d (py_or hid d) w) as (f1 & w1 & H1 & Hs1 & _).
  rewrite (bind_ok _ _ _ _ _ H1).
  destruct (Linear_new_run (py_or hid d) (py_or out d) w1) as (f2 & w2 & H2 & Hs2 & _).
  rewrite (bind_ok _ _ _ _ _ H2).
  rewrite (bind_ok _ _ _ _ _ (Dropout_new_ok q w2 Hq)). unfold ret.
  eexists; eexists. split; [reflexivity|]. cbn [Mlp.fc1 Mlp.fc2 Mlp.drop].
  repeat split; try apply Hs1; try apply Hs2.
Qed.

Lemma Mlp_init_rejects (d : nat) (hid out : option nat) (q : R) (w : world) :
  (q < 0 \/ 1 < q)%R -> fst (Mlp.init d hid out q w) = Err ValueError.
Proof.
  intros Hq. unfold Mlp.init. cbv zeta.
  destruct (Linear_new_run d (py_or hid d) w) as (f1 & w1 & H1 & _).
  rewrite (bind_ok _ _ _ _ _ H1).
  destruct (Linear_new_run (py_or hid d) (py_or out d) w1) as (f2 & w2 & H2 & _).
  rewrite (bind_ok _ _ _ _ _ H2).
  unfold bind. rewrite (Dropout_new_rejects q w2 Hq). reflexivity.
Qed.

(** A dropout layer in training mode keeps the shape, prints nothing and
    leaves the generator's stream as it is; with p = 0 or p = 1 it does not
    sample at all. *)
Lemma Dropout_forward_run (q : R) (x : tensor) (w : world) :
  exists y wx,
    Dropout_forward (mkDropout q true) x w = (Ok y, wx)
    /\ shape y = shape x /\ rng wx = rng w /\ stdout wx = stdout w
    /\ (q = 0%R \/ q = 1%R -> wx = w).
Proof.
  unfold Dropout_forward. cbn [p training negb].
  destruct (Req_dec_T q 0) as [Hq|Hq].
  - exists x, w. unfold ret. repeat split; reflexivity.
  - destruct (Req_dec_T q 1) as [Hq1|Hq1].
    + eexists; exists w. unfold ret. repeat split; reflexivity.
    + eexists; eexists. split; [reflexivity|]. cbn [shape rng stdout].
      repeat split; try reflexivity. intros [H|H]; contradiction.
Qed.

(** X20. Mlp(d, hidden, out, drop=q) raises ValueError, from nn.Dropout,
    when q lies outside [0, 1].  For q in [0, 1] it builds a module that
    maps every input whose last axis has length d to the same shape with
    last axis (out or d), where a missing or zero width falls back to d.
    The forward pass prints nothing and leaves the generator's stream as it
    is, and with q = 0 or q = 1 it does not sample: the world is returned
    unchanged.  How many numbers the two dropouts draw for 0 < q < 1 is not
    part of the statement. *)
Theorem mlp_dropout_range_and_forward_shape (d : nat) (hid out : option nat) (q : R)
    (w : world) :
  ((q < 0 \/ 1 < q)%R -> fst (Mlp.init d hid out q w) = Err ValueError)
  /\ ((0 <= q <= 1)%R ->
      exists m w',
        Mlp.init d hid out q w = (Ok m, w')
        /\ forall (x : tensor) (pre : list nat) (wx : world),
             shape x = pre ++ [d] ->
             exists y wx',
               Mlp.forward m x wx = (Ok y, wx')
               /\ shape y = pre ++ [py_or out d]
               /\ rng wx' = rng wx /\ stdout wx' = stdout wx
               /\ (q = 0%R \/ q = 1%R -> wx' = wx)).
Proof.
  split; [apply Mlp_init_rejects|].
  intros Hq.
  destruct (Mlp_init_general d hid out q w Hq) as (m & w' & Hinit & H1 & H2 & Hdrop).
  exists m, w'. split; [exact Hinit|].
  intros x pre wx Hs. unfold Mlp.forward.
  destruct (Linear_forward_ok _ x pre d (py_or hid d) H1 Hs) as (y1 & Hy1 & Hs1).
  rewrite (bind_lift_ok _ _ _ _ Hy1). rewrite Hdrop.
  destruct (Dropout_forward_run q (GELU y1) wx) as (y2 & wa & Hy2 & Hs2 & Hr2 & Ho2 & Hw2).
  rewrite (bind_ok _ _ _ _ _ Hy2).
  cbn [GELU map_t shape] in Hs2. rewrite Hs1 in Hs2.
  destruct (Linear_forward_ok _ y2 pre (py_or hid d) (py_or out d) H2 Hs2)
    as (y3 & Hy3 & Hs3).
  rewrite (bind_lift_ok _ _ _ _ Hy3).
  destruct (Dropout_forward_run q y3 wa) as (y4 & wb & Hy4 & Hs4 & Hr4 & Ho4 & Hw4).
  rewrite (bind_ok _ _ _ _ _ Hy4). unfold ret.
  exists y4, wb. split; [reflexivity|].
  split; [congruence|]. split; [congruence|]. split; [congruence|].
  intros Hq01. rewrite (Hw4 Hq01). apply Hw2. exact Hq01.
Qed.

End MlpFacts.

Lemma mlp_dropout_range_and_forward_shape_witness :
  fst (Mlp.init 2 (Some 0) None 2 world0) = Err ValueError
  /\ (exists m w' y wx',
        Mlp.init 2 (Some 0) None (1 / 2) world0 = (Ok m, w')
        /\ Mlp.forward (SF := stand_in) m (zeros [3; 2]) world0 = (Ok y, wx')
        /\ shape y = [3; 2] /\ rng wx' = rng world0)
  /\ (exists m w' y,
        Mlp.init 2 (Some 3) (Some 5) 1 world0 = (Ok m, w')
        /\ Mlp.forward (SF := stand_in) m (zeros [3; 2]) world0 = (Ok y, world0)
        /\ shape y = [3; 5]).
Proof.
  split; [|split].
  - apply (proj1 (mlp_dropout_range_and_forward_shape (SF := stand_in) 2 (Some 0) None 2 world0)).
    right. lra.
  - destruct (mlp_dropout_range_and_forward_shape (SF := stand_in) 2 (Some 0) None (1 / 2) world0)
      as [_ Hok].
    destruct Hok as (m & w' & Hinit & Hfw); [lra|].
    destruct (Hfw (zeros [3; 2]) [3] world0 eq_refl) as (y & wx' & Hy & Hs & Hr & _).
    exists m, w', y, wx'. repeat split; assumption.
  - destruct (mlp_dropout_range_and_forward_shape (SF := stand_in) 2 (Some 3) (Some 5) 1 world0)
      as [_ Hok].
    destruct Hok as (m & w' & Hinit & Hfw); [lra|].
    destruct (Hfw (zeros [3; 2]) [3] world0 eq_refl) as (y & wx' & Hy & Hs & _ & _ & Hw).
    rewrite (Hw (or_intror eq_refl)) in Hy.
    exists m, w', y. repeat split; assumption.
Defined.

(** ** The output of the network as an argument of the loss *)

Lemma rsum_ge_term (n : nat) (f : nat -> R) (j : nat) :
  (forall k, k < n -> (0 < f k)%R) -> j < n -> (f j <= rsum n f)%R.
Proof.
  intros Hf. induction n as [|n IH]; intros Hj; [lia|].
  cbn [rsum].
  assert (H0 : (0 <= rsum n f)%R)
    by (apply rsum_nonneg; intros k Hk; left; apply Hf; lia).
  pose proof (Hf n ltac:(lia)) as Hn.
  destruct (Nat.eq_dec j n) as [->|Hne]; [lra|].
  assert (f j <= rsum n f)%R by (apply IH; [intros; apply Hf; lia | lia]).
  lra.
Qed.

Lemma rsum_gt_term (n : nat) (f : nat -> R) (j : nat) :
  (forall k, k < n -> (0 < f k)%R) -> 2 <= n -> j < n -> (f j < rsum n f)%R.
Proof.
  intros Hf Hn Hj. destruct n as [|n]; [lia|]. cbn [rsum].
  pose proof (Hf n ltac:(lia)) as Hfn.
  destruct (Nat.eq_dec j n) as [->|Hne].
  - assert (0 < rsum n f)%R by (apply rsum_pos; [lia | intros; apply Hf; lia]). lra.
  - assert (f j <= rsum n f)%R
      by (apply rsum_ge_term; [intros; apply Hf; lia | lia]).
    lra.
Qed.

Lemma softmax1_strict (x y : tensor) (c : nat) :
  shape x = [1; c] -> 2 <= c -> softmax1 x = Ok y ->
  forall j, j < c -> (0 < data y [0; j]%nat < 1)%R.
Proof.
  intros Hs Hc Hy j Hj. unfold softmax1 in Hy. rewrite Hs in Hy.
  assert (Ey : y = mkT [1; c]
                 (fun idx => (exp (data x idx)
                              / rsum c (fun j => exp (data x [nth 0 idx 0%nat; j])))%R))
    by congruence.
  rewrite Ey. cbn [data nth].
  assert (Hpos : (0 < rsum c (fun j => exp (data x [0; j]%nat)))%R).
  { apply rsum_pos; [lia | intros; apply exp_pos]. }
  pose proof (rsum_gt_term c (fun j => exp (data x [0; j]%nat)) j
                (fun k _ => exp_pos _) Hc Hj) as Hlt.
  cbn beta in Hlt.
  split.
  - apply Rdiv_lt_0_compat; [apply exp_pos | exact Hpos].
  - apply (Rmult_lt_reg_r (rsum c (fun j => exp (data x [0; j]%nat)))); [exact Hpos|].
    unfold Rdiv. rewrite Rmult_assoc, Rinv_l by lra. lra.
Qed.

Lemma in_bounds_2d (a b : nat) (idx : list nat) :
  in_bounds [a; b] idx = true -> exists i j, idx = [i; j] /\ i < a /\ j < b.
Proof.
  destruct idx as [|i [|j [|k idx]]]; cbn [in_bounds]; intros H;
    try discriminate.
  - apply andb_true_iff in H as [_ H]. discriminate.
  - apply andb_true_iff in H as [Hi H]. apply andb_true_iff in H as [Hj _].
    apply Nat.ltb_lt in Hi, Hj. eauto.
  - apply andb_true_iff in H as [_ H]. apply andb_true_iff in H as [_ H]. discriminate.
Qed.

(** X21. The network's output can be fed to the loss.  Under the
    conditions in which the forward pass returns, and with at least two
    classes, every class probability it returns lies strictly between 0 and
    1; so for labels of shape [1, num_cls] between 0 and 1 both logarithms
    in eegloss_wol1 are taken of positive numbers, and the loss of the
    output is returned and is not negative.  Entries are reals. *)
Theorem eegformer_output_admits_loss {SF : SpecialFunctions}
    (input x label : tensor) (num_cls C K tK hr hs ht avgf cfs T : nat)
    (w0 w1 w : world) (self : EEGformer.t) :
  EEGformer.init input num_cls C K tK hr hs ht avgf cfs w0 = (Ok self, w1) ->
  shape input = [T; C] -> shape x = [T; C] ->
  1 <= K -> 3 * (K - 1) < T ->
  (T - 3 * (K - 1)) mod hr = 0 -> (T - 3 * (K - 1)) mod hs = 0 ->
  ((C + 1) * 121) mod ht = 0 ->
  1 <= cfs -> 2 <= num_cls ->
  shape label = [1; num_cls] ->
  (forall j, j < num_cls -> (0 <= data label [0; j]%nat <= 1)%R) ->
  exists y ls,
    EEGformer.forward self x w = (Ok y, w) /\
    (forall j, j < num_cls -> (0 < data y [0; j]%nat < 1)%R) /\
    EEGformer.eegloss_wol1 y label = Ok ls /\ shape ls = [] /\ (0 <= data ls [])%R.
Proof.
  intros Hinit Hin Hx HK HT Hdr Hds Hdt Hcfs Hcls Hlab Hl.
  destruct (EEGformer_init_inv _ _ _ _ _ _ _ _ _ _ _ _ _ HK Hinit)
    as (T0 & rest & Hsh & _ & _ & Hhr & Hhs & Hht & _ & Hshaped & Hnc & Hcf & _
        & Hrh & Hsh' & Hth).
  rewrite Hin in Hsh. injection Hsh as <- _.
  pose proof Hshaped as (_ & (_ & _ & HrD & _) & (_ & _ & HsD & _) & Httm & _).
  unfold TTM_shaped in Httm. cbv zeta in Httm.
  destruct Httm as (_ & _ & _ & HtD & _).
  destruct (EEGformer_forward_ok C K (T - 3 * (K - 1)) T self x w Hshaped HK HT eq_refl)
    as (y & Hy & (z & logits & _ & Hls & Hsm) & Hys & _).
  { rewrite HrD, Hrh. apply exact_product. exact Hdr. }
  { rewrite HsD, Hsh'. apply exact_product. exact Hds. }
  { rewrite HtD, Hth. apply exact_product. exact Hdt. }
  { rewrite Hcf. exact Hcfs. }
  { rewrite Hnc. lia. }
  { exact Hx. }
  rewrite Hnc in Hls, Hys.
  pose proof (softmax1_strict logits y num_cls Hls Hcls Hsm) as Hstrict.
  destruct (eegloss_wol1_ok y label) as (ls & Hloss & Hlss & Hpos).
  { rewrite Hlab, Hys. reflexivity. }
  { rewrite Hys. cbn [numel fold_right]. lia. }
  { intros idx Hb. rewrite Hys in Hb.
    apply in_bounds_2d in Hb as (i & j & -> & Hi & Hj).
    replace i with 0 by lia. apply Hstrict. exact Hj. }
  { intros idx Hb. rewrite Hys in Hb.
    apply in_bounds_2d in Hb as (i & j & -> & Hi & Hj).
    replace i with 0 by lia. apply Hl. exact Hj. }
  exists y, ls. repeat split; try assumption; apply Hstrict; assumption.
Qed.

Lemma eegformer_output_admits_loss_witness :
  exists self w1 y ls,
    EEGformer.init (SF := stand_in) (zeros [256; 19]) 2 19 10 2 1 1 4 4 1 world0
    = (Ok self, w1)
    /\ EEGformer.forward (SF := stand_in) self (zeros [256; 19]) w1 = (Ok y, w1)
    /\ (0 < data y [0; 1]%nat < 1)%R
    /\ EEGformer.eegloss_wol1 y (zeros [1; 2]) = Ok ls /\ (0 <= data ls [])%R.
Proof.
  destruct (EEGformer_init_run (SF := stand_in) (zeros [256; 19]) 256 [19]
              2 19 10 2 1 1 4 4 1 world0 eq_refl)
    as (self & w1 & Hinit & _); try lia.
  destruct (eegformer_output_admits_loss (SF := stand_in)
              (zeros [256; 19]) (zeros [256; 19]) (zeros [1; 2])
              2 19 10 2 1 1 4 4 1 256 world0 w1 w1 self Hinit eq_refl eq_refl)
    as (y & ls & Hy & Hstrict & Hloss & _ & Hpos); try lia; try reflexivity.
  { intros j _. cbn [zeros data]. lra. }
  exists self, w1, y, ls. split; [exact Hinit|]. split; [exact Hy|].
  split; [apply Hstrict; lia|]. split; assumption.
Defined.

(** ** The binary cross-entropy losses in closed form *)

Lemma unravel_1d (n k : nat) : unravel [n] k = [k].
Proof. unfold unravel, numel. cbn [fold_right]. rewrite Nat.div_1_r. reflexivity. Qed.

Lemma bce_core (la lb x1 x0 : tensor) (n : nat) :
  shape la = [n] -> shape lb = [n] -> shape x1 = [n] -> shape x0 = [n] ->
  exists l,
    (pos <- map2_t Rmult la (map_t ln x1) ;;
     neg <- map2_t Rmult lb (map_t ln x0) ;;
     ls <- tadd pos neg ;;
     Ok (EEGformer.mean_t (map_t Ropp ls)))%res = Ok l
    /\ shape l = []
    /\ data l []
       = (rsum n (fun i => - (data la [i] * ln (data x1 [i])
                              + data lb [i] * ln (data x0 [i])))
          / INR n)%R.
Proof.
  intros Ha Hb H1 H0.
  destruct (map2_t_same Rmult la (map_t ln x1)) as (pos & Hpos & Hps & Hpd);
    [cbn [map_t shape]; congruence|].
  destruct (map2_t_same Rmult lb (map_t ln x0)) as (neg & Hneg & Hns & Hnd);
    [cbn [map_t shape]; congruence|].
  cbn [map_t shape data] in Hpd, Hnd.
  destruct (map2_t_same Rplus pos neg) as (ls & Hls & Hlss & Hlsd); [congruence|].
  rewrite Hpos. cbn [rbind]. rewrite Hneg. cbn [rbind].
  unfold tadd. rewrite Hls. cbn [rbind].
  eexists. split; [reflexivity|]. split; [reflexivity|].
  cbn [EEGformer.mean_t data map_t shape]. rewrite Hlss, Hps, Ha.
  replace (numel [n]) with n by (unfold numel; cbn [fold_right]; lia).
  f_equal. apply rsum_ext. intros k Hk. rewrite unravel_1d.
  assert (Hin : in_bounds [n] [k] = true)
    by (cbn [in_bounds]; ltb_true; reflexivity).
  rewrite Hlsd by (rewrite Hps, Ha; exact Hin).
  rewrite Hpd by (rewrite Ha; exact Hin).
  rewrite Hnd by (rewrite Hb; exact Hin).
  reflexivity.
Qed.

Lemma column_ok (xf : tensor) (n c j : nat) :
  shape xf = [n; c] -> j < c ->
  exists x, getitem xf [All; At j] = Ok x /\ shape x = [n]
            /\ forall i, data x [i] = data xf [i; j].
Proof.
  intros Hs Hj.
  destruct (getitem_ok xf [All; At j] [n]) as (x & Hx & Hxs & Hxd).
  { rewrite Hs. cbn [slice_shape]. ltb_true. reflexivity. }
  exists x. split; [exact Hx|]. split; [exact Hxs|].
  intros i. rewrite Hxd. reflexivity.
Qed.

(** X22. bceloss and bceloss_w in closed form.  For predictions xf of
    shape [n, c] and labels of shape [n]: with fewer than two columns
    bceloss fails with an IndexError at xf[:, 1]; with at least two, and
    positive entries in the first two (so that the logarithms are real
    numbers), it returns the mean over the n rows of
    -(label * log(xf[:, 1]) + (1 - label) * log(xf[:, 0])), and bceloss_w,
    for 0 < numpos < numtot, the mean of the same terms weighted by
    w1 = numtot / (2 * numpos) and w0 = numtot / (2 * (numtot - numpos)).
    Columns beyond the second are never read. *)
Theorem bceloss_closed_form (xf label : tensor) (n c : nat) (numpos numtot : Z) :
  shape xf = [n; c] -> shape label = [n] ->
  (c < 2 -> EEGformer.bceloss xf label = Err IndexError)
  /\ (2 <= c ->
      (forall i, i < n ->
         (0 < data xf [i; 0]%nat)%R /\ (0 < data xf [i; 1]%nat)%R) ->
      (exists l,
         EEGformer.bceloss xf label = Ok l /\ shape l = [] /\
         data l []
         = (rsum n (fun i => - (data label [i] * ln (data xf [i; 1]%nat)
                                + (1 - data label [i]) * ln (data xf [i; 0]%nat)))
            / INR n)%R)
      /\ ((0 < numpos < numtot)%Z ->
          exists l,
            EEGformer.bceloss_w xf label numpos numtot = Ok l /\ shape l = [] /\
            data l []
            = (rsum n (fun i =>
                         - (IZR numtot / IZR (2 * numpos) * data label [i]
                            * ln (data xf [i; 1]%nat)
                            + IZR numtot / IZR (2 * (numtot - numpos))
                              * (1 - data label [i]) * ln (data xf [i; 0]%nat)))
               / INR n)%R)).
Proof.
  intros Hs Hl. split.
  - intros Hc. unfold EEGformer.bceloss, getitem. rewrite Hs. cbn [slice_shape].
    replace (1 <? c) with false by (symmetry; apply Nat.ltb_ge; lia).
    reflexivity.
  - intros Hc _.
    destruct (column_ok xf n c 1 Hs) as (x1 & Hx1 & Hx1s & Hx1d); [lia|].
    destruct (column_ok xf n c 0 Hs) as (x0 & Hx0 & Hx0s & Hx0d); [lia|].
    split.
    + unfold EEGformer.bceloss. rewrite Hx1. cbn [rbind]. rewrite Hx0. cbn [rbind].
      destruct (bce_core label (map_t (fun v => (1 - v)%R) label) x1 x0 n)
        as (l & Hl1 & Hl2 & Hl3); try assumption.
      exists l. split; [exact Hl1|]. split; [exact Hl2|].
      rewrite Hl3. f_equal. apply rsum_ext. intros i _.
      cbn [map_t data]. rewrite Hx1d, Hx0d. reflexivity.
    + intros Hp. unfold EEGformer.bceloss_w. rewrite bceloss_w_weights_eval.
      destruct (Z.eqb_spec numpos numtot) as [Heq|_]; [lia|].
      destruct (Z.eqb_spec numpos 0) as [Heq|_]; [lia|].
      cbn [orb rbind]. rewrite Hx1. cbn [rbind]. rewrite Hx0. cbn [rbind].
      destruct (bce_core
                  (map_t (fun v => (IZR numtot / IZR (2 * numpos) * v)%R) label)
                  (map_t (fun v => (IZR numtot / IZR (2 * (numtot - numpos))
                                    * (1 - v))%R) label) x1 x0 n)
        as (l & Hl1 & Hl2 & Hl3); try assumption.
      exists l. split; [exact Hl1|]. split; [exact Hl2|].
      rewrite Hl3. f_equal. apply rsum_ext. intros i _.
      cbn [map_t data]. rewrite Hx1d, Hx0d. reflexivity.
Qed.

Lemma bceloss_closed_form_witness :
  EEGformer.bceloss (zeros [3; 1]) (zeros [3]) = Err IndexError
  /\ (exists l, EEGformer.bceloss (mkT [2; 3] (fun _ => 1%R)) (zeros [2]) = Ok l
                /\ data l [] = 0%R)
  /\ (exists l, EEGformer.bceloss_w (mkT [2; 3] (fun _ => 1%R)) (zeros [2]) 1 3 = Ok l
                /\ data l [] = 0%R).
Proof.
  split; [|split].
  - apply (bceloss_closed_form (zeros [3; 1]) (zeros [3]) 3 1 1 2 eq_refl eq_refl). lia.
  - destruct (bceloss_closed_form (mkT [2; 3] (fun _ => 1%R)) (zeros [2]) 2 3 1 3
                eq_refl eq_refl) as [_ H].
    destruct (H ltac:(lia)) as [(l & Hl & _ & Hd) _];
      [intros i _; cbn [data]; split; lra|].
    exists l. split; [exact Hl|]. rewrite Hd. cbn [data zeros rsum INR].
    rewrite ln_1. lra.
  - destruct (bceloss_closed_form (mkT [2; 3] (fun _ => 1%R)) (zeros [2]) 2 3 1 3
                eq_refl eq_refl) as [_ H].
    destruct (H ltac:(lia)) as [_ Hw]; [intros i _; cbn [data]; split; lra|].
    destruct (Hw ltac:(lia)) as (l & Hl & _ & Hd).
    exists l. split; [exact Hl|]. rewrite Hd. cbn [data zeros rsum INR].
    rewrite ln_1. lra.
Defined.

(** ** The linear maps of a block *)

Lemma einsum_xhdm_ijm_xijhd_value (w z : tensor) (X H Dh D I J : nat) :
  shape w = [X; H; Dh; D] -> shape z = [I; J; D] ->
  exists t, einsum "xhdm,ijm -> xijhd" w z = Ok t /\ shape t = [X; I; J; H; Dh] /\
    forall x i j h d, x < X -> i < I -> j < J -> h < H -> d < Dh ->
      data t [x; i; j; h; d]
      = rsum D (fun m => (data w [x; h; d; m] * data z [i; j; m])%R).
Proof.
  intros Hw Hz. unfold einsum. cbn. rewrite Hw, Hz. cbn.
  rewrite !Nat.eqb_refl. cbn.
  eexists; split; [reflexivity|]. split; [reflexivity|].
  intros x i j h d Hx Hi Hj Hh Hd. cbn.
  apply rsum_ext. intros m Hm.
  rewrite !bidx_lt by assumption. reflexivity.
Qed.

Lemma einsum_xhdm_im_xihd_value (w z : tensor) (X H Dh D J : nat) :
  shape w = [X; H; Dh; D] -> shape z = [J; D] ->
  exists t, einsum "xhdm,im -> xihd" w z = Ok t /\ shape t = [X; J; H; Dh] /\
    forall x j h d, x < X -> j < J -> h < H -> d < Dh ->
      data t [x; j; h; d]
      = rsum D (fun m => (data w [x; h; d; m] * data z [j; m])%R).
Proof.
  intros Hw Hz. unfold einsum. cbn. rewrite Hw, Hz. cbn.
  rewrite !Nat.eqb_refl. cbn.
  eexists; split; [reflexivity|]. split; [reflexivity|].
  intros x j h d Hx Hj Hh Hd. cbn.
  apply rsum_ext. intros m Hm.
  rewrite !bidx_lt by assumption. reflexivity.
Qed.

Lemma einsum_nm_ijm_ijn_value (w r : tensor) (N D I J : nat) :
  shape w = [N; D] -> shape r = [I; J; D] ->
  exists t, einsum "nm,ijm -> ijn" w r = Ok t /\ shape t = [I; J; N] /\
    forall i j n, i < I -> j < J -> n < N ->
      data t [i; j; n] = rsum D (fun m => (data w [n; m] * data r [i; j; m])%R).
Proof.
  intros Hw Hr. unfold einsum. cbn. rewrite Hw, Hr. cbn.
  rewrite !Nat.eqb_refl. cbn.
  eexists; split; [reflexivity|]. split; [reflexivity|].
  intros i j n Hi Hj Hn. cbn.
  apply rsum_ext. intros m Hm.
  rewrite !bidx_lt by assumption. reflexivity.
Qed.

Lemma einsum_nm_im_in_value (w r : tensor) (N D J : nat) :
  shape w = [N; D] -> shape r = [J; D] ->
  exists t, einsum "nm,im -> in" w r = Ok t /\ shape t = [J; N] /\
    forall j n, j < J -> n < N ->
      data t [j; n] = rsum D (fun m => (data w [n; m] * data r [j; m])%R).
Proof.
  intros Hw Hr. unfold einsum. cbn. rewrite Hw, Hr. cbn.
  rewrite !Nat.eqb_refl. cbn.
  eexists; split; [reflexivity|]. split; [reflexivity|].
  intros j n Hj Hn. cbn.
  apply rsum_ext. intros m Hm.
  rewrite !bidx_lt by assumption. reflexivity.
Qed.

(** X23. Queries, keys and values.  In block a the query (x = 0), key
    (x = 1) and value (x = 2) vector of head h at a sequence position is the
    product of the block's weight Wqkv[a, x, h] with the layer-normalised
    token of that same position; the entries of the other blocks are left
    as they were.  [Block3.qkv_step] is the line of RTM and STM,
    [TTM.qkv_step] the line of TTM. *)
Theorem qkv_is_projection_of_normalised_token (K I J H Dh D a : nat)
    (Wqkv : tensor) (lnorm : LayerNorm) (save3 qkv3 save2 qkv2 : tensor) :
  a < K -> shape Wqkv = [K; 3; H; Dh; D] -> LayerNorm_shaped D lnorm ->
  shape save3 = [I; J; D] -> shape qkv3 = [K; 3; I; J; H; Dh] ->
  shape save2 = [J; D] -> shape qkv2 = [K; 3; J; H; Dh] ->
  (exists z q,
     LayerNorm_forward lnorm save3 = Ok z /\
     Block3.qkv_step Wqkv lnorm a save3 qkv3 = Ok q /\ shape q = shape qkv3 /\
     forall a' x i j h d, x < 3 -> i < I -> j < J -> h < H -> d < Dh ->
       data q [a'; x; i; j; h; d] =
       if a' =? a
       then rsum D (fun m => (data Wqkv [a; x; h; d; m] * data z [i; j; m])%R)
       else data qkv3 [a'; x; i; j; h; d])
  /\
  (exists z q,
     LayerNorm_forward lnorm save2 = Ok z /\
     TTM.qkv_step Wqkv lnorm a save2 qkv2 = Ok q /\ shape q = shape qkv2 /\
     forall a' x j h d, x < 3 -> j < J -> h < H -> d < Dh ->
       data q [a'; x; j; h; d] =
       if a' =? a
       then rsum D (fun m => (data Wqkv [a; x; h; d; m] * data z [j; m])%R)
       else data qkv2 [a'; x; j; h; d]).
Proof.
  intros Ha HW Hln Hs3 Hq3 Hs2 Hq2.
  destruct (getitem_ok Wqkv [At a] [3; H; Dh; D]) as (Wa & HWa & HWas & HWad).
  { rewrite HW. cbn [slice_shape]. ltb_true. reflexivity. }
  split.
  - destruct (LayerNorm_forward_ok lnorm save3 [I; J] D Hln Hs3) as (z & Hz & Hzs).
    rewrite Hs3 in Hzs.
    destruct (einsum_xhdm_ijm_xijhd_value Wa z 3 H Dh D I J HWas Hzs)
      as (qkv & Hqkv & Hqkvs & Hqkvd).
    destruct (setitem_ok qkv3 qkv [At a]) as (q & Hq & Hqs & Hqd).
    { rewrite Hq3, Hqkvs. cbn [slice_shape]. ltb_true. reflexivity. }
    exists z, q. split; [exact Hz|]. split.
    { unfold Block3.qkv_step. rewrite HWa. cbn [rbind]. rewrite Hz. cbn [rbind].
      rewrite Hqkv. cbn [rbind]. exact Hq. }
    split; [exact Hqs|].
    intros a' x i j h d Hx Hi Hj Hh Hd. rewrite Hqd. cbn [sub_index].
    destruct (Nat.eqb_spec a' a); [|reflexivity].
    rewrite bget_in_bounds by (rewrite Hqkvs; cbn [in_bounds]; ltb_true; reflexivity).
    rewrite Hqkvd by assumption. apply rsum_ext. intros m _.
    rewrite HWad. reflexivity.
  - destruct (LayerNorm_forward_ok lnorm save2 [J] D Hln Hs2) as (z & Hz & Hzs).
    rewrite Hs2 in Hzs.
    destruct (einsum_xhdm_im_xihd_value Wa z 3 H Dh D J HWas Hzs)
      as (qkv & Hqkv & Hqkvs & Hqkvd).
    destruct (setitem_ok qkv2 qkv [At a]) as (q & Hq & Hqs & Hqd).
    { rewrite Hq2, Hqkvs. cbn [slice_shape]. ltb_true. reflexivity. }
    exists z, q. split; [exact Hz|]. split.
    { unfold TTM.qkv_step. rewrite HWa. cbn [rbind]. rewrite Hz. cbn [rbind].
      rewrite Hqkv. cbn [rbind]. exact Hq. }
    split; [exact Hqs|].
    intros a' x j h d Hx Hj Hh Hd. rewrite Hqd. cbn [sub_index].
    destruct (Nat.eqb_spec a' a); [|reflexivity].
    rewrite bget_in_bounds by (rewrite Hqkvs; cbn [in_bounds]; ltb_true; reflexivity).
    rewrite Hqkvd by assumption. apply rsum_ext. intros m _.
    rewrite HWad. reflexivity.
Qed.

Lemma qkv_is_projection_of_normalised_token_witness :
  exists z q,
    LayerNorm_forward (LayerNorm_new 2) (zeros [1; 2; 2]) = Ok z /\
    Block3.qkv_step (mkT [1; 3; 1; 2; 2] (fun _ => 1%R)) (LayerNorm_new 2) 0
      (zeros [1; 2; 2]) (zeros [1; 3; 1; 2; 1; 2]) = Ok q /\
    data q [0; 2; 0; 1; 0; 1]
    = (0 + 1 * data z [0; 1; 0]%nat + 1 * data z [0; 1; 1]%nat)%R.
Proof.
  destruct (qkv_is_projection_of_normalised_token 1 1 2 1 2 2 0
              (mkT [1; 3; 1; 2; 2] (fun _ => 1%R)) (LayerNorm_new 2)
              (zeros [1; 2; 2]) (zeros [1; 3; 1; 2; 1; 2])
              (zeros [2; 2]) (zeros [1; 3; 2; 1; 2]))
    as [(z & q & Hz & Hq & _ & Hd) _]; try reflexivity; [lia | repeat split |].
  exists z, q. split; [exact Hz|]. split; [exact Hq|].
  rewrite Hd by lia. reflexivity.
Defined.

Lemma merged_heads_index (H Dh m : nat) :
  m < H * Dh ->
  m / Dh < H /\ m mod Dh < Dh /\ m = m / Dh * Dh + m mod Dh.
Proof.
  intros Hm. assert (HDh : Dh <> 0) by (intros ->; lia).
  split; [apply Nat.Div0.div_lt_upper_bound; lia|].
  split; [apply Nat.mod_upper_bound; exact HDh|].
  rewrite Nat.mul_comm. apply Nat.div_mod_eq.
Qed.

(** X24. The output projection.  When the heads' vectors fill the feature
    size (hA * Dh = D), the reshape before the projection puts the vectors
    of the hA heads of a position one after the other, feature m being
    coordinate m mod Dh of head m / Dh; the new token is the product of
    Wo[a] with that concatenation plus the old token (a residual
    connection).  [Block3.project_step] is the line of RTM and STM,
    [TTM.project_step] the line of TTM. *)
Theorem output_projection_concatenates_heads (K I J H Dh a : nat)
    (Wo imv3 save3 imv2 save2 : tensor) :
  a < K -> shape Wo = [K; H * Dh; H * Dh] ->
  shape imv3 = [K; I; J; H; Dh] -> shape save3 = [I; J; H * Dh] ->
  shape imv2 = [K; J; H; Dh] -> shape save2 = [J; H * Dh] ->
  (exists s,
     Block3.project_step Wo a [K; I; J; H * Dh] imv3 save3 = Ok s /\
     shape s = shape save3 /\
     forall i j n, i < I -> j < J -> n < H * Dh ->
       data s [i; j; n] =
       (rsum (H * Dh)
          (fun m => (data Wo [a; n; m]
                     * data imv3 [a; i; j; (m / Dh)%nat; (m mod Dh)%nat])%R)
        + data save3 [i; j; n])%R)
  /\
  (exists s,
     TTM.project_step Wo a [K; J; H * Dh] imv2 save2 = Ok s /\
     shape s = shape save2 /\
     forall j n, j < J -> n < H * Dh ->
       data s [j; n] =
       (rsum (H * Dh)
          (fun m => (data Wo [a; n; m]
                     * data imv2 [a; j; (m / Dh)%nat; (m mod Dh)%nat])%R)
        + data save2 [j; n])%R).
Proof.
  intros Ha HW Hi3 Hs3 Hi2 Hs2.
  destruct (getitem_ok Wo [At a] [H * Dh; H * Dh]) as (Wa & HWa & HWas & HWad).
  { rewrite HW. cbn [slice_shape]. ltb_true. reflexivity. }
  split.
  - unfold Block3.project_step. rewrite HWa. cbn [rbind].
    unfold reshape. rewrite Hi3.
    replace (numel [K; I; J; H; Dh] =? numel [K; I; J; H * Dh]) with true
      by (symmetry; apply Nat.eqb_eq; cbn [numel fold_right]; lia).
    cbn [rbind].
    match goal with |- context [getitem ?r [At a]] =>
      destruct (getitem_ok r [At a] [I; J; H * Dh]) as (ra & Hra & Hras & Hrad) end.
    { cbn [shape slice_shape]. ltb_true. reflexivity. }
    rewrite Hra. cbn [rbind].
    destruct (einsum_nm_ijm_ijn_value Wa ra (H * Dh) (H * Dh) I J HWas Hras)
      as (o & Ho & Hos & Hod).
    rewrite Ho. cbn [rbind].
    destruct (map2_t_same Rplus o save3) as (s & Hsum & Hss & Hsd); [congruence|].
    unfold tadd. exists s. split; [exact Hsum|]. split; [congruence|].
    intros i j n Hi Hj Hn.
    rewrite Hsd by (rewrite Hos; cbn [in_bounds]; ltb_true; reflexivity).
    rewrite Hod by assumption. f_equal. apply rsum_ext. intros m Hm.
    rewrite HWad, Hrad. cbn [full_index data]. f_equal.
    destruct (merged_heads_index H Dh m Hm) as (Hq & Hr & Hmq).
    replace (ravel [K; I; J; H * Dh] [a; i; j; m])
      with (ravel [K; I; J; H; Dh] [a; i; j; m / Dh; m mod Dh]).
    2:{ cbn [ravel]. unfold numel. cbn [fold_right].
        set (q := m / Dh) in *. set (r := m mod Dh) in *. clearbody q r.
        rewrite Hmq. ring. }
    rewrite unravel_ravel by (cbn [in_bounds]; ltb_true; reflexivity).
    reflexivity.
  - unfold TTM.project_step. rewrite HWa. cbn [rbind].
    unfold reshape. rewrite Hi2.
    replace (numel [K; J; H; Dh] =? numel [K; J; H * Dh]) with true
      by (symmetry; apply Nat.eqb_eq; cbn [numel fold_right]; lia).
    cbn [rbind].
    match goal with |- context [getitem ?r [At a]] =>
      destruct (getitem_ok r [At a] [J; H * Dh]) as (ra & Hra & Hras & Hrad) end.
    { cbn [shape slice_shape]. ltb_true. reflexivity. }
    rewrite Hra. cbn [rbind].
    destruct (einsum_nm_im_in_value Wa ra (H * Dh) (H * Dh) J HWas Hras)
      as (o & Ho & Hos & Hod).
    rewrite Ho. cbn [rbind].
    destruct (map2_t_same Rplus o save2) as (s & Hsum & Hss & Hsd); [congruence|].
    unfold tadd. exists s. split; [exact Hsum|]. split; [congruence|].
    intros j n Hj Hn.
    rewrite Hsd by (rewrite Hos; cbn [in_bounds]; ltb_true; reflexivity).
    rewrite Hod by assumption. f_equal. apply rsum_ext. intros m Hm.
    rewrite HWad, Hrad. cbn [full_index data]. f_equal.
    destruct (merged_heads_index H Dh m Hm) as (Hq & Hr & Hmq).
    replace (ravel [K; J; H * Dh] [a; j; m])
      with (ravel [K; J; H; Dh] [a; j; m / Dh; m mod Dh]).
    2:{ cbn [ravel]. unfold numel. cbn [fold_right].
        set (q := m / Dh) in *. set (r := m mod Dh) in *. clearbody q r.
        rewrite Hmq. ring. }
    rewrite unravel_ravel by (cbn [in_bounds]; ltb_true; reflexivity).
    reflexivity.
Qed.

Lemma output_projection_concatenates_heads_witness :
  exists s,
    Block3.project_step (mkT [1; 2; 2] (fun _ => 1%R)) 0 [1; 1; 1; 2 * 1]
      (mkT [1; 1; 1; 2; 1] (fun idx => INR (nth 3 idx 0 + 1))) (zeros [1; 1; 2 * 1]) = Ok s
    /\ data s [0; 0; 1] = 3%R.
Proof.
  destruct (output_projection_concatenates_heads 1 1 1 2 1 0
              (mkT [1; 2; 2] (fun _ => 1%R))
              (mkT [1; 1; 1; 2; 1] (fun idx => INR (nth 3 idx 0 + 1)))
              (zeros [1; 1; 2 * 1]) (zeros [1; 1; 2; 1]) (zeros [1; 2 * 1]))
    as [(s & Hs & _ & Hd) _]; try reflexivity; [lia|].
  exists s. split; [exact Hs|].
  rewrite Hd by lia. cbn. ring.
Defined.

(** ** The token sequence the blocks start from *)

Lemma einsum_lm_jmi_ijl_value (w x : tensor) (D D0 n outer : nat) :
  shape w = [D; D0] -> shape x = [n; D0; outer] ->
  exists t, einsum "lm,jmi -> ijl" w x = Ok t /\ shape t = [outer; n; D] /\
    forall i j l, i < outer -> j < n -> l < D ->
      data t [i; j; l] = rsum D0 (fun m => (data w [l; m] * data x [j; m; i])%R).
Proof.
  intros Hw Hx. unfold einsum. cbn. rewrite Hw, Hx. cbn.
  rewrite !Nat.eqb_refl. cbn.
  eexists; split; [reflexivity|]. split; [reflexivity|].
  intros i j l Hi Hj Hl. cbn.
  apply rsum_ext. intros m Hm.
  rewrite !bidx_lt by assumption. reflexivity.
Qed.

Lemma cat_dim1_3d_value (a b : tensor) (o p q d : nat) :
  shape a = [o; p; d] -> shape b = [o; q; d] ->
  exists t, cat a b 1 = Ok t /\ shape t = [o; p + q; d] /\
    forall i j l,
      data t [i; j; l] = if j <? p then data a [i; j; l] else data b [i; j - p; l].
Proof.
  intros Ha Hb. unfold cat. rewrite Ha, Hb. cbn [length set_nth nth].
  rewrite Nat.eqb_refl. cbn [andb]. rewrite list_eqb_refl.
  replace (1 <? 3) with true by reflexivity. cbn [andb].
  eexists. split; [reflexivity|]. split; [reflexivity|].
  intros i j l. reflexivity.
Qed.

Section TokenSequence.
Context {SF : SpecialFunctions}.

(** X25. The tokens handed to the first block of RTM and STM.  With x the
    transposed input [n, D, outer], the sequence has n + 1 positions per
    outer index: position 0 is the aggregate token cls plus its positional
    parameter, and position j + 1 is the linear map weight applied to the
    features of input position j, plus the positional parameter of that
    place.  The blocks then run on this sequence and zero-filled
    buffers. *)
Theorem token_sequence_of_the_blocks (outer n D tK hA Dh nb : nat)
    (weight bias cls Wqkv Wo : tensor) (lnorm lnormz : LayerNorm) (mlp : Mlp.t)
    (x : tensor) :
  shape weight = [D; D] -> shape bias = [outer; n + 1; D] ->
  shape cls = [outer; 1; D] -> shape x = [n; D; outer] ->
  exists s,
    shape s = [outer; n + 1; D]
    /\ (forall i l, i < outer -> l < D ->
          data s [i; 0; l] = (data cls [i; 0; l]%nat + data bias [i; 0; l]%nat)%R)
    /\ (forall i j l, i < outer -> j < n -> l < D ->
          data s [i; j + 1; l]
          = (rsum D (fun m => (data weight [l; m] * data x [j; m; i])%R)
             + data bias [i; (j + 1)%nat; l])%R)
    /\ forall w,
         Block3.run weight bias cls Wqkv Wo lnorm lnormz mlp tK hA Dh D nb x w
         = bind (for_range 0 tK (Block3.block Wqkv Wo lnorm lnormz mlp tK Dh D nb (shape x))
                   (s, zeros [tK; 3; outer; n + 1; hA; Dh],
                    zeros [tK; outer; n + 1; hA], zeros [tK; outer; n + 1; hA; Dh]))
             (fun st => let '(savespace, _, _, _) := st in ret savespace) w.
Proof.
  intros Hw Hb Hc Hx.
  destruct (einsum_lm_jmi_ijl_value weight x D D n outer Hw Hx)
    as (s0 & Hs0 & Hs0s & Hs0d).
  destruct (cat_dim1_3d_value cls s0 outer 1 n D Hc Hs0s) as (s1 & Hs1 & Hs1s & Hs1d).
  replace (1 + n) with (n + 1) in Hs1s by lia.
  destruct (map2_t_same Rplus s1 bias) as (s & Hs & Hss & Hsd); [congruence|].
  exists s. split; [congruence|]. split; [|split].
  - intros i l Hi Hl.
    rewrite Hsd by (rewrite Hs1s; cbn [in_bounds]; ltb_true; reflexivity).
    rewrite Hs1d. reflexivity.
  - intros i j l Hi Hj Hl.
    rewrite Hsd by (rewrite Hs1s; cbn [in_bounds]; ltb_true; reflexivity).
    rewrite Hs1d.
    replace (j + 1 <? 1) with false by (symmetry; apply Nat.ltb_ge; lia).
    replace (j + 1 - 1) with j by lia.
    rewrite Hs0d by assumption. reflexivity.
  - intros w. unfold Block3.run. cbv zeta.
    rewrite (bind_lift_ok _ _ _ _ Hs0). rewrite (bind_lift_ok _ _ _ _ Hs1).
    unfold tadd. rewrite (bind_lift_ok _ _ _ _ Hs).
    rewrite Hx. cbn [nth]. reflexivity.
Qed.

End TokenSequence.

Lemma token_sequence_of_the_blocks_witness :
  exists s,
    shape s = [1; 3; 2]
    /\ data s [0; 0; 1] = (2 + 5)%R
    /\ forall w,
         Block3.run (SF := stand_in) (zeros [2; 2]) (mkT [1; 3; 2] (fun _ => 5%R))
           (mkT [1; 1; 2] (fun _ => 2%R)) (zeros [0; 3; 1; 2; 2]) (zeros [0; 2; 2])
           (LayerNorm_new 2) (LayerNorm_new 2)
           (Mlp.mk (mkLinear 2 2 (zeros [2; 2]) (zeros [2]))
              (mkLinear 2 2 (zeros [2; 2]) (zeros [2])) (mkDropout 0 true))
           0 1 2 2 2 (zeros [2; 2; 1]) w
         = (Ok s, w).
Proof.
  destruct (token_sequence_of_the_blocks (SF := stand_in) 1 2 2 0 1 2 2
              (zeros [2; 2]) (mkT [1; 3; 2] (fun _ => 5%R))
              (mkT [1; 1; 2] (fun _ => 2%R)) (zeros [0; 3; 1; 2; 2]) (zeros [0; 2; 2])
              (LayerNorm_new 2) (LayerNorm_new 2)
              (Mlp.mk (mkLinear 2 2 (zeros [2; 2]) (zeros [2]))
                 (mkLinear 2 2 (zeros [2; 2]) (zeros [2])) (mkDropout 0 true))
              (zeros [2; 2; 1]) eq_refl eq_refl eq_refl eq_refl)
    as (s & Hss & Hs0 & _ & Hrun).
  exists s. split; [exact Hss|]. split.
  - rewrite Hs0 by lia. reflexivity.
  - intros w. rewrite Hrun. reflexivity.
Defined.
